(* ===== verification/_CoqProject ===== *)
-Q . S2P
Prelude.v
Json.v
Canonical.v
Identity.v
ThirdPartyModel.v
Profile.v
Records.v
RecordIdentity.v
Materialization.v
IdentityBytes.v
RunDocuments.v
Store.v
Attempts.v
Fresh.v
RunStore.v
Publisher.v
Recovery.v
Coordination.v
Statements.v
History.v
Claims.v
Scenario.v
Lifecycle.v
Ownership.v
Guards.v
Finalization.v
Exclusion.v
Takeover.v
StreamScenario.v
Checkpoints.v
Evidence.v
FreshBudget.v
SlotSpec.v
Manifest.v
Bindings.v
Parameters.v
Compatibility.v
Contracts.v
Authoring.v
SampleManifest.v
JsonEquality.v
ManifestHash.v
Expansion.v
Scheduling.v
Planning.v
Plans.v
Framing.v
Redaction.v
Wire.v
Messages.v
Handshake.v
Session.v
Streaming.v
Sessions.v
Lockstep.v
Buffered.v
BufferValidation.v
Trajectory.v
Archive.v
ArchiveValidation.v
Reader.v
Archival.v
ArchiveRows.v
StoreArchive.v
Selection.v
Batches.v
WorkerReuse.v
Inspection.v
Export.v
