(* ===== verification/Prelude.v ===== *)
(** * Metewand: a verification development

    Metewand runs benchmark experiments: it expands a manifest into a plan of
    slots, runs worker processes for them, and records attempts, observations
    and artifacts in a coordination database from which interrupted runs
    recover.  This library models the logic of that program file by file and
    proves what makes it correct.  Names of Rust items are kept; each file names
    the source it translates.

    ** How the parts interact

    A manifest (core/manifest.rs) is decoded, completed with defaults and
    validated across definitions (core/compatibility.rs); its parameter axes are
    expanded into candidates (core/planning.rs, core/parameters.rs); every
    candidate, specification and slot gets a typed identity, the SHA-256 of a
    canonical JSON document (core/identity.rs, core/canonical.rs), and a seed
    and priority (core/seed.rs, core/scheduling.rs).  The identities a user
    names select slots of the plan (runtime/run/selection.rs), and the schedule
    is cut into batches.  A run registers the slots in the run store
    (runtime/run_store.rs and its modules), reserves attempts
    on them, talks to workers over a line protocol (protocol/framing.rs),
    publishes what they produced and commits a terminal outcome; a recovery pass
    takes over what a crash left behind.  Afterwards the store is read
    (runtime/run_store/reader.rs), archived and the archive validated
    (core/archive.rs), its identities explained (runtime/inspection.rs) and its
    results exported as tables (runtime/export.rs).

    ** Files

    Shared ground.  [Prelude]: fallible code ([result], [for_each],
    [try_fold]), tactics, machine integers.  [Json]: [serde_json::Value] and
    ordered maps.  [ThirdPartyModel]: a concrete serializer and digest that
    satisfy the assumptions, used by the witnesses.

    Values and identities.  [Canonical]: core/canonical.rs, the programmatic
    and the parsing entry of restricted JSON.  [Identity]: typed identities,
    their spelling and hashing.  [Profile]: durations, check schedules, control
    schedules, completion policies (core/duration.rs, core/profile.rs).
    [Records], [RecordIdentity], [IdentityBytes]: core/records.rs with the identity
    document of every record and its injectivity.  [Materialization]: the derivation records
    of core/materialization.rs.  [RunDocuments]: core/run_documents.rs.

    The run store.  [Store]: the tables of v3.sql with keys, checks, foreign
    keys and triggers, one definition per statement.  [Attempts], [RunStore]:
    attempts.rs (fence, transition; reserve, advance, renew,
    begin_finalization, commit_finalization).  [Fresh]: fresh.rs.
    [Publisher]: publisher.rs.  [Recovery]: recovery.rs.  [Coordination]:
    coordination.rs.  Each operation is one immediate transaction: a function
    of the database to a result and the committed database.

    Results.  [Archive], [ArchiveValidation]: core/archive.rs and its validation.
    [Reader], [Archival]: the queries of the store reader and the evidence rows
    of runtime/evidence.rs.  [Inspection]: core/inspection.rs and the graph of
    runtime/inspection.rs.  [Export]: core/export.rs with the selection, lineage
    and CSV table of runtime/export.rs.

    Planning.  [Manifest], [Authoring]: the decoded manifest, the schema
    catalog, the defaults filled in while decoding.  [Bindings]: delivery
    bindings of profiles.  [Parameters], [Compatibility]: core/parameters.rs,
    core/compatibility.rs.  [Contracts]: the problem contracts of
    core/problem_contract.rs.  [JsonEquality], [ManifestHash]: the canonical
    document of a manifest and its hash (core/manifest_hash.rs).  [Expansion]: the first half of core/planning.rs, up
    to expanded candidates.  [Planning]: the second half, with core/controls.rs.
    [Scheduling]: core/seed.rs and core/scheduling.rs.  [Selection], [Batches]:
    the slots that identities select and the batches of a schedule.

    Workers.  [Framing]: protocol/framing.rs.  [Wire]: how serde's derived
    implementations write and read a struct.  [Messages]: the message types of
    protocol/messages.rs with their encoding and decoding.  [Handshake]: the
    request tracker, the terminal responses and the hello exchange.
    [Redaction]: runtime/redaction.rs and the bounded log capture.  [Session]:
    runtime/worker_session.rs, the orchestrator's end of a worker.
    [Streaming]: both ends of a streaming execution.  [Buffered],
    [BufferValidation]: the trajectory a worker collects and writes in a buffered
    profile, and its validation by the executor (runtime/buffered.rs).
    [WorkerReuse]: runtime/worker_reuse.rs.

    Concrete inputs.  [Scenario], [StreamScenario], [SampleManifest].

    ** State

    The store is the record [Store.db], one field per table; [Statements]
    breaks every operation into statements ([stmt]) and defines [reachable]: the
    databases that operations of any number of owners and recovery passes, at
    any times and in any order, lead to.  A property of all reachable stores is
    proved by showing that each statement preserves an invariant.  The clock is
    an argument of each operation, so late and skewed clocks are included.

    Code that indexes a map or unwraps an option returns [Panicked] where it
    would panic ([Manifest.failure]); arithmetic of [u64] and [usize] is on [Z]
    with its checks written out.

    ** What the theorems show

    Refinement.  [SlotSpec]: the operations of the store, labelled with what they
    do to a slot (a retry handed out, a claim taken, an attempt that wins or
    loses), run on an abstract slot object that numbers retries, grants one claim
    at a time, lets only its holder win and decides once; the object ends as the
    store says.

    Lifecycle.  [Lifecycle], [Ownership], [Guards], [Finalization],
    [Exclusion], [Takeover]: at most one accepted attempt per slot, fencing of
    superseded guards, complete histories, immutable terminal rows, exclusive
    claims, contiguous retries; what reserve, advance, renew,
    begin_finalization and commit do on success; recovery and a live owner
    exclude each other; a recovery pass takes over an abandoned attempt unless a
    publisher still holds the kernel lock of one of its stages.
    [History] and [Claims] hold the invariants behind them.

    Evidence.  [Evidence], [Checkpoints], [FreshBudget]: trajectories with one
    producer, checkpoints numbered without gaps, budgets of fresh sequences
    never overdrawn and their executions never overlapping.  [ArchiveRows],
    [StoreArchive]: what a reachable store says about its attempts passes the
    validation of the archive.

    Results.  [Inspection]: explaining never panics and relations are mutual.
    [Export]: the metrics of a record are the leaves of its metric document under
    distinct pointers, and an exported table reads back cell by cell.

    Planning.  [Plans]: a parsed manifest is planned without panics, and the
    slots of a specification have the documented layout.  [Expansion]: the
    candidates are exactly the resolved matrix, without duplicates, and axes
    expand to their Cartesian product.  [Scheduling]: the dispatch order
    depends only on the slots themselves, and keeps comparison blocks together.
    [Selection]: a selection keeps whole capture units and nothing else.
    [Batches]: batches tile the schedule and hold at most one point of a fresh
    repetition.  [ManifestHash]: manifests with the same canonical bytes agree in
    everything that can influence a run.

    Identities and values.  Separation of hash domains; [IdentityBytes]: the hash
    input of a record, of any of the twenty-eight types, determines its type and
    everything its identity covers; agreement of the two JSON entries,
    exactness of the number domain, schedules and thresholds of profiles,
    totality of the calendar computation.

    Workers.  [Framing], [Messages]: what the line reader returns does not depend
    on how the stream was cut into reads, a message that has a canonical form
    survives the pipe, and no message is read as one of another kind.
    [Sessions]: a session has at most one request in flight and never panics,
    an error leaves it usable exactly when it is one of the named refusals and
    reports, and the checkpoints of a stream are numbered.  [Lockstep]: the
    worker's streaming context and the session never contradict each other: a
    stream ends with the terminal response, a failed capture, a disturbed
    exchange, or a frame that redaction altered.
    [Trajectory]: what a worker collects in a buffered profile is what the
    executor accepts.  [WorkerReuse]: a measured slot runs on a process that was
    launched or reset, and warmed up, for it.  [Redaction]: logs and snapshots show exactly the redacted stream, and
    redacting text never fails.

    ** Bounds and fuel

    Loops that are not structural carry fuel that is never exhausted: the
    calendar loops of [RunDocuments] (a proved property), and the 64 rounds of
    [Catalog.resolve], which is the code's own bound.  [Batches.rebuild_batches]
    has the length of the schedule as fuel: every batch takes at least one slot.
    [read_line] recurses on
    the chunks of the stream.

    ** Assumptions

    [Identity.ThirdParty] has SHA-256 and the RFC 8785 serializer as operations;
    [ThirdPartyLaws] states the digest's length and that the serializer succeeds
    on and separates canonical values.  The JSON grammar (a stream of [raw]
    values), the JSON pointer lookup and the compiled validators of jsonschema
    are arguments of the definitions that use them, as are the listing and
    hashing of a trajectory directory and what a recovery pass finds at a staging
    path.  Decoding errors of messages
    carry no diagnostic of serde_json.

    ** Not modelled

    File-system and process code: the directory side of publication and
    recovery (staging, hashing, rename, quarantine), durable files, copying the
    database files, the payload files of archives, where the records of an export
    or an inspection come from, the processes and pipes under a worker session and
    its shutdown, resource sampling; they need an operating-system model rather
    than a translation.
    YAML decoding, source spans and schema compilation, which belong to the
    parsers they wrap; lockfiles, environment resolution, the analysis snapshot;
    the drivers that call these parts in a run; the command line, rendering and
    scaffolding. *)
From stdpp Require Export base list strings gmap sorting.
From Stdlib Require Export ZArith Lia.

(** ** Fallible code

    Rust's [Result<A, E>] is [result E A]; the [?] operator is the bind of
    this monad and [map_err] is [map_err]. *)
Inductive result (E A : Type) : Type :=
  | Ok (a : A)
  | Err (e : E).
Arguments Ok {E A} a.
Arguments Err {E A} e.

#[export] Instance result_ret E : MRet (result E) := fun _ a => Ok a.
#[export] Instance result_bind E : MBind (result E) := fun _ _ k m =>
  match m with
  | Ok a => k a
  | Err e => Err e
  end.
#[export] Instance result_fmap E : FMap (result E) := fun _ _ f m =>
  match m with
  | Ok a => Ok (f a)
  | Err e => Err e
  end.

#[export] Instance result_eq_dec E A
  `{EqDecision E, EqDecision A} : EqDecision (result E A).
Proof. solve_decision. Defined.

Definition map_err {E F A} (f : E -> F) (m : result E A) : result F A :=
  match m with
  | Ok a => Ok a
  | Err e => Err (f e)
  end.

(** [Option::ok_or]. *)
Definition ok_or {E A} (o : option A) (e : E) : result E A :=
  match o with
  | Some a => Ok a
  | None => Err e
  end.

(** The early return [if !cond { return Err(e) }]. *)
Definition ensure {E} (b : bool) (e : E) : result E unit :=
  if b then Ok tt else Err e.

Definition is_ok {E A} (m : result E A) : bool :=
  match m with Ok _ => true | Err _ => false end.

(** [iter.try_fold(acc, f)]: a [for] loop whose body may return early. *)
Fixpoint try_fold {E A B} (f : A -> B -> result E A) (acc : A) (l : list B)
  : result E A :=
  match l with
  | [] => Ok acc
  | x :: l' => acc' ← f acc x; try_fold f acc' l'
  end.

(** [for x in l { body?; }]. *)
Definition for_each {E A} (f : A -> result E unit) (l : list A) : result E unit :=
  try_fold (fun _ x => f x) tt l.

(** ** Tactics *)

(** Inverts a monadic computation known to have succeeded. *)
Ltac ok_inv :=
  repeat match goal with
  | H : Ok _ = Ok _ |- _ => injection H as H; subst
  | H : Err _ = Err _ |- _ => injection H as H; subst
  | H : Ok _ = Err _ |- _ => discriminate H
  | H : Err _ = Ok _ |- _ => discriminate H
  | H : mret _ = Ok _ |- _ => injection H as H; subst
  | H : ensure ?b _ = Ok _ |- _ => destruct b eqn:?; [clear H | discriminate H]
  | H : ok_or ?o _ = Ok _ |- _ =>
      destruct o eqn:?; simpl in H; [injection H as H; subst | discriminate H]
  | H : map_err _ ?m = Ok _ |- _ =>
      destruct m eqn:?; simpl in H; [injection H as H; subst | discriminate H]
  | H : mbind _ ?m = Ok _ |- _ =>
      destruct m eqn:?; simpl in H; [ | discriminate H]
  | H : fmap _ ?m = Ok _ |- _ =>
      destruct m eqn:?; simpl in H; [ | discriminate H]
  end.

(** Turns boolean tests in the context into propositions. *)
Ltac bools :=
  repeat match goal with
  | H : _ && _ = true |- _ => apply andb_true_iff in H as [? ?]
  | H : _ || _ = false |- _ => apply orb_false_iff in H as [? ?]
  | H : negb _ = true |- _ => apply negb_true_iff in H
  | H : negb _ = false |- _ => apply negb_false_iff in H
  | H : bool_decide _ = true |- _ => apply bool_decide_eq_true in H
  | H : bool_decide _ = false |- _ => apply bool_decide_eq_false in H
  | H : (_ <=? _)%Z = true |- _ => apply Z.leb_le in H
  | H : (_ <=? _)%Z = false |- _ => apply Z.leb_gt in H
  | H : (_ <? _)%Z = true |- _ => apply Z.ltb_lt in H
  | H : (_ <? _)%Z = false |- _ => apply Z.ltb_ge in H
  | H : (_ =? _)%Z = true |- _ => apply Z.eqb_eq in H
  | H : (_ =? _)%Z = false |- _ => apply Z.eqb_neq in H
  end.

(** The comparisons of [nat]. *)
Ltac nat_bools :=
  bools; repeat match goal with
  | H : (_ <=? _)%nat = true |- _ => apply Nat.leb_le in H
  | H : (_ <=? _)%nat = false |- _ => apply Nat.leb_gt in H
  | H : (_ <? _)%nat = true |- _ => apply Nat.ltb_lt in H
  | H : (_ <? _)%nat = false |- _ => apply Nat.ltb_ge in H
  end.

(** ** Generic lemmas *)

Lemma bind_Ok {E A B} (m : result E A) (k : A -> result E B) b :
  (m ≫= k) = Ok b <-> exists a, m = Ok a /\ k a = Ok b.
Proof. destruct m; simpl; naive_solver. Qed.

Lemma ensure_Ok {E} b (e : E) u : ensure b e = Ok u -> b = true.
Proof. by destruct b. Qed.

Lemma bool_decide_iff P Q `{Decision P, Decision Q} :
  bool_decide P = bool_decide Q -> P <-> Q.
Proof.
  intros E. rewrite <-(bool_decide_eq_true P), <-(bool_decide_eq_true Q), E. done.
Qed.

Lemma map_err_Ok {E F A} (f : E -> F) (m : result E A) a :
  map_err f m = Ok a <-> m = Ok a.
Proof. destruct m; simpl; naive_solver. Qed.

Lemma mapM_Ok_Forall2 {E A B} (f : A -> result E B) l k :
  mapM f l = Ok k <-> Forall2 (fun x y => f x = Ok y) l k.
Proof.
  split.
  - revert k. induction l as [|x l IH]; simpl; intros k H.
    + injection H as <-. constructor.
    + apply bind_Ok in H as (y & Hy & H). apply bind_Ok in H as (ys & Hys & H).
      injection H as <-. constructor; auto.
  - induction 1 as [|x y l k Hxy _ IH]; simpl; [done|].
    rewrite Hxy. simpl. rewrite IH. done.
Qed.

Lemma for_each_Ok {E A} (f : A -> result E unit) l :
  for_each f l = Ok tt <-> Forall (fun x => f x = Ok tt) l.
Proof.
  unfold for_each. induction l as [|x l IH]; simpl.
  - by rewrite Forall_nil.
  - rewrite Forall_cons, <-IH. destruct (f x) as [[]|e]; simpl; naive_solver.
Qed.

Lemma try_fold_app {E A B} (f : A -> B -> result E A) a l k :
  try_fold f a (l ++ k) = (a' ← try_fold f a l; try_fold f a' k).
Proof.
  revert a. induction l as [|x l IH]; intros a; simpl; [done|].
  destruct (f a x); simpl; auto.
Qed.

Lemma try_fold_ext {E A B} (f g : A -> B -> result E A) a l :
  (forall a x, f a x = g a x) -> try_fold f a l = try_fold g a l.
Proof.
  intros H. revert a. induction l as [|x l IH]; intros a; simpl; [done|].
  rewrite H. destruct (g a x); simpl; auto.
Qed.

(** Nested loops are one loop over the concatenated ranges. *)
Lemma try_fold_flat_map {E A B C} (f : A -> C -> result E A) (g : B -> list C) a l :
  try_fold f a (flat_map g l) = try_fold (fun a x => try_fold f a (g x)) a l.
Proof.
  revert a. induction l as [|x l IH]; intros a; simpl; [done|].
  rewrite try_fold_app. destruct (try_fold f a (g x)); simpl; auto.
Qed.

Lemma try_fold_map {E A B C} (f : A -> C -> result E A) (g : B -> C) a l :
  try_fold f a (map g l) = try_fold (fun a x => f a (g x)) a l.
Proof.
  revert a. induction l as [|x l IH]; intros a; simpl; [done|].
  destruct (f a (g x)); simpl; auto.
Qed.

Lemma mapM_length {E A B} (f : A -> result E B) l k :
  mapM f l = Ok k -> length k = length l.
Proof. intros H%mapM_Ok_Forall2. symmetry. by eapply Forall2_length. Qed.

Lemma StronglySorted_lookup_lt {A} (R : relation A) l i j x y :
  StronglySorted R l -> l !! i = Some x -> l !! j = Some y -> (i < j)%nat -> R x y.
Proof.
  intros Hs. revert i j. induction Hs as [|z l Hl IH Hz]; intros [|i] [|j]; simpl;
    intros Hi Hj Hij; try done; try lia.
  - injection Hi as ->. rewrite Forall_forall in Hz. apply Hz.
    by eapply list_elem_of_lookup_2.
  - apply (IH i j); auto; lia.
Qed.

Lemma NoDup_fst_filter {K A} (p : K * A -> bool) (l : list (K * A)) :
  NoDup l.*1 -> NoDup (List.filter p l).*1.
Proof.
  induction l as [|x l IH]; simpl; [done|]. intros [Hn Hnd]%NoDup_cons.
  destruct (p x); simpl; [|auto]. constructor; [|auto].
  intros (y & Hy & Hin)%list_elem_of_fmap. apply Hn. rewrite Hy. apply list_elem_of_fmap_2.
  apply list_elem_of_In, filter_In in Hin as [Hin _]. by apply list_elem_of_In.
Qed.

(** ** Machine integers *)

Definition u64_max : Z := 2 ^ 64 - 1.
Definition i64_max : Z := 2 ^ 63 - 1.
Definition i64_min : Z := - 2 ^ 63.
Definition in_u64 (n : Z) : bool := (0 <=? n)%Z && (n <=? u64_max)%Z.
Definition in_i64 (n : Z) : bool := (i64_min <=? n)%Z && (n <=? i64_max)%Z.

(** [u64::checked_add], [checked_mul] and [saturating_sub]. *)
Definition checked_add_u64 (a b : Z) : option Z :=
  let r := (a + b)%Z in if (r <=? u64_max)%Z then Some r else None.
Definition checked_mul_u64 (a b : Z) : option Z :=
  let r := (a * b)%Z in if (r <=? u64_max)%Z then Some r else None.
Definition saturating_sub (a b : Z) : Z := Z.max 0 (a - b).
