(* ===== verification/Json.v ===== *)
(** * JSON values

    The data the whole program exchanges: [serde_json::Value] with its
    ordered [Map] (a [BTreeMap<String, Value>]: the crate is built without
    [preserve_order]) and its three-way [Number].  Objects are association
    lists kept strictly increasing in the byte order of their keys, which is
    what [BTreeMap] iteration and equality observe. *)
From S2P Require Import Prelude.
From Stdlib Require Import Floats.SpecFloat.

#[export] Instance spec_float_eq_dec : EqDecision spec_float.
Proof. solve_decision. Defined.

(** A binary64 number is a [spec_float] of precision 53 and exponent 1024. *)
Definition is_f64 (f : spec_float) : bool := valid_binary 53 1024 f.

(** [serde_json::Number]: a nonnegative integer ([u64]), a negative integer
    ([i64]) or a binary64 number. *)
Inductive number :=
  | PosInt (n : Z)
  | NegInt (n : Z)
  | Float (f : spec_float).

#[export] Instance number_eq_dec : EqDecision number.
Proof. solve_decision. Defined.

Inductive value :=
  | Null
  | Bool (b : bool)
  | Number (n : number)
  | Str (s : string)
  | Array (l : list value)
  | Object (m : list (string * value)).

(** ** Induction through the nested lists *)
Section ValueInd.
Context (P : value -> Prop).
Context (HNull : P Null) (HBool : forall b, P (Bool b))
  (HNumber : forall n, P (Number n)) (HStr : forall s, P (Str s))
  (HArray : forall l, Forall P l -> P (Array l))
  (HObject : forall m, Forall (fun kv => P kv.2) m -> P (Object m)).

Fixpoint value_ind' (v : value) : P v :=
  match v with
  | Null => HNull
  | Bool b => HBool b
  | Number n => HNumber n
  | Str s => HStr s
  | Array l => HArray l
      ((fix go l : Forall P l :=
          match l with
          | [] => @List.Forall_nil _ _
          | x :: l' => @List.Forall_cons _ _ _ _ (value_ind' x) (go l')
          end) l)
  | Object m => HObject m
      ((fix go m : Forall (fun kv => P kv.2) m :=
          match m with
          | [] => @List.Forall_nil _ _
          | kv :: m' => @List.Forall_cons _ _ kv m' (value_ind' kv.2) (go m')
          end) m)
  end.
End ValueInd.

Fixpoint value_eqb (a b : value) {struct a} : bool :=
  match a, b with
  | Null, Null => true
  | Bool x, Bool y => bool_decide (x = y)
  | Number x, Number y => bool_decide (x = y)
  | Str x, Str y => bool_decide (x = y)
  | Array l, Array k =>
      (fix go (l k : list value) : bool :=
         match l, k with
         | [], [] => true
         | x :: l', y :: k' => value_eqb x y && go l' k'
         | _, _ => false
         end) l k
  | Object m, Object n =>
      (fix go (m n : list (string * value)) : bool :=
         match m, n with
         | [], [] => true
         | (k, x) :: m', (j, y) :: n' => bool_decide (k = j) && value_eqb x y && go m' n'
         | _, _ => false
         end) m n
  | _, _ => false
  end.

Lemma value_eqb_refl v : value_eqb v v = true.
Proof.
  induction v as [| | | |l IH|m IH] using value_ind'; simpl;
    rewrite ?bool_decide_eq_true_2 by done; auto.
  - induction IH as [|x l Hx _ IHl]; [done|]. by rewrite Hx.
  - induction IH as [|[j x] m Hx _ IHm]; [done|]. simpl in *.
    by rewrite Hx, bool_decide_eq_true_2.
Qed.

Lemma value_eqb_eq v w : value_eqb v w = true <-> v = w.
Proof.
  split; [|intros <-; apply value_eqb_refl].
  revert w. induction v as [| | | |l IH|m IH] using value_ind'; intros w H;
    destruct w as [|?|?|?|k|n']; simpl in H; try discriminate; bools; subst; auto.
  - f_equal. revert k H. induction IH as [|x l Hx _ IHl]; intros [|y k] H;
      try discriminate; [done|]. bools. f_equal; eauto.
  - f_equal. revert n' H. induction IH as [|[j x] m Hx _ IHm]; intros [|[i y] n] H;
      try discriminate; [done|]. bools. subst. simpl in Hx. f_equal; [f_equal|]; eauto.
Qed.

#[export] Instance value_eq_dec : EqDecision value.
Proof.
  intros a b. destruct (value_eqb a b) eqn:H.
  - left. by apply value_eqb_eq.
  - right. intros Heq%value_eqb_eq. congruence.
Defined.

(** ** Maps

    [Map::get], [contains_key] and [insert] of a [BTreeMap<String, V>]. *)
Section Map.
Context {V : Type}.

Fixpoint map_get (k : string) (m : list (string * V)) : option V :=
  match m with
  | [] => None
  | (j, v) :: m' => if String.eqb k j then Some v else map_get k m'
  end.

Definition contains_key (k : string) (m : list (string * V)) : bool :=
  match map_get k m with Some _ => true | None => false end.

Fixpoint map_insert (k : string) (v : V) (m : list (string * V))
  : list (string * V) :=
  match m with
  | [] => [(k, v)]
  | (j, w) :: m' =>
      match String.compare k j with
      | Lt => (k, v) :: m
      | Eq => (k, v) :: m'
      | Gt => (j, w) :: map_insert k v m'
      end
  end.

(** [iter.collect::<Map<_, _>>()]. *)
Definition map_collect (l : list (string * V)) : list (string * V) :=
  fold_left (fun m kv => map_insert kv.1 kv.2 m) l [].

End Map.

(** The representation invariant of a [BTreeMap]: keys strictly increasing. *)
Definition key_lt (a b : string) : Prop := String.compare a b = Lt.
Definition map_wf {V} (m : list (string * V)) : Prop :=
  StronglySorted key_lt (m.*1).

Lemma key_compare_refl a : String.compare a a = Eq.
Proof.
  pose proof (String.compare_antisym a a) as H.
  by destruct (String.compare a a).
Qed.

Lemma key_lt_irrefl a : ~ key_lt a a.
Proof. unfold key_lt. by rewrite key_compare_refl. Qed.

Lemma key_compare_gt a b : String.compare a b = Gt -> key_lt b a.
Proof. intros H. unfold key_lt. by rewrite String.compare_antisym, H. Qed.

Lemma key_lt_trans a b c : key_lt a b -> key_lt b c -> key_lt a c.
Proof.
  unfold key_lt. revert b c. induction a as [|x a IH]; intros [|y b] [|z c];
    simpl; try done. unfold Ascii.compare.
  destruct (N.compare_spec (Ascii.N_of_ascii x) (Ascii.N_of_ascii y)) as [Hxy|Hxy|Hxy];
    destruct (N.compare_spec (Ascii.N_of_ascii y) (Ascii.N_of_ascii z)) as [Hyz|Hyz|Hyz];
    destruct (N.compare_spec (Ascii.N_of_ascii x) (Ascii.N_of_ascii z)) as [Hxz|Hxz|Hxz];
    try done; try lia; eauto.
Qed.

Section MapLemmas.
Context {V : Type}.
Implicit Types (m : list (string * V)) (k j : string).

Lemma map_get_insert_eq k v m : map_get k (map_insert k v m) = Some v.
Proof.
  induction m as [|[j w] m IH]; simpl; [by rewrite String.eqb_refl|].
  destruct (String.compare k j) eqn:H; simpl; rewrite ?String.eqb_refl; [done|done|].
  destruct (String.eqb_spec k j) as [->|]; [|done].
  by rewrite key_compare_refl in H.
Qed.

Lemma map_get_insert_ne k j v m :
  k <> j -> map_get k (map_insert j v m) = map_get k m.
Proof.
  intros Hne. induction m as [|[i w] m IH]; simpl.
  - by destruct (String.eqb_spec k j).
  - destruct (String.compare j i) eqn:H; simpl.
    + apply String.compare_eq_iff in H as ->. by destruct (String.eqb_spec k i).
    + by destruct (String.eqb_spec k j).
    + by rewrite IH.
Qed.

Lemma map_insert_keys k v m j :
  j ∈ (map_insert k v m).*1 <-> j = k \/ j ∈ m.*1.
Proof.
  induction m as [|[i w] m IH]; simpl; [set_solver|].
  destruct (String.compare k i) eqn:H; simpl; [|set_solver|set_solver].
  apply String.compare_eq_iff in H as ->. set_solver.
Qed.

Lemma map_insert_wf k v m : map_wf m -> map_wf (map_insert k v m).
Proof.
  unfold map_wf. induction m as [|[j w] m IH]; simpl; intros H.
  - repeat constructor.
  - apply StronglySorted_inv in H as [Hm Hj].
    destruct (String.compare k j) eqn:Hc; simpl.
    + apply String.compare_eq_iff in Hc as ->. by constructor.
    + constructor; [by constructor|]. constructor; [done|].
      eapply Forall_impl; [exact Hj|]. eauto using key_lt_trans.
    + constructor; [auto|]. apply Forall_forall. intros i.
      rewrite map_insert_keys. rewrite Forall_forall in Hj.
      intros [->|Hi]; auto using key_compare_gt.
Qed.

Lemma map_get_elem k v m : map_get k m = Some v -> (k, v) ∈ m.
Proof.
  induction m as [|[j w] m IH]; simpl; [done|].
  destruct (String.eqb_spec k j) as [->|]; [intros [= ->]|intros H]; set_solver.
Qed.

Lemma map_get_None k m : map_get k m = None <-> k ∉ m.*1.
Proof.
  induction m as [|[j w] m IH]; simpl; [set_solver|].
  destruct (String.eqb_spec k j) as [->|]; set_solver.
Qed.

Lemma map_insert_elem k v m j x :
  (j, x) ∈ map_insert k v m -> (j, x) = (k, v) \/ (j, x) ∈ m.
Proof.
  induction m as [|[i w] m IH]; simpl; [set_solver|].
  destruct (String.compare k i) eqn:H; set_solver.
Qed.

(** Inserting a key above all the others appends it. *)
Lemma map_insert_last k v m :
  Forall (fun j => key_lt j k) (m.*1) -> map_insert k v m = m ++ [(k, v)].
Proof.
  induction m as [|[j w] m IH]; simpl; intros H; [done|].
  apply Forall_cons in H as [Hj Hm].
  unfold key_lt in Hj. rewrite String.compare_antisym, Hj. simpl. by rewrite IH.
Qed.

(** Re-inserting a present binding changes nothing. *)
Lemma map_insert_id k v m : map_wf m -> map_get k m = Some v -> map_insert k v m = m.
Proof.
  unfold map_wf. induction m as [|[j w] m IH]; simpl; [done|].
  intros [Hm Hj]%StronglySorted_inv H.
  destruct (String.eqb_spec k j) as [->|Hne].
  - injection H as ->. by rewrite key_compare_refl.
  - assert (key_lt j k) as Hjk.
    { rewrite Forall_forall in Hj. apply Hj.
      apply map_get_elem in H. by apply (list_elem_of_fmap_2 fst) in H. }
    unfold key_lt in Hjk. rewrite String.compare_antisym, Hjk. simpl. by rewrite IH.
Qed.

(** Two maps with the same lookups are the same map. *)
Lemma json_map_ext m n :
  map_wf m -> map_wf n -> (forall k, map_get k m = map_get k n) -> m = n.
Proof.
  unfold map_wf. revert n. induction m as [|[j x] m IH]; intros [|[i y] n];
    simpl; intros Hm Hn H; [done| | |].
  - specialize (H i). simpl in H. by rewrite String.eqb_refl in H.
  - specialize (H j). simpl in H. by rewrite String.eqb_refl in H.
  - apply StronglySorted_inv in Hm as [Hm Hj], Hn as [Hn Hi].
    rewrite Forall_forall in Hj, Hi.
    assert (j = i) as ->.
    { pose proof (H i) as Hi'. pose proof (H j) as Hj'. simpl in Hi', Hj'.
      rewrite String.eqb_refl in Hi', Hj'.
      destruct (String.eqb_spec i j) as [->|Hne]; [done|].
      destruct (String.eqb_spec j i) as [->|_]; [done|].
      symmetry in Hj'. apply map_get_elem in Hi', Hj'.
      apply (list_elem_of_fmap_2 fst) in Hi', Hj'.
      exfalso. apply (key_lt_irrefl i). eauto using key_lt_trans. }
    pose proof (H i) as Hv. rewrite String.eqb_refl in Hv. injection Hv as ->.
    f_equal. apply IH; [done|done|]. intros k.
    specialize (H k). destruct (String.eqb_spec k i) as [Heq|]; [subst k|done].
    rewrite (proj2 (map_get_None i m)), (proj2 (map_get_None i n)); [done| |];
      intros Hin; apply (key_lt_irrefl i); auto.
Qed.

Lemma map_wf_nil : map_wf ([] : list (string * V)).
Proof. constructor. Qed.
End MapLemmas.

Create HintDb json.
#[export] Hint Resolve map_wf_nil map_insert_wf key_lt_trans key_compare_gt : json.

Lemma map_get_of_elem {V} k (v : V) m : map_wf m -> (k, v) ∈ m -> map_get k m = Some v.
Proof.
  unfold map_wf. induction m as [|[j w] m IH]; intros Hw Hin; [by apply not_elem_of_nil in Hin|].
  cbn in *. apply StronglySorted_inv in Hw as [Hw Hj]. apply elem_of_cons in Hin as [[= -> ->]|Hin].
  - by rewrite String.eqb_refl.
  - destruct (String.eqb_spec k j) as [->|]; [|by apply IH]. rewrite Forall_forall in Hj.
    destruct (key_lt_irrefl j). apply Hj. by apply (list_elem_of_fmap_2 fst) in Hin.
Qed.
Lemma map_wf_NoDup {V} (m : list (string * V)) : map_wf m -> NoDup m.*1.
Proof.
  unfold map_wf. induction m as [|[k v] m IH]; intros Hw; [apply NoDup_nil_2|].
  cbn in *. apply StronglySorted_inv in Hw as [Hw Hk]. apply NoDup_cons_2; [|by apply IH].
  rewrite Forall_forall in Hk. intros Hin. destruct (key_lt_irrefl k). by apply Hk.
Qed.
Lemma map_collect_wf {V} (l : list (string * V)) : map_wf (map_collect l).
Proof.
  unfold map_collect. generalize (map_wf_nil (V := V)).
  generalize (@nil (string * V)) as acc.
  induction l as [|[k v] l IH]; simpl; intros acc H; auto with json.
Qed.
#[export] Hint Resolve map_collect_wf : json.

Lemma map_collect_app {V} (l : list (string * V)) k v :
  map_collect (l ++ [(k, v)]) = map_insert k v (map_collect l).
Proof. unfold map_collect. by rewrite fold_left_app. Qed.

(** Collecting an already ordered list of bindings is the identity. *)
Lemma map_collect_id {V} (m : list (string * V)) : map_wf m -> map_collect m = m.
Proof.
  unfold map_wf. induction m as [|[k v] m IH] using rev_ind; intros H; [done|].
  rewrite fmap_app in H. simpl in H.
  rewrite map_collect_app, IH.
  - apply map_insert_last. apply Forall_forall. intros j Hj.
    eapply StronglySorted_app_1_elem_of; eauto. set_solver.
  - by apply StronglySorted_app_1_l in H.
Qed.

(** ** Well-formed values: every object is an ordered map *)
Fixpoint value_wf (v : value) : Prop :=
  match v with
  | Array l => foldr (fun x P => value_wf x /\ P) True l
  | Object m => map_wf m /\ foldr (fun kv P => value_wf kv.2 /\ P) True m
  | _ => True
  end.

Lemma value_wf_array l : value_wf (Array l) <-> Forall value_wf l.
Proof. simpl. induction l; simpl; rewrite ?Forall_nil, ?Forall_cons; tauto. Qed.
Lemma value_wf_object m :
  value_wf (Object m) <-> map_wf m /\ Forall (fun kv => value_wf kv.2) m.
Proof.
  simpl. apply and_iff_compat_l.
  induction m; simpl; rewrite ?Forall_nil, ?Forall_cons; tauto.
Qed.

(** ** Accessors of [Value] *)
Definition as_object (v : value) : option (list (string * value)) :=
  match v with Object m => Some m | _ => None end.
Definition as_str (v : value) : option string :=
  match v with Str s => Some s | _ => None end.
Definition as_array (v : value) : option (list value) :=
  match v with Array l => Some l | _ => None end.
(** [value["key"]]: [Null] when the key is absent or the value is no object. *)
Definition index (v : value) (k : string) : value :=
  match v with Object m => default Null (map_get k m) | _ => Null end.

(** [Number::as_i64], [as_u64] and [as_f64], which rounds an integer. *)
Definition as_i64 (n : number) : option Z :=
  match n with
  | PosInt z => if (z <=? i64_max)%Z then Some z else None
  | NegInt z => Some z
  | Float _ => None
  end.
Definition as_u64 (n : number) : option Z :=
  match n with PosInt z => Some z | _ => None end.

Definition as_f64 (n : number) : spec_float :=
  match n with
  | PosInt z | NegInt z => binary_normalize 53 1024 z 0 false
  | Float f => f
  end.

(** [Number::from(i64)] and [json!(u64)]. *)
Definition number_of_i64 (z : Z) : number :=
  if (z <? 0)%Z then NegInt z else PosInt z.
Definition json_u64 (z : Z) : value := Number (PosInt z).
