(* ===== verification/Canonical.v ===== *)
(** * Restricted JSON values (src/core/canonical.rs)

    [normalize_value] is the programmatic entry ([CanonicalValue::try_from]);
    [visit] is the parsing entry ([RestrictedValueVisitor]), driven by the
    stream of values the JSON tokenizer delivers.  The tokenizer is the
    third-party deserializer: it appears as a [raw] document.  The RFC 8785
    serializer is third-party too and is a parameter of [Identity].

    An error carries the rejected number itself; the source carries its
    decimal rendering. *)
From S2P Require Import Prelude Json.
From Stdlib Require Import Floats.SpecFloat.

Definition MAX_SAFE_INTEGER : Z := 2 ^ 53 - 1.

Inductive CanonicalValueViolation :=
  | IntegerOutOfRange (value : number)
  | NotFiniteBinary64 (value : number).

#[export] Instance violation_eq_dec : EqDecision CanonicalValueViolation.
Proof. solve_decision. Defined.

(** ** Binary64 operations used by the code *)

(** [f64::is_finite]. *)
Definition is_finite (f : spec_float) : bool :=
  match f with
  | S754_zero _ | S754_finite _ _ _ => true
  | S754_infinity _ | S754_nan => false
  end.

(** The integer a finite number rounds to, toward zero. *)
Definition f64_trunc (f : spec_float) : Z :=
  match f with
  | S754_finite s m e =>
      let a := if (0 <=? e)%Z then (Z.pos m * 2 ^ e)%Z else (Z.pos m / 2 ^ (- e))%Z in
      if s then (- a)%Z else a
  | _ => 0%Z
  end.

(** [value.fract() == 0.0] on a finite number. *)
Definition fract_is_zero (f : spec_float) : bool :=
  match f with
  | S754_zero _ => true
  | S754_finite _ m e => (0 <=? e)%Z || (Z.pos m mod 2 ^ (- e) =? 0)%Z
  | _ => false
  end.

(** [Number::from_f64]. *)
Definition number_from_f64 (f : spec_float) : option number :=
  if is_finite f then Some (Float f) else None.

Definition normalize_f64 (f : spec_float)
  : result CanonicalValueViolation number :=
  if negb (is_finite f) then Err (NotFiniteBinary64 (Float f))
  else if fract_is_zero f then
    if (MAX_SAFE_INTEGER <? Z.abs (f64_trunc f))%Z
    then Err (IntegerOutOfRange (Float f))
    else Ok (number_of_i64 (f64_trunc f))
  else ok_or (number_from_f64 f) (NotFiniteBinary64 (Float f)).

Definition normalize_number (n : number)
  : result CanonicalValueViolation number :=
  match as_i64 n with
  | Some z =>
      if negb ((- MAX_SAFE_INTEGER <=? z)%Z && (z <=? MAX_SAFE_INTEGER)%Z)
      then Err (IntegerOutOfRange n) else Ok n
  | None =>
      match as_u64 n with
      | Some z =>
          if (MAX_SAFE_INTEGER <? z)%Z then Err (IntegerOutOfRange n) else Ok n
      | None =>
          match n with
          | Float f => normalize_f64 f
          | _ => Err (NotFiniteBinary64 n)
          end
      end
  end.

Fixpoint normalize_value (v : value) : result CanonicalValueViolation value :=
  match v with
  | Null | Bool _ | Str _ => Ok v
  | Number n => Number <$> normalize_number n
  | Array values => Array <$> mapM normalize_value values
  | Object values =>
      (fun m => Object (map_collect m)) <$>
        mapM (fun kv => pair kv.1 <$> normalize_value kv.2) values
  end.

(** [CanonicalValue::try_from(Value)]: the newtype holds the normal form. *)
Definition try_from (v : value) : result CanonicalValueViolation value :=
  normalize_value v.
Arguments try_from : simpl never.

(** ** The parsing entry

    [raw] is what the deserializer feeds to the visitor, in order.  [RawBad]
    is a syntax error met where a value was expected; the flag of a sequence
    or of a map is false when a syntax error follows the listed members. *)
Inductive raw :=
  | RawNull
  | RawBool (b : bool)
  | RawI64 (z : Z)
  | RawU64 (z : N)
  | RawF64 (f : spec_float)
  | RawStr (s : string)
  | RawSeq (items : list raw) (closed : bool)
  | RawMap (entries : list (string * raw)) (closed : bool)
  | RawBad.

Inductive InputError :=
  | Violation (v : CanonicalValueViolation)
  | DuplicateObjectKey (key : string)
  | Syntax.

Section RestrictedValueVisitor.
Notation M := (result InputError).

Definition visit_bool (b : bool) : M value := Ok (Bool b).

Definition visit_i64 (z : Z) : M value :=
  if negb ((- MAX_SAFE_INTEGER <=? z)%Z && (z <=? MAX_SAFE_INTEGER)%Z)
  then Err (Violation (IntegerOutOfRange (number_of_i64 z)))
  else Ok (Number (number_of_i64 z)).

Definition visit_u64 (n : N) : M value :=
  if (MAX_SAFE_INTEGER <? Z.of_N n)%Z
  then Err (Violation (IntegerOutOfRange (PosInt (Z.of_N n))))
  else Ok (Number (PosInt (Z.of_N n))).

Definition visit_f64 (f : spec_float) : M value :=
  map_err Violation (Number <$> normalize_f64 f).

Definition visit_str (s : string) : M value := Ok (Str s).
Definition visit_unit : M value := Ok Null.

(** [visit_seq] pushes each member; [visit_map] reads the whole entry before
    it looks for a duplicate key. *)
Definition visit_seq (visit : raw -> M value) :=
  fix go (values : list value) (items : list raw) (closed : bool) : M value :=
    match items with
    | [] => if closed then Ok (Array values) else Err Syntax
    | r :: items' => v ← visit r; go (values ++ [v]) items' closed
    end.

Definition visit_map (visit : raw -> M value) :=
  fix go (values : list (string * value)) (entries : list (string * raw))
    (closed : bool) : M value :=
    match entries with
    | [] => if closed then Ok (Object values) else Err Syntax
    | (key, r) :: entries' =>
        v ← visit r;
        if contains_key key values then Err (DuplicateObjectKey key)
        else go (map_insert key v values) entries' closed
    end.

Fixpoint visit (r : raw) : M value :=
  match r with
  | RawNull => visit_unit
  | RawBool b => visit_bool b
  | RawI64 z => visit_i64 z
  | RawU64 n => visit_u64 n
  | RawF64 f => visit_f64 f
  | RawStr s => visit_str s
  | RawSeq items closed => visit_seq visit [] items closed
  | RawMap entries closed => visit_map visit [] entries closed
  | RawBad => Err Syntax
  end.

(** [CanonicalValue::from_slice]: the visited value, then [end()], which
    fails when anything but whitespace follows it. *)
Definition from_slice (document : raw) (at_end : bool) : M value :=
  v ← visit document;
  _ ← ensure at_end Syntax;
  Ok v.
End RestrictedValueVisitor.

(** ** Domain of canonical values *)

(** Numbers as [serde_json] can hold them. *)
Definition number_wf (n : number) : bool :=
  match n with
  | PosInt z => in_u64 z
  | NegInt z => in_i64 z && (z <? 0)%Z
  | Float f => is_finite f
  end.

(** Numbers of the version-1 domain: safe integers, spelled as integers, and
    finite non-integral binary64 numbers; hence no negative zero. *)
Definition number_domain (n : number) : bool :=
  match n with
  | PosInt z => (0 <=? z)%Z && (z <=? MAX_SAFE_INTEGER)%Z
  | NegInt z => (- MAX_SAFE_INTEGER <=? z)%Z && (z <? 0)%Z
  | Float f => is_finite f && negb (fract_is_zero f)
  end.

Fixpoint value_numbers (P : number -> bool) (v : value) : bool :=
  match v with
  | Number n => P n
  | Array l => forallb (value_numbers P) l
  | Object m => forallb (fun kv => value_numbers P kv.2) m
  | _ => true
  end.
Definition in_domain : value -> bool := value_numbers number_domain.

Lemma forallb_Forall_iff {A} (f : A -> bool) l :
  forallb f l = true <-> Forall (fun x => f x = true) l.
Proof. rewrite forallb_forall, List.Forall_forall. done. Qed.

Lemma normalize_f64_domain f n :
  normalize_f64 f = Ok n -> number_domain n = true.
Proof.
  unfold normalize_f64. destruct (is_finite f) eqn:Hf; [simpl|done].
  destruct (fract_is_zero f) eqn:Hz.
  - destruct (_ <? _)%Z eqn:Hr; [done|]. intros [= <-]. bools.
    unfold number_of_i64. destruct (_ <? 0)%Z eqn:Hs; simpl; bools; lia.
  - unfold number_from_f64. rewrite Hf. simpl. intros [= <-]. simpl. by rewrite Hf, Hz.
Qed.

Lemma normalize_number_domain n n' :
  number_wf n = true -> normalize_number n = Ok n' -> number_domain n' = true.
Proof.
  unfold normalize_number, in_u64, in_i64.
  destruct n as [z|z|f]; simpl; intros Hwf H; [| |by eapply normalize_f64_domain].
  - unfold in_u64 in Hwf. bools.
    destruct (z <=? i64_max)%Z eqn:?; simpl in H; bools.
    + destruct (_ && _) eqn:Hr; simpl in H; [|done]. injection H as <-. bools. simpl. lia.
    + destruct (_ <? _)%Z eqn:Hr; [done|]. injection H as <-. bools. simpl. lia.
  - unfold in_i64 in Hwf. bools.
    destruct (_ && _) eqn:Hr; simpl in H; [|done]. injection H as <-. bools. simpl. lia.
Qed.

Lemma normalize_number_id n : number_domain n = true -> normalize_number n = Ok n.
Proof.
  assert (MAX_SAFE_INTEGER <= i64_max)%Z by (unfold MAX_SAFE_INTEGER, i64_max; lia).
  unfold normalize_number. destruct n as [z|z|f]; simpl; intros Hd; bools.
  - rewrite (proj2 (Z.leb_le z i64_max)) by lia.
    rewrite (proj2 (Z.leb_le _ z)), (proj2 (Z.leb_le z _)) by lia. done.
  - rewrite (proj2 (Z.leb_le _ z)), (proj2 (Z.leb_le z _)) by lia. done.
  - unfold normalize_f64, number_from_f64. by rewrite H0, H1.
Qed.

Definition value_numbers_wf : value -> bool := value_numbers number_wf.

Lemma value_numbers_array P l :
  value_numbers P (Array l) = true <-> Forall (fun v => value_numbers P v = true) l.
Proof. apply forallb_Forall_iff. Qed.
Lemma value_numbers_object P m :
  value_numbers P (Object m) = true <->
  Forall (fun kv => value_numbers P kv.2 = true) m.
Proof. apply (forallb_Forall_iff (fun kv => value_numbers P kv.2)). Qed.

(** Collected bindings are among the collected ones. *)
Lemma map_collect_elem {V} (l : list (string * V)) kv :
  kv ∈ map_collect l -> kv ∈ l.
Proof.
  unfold map_collect.
  enough (forall acc, kv ∈ fold_left (fun m kv => map_insert kv.1 kv.2 m) l acc ->
            kv ∈ acc \/ kv ∈ l) as H by (intros Hk; apply H in Hk; set_solver).
  induction l as [|[k v] l IH]; simpl; intros acc Hk; [auto|].
  apply IH in Hk as [Hk|Hk]; [|set_solver].
  destruct kv as [k' v']. apply map_insert_elem in Hk. set_solver.
Qed.

Lemma Forall2_Forall_r_impl {A B} (R : A -> B -> Prop) (P : A -> Prop) (Q : B -> Prop) l k :
  Forall2 R l k -> Forall P l -> (forall x y, P x -> R x y -> Q y) -> Forall Q k.
Proof. induction 1; intros HP HQ; inversion HP; subst; constructor; eauto. Qed.

(** The entries a successful traversal of an object delivers. *)
Definition normal_entry (kv kv' : string * value) : Prop :=
  kv'.1 = kv.1 /\ normalize_value kv.2 = Ok kv'.2.

Lemma normalize_object_Ok m w :
  normalize_value (Object m) = Ok w <->
  exists m', Forall2 normal_entry m m' /\ w = Object (map_collect m').
Proof.
  simpl. split.
  - intros H. ok_inv. eexists; split; [|done].
    apply mapM_Ok_Forall2 in Heqr. eapply Forall2_impl; [exact Heqr|].
    intros [k v] [k' v'] H; simpl in *. ok_inv. by split.
  - intros (m' & Hm & ->).
    enough (mapM (fun kv => pair kv.1 <$> normalize_value kv.2) m = Ok m') as -> by done.
    apply mapM_Ok_Forall2. eapply Forall2_impl; [exact Hm|].
    intros [k v] [k' v'] [Hk Hv]; simpl in *. subst. by rewrite Hv.
Qed.

(** Normalization keeps the keys of an object. *)
Lemma normal_entries_keys m n : Forall2 normal_entry m n -> n.*1 = m.*1.
Proof.
  induction 1 as [|[k v] [k' v'] m n [Hk _] _ IH]; [done|]. rewrite !fmap_cons, IH. cbn in *. by f_equal.
Qed.

Lemma normalize_array_Ok l w :
  normalize_value (Array l) = Ok w <->
  exists l', Forall2 (fun v v' => normalize_value v = Ok v') l l' /\ w = Array l'.
Proof.
  simpl. split.
  - intros H. ok_inv. eexists; split; [|done]. by apply mapM_Ok_Forall2.
  - intros (l' & Hl%mapM_Ok_Forall2 & ->). by rewrite Hl.
Qed.

Lemma normalize_value_domain v w :
  value_numbers_wf v = true -> normalize_value v = Ok w ->
  in_domain w = true /\ value_wf w.
Proof.
  unfold value_numbers_wf, in_domain. revert w.
  induction v as [|b|n|s|l IH|m IH] using value_ind'; intros w Hn H;
    try (injection H as <-; done).
  - simpl in *. ok_inv. split; [|done]. eapply normalize_number_domain; eauto.
  - apply normalize_array_Ok in H as (l' & Hl & ->).
    apply value_numbers_array in Hn.
    rewrite value_numbers_array, value_wf_array, <-Forall_and.
    eapply (Forall2_Forall_r_impl _ _ _ _ _ Hl (proj2 (Forall_and _ _) (conj IH Hn))).
    intros x y [Hx Hxn] Hxy. eauto.
  - apply normalize_object_Ok in H as (m' & Hm & ->).
    apply value_numbers_object in Hn.
    assert (Forall (fun kv => value_numbers number_domain kv.2 = true /\ value_wf kv.2) m') as Hm'.
    { eapply (Forall2_Forall_r_impl _ _ _ _ _ Hm (proj2 (Forall_and _ _) (conj IH Hn))).
      intros x y [Hx Hxn] [_ Hxy]. eauto. }
    rewrite Forall_forall in Hm'.
    rewrite value_numbers_object, value_wf_object, !Forall_forall.
    split; [|split; [auto with json|]]; intros kv Hkv%map_collect_elem; by apply Hm'.
Qed.

(** Normal values normalize to themselves; shared by the writers of documents. *)
Lemma normalize_value_canonical v :
  in_domain v = true -> value_wf v -> normalize_value v = Ok v.
Proof.
  unfold in_domain. induction v as [|b|n|s|l IH|m IH] using value_ind'; intros Hd Hw; try done.
  - simpl in *. by rewrite normalize_number_id.
  - apply value_numbers_array in Hd. apply value_wf_array in Hw.
    apply normalize_array_Ok. exists l. split; [|done].
    induction IH as [|x l Hx _ IHl]; inversion Hd; inversion Hw; subst; constructor; auto.
  - apply value_numbers_object in Hd. apply value_wf_object in Hw as [Hs Hw].
    apply normalize_object_Ok. exists m. split; [|by rewrite map_collect_id].
    clear Hs. induction IH as [|x m Hx _ IHm]; inversion Hd; inversion Hw; subst;
      constructor; [split; auto|auto].
Qed.

(** The numbers that survive normalization, stated on their values. *)
Definition number_accepted (n : number) : bool :=
  match n with
  | PosInt z | NegInt z => (- MAX_SAFE_INTEGER <=? z)%Z && (z <=? MAX_SAFE_INTEGER)%Z
  | Float f =>
      is_finite f &&
      (negb (fract_is_zero f) || (Z.abs (f64_trunc f) <=? MAX_SAFE_INTEGER)%Z)
  end.

Lemma normalize_number_is_ok n : is_ok (normalize_number n) = number_accepted n.
Proof.
  assert (MAX_SAFE_INTEGER < i64_max)%Z as Hmax by (unfold MAX_SAFE_INTEGER, i64_max; lia).
  unfold normalize_number, number_accepted. destruct n as [z|z|f]; simpl.
  - destruct (z <=? i64_max)%Z eqn:Hi; simpl; [by destruct (_ && _)|]. bools.
    rewrite (proj2 (Z.ltb_lt _ z)), (proj2 (Z.leb_gt z _)) by lia.
    by rewrite andb_false_r.
  - by destruct (_ && _).
  - unfold normalize_f64, number_from_f64. destruct (is_finite f); simpl; [|done].
    destruct (fract_is_zero f); simpl; [|done].
    rewrite Z.ltb_antisym. by destruct (_ <=? _)%Z.
Qed.

Lemma mapM_is_ok {E A B} (f : A -> result E B) l :
  is_ok (mapM f l) = forallb (fun x => is_ok (f x)) l.
Proof.
  induction l as [|x l IH]; [done|]. simpl.
  destruct (f x); simpl; [|done]. rewrite <-IH. by destruct (mapM f l).
Qed.

Lemma is_ok_fmap {E A B} (f : A -> B) (m : result E A) : is_ok (f <$> m) = is_ok m.
Proof. by destruct m. Qed.

Lemma forallb_Forall_ext {A} (f g : A -> bool) l :
  Forall (fun x => f x = g x) l -> forallb f l = forallb g l.
Proof. induction 1 as [|x l Hx _ IH]; simpl; [done|]. by rewrite Hx, IH. Qed.

Lemma normalize_value_is_ok v :
  is_ok (normalize_value v) = value_numbers number_accepted v.
Proof.
  induction v as [|b|n|s|l IH|m IH] using value_ind'; try done; simpl.
  - by rewrite is_ok_fmap, normalize_number_is_ok.
  - rewrite is_ok_fmap, mapM_is_ok. by apply forallb_Forall_ext.
  - rewrite is_ok_fmap, mapM_is_ok. apply forallb_Forall_ext.
    eapply Forall_impl; [exact IH|]. intros kv H. simpl in *. by rewrite is_ok_fmap, H.
Qed.

(** C36: [CanonicalValue::try_from] projects on the version-1 domain.  It rejects
    exactly the values that hold a number outside the domain: structure, strings
    and keys never cause a rejection.  What it delivers is in the domain: every
    integer is in the safe range, every other number is finite and not integral
    (so negative zero and alternate exponent spellings are gone), every object is
    an ordered map without repeated keys, and normalizing again changes nothing.
    Values already in the domain are left untouched, so distinct canonical values
    stay distinct. *)
Theorem normalize_value_spec v :
  value_numbers_wf v = true ->
  is_ok (normalize_value v) = value_numbers number_accepted v /\
  (forall w, normalize_value v = Ok w ->
     in_domain w = true /\ value_wf w /\ normalize_value w = Ok w) /\
  (in_domain v = true -> value_wf v -> normalize_value v = Ok v).
Proof.
  intros Hv. split; [apply normalize_value_is_ok|]. split; [|apply normalize_value_canonical].
  intros w Hw. destruct (normalize_value_domain v w Hv Hw). auto using normalize_value_canonical.
Qed.

Lemma normalize_value_spec_witness :
  let v := Array [Number (Float (S754_zero true)); Number (Float (S754_finite false 3 (-1)))] in
  exists w, normalize_value v = Ok w /\ in_domain w = true /\ value_wf w /\ normalize_value w = Ok w.
Proof.
  eexists. split; [vm_compute; reflexivity|].
  apply (normalize_value_spec
    (Array [Number (Float (S754_zero true)); Number (Float (S754_finite false 3 (-1)))]));
    vm_compute; reflexivity.
Defined.

(** ** The two entries agree *)

(** The value a document denotes when nothing is checked. *)
Fixpoint raw_value (r : raw) : value :=
  match r with
  | RawNull | RawBad => Null
  | RawBool b => Bool b
  | RawI64 z => Number (number_of_i64 z)
  | RawU64 n => Number (PosInt (Z.of_N n))
  | RawF64 f => Number (Float f)
  | RawStr s => Str s
  | RawSeq items _ => Array (map raw_value items)
  | RawMap entries _ => Object (map_collect (map (fun kr => (kr.1, raw_value kr.2)) entries))
  end.

(** No syntax error, and no object that repeats a key. *)
Fixpoint raw_clean (r : raw) : bool :=
  match r with
  | RawBad => false
  | RawSeq items closed => closed && forallb raw_clean items
  | RawMap entries closed =>
      closed && bool_decide (NoDup entries.*1) && forallb (fun kr => raw_clean kr.2) entries
  | _ => true
  end.

Section RawInd.
Context (P : raw -> Prop).
Context (HNull : P RawNull) (HBool : forall b, P (RawBool b))
  (HI : forall z, P (RawI64 z)) (HU : forall z, P (RawU64 z))
  (HF : forall f, P (RawF64 f)) (HS : forall s, P (RawStr s))
  (HSeq : forall l c, Forall P l -> P (RawSeq l c))
  (HMap : forall m c, Forall (fun kr => P kr.2) m -> P (RawMap m c))
  (HBad : P RawBad).
Fixpoint raw_ind' (r : raw) : P r :=
  match r with
  | RawNull => HNull | RawBool b => HBool b | RawI64 z => HI z | RawU64 z => HU z
  | RawF64 f => HF f | RawStr s => HS s | RawBad => HBad
  | RawSeq l c => HSeq l c
      ((fix go l : Forall P l :=
          match l with
          | [] => @List.Forall_nil _ _
          | x :: l' => @List.Forall_cons _ _ _ _ (raw_ind' x) (go l')
          end) l)
  | RawMap m c => HMap m c
      ((fix go m : Forall (fun kr => P kr.2) m :=
          match m with
          | [] => @List.Forall_nil _ _
          | kr :: m' => @List.Forall_cons _ _ kr m' (raw_ind' kr.2) (go m')
          end) m)
  end.
End RawInd.

Definition visited_entry (visit : raw -> result InputError value)
  (kr : string * raw) (kv : string * value) : Prop :=
  kv.1 = kr.1 /\ visit kr.2 = Ok kv.2.

Lemma visit_seq_Ok visit acc items closed v :
  visit_seq visit acc items closed = Ok v <->
  closed = true /\ exists vs,
    Forall2 (fun r x => visit r = Ok x) items vs /\ v = Array (acc ++ vs).
Proof.
  revert acc. induction items as [|r items IH]; simpl; intros acc.
  - destruct closed; split; try done.
    + intros [= <-]. split; [done|]. exists []. by rewrite app_nil_r.
    + intros (_ & vs & H%Forall2_nil_inv_l & ->). by rewrite H, app_nil_r.
    + by intros [? _].
  - destruct (visit r) as [x|] eqn:Hr; simpl; [rewrite IH|]; split; try done.
    + intros (Hc & vs & Hvs & ->). split; [done|]. exists (x :: vs).
      split; [by constructor|]. by rewrite <-app_assoc.
    + intros (Hc & vs & Hvs & ->). split; [done|].
      apply Forall2_cons_inv_l in Hvs as (y & ys & Hy & Hys & ->).
      assert (x = y) as <- by congruence. exists ys. by rewrite <-app_assoc.
    + intros (Hc & vs & Hvs & ->). inversion Hvs; congruence.
Qed.

Lemma contains_key_elem {V} k (m : list (string * V)) :
  contains_key k m = true <-> k ∈ m.*1.
Proof.
  unfold contains_key. pose proof (map_get_None k m) as H.
  destruct (map_get k m) as [v|] eqn:Hg.
  - split; [|done]. intros _. destruct (decide (k ∈ m.*1)) as [|Hn]; [done|].
    by apply H in Hn.
  - split; [done|]. intros Hin. by destruct (proj1 H eq_refl).
Qed.

Lemma visit_map_Ok visit acc entries closed v :
  visit_map visit acc entries closed = Ok v <->
  closed = true /\ NoDup entries.*1 /\ (forall k, k ∈ entries.*1 -> k ∉ acc.*1) /\
  exists m', Forall2 (visited_entry visit) entries m' /\
    v = Object (fold_left (fun m kv => map_insert kv.1 kv.2 m) m' acc).
Proof.
  revert acc. induction entries as [|[k r] entries IH]; simpl; intros acc.
  - destruct closed; split; try done.
    + intros [= <-]. split; [done|]. split; [apply NoDup_nil_2|]. split; [set_solver|].
      by exists [].
    + intros (_ & _ & _ & m' & H%Forall2_nil_inv_l & ->). by rewrite H.
    + by intros [? _].
  - destruct (visit r) as [x|] eqn:Hr; simpl.
    + destruct (contains_key k acc) eqn:Hk.
      * split; [done|]. intros (_ & _ & Hdisj & _).
        apply contains_key_elem in Hk. destruct (Hdisj k); set_solver.
      * rewrite IH. assert (k ∉ acc.*1) as Hk'.
        { intros Hin%contains_key_elem. congruence. }
        split.
        -- intros (Hc & Hnd & Hdisj & m' & Hm & ->).
           setoid_rewrite map_insert_keys in Hdisj.
           split; [done|]. split; [apply NoDup_cons_2; [set_solver|done]|].
           split; [set_solver|]. exists ((k, x) :: m'). split; [|done].
           by repeat constructor.
        -- intros (Hc & Hnd & Hdisj & m' & Hm & ->).
           apply NoDup_cons in Hnd as [Hnk Hnd].
           split; [done|]. split; [done|]. split.
           { intros j Hj. rewrite map_insert_keys. set_solver. }
           apply Forall2_cons_inv_l in Hm as ([k' y] & ys & [Hky Hy] & Hys & ->).
           simpl in *. subst k'. assert (x = y) as <- by congruence. eauto.
    + split; [done|]. intros (_ & _ & _ & m' & Hm & _).
      apply Forall2_cons_inv_l in Hm as (? & ? & [? Hy] & _). simpl in *. congruence.
Qed.

(** Without repeated keys, collecting keeps every binding. *)
Lemma map_collect_perm {V} (l : list (string * V)) :
  NoDup l.*1 -> map_collect l ≡ₚ l.
Proof.
  unfold map_collect.
  enough (forall acc, NoDup l.*1 -> (forall k, k ∈ l.*1 -> k ∉ acc.*1) ->
    fold_left (fun m kv => map_insert kv.1 kv.2 m) l acc ≡ₚ acc ++ l) as H.
  { intros Hnd. apply (H []); set_solver. }
  assert (forall k (v : V) m, k ∉ m.*1 -> map_insert k v m ≡ₚ (k, v) :: m) as Hins.
  { intros k v m. induction m as [|[j w] m IH]; simpl; intros Hk; [done|].
    destruct (String.compare k j) eqn:Hc; [|done|].
    - apply String.compare_eq_iff in Hc. set_solver.
    - rewrite IH by set_solver. apply Permutation_swap. }
  induction l as [|[k v] l IH]; simpl; intros acc Hnd Hdisj; [by rewrite app_nil_r|].
  apply NoDup_cons in Hnd as [Hk Hnd]. rewrite IH; [|done|].
  - rewrite Hins by set_solver. apply Permutation_middle.
  - intros j Hj. rewrite map_insert_keys. set_solver.
Qed.

Lemma normal_entry_insert kv kv' m m' :
  normal_entry kv kv' -> Forall2 normal_entry m m' ->
  Forall2 normal_entry (map_insert kv.1 kv.2 m) (map_insert kv'.1 kv'.2 m').
Proof.
  intros Hkv. induction 1 as [|[j w] [j' w'] m m' Hj Hm IH]; simpl.
  - constructor; [|done]. by destruct kv, kv'.
  - destruct Hkv as [Hk Hv], Hj as [Hj Hw]. simpl in *. subst j'. rewrite Hk.
    destruct (String.compare kv.1 j); constructor; try done.
    + constructor; [done|exact Hm].
    + by rewrite Hk in IH.
Qed.

Lemma normal_entry_collect l l' :
  Forall2 normal_entry l l' -> Forall2 normal_entry (map_collect l) (map_collect l').
Proof.
  unfold map_collect. intros Hl.
  enough (forall acc acc', Forall2 normal_entry acc acc' ->
    Forall2 normal_entry (fold_left (fun m kv => map_insert kv.1 kv.2 m) l acc)
      (fold_left (fun m kv => map_insert kv.1 kv.2 m) l' acc')) as H by (apply H; constructor).
  induction Hl as [|kv kv' l l' Hkv Hl IH]; simpl; [done|].
  intros acc acc' Hacc. apply IH. by apply normal_entry_insert.
Qed.

Lemma Forall2_functional {A B} (R : A -> B -> Prop) l k k' :
  (forall x y y', R x y -> R x y' -> y = y') ->
  Forall2 R l k -> Forall2 R l k' -> k = k'.
Proof.
  intros HR H. revert k'. induction H as [|x y l k Hxy _ IH]; intros k' H';
    inversion H'; subst; [done|]. f_equal; eauto.
Qed.

Lemma normal_entry_functional kv x y : normal_entry kv x -> normal_entry kv y -> x = y.
Proof. destruct x, y. intros [? ?] [? ?]; simpl in *. congruence. Qed.

(** Normalizing the object of a duplicate-free list of entries. *)
Lemma normalize_collect_Ok l w :
  NoDup l.*1 ->
  normalize_value (Object (map_collect l)) = Ok w <->
  exists l', Forall2 normal_entry l l' /\ w = Object (map_collect l').
Proof.
  intros Hnd. rewrite normalize_object_Ok. split.
  - intros (m' & Hm & ->).
    assert (exists l', Forall2 normal_entry l l') as [l' Hl].
    { assert (forall kv, kv ∈ l -> exists kv', normal_entry kv kv') as Hex.
      { intros kv Hkv. rewrite <-(map_collect_perm l Hnd) in Hkv.
        apply list_elem_of_lookup in Hkv as [i Hi].
        destruct (Forall2_lookup_l _ _ _ _ _ Hm Hi) as (kv' & _ & H). eauto. }
      clear -Hex. induction l as [|kv l IH]; [by exists []|].
      destruct (Hex kv) as [kv' Hkv]; [set_solver|].
      destruct IH as [l' Hl]; [intros; apply Hex; set_solver|].
      exists (kv' :: l'). by constructor. }
    exists l'. split; [done|].
    rewrite (Forall2_functional _ _ _ _ normal_entry_functional Hm (normal_entry_collect _ _ Hl)).
    by rewrite (map_collect_id (map_collect l')) by auto with json.
  - intros (l' & Hl & ->). exists (map_collect l').
    split; [by apply normal_entry_collect|]. by rewrite (map_collect_id (map_collect l')) by auto with json.
Qed.

Lemma Forall2_iff_Forall {A B} (R S : A -> B -> Prop) l k :
  Forall (fun x => forall y, R x y <-> S x y) l -> Forall2 R l k <-> Forall2 S l k.
Proof.
  intros H. revert k. induction H as [|x l Hx _ IH]; intros k.
  - split; intros HF; inversion HF; constructor.
  - split; intros H; inversion H; subst; constructor; first [by apply Hx|by apply IH].
Qed.

Lemma visit_i64_spec z v :
  visit_i64 z = Ok v <-> Number <$> normalize_number (number_of_i64 z) = Ok v.
Proof.
  assert (MAX_SAFE_INTEGER < i64_max)%Z as Hmax by (unfold MAX_SAFE_INTEGER, i64_max; lia).
  unfold visit_i64, normalize_number, number_of_i64.
  destruct (z <? 0)%Z eqn:?; simpl; [destruct (_ && _); simpl; naive_solver|]. bools.
  destruct (z <=? i64_max)%Z eqn:?; simpl; [destruct (_ && _); simpl; naive_solver|]. bools.
  rewrite (proj2 (Z.ltb_lt MAX_SAFE_INTEGER z)), (proj2 (Z.leb_gt z MAX_SAFE_INTEGER)) by lia.
  rewrite andb_false_r. simpl. naive_solver.
Qed.

Lemma visit_u64_spec n v :
  visit_u64 n = Ok v <-> Number <$> normalize_number (PosInt (Z.of_N n)) = Ok v.
Proof.
  assert (MAX_SAFE_INTEGER < i64_max)%Z as Hmax by (unfold MAX_SAFE_INTEGER, i64_max; lia).
  unfold visit_u64, normalize_number. simpl.
  destruct (Z.of_N n <=? i64_max)%Z eqn:?; simpl; bools.
  - rewrite (proj2 (Z.leb_le (- MAX_SAFE_INTEGER) (Z.of_N n))) by (unfold MAX_SAFE_INTEGER; lia).
    simpl. rewrite Z.ltb_antisym. destruct (_ <=? _)%Z; simpl; naive_solver.
  - destruct (_ <? _)%Z; simpl; naive_solver.
Qed.

Lemma visit_f64_spec f v :
  visit_f64 f = Ok v <-> Number <$> normalize_number (Float f) = Ok v.
Proof.
  unfold visit_f64, normalize_number. simpl. destruct (normalize_f64 f); simpl; naive_solver.
Qed.

Lemma Forall2_split {A B} (R S : A -> B -> Prop) (P : A -> Prop) l k :
  Forall (fun x => forall y, R x y <-> P x /\ S x y) l ->
  Forall2 R l k <-> Forall P l /\ Forall2 S l k.
Proof.
  intros H. revert k. induction H as [|x l Hx _ IH]; intros k.
  - split; [intros HF; inversion HF; by repeat constructor|].
    intros [_ HF]. by inversion HF.
  - split.
    + intros HF. inversion HF as [|? y ? k' Hxy Hl]; subst.
      apply Hx in Hxy as [? ?]. apply IH in Hl as [? ?]. by repeat constructor.
    + intros [HP HF]. inversion HP; inversion HF; subst. constructor; [by apply Hx|by apply IH].
Qed.

Lemma visited_fields_iff (m : list (string * raw)) m' :
  Forall (fun kr => forall v,
    visit kr.2 = Ok v <-> raw_clean kr.2 = true /\ normalize_value (raw_value kr.2) = Ok v) m ->
  Forall2 (visited_entry visit) m m' <->
  Forall (fun kr => raw_clean kr.2 = true) m /\
  Forall2 normal_entry (map (fun kr => (kr.1, raw_value kr.2)) m) m'.
Proof.
  intros IH. rewrite Forall2_fmap_l. apply Forall2_split.
  eapply Forall_impl; [exact IH|]. intros kr Hkr kv. unfold visited_entry, normal_entry.
  simpl. specialize (Hkr kv.2). tauto.
Qed.

Lemma visit_spec r v :
  visit r = Ok v <-> raw_clean r = true /\ normalize_value (raw_value r) = Ok v.
Proof.
  revert v. induction r as [|b|z|n|f|s|l c IH|m c IH|] using raw_ind'; intros v;
    try (simpl; split; [by intros [= <-]|by intros [_ [= <-]]]).
  - change (visit (RawI64 z)) with (visit_i64 z). rewrite visit_i64_spec. simpl. tauto.
  - change (visit (RawU64 n)) with (visit_u64 n). rewrite visit_u64_spec. simpl. tauto.
  - change (visit (RawF64 f)) with (visit_f64 f). rewrite visit_f64_spec. simpl. tauto.
  - change (visit (RawSeq l c)) with (visit_seq visit [] l c).
    change (raw_value (RawSeq l c)) with (Array (map raw_value l)).
    rewrite visit_seq_Ok, normalize_array_Ok. simpl raw_clean.
    rewrite andb_true_iff, forallb_Forall_iff.
    setoid_rewrite Forall2_fmap_l. setoid_rewrite (Forall2_split _ _ _ _ _ IH).
    naive_solver.
  - change (visit (RawMap m c)) with (visit_map visit [] m c).
    change (raw_value (RawMap m c))
      with (Object (map_collect (map (fun kr => (kr.1, raw_value kr.2)) m))).
    rewrite visit_map_Ok. simpl raw_clean.
    rewrite !andb_true_iff, bool_decide_eq_true.
    rewrite (forallb_Forall_iff (fun kr : string * raw => raw_clean kr.2)).
    assert ((map (fun kr => (kr.1, raw_value kr.2)) m).*1 = m.*1) as Hkeys.
    { rewrite <-list_fmap_compose. by apply list_fmap_ext. }
    setoid_rewrite (visited_fields_iff _ _ IH). split.
    + intros (-> & Hnd & _ & m' & [Hc Hm] & ->). split; [done|].
      apply normalize_collect_Ok; [by rewrite Hkeys|]. by exists m'.
    + intros [[[-> Hnd] Hc] H]. apply normalize_collect_Ok in H as (m' & Hm & ->);
        [|by rewrite Hkeys].
      split; [done|]. split; [done|]. split; [set_solver|]. by exists m'.
  - simpl. naive_solver.
Qed.

(** C37: the parsing entry and the programmatic entry agree.  Reading a document
    succeeds with [v] exactly when the document is complete and well formed,
    no object in it repeats a key, and normalizing the value it denotes gives
    [v]. *)
Theorem from_slice_spec r at_end v :
  from_slice r at_end = Ok v <->
  at_end = true /\ raw_clean r = true /\ normalize_value (raw_value r) = Ok v.
Proof.
  pose proof (visit_spec r v) as Hr.
  unfold from_slice. destruct (visit r) as [x|e]; simpl; [destruct at_end; simpl|]; naive_solver.
Qed.
