(* ===== verification/Identity.v ===== *)
(** * Typed content identities (src/core/identity.rs, src/core/records.rs)

    [RecordId<T>] is a digest tagged with the Rust type it identifies; the tag
    selects the [KIND] that appears in the public spelling and separates the
    hash domains.  SHA-256 and the RFC 8785 serializer are third-party: they
    are the operations of the class [ThirdParty], and what is relied on of
    them is the class [ThirdPartyLaws]. *)
From S2P Require Import Prelude Json Canonical.
From Stdlib Require Import Ascii.

Abbreviation bytes := (list ascii).

Class ThirdParty := {
  sha256 : bytes -> bytes;
  (** [serde_json_canonicalizer::to_vec]. *)
  to_vec : value -> option bytes;
}.

(** Documented behaviour: a SHA-256 digest is 32 bytes; RFC 8785 serialization
    of a value of the restricted domain succeeds, and its result parses back
    to that value, so distinct values have distinct representations. *)
Class ThirdPartyLaws `{ThirdParty} : Prop := {
  sha256_length b : length (sha256 b) = 32%nat;
  to_vec_total v : in_domain v = true -> value_wf v -> is_Some (to_vec v);
  to_vec_inj v w b :
    in_domain v = true -> value_wf v -> in_domain w = true -> value_wf w ->
    to_vec v = Some b -> to_vec w = Some b -> v = w;
}.

Definition bytes_of (s : string) : bytes := String.list_ascii_of_string s.
Definition string_of (b : bytes) : string := String.string_of_list_ascii b.

Lemma string_of_bytes_of s : string_of (bytes_of s) = s.
Proof. apply String.string_of_list_ascii_of_string. Qed.
Lemma bytes_of_string_of b : bytes_of (string_of b) = b.
Proof. apply String.list_ascii_of_string_of_list_ascii. Qed.
Lemma bytes_of_app a b : bytes_of (a +:+ b) = bytes_of a ++ bytes_of b.
Proof.
  induction a as [|c a IH]; [done|].
  change (c :: bytes_of (a +:+ b) = c :: (bytes_of a ++ bytes_of b)). by rewrite IH.
Qed.

(** ** Hexadecimal digests *)

Definition DIGITS : list ascii := bytes_of "0123456789abcdef".
Definition hex_digit (n : nat) : ascii := nth n DIGITS "0"%char.

Fixpoint hex (b : bytes) : bytes :=
  match b with
  | [] => []
  | x :: b' =>
      hex_digit (nat_of_ascii x / 16) :: hex_digit (nat_of_ascii x mod 16) :: hex b'
  end.

Definition is_ascii_digit (c : ascii) : bool :=
  (48 <=? nat_of_ascii c) && (nat_of_ascii c <=? 57).
Definition is_hex_lower (c : ascii) : bool :=
  is_ascii_digit c || ((97 <=? nat_of_ascii c) && (nat_of_ascii c <=? 102)).

(** Reached only on bytes accepted by [is_hex_lower]. *)
Definition hex_nibble (c : ascii) : nat :=
  if is_ascii_digit c then nat_of_ascii c - 48 else nat_of_ascii c - 97 + 10.

(** [digest.as_bytes().as_chunks::<2>()], each pair folded into one byte. *)
Fixpoint unhex (b : bytes) : bytes :=
  match b with
  | hi :: lo :: b' => ascii_of_nat (16 * hex_nibble hi + hex_nibble lo) :: unhex b'
  | _ => []
  end.

Lemma hex_length b : length (hex b) = (2 * length b)%nat.
Proof. induction b as [|x b IH]; [done|]. cbn [hex length]. rewrite IH. lia. Qed.

Lemma hex_digit_byte x :
  is_hex_lower (hex_digit (nat_of_ascii x / 16)) = true /\
  is_hex_lower (hex_digit (nat_of_ascii x mod 16)) = true /\
  ascii_of_nat (16 * hex_nibble (hex_digit (nat_of_ascii x / 16))
                + hex_nibble (hex_digit (nat_of_ascii x mod 16))) = x.
Proof. destruct x as [[] [] [] [] [] [] [] []]; vm_compute; auto. Qed.

Lemma hex_lower b : forallb is_hex_lower (hex b) = true.
Proof.
  induction b as [|x b IH]; [done|]. cbn [hex forallb].
  destruct (hex_digit_byte x) as (-> & -> & _). done.
Qed.

Lemma unhex_hex b : unhex (hex b) = b.
Proof.
  induction b as [|x b IH]; [done|]. cbn [hex unhex].
  destruct (hex_digit_byte x) as (_ & _ & ->). by rewrite IH.
Qed.

Lemma hex_inj b c : hex b = hex c -> b = c.
Proof. intros H. by rewrite <-(unhex_hex b), H, unhex_hex. Qed.

Lemma hex_nibble_pair hi lo :
  is_hex_lower hi = true -> is_hex_lower lo = true ->
  let n := (16 * hex_nibble hi + hex_nibble lo)%nat in
  hex_digit (nat_of_ascii (ascii_of_nat n) / 16) = hi /\
  hex_digit (nat_of_ascii (ascii_of_nat n) mod 16) = lo.
Proof.
  intros Hhi Hlo n.
  assert (forall c, is_hex_lower c = true -> (hex_nibble c < 16)%nat /\ hex_digit (hex_nibble c) = c) as Hc.
  { clear. intros c Hc. destruct c as [[] [] [] [] [] [] [] []]; vm_compute in Hc;
      try discriminate; vm_compute; split; auto; lia. }
  destruct (Hc hi Hhi) as [Hh1 Hh2], (Hc lo Hlo) as [Hl1 Hl2].
  rewrite nat_ascii_embedding by (unfold n; lia).
  rewrite <-(Nat.div_unique n 16 (hex_nibble hi) (hex_nibble lo)) by (unfold n; lia).
  rewrite <-(Nat.mod_unique n 16 (hex_nibble hi) (hex_nibble lo)) by (unfold n; lia).
  done.
Qed.

Lemma hex_unhex b :
  Nat.even (length b) = true -> forallb is_hex_lower b = true -> hex (unhex b) = b.
Proof.
  induction b as [b IH] using (induction_ltof1 _ (@length ascii)). unfold ltof in IH.
  destruct b as [|hi [|lo b]]; intros Hlen Hb; [done|done|].
  simpl in Hb. apply andb_true_iff in Hb as [Hhi Hb]. apply andb_true_iff in Hb as [Hlo Hb].
  cbn [unhex hex]. destruct (hex_nibble_pair hi lo Hhi Hlo) as [-> ->].
  by rewrite IH by (auto || simpl; lia).
Qed.

(** ** Typed identities *)

(** The Rust types that carry an identity. *)
Inductive IdentityType :=
  | SchemaResource | ProblemContractResource | SourceBundleResource
  | SourceBundleArtifact | DatasetArtifact | ResultArtifact | MetricsArtifact
  | EnvironmentDefinitionType | WorkerDefinitionType | DatasetDefinitionType
  | ProblemDefinitionType | ImplementationDefinitionType | ExecutionPolicyType
  | ObservationPolicyType | DatasetConfigurationType | ProblemConfigurationType
  | ImplementationConfigurationType | DatasetInstanceType | ProblemInstanceType
  | LogicalCandidateType | LogicalSpecificationType | LogicalObservationSlotType
  | LogicalAttemptSlotType | ResolvedEnvironmentType | ResolvedLaunchType
  | ExecutorDefinitionType | ResolvedWorkerType | ApplicabilityType
  | ResolvedSpecificationType | ResolvedObservationSlotType
  | ResolvedAttemptSlotType | ObservationType | AttemptType
  | DatasetDerivationType | ProblemPreparationType | DiagnosticResource.

#[export] Instance identity_type_eq_dec : EqDecision IdentityType.
Proof. solve_decision. Defined.

Definition KIND (t : IdentityType) : string :=
  match t with
  | SchemaResource => "schema"
  | ProblemContractResource => "problem-contract"
  | SourceBundleResource => "source-bundle"
  | SourceBundleArtifact | DatasetArtifact | ResultArtifact | MetricsArtifact => "artifact"
  | EnvironmentDefinitionType => "environment-definition"
  | WorkerDefinitionType => "worker-definition"
  | DatasetDefinitionType => "dataset-definition"
  | ProblemDefinitionType => "problem-definition"
  | ImplementationDefinitionType => "implementation-definition"
  | ExecutionPolicyType => "execution-policy"
  | ObservationPolicyType => "observation-policy"
  | DatasetConfigurationType => "dataset-configuration"
  | ProblemConfigurationType => "problem-configuration"
  | ImplementationConfigurationType => "implementation-configuration"
  | DatasetInstanceType => "dataset-instance"
  | ProblemInstanceType => "problem-instance"
  | LogicalCandidateType => "logical-candidate"
  | LogicalSpecificationType => "logical-specification"
  | LogicalObservationSlotType => "logical-observation-slot"
  | LogicalAttemptSlotType => "logical-attempt-slot"
  | ResolvedEnvironmentType => "resolved-environment"
  | ResolvedLaunchType => "resolved-launch"
  | ExecutorDefinitionType => "executor-definition"
  | ResolvedWorkerType => "resolved-worker"
  | ApplicabilityType => "applicability"
  | ResolvedSpecificationType => "resolved-specification"
  | ResolvedObservationSlotType => "resolved-observation-slot"
  | ResolvedAttemptSlotType => "resolved-attempt-slot"
  | ObservationType => "observation"
  | AttemptType => "attempt"
  | DatasetDerivationType => "dataset-derivation"
  | ProblemPreparationType => "problem-preparation"
  | DiagnosticResource => "diagnostic"
  end.

(** [RecordId<T>]: the marker is the phantom parameter. *)
Record RecordId (t : IdentityType) := from_digest { digest : bytes }.
Arguments from_digest {t} digest.
Arguments digest {t} r.

#[export] Instance record_id_eq_dec t : EqDecision (RecordId t).
Proof. solve_decision. Defined.

(** [[u8; 32]]. *)
Definition id_wf {t} (id : RecordId t) : Prop := length (digest id) = 32%nat.

Definition id_prefix (t : IdentityType) : string := "mw1-" +:+ KIND t +:+ "-".

(** [Display for RecordId<T>]. *)
Definition to_string {t} (id : RecordId t) : string :=
  id_prefix t +:+ string_of (hex (digest id)).

Inductive RecordIdParseError :=
  | WrongKind (expected : string)
  | InvalidDigest.

(** [str::strip_prefix]. *)
Fixpoint strip_prefix (p s : string) : option string :=
  match p, s with
  | EmptyString, _ => Some s
  | String a p', String b s' => if Ascii.eqb a b then strip_prefix p' s' else None
  | String _ _, EmptyString => None
  end.

(** [FromStr for RecordId<T>]. *)
Definition from_str (t : IdentityType) (s : string)
  : result RecordIdParseError (RecordId t) :=
  let prefix := id_prefix t in
  text ← ok_or (strip_prefix prefix s) (WrongKind prefix);
  let digest := bytes_of text in
  if negb (length digest =? 64)%nat || negb (forallb is_hex_lower digest)
  then Err InvalidDigest
  else Ok (from_digest (unhex digest)).

Lemma strip_prefix_app p s : strip_prefix p (p +:+ s) = Some s.
Proof. induction p as [|a p IH]; simpl; [done|]. by rewrite Ascii.eqb_refl. Qed.

Lemma strip_prefix_Some p s r : strip_prefix p s = Some r -> s = p +:+ r.
Proof.
  revert s. induction p as [|a p IH]; intros s; simpl; [by intros [= ->]|].
  destruct s as [|b s]; [done|].
  destruct (Ascii.eqb_spec a b) as [->|]; [|done]. intros H%IH. by subst.
Qed.

Lemma parse_to_string t (id : RecordId t) :
  id_wf id -> from_str t (to_string id) = Ok id.
Proof.
  unfold id_wf, from_str, to_string. intros Hlen.
  rewrite strip_prefix_app. simpl. rewrite bytes_of_string_of, hex_length, hex_lower, Hlen.
  simpl. rewrite unhex_hex. by destruct id.
Qed.

(** What a text that parses is; shared by the readers of stored identities. *)
Lemma from_str_inv t s id :
  from_str t s = Ok id -> s = to_string id /\ id_wf id.
Proof.
  unfold from_str, to_string, id_wf. intros H. ok_inv.
  destruct (_ || _) eqn:Hc; [done|]. ok_inv. bools. simpl.
  match goal with H : strip_prefix _ _ = Some ?t |- _ =>
    apply strip_prefix_Some in H as ->; rename t into text end.
  apply Nat.eqb_eq in H.
  rewrite hex_unhex by (rewrite ?H; done). rewrite string_of_bytes_of. split; [done|].
  pose proof (hex_length (unhex (bytes_of text))) as Hl.
  rewrite hex_unhex in Hl by (rewrite ?H; done). lia.
Qed.

(** The public spelling of an identity is the only text that reads back as
    it: a text parses to an identity exactly when the identity has a 32-byte
    digest and the text is its spelling. *)
Theorem from_str_spelling t s (id : RecordId t) :
  from_str t s = Ok id <-> s = to_string id /\ id_wf id.
Proof. split; [apply from_str_inv|]. intros [-> Hid]. by apply parse_to_string. Qed.

(** ** Hashing *)

Definition NUL : ascii := "000"%char.

Inductive CanonicalJsonError :=
  | InvalidInput (e : InputError)
  | InvalidValue (v : CanonicalValueViolation)
  | Canonicalization.

Inductive IdentityError :=
  | CanonicalError (e : CanonicalJsonError).

Definition IDENTITY_VERSION : Z := 1.

(** [object] and [fields]: collected into an ordered map. *)
Definition object (fields : list (string * value)) : value := Object (map_collect fields).

Definition id_value {t} (id : RecordId t) : value := Str (to_string id).
Definition optional {A} (f : A -> value) (o : option A) : value :=
  match o with Some a => f a | None => Null end.

(** The bytes that enter the hasher. *)
Definition identity_transcript (t : IdentityType) (canonical : bytes) : bytes :=
  bytes_of (KIND t) ++ NUL :: canonical.

Record IdentifiedRecord (t : IdentityType) (R : Type) := {
  id : RecordId t;
  record : R;
}.
Arguments id {t R} i.
Arguments record {t R} i.

(** [trait IdentityRecord: IdentityKind]. *)
Class IdentityRecord (R : Type) := {
  identity_type : IdentityType;
  identity_fields : R -> list (string * value);
}.
Arguments identity_type R {_}.

Definition identity_value `{IdentityRecord R} (r : R) : value :=
  Object (map_insert "version" (json_u64 IDENTITY_VERSION) (identity_fields r)).

Section Hashing.
Context `{ThirdParty}.

(** [CanonicalValue::to_canonical_bytes]. *)
Definition to_canonical_bytes (v : value) : result CanonicalJsonError bytes :=
  ok_or (to_vec v) Canonicalization.

Definition canonical_bytes (v : value) : result IdentityError bytes :=
  c ← map_err (fun e => CanonicalError (InvalidValue e)) (try_from v);
  map_err CanonicalError (to_canonical_bytes c).

Definition hash_identity (t : IdentityType) (canonical : bytes) : bytes :=
  sha256 (identity_transcript t canonical).

Definition canonical_identity_bytes `{IdentityRecord R} (r : R)
  : result IdentityError bytes :=
  canonical_bytes (identity_value r).

Definition record_id `{IdentityRecord R} (r : R)
  : result IdentityError (RecordId (identity_type R)) :=
  b ← canonical_identity_bytes r;
  Ok (from_digest (hash_identity (identity_type R) b)).

Definition identify_record `{IdentityRecord R} (r : R)
  : result IdentityError (IdentifiedRecord (identity_type R) R) :=
  i ← record_id r;
  Ok {| id := i; record := r |}.

Definition run_attempt_id (slot : RecordId ResolvedAttemptSlotType) (retry_index : Z)
  : result IdentityError (RecordId AttemptType) :=
  b ← canonical_bytes (object [
    ("version", json_u64 IDENTITY_VERSION);
    ("slot", id_value slot);
    ("retry_index", json_u64 retry_index)]);
  Ok (from_digest (hash_identity AttemptType b)).

Definition canonical_resource_identity_bytes (v : value) : result IdentityError bytes :=
  canonical_bytes (object [("version", json_u64 IDENTITY_VERSION); ("value", v)]).

Definition identify_canonical (t : IdentityType) (v : value)
  : result IdentityError (RecordId t) :=
  b ← canonical_resource_identity_bytes v;
  Ok (from_digest (hash_identity t b)).
End Hashing.

(** No kind contains a NUL byte, so the separator is unambiguous. *)
Lemma KIND_no_NUL t : NUL ∉ bytes_of (KIND t).
Proof. destruct t; apply (bool_decide_unpack _); vm_compute; exact I. Qed.

Lemma separator_inj (a b c d : bytes) :
  NUL ∉ a -> NUL ∉ b -> a ++ NUL :: c = b ++ NUL :: d -> a = b /\ c = d.
Proof.
  revert b. induction a as [|x a IH]; intros [|y b] Ha Hb Heq; simpl in Heq;
    simplify_eq; [done|set_solver|set_solver|].
  destruct (IH b) as [-> ->]; [set_solver|set_solver|done|]. done.
Qed.

(** C35: the hash domains are separated: two identities are computed from the
    same bytes only when their kinds agree and their canonical representations
    agree, so no record of one kind shares its hash input with a record of
    another. *)
Theorem identity_transcript_inj t t' b b' :
  identity_transcript t b = identity_transcript t' b' -> KIND t = KIND t' /\ b = b'.
Proof.
  unfold identity_transcript. intros H.
  apply separator_inj in H as [Hk ->]; try apply KIND_no_NUL. split; [|done].
  rewrite <-(string_of_bytes_of (KIND t)), Hk. apply string_of_bytes_of.
Qed.

Lemma identity_transcript_inj_witness :
  KIND SourceBundleArtifact = KIND DatasetArtifact /\ [NUL] = [NUL].
Proof. apply (identity_transcript_inj SourceBundleArtifact DatasetArtifact). reflexivity. Defined.

(** Identity values whose numbers are already spelled canonically go through
    normalization unchanged. *)
Definition number_spelled (n : number) : bool :=
  match n with Float f => negb (fract_is_zero f) | _ => true end.

Lemma normalize_number_spelled n n' :
  number_spelled n = true -> normalize_number n = Ok n' -> n' = n.
Proof.
  unfold normalize_number. destruct n as [z|z|f]; simpl; intros Hs H.
  - destruct (z <=? i64_max)%Z; simpl in H; repeat case_match; congruence.
  - repeat case_match; congruence.
  - unfold normalize_f64, number_from_f64 in H. bools.
    destruct (is_finite f); simpl in H; [|done]. rewrite Hs in H. simpl in H. congruence.
Qed.

Lemma normalize_value_spelled v w :
  value_numbers number_spelled v = true -> value_wf v -> normalize_value v = Ok w -> w = v.
Proof.
  revert w. induction v as [|b|n|s|l IH|m IH] using value_ind'; intros w Hs Hw H;
    try (injection H as <-; done).
  - simpl in *. ok_inv. f_equal. by apply normalize_number_spelled.
  - apply normalize_array_Ok in H as (l' & Hl & ->). f_equal.
    apply value_numbers_array in Hs. apply value_wf_array in Hw.
    induction Hl as [|x y l l' Hxy Hl IHl]; [done|].
    inversion IH; inversion Hs; inversion Hw; subst. f_equal; eauto.
  - apply normalize_object_Ok in H as (m' & Hm & ->). f_equal.
    apply value_numbers_object in Hs. apply value_wf_object in Hw as [Hwf Hw].
    enough (m' = m) as -> by by apply map_collect_id. clear Hwf.
    induction Hm as [|[k x] [k' y] m m' [Hk Hxy] Hm IHm]; [done|].
    inversion IH; inversion Hs; inversion Hw; simpl in *; subst. f_equal; [f_equal|]; eauto.
Qed.

Lemma string_append_inj (p s s' : string) : p +:+ s = p +:+ s' -> s = s'.
Proof. induction p as [|a p IH]; simpl; [done|]. intros [= H]. auto. Qed.

Lemma to_string_inj {t} (i j : RecordId t) : to_string i = to_string j -> i = j.
Proof.
  unfold to_string. intros H%string_append_inj.
  apply (f_equal bytes_of) in H. rewrite !bytes_of_string_of in H.
  apply hex_inj in H. destruct i, j. simpl in H. by subst.
Qed.
