(* ===== verification/ThirdPartyModel.v ===== *)
(** * The assumptions on third-party code are consistent

    A concrete serializer and digest that satisfy [ThirdPartyLaws]: the
    serializer is a self-delimiting binary encoding of JSON values and the
    digest is a checksum.  Concrete runs of the model use this instance. *)
From S2P Require Import Prelude Json Canonical Identity.
From Stdlib Require Import Ascii Floats.SpecFloat.

Abbreviation code := (list bool).

(** A self-delimiting encoding: a code is never a proper prefix of another. *)
Definition delimiting {A} (enc : A -> code) : Prop :=
  forall a b r s, enc a ++ r = enc b ++ s -> a = b /\ r = s.

Fixpoint enc_pos (p : positive) : code :=
  match p with
  | xH => [false]
  | xO q => true :: false :: enc_pos q
  | xI q => true :: true :: enc_pos q
  end.
Definition enc_Z (z : Z) : code :=
  match z with
  | Z0 => [false; false]
  | Zpos p => false :: true :: enc_pos p
  | Zneg p => true :: false :: enc_pos p
  end.
Definition enc_ascii (c : ascii) : code :=
  match c with Ascii b0 b1 b2 b3 b4 b5 b6 b7 => [b0; b1; b2; b3; b4; b5; b6; b7] end.
Fixpoint enc_list {A} (enc : A -> code) (l : list A) : code :=
  match l with [] => [false] | x :: l' => true :: enc x ++ enc_list enc l' end.
Definition enc_string (s : string) : code := enc_list enc_ascii (bytes_of s).
Definition enc_float (f : spec_float) : code :=
  match f with
  | S754_zero b => [false; false; b]
  | S754_infinity b => [false; true; b]
  | S754_nan => [true; false]
  | S754_finite b m e => true :: true :: b :: enc_pos m ++ enc_Z e
  end.
Definition enc_number (n : number) : code :=
  match n with
  | PosInt z => false :: false :: enc_Z z
  | NegInt z => false :: true :: enc_Z z
  | Float f => true :: enc_float f
  end.
Fixpoint enc_value (v : value) : code :=
  match v with
  | Null => [false; false; false]
  | Bool b => [false; false; true; b]
  | Number n => false :: true :: false :: enc_number n
  | Str s => false :: true :: true :: enc_string s
  | Array l => true :: false :: enc_list enc_value l
  | Object m => true :: true :: enc_list (fun kv => enc_string kv.1 ++ enc_value kv.2) m
  end.

Lemma enc_pos_delimiting : delimiting enc_pos.
Proof.
  intros p. induction p as [p IH|p IH|]; intros [q|q|] r s; simpl; intros H; simplify_eq;
    try done; destruct (IH _ _ _ H) as [-> ->]; done.
Qed.
Lemma enc_Z_delimiting : delimiting enc_Z.
Proof.
  intros [|p|p] [|q|q] r s; simpl; intros H; simplify_eq; try done;
    destruct (enc_pos_delimiting _ _ _ _ H) as [-> ->]; done.
Qed.
Lemma enc_ascii_delimiting : delimiting enc_ascii.
Proof.
  intros [] [] r s. simpl. intros H. by simplify_eq.
Qed.
Lemma enc_list_delimiting {A} (enc : A -> code) (l : list A) :
  Forall (fun a => forall b r s, enc a ++ r = enc b ++ s -> a = b /\ r = s) l ->
  forall k r s, enc_list enc l ++ r = enc_list enc k ++ s -> l = k /\ r = s.
Proof.
  induction 1 as [|x l Hx _ IH]; intros [|y k] r s; simpl; intros H; simplify_eq; [done|].
  rewrite <-!app_assoc in H. apply Hx in H as [-> H]. by apply IH in H as [-> ->].
Qed.
Lemma enc_string_delimiting : delimiting enc_string.
Proof.
  intros a b r s H. apply enc_list_delimiting in H as [H ->].
  - split; [|done]. by rewrite <-(string_of_bytes_of a), H, string_of_bytes_of.
  - apply Forall_true. apply enc_ascii_delimiting.
Qed.
Lemma enc_float_delimiting : delimiting enc_float.
Proof.
  intros [b|b| |b m e] [c|c| |c n f] r s; simpl; intros H; simplify_eq; try done.
  match goal with E : _ ++ _ = _ ++ _ |- _ => rename E into H end.
  rewrite <-!app_assoc in H. apply enc_pos_delimiting in H as [-> H].
  by apply enc_Z_delimiting in H as [-> ->].
Qed.
Lemma enc_number_delimiting : delimiting enc_number.
Proof.
  intros [z|z|f] [y|y|g] r s; simpl; intros H; simplify_eq;
    first [apply enc_Z_delimiting in H as [-> ->] | apply enc_float_delimiting in H as [-> ->]];
    done.
Qed.
Lemma enc_value_delimiting : delimiting enc_value.
Proof.
  intros v. induction v as [|b|n|t|l IH|m IH] using value_ind'; intros w r s;
    destruct w as [|c|n'|t'|k|m']; simpl; intros H; simplify_eq; try done.
  - by apply enc_number_delimiting in H as [-> ->].
  - by apply enc_string_delimiting in H as [-> ->].
  - by apply enc_list_delimiting in H as [-> ->].
  - apply enc_list_delimiting in H as [-> ->]; [done|].
    eapply Forall_impl; [exact IH|]. intros [i x] Hx [j y] r' s'. simpl in *. intros E.
    rewrite <-!app_assoc in E. apply enc_string_delimiting in E as [-> E].
    by apply Hx in E as [-> ->].
Qed.

Definition bit (b : bool) : ascii := if b then "1"%char else "0"%char.

(** A rotating sum of the bytes without carries, padded to 32 bytes, stands for
    the digest. *)
Definition mix (a b : ascii) : ascii :=
  match a, b with
  | Ascii a0 a1 a2 a3 a4 a5 a6 a7, Ascii b0 b1 b2 b3 b4 b5 b6 b7 =>
      Ascii (xorb a7 b0) (xorb a0 b1) (xorb a1 b2) (xorb a2 b3) (xorb (xorb a3 a7) b4)
        (xorb a4 b5) (xorb (xorb a5 a7) b6) (xorb a6 b7)
  end.
Fixpoint checksum (b : bytes) (s t u : ascii) : bytes :=
  match b with
  | [] => s :: t :: u :: repeat "0"%char 29
  | c :: b' => checksum b' t u (mix (mix s t) c)
  end.

Lemma length_checksum b s t u : length (checksum b s t u) = 32%nat.
Proof. revert s t u. induction b as [|c b IH]; intros; [done|apply IH]. Qed.

Definition model : ThirdParty := {|
  sha256 b := checksum b "a"%char "b"%char "c"%char;
  to_vec v := Some (map bit (enc_value v)) |}.

Lemma map_bit_inj a b : map bit a = map bit b -> a = b.
Proof.
  revert b. induction a as [|x a IH]; intros [|y b]; simpl; intros H; try discriminate; [done|].
  injection H as H1 H2. f_equal; [|auto]. destruct x, y; done.
Qed.

Lemma model_laws : @ThirdPartyLaws model.
Proof.
  split; simpl; [intros; apply length_checksum|eauto|].
  intros v w b _ _ _ _ [= <-] [= H]. symmetry in H. apply map_bit_inj in H.
  apply (f_equal (fun c => c ++ [])) in H. by apply enc_value_delimiting in H as [-> _].
Qed.
