(* ===== verification/Profile.v ===== *)
(** * Profile policies and schedules (src/core/profile.rs, src/core/duration.rs)

    Check schedules, control schedules, duration bounds and the completion
    policy shared by the three profile deliveries. *)
From S2P Require Import Prelude Json Canonical Identity.
From Stdlib Require Import Ascii Floats.SpecFloat.

(** ** Durations *)
Module Duration.
(** [char::is_whitespace] on the ASCII range. *)
Definition is_space (c : ascii) : bool :=
  let n := nat_of_ascii c in (n =? 32) || ((9 <=? n) && (n <=? 13)).

Fixpoint trim_start (s : bytes) : bytes :=
  match s with
  | c :: s' => if is_space c then trim_start s' else s
  | [] => []
  end.
Definition trim (s : bytes) : bytes := rev (trim_start (rev (trim_start s))).

(** [str::strip_suffix]. *)
Definition strip_suffix (suffix s : bytes) : option bytes :=
  if decide (drop (length s - length suffix) s = suffix)
  then if (length suffix <=? length s) then Some (take (length s - length suffix) s) else None
  else None.

(** [str::parse::<u64>] on a string of decimal digits. *)
Definition digit (c : ascii) : Z := Z.of_nat (nat_of_ascii c) - 48.
Fixpoint decimal (acc : Z) (s : bytes) : Z :=
  match s with
  | [] => acc
  | c :: s' => decimal (10 * acc + digit c) s'
  end.
Definition parse_u64 (s : bytes) : option Z :=
  let n := decimal 0 s in if (n <=? u64_max)%Z then Some n else None.

Definition units : list (bytes * Z) :=
  [(bytes_of "ms", 1000000%Z); (bytes_of "s", 1000000000%Z);
   (bytes_of "min", 60000000000%Z); (bytes_of "h", 3600000000000%Z)].

(** [Iterator::find_map]. *)
Fixpoint find_map {A B} (f : A -> option B) (l : list A) : option B :=
  match l with
  | [] => None
  | x :: l' => match f x with Some b => Some b | None => find_map f l' end
  end.

Inductive DurationError := MissingUnit | NotPositiveDecimal | ZeroInvalidOrTooLarge.

(** The first suffix that matches, in the order of [units]: a text ending in
    ["ms"] never reaches the unit ["s"]. *)
Definition positive_nanoseconds (s : string) : result DurationError Z :=
  let value := trim (bytes_of s) in
  '(number, multiplier) ← ok_or
    (find_map (fun '(suffix, m) =>
       (fun n => (trim n, m)) <$> strip_suffix suffix value) units) MissingUnit;
  let leading := match number with
    | c :: _ => is_ascii_digit c && negb (Ascii.eqb c "0"%char)
    | [] => false
    end in
  if negb leading || negb (forallb is_ascii_digit number)
  then Err NotPositiveDecimal
  else
    ok_or
      (n ← parse_u64 number;
       t ← checked_mul_u64 n multiplier;
       if (0 <? t)%Z && (t <=? MAX_SAFE_INTEGER)%Z then Some t else None)
      ZeroInvalidOrTooLarge.

Example one_minute : positive_nanoseconds " 2 min " = Ok 120000000000%Z.
Proof. vm_compute. reflexivity. Qed.
Example no_leading_zero : positive_nanoseconds "01s" = Err NotPositiveDecimal.
Proof. vm_compute. reflexivity. Qed.
Example too_large : positive_nanoseconds "2502h" = Err ZeroInvalidOrTooLarge.
Proof. vm_compute. reflexivity. Qed.

(** The accepted durations; shared by the policies that hold one. *)
Lemma positive_nanoseconds_range s n :
  positive_nanoseconds s = Ok n -> (0 < n <= MAX_SAFE_INTEGER)%Z.
Proof.
  unfold positive_nanoseconds. intros H.
  apply bind_Ok in H as ([number m] & _ & H).
  destruct (_ || _); [done|].
  destruct (parse_u64 number) as [k|]; simpl in *; [|done].
  destruct (checked_mul_u64 k m) as [t|]; simpl in *; [|done].
  destruct (_ && _) eqn:Hb; simpl in H; [|done]. simplify_eq. bools. lia.
Qed.

End Duration.

(** ** Check schedules *)
Inductive CheckSchedule :=
  | Periodic (every start : Z)
  | Explicit (indices : list Z).

(** The wire forms accepted by [Deserialize for CheckSchedule]. *)
Inductive RawSchedule :=
  | RawPeriodic (every start : Z)
  | RawExplicit (indices : list Z)
  | RawGenerated (start ratio count : Z) (prefix : list Z).

Inductive ScheduleError :=
  | GeometricParameters
  | UnsafeIndex
  | ArithmeticOverflow
  | InvalidSchedule.

(** [windows(2).all(|pair| pair[0] < pair[1])]. *)
Fixpoint strictly_increasing (l : list Z) : bool :=
  match l with
  | x :: (y :: _) as l' => (x <? y)%Z && strictly_increasing l'
  | _ => true
  end.

Module Check.
Definition is_valid (s : CheckSchedule) : bool :=
  match s with
  | Periodic every start =>
      (0 <? every)%Z && (every <=? MAX_SAFE_INTEGER)%Z && (start <=? MAX_SAFE_INTEGER)%Z
  | Explicit indices =>
      negb (bool_decide (indices = [])) &&
      forallb (fun n => n <=? MAX_SAFE_INTEGER)%Z indices &&
      strictly_increasing indices
  end.

Definition validate (s : CheckSchedule) : result ScheduleError unit :=
  ensure (is_valid s) InvalidSchedule.

(** The [for index in 0..count] loop; [remaining] iterations are left. *)
Fixpoint generate (remaining : nat) (indices : list Z) (value ratio : Z)
  : result ScheduleError (list Z) :=
  match remaining with
  | O => Ok indices
  | S remaining' =>
      if (MAX_SAFE_INTEGER <? value)%Z then Err UnsafeIndex
      else
        let indices' := indices ++ [value] in
        match remaining' with
        | O => Ok indices'
        | S _ =>
            value' ← ok_or (checked_mul_u64 value ratio) ArithmeticOverflow;
            generate remaining' indices' value' ratio
        end
  end.

Definition deserialize (r : RawSchedule) : result ScheduleError CheckSchedule :=
  match r with
  | RawPeriodic every start => Ok (Periodic every start)
  | RawExplicit indices => Ok (Explicit indices)
  | RawGenerated start ratio count prefix =>
      if (count =? 0)%Z || (MAX_SAFE_INTEGER <? count)%Z || (start =? 0)%Z
         || negb ((2 <=? ratio)%Z && (ratio <=? MAX_SAFE_INTEGER)%Z)
      then Err GeometricParameters
      else
        indices ← generate (Z.to_nat count) prefix start ratio;
        _ ← validate (Explicit indices);
        Ok (Explicit indices)
  end.

(** [slice::binary_search(..).is_ok()] and [partition_point] are specified
    on a sorted slice: membership, and the length of the prefix that
    satisfies the predicate. *)
Definition binary_search_is_ok (indices : list Z) (n : Z) : bool :=
  existsb (Z.eqb n) indices.

Fixpoint partition_point (p : Z -> bool) (l : list Z) : nat :=
  match l with
  | [] => 0
  | x :: l' => if p x then S (partition_point p l') else 0
  end.

Definition includes (s : CheckSchedule) (index : Z) : bool :=
  match s with
  | Periodic every start =>
      (0 <? every)%Z && (start <=? index)%Z && ((index - start) mod every =? 0)%Z
  | Explicit indices => binary_search_is_ok indices index
  end.

(** [checked_div] fails on a zero divisor. *)
Definition checked_div (a b : Z) : option Z :=
  if (b =? 0)%Z then None else Some (a / b)%Z.

Definition next_after (s : CheckSchedule) (previous : option Z) : option Z :=
  match s with
  | Periodic every start =>
      let next := match previous with
        | None => Some start
        | Some index =>
            if (index <? start)%Z then Some start
            else
              q ← checked_div (index - start) every;
              q1 ← checked_add_u64 q 1;
              m ← checked_mul_u64 q1 every;
              checked_add_u64 m start
        end in
      n ← next; if (n <=? MAX_SAFE_INTEGER)%Z then Some n else None
  | Explicit indices =>
      indices !! match previous with
                 | None => 0%nat
                 | Some index => partition_point (fun n => n <=? index)%Z indices
                 end
  end.

(** *** The indices a schedule includes, in order *)

Lemma strictly_increasing_sorted l :
  strictly_increasing l = true <-> StronglySorted Z.lt l.
Proof.
  induction l as [|x [|y l] IH]; [split; [constructor|done]|split; [repeat constructor|done]|].
  change (strictly_increasing (x :: y :: l))
    with ((x <? y)%Z && strictly_increasing (y :: l)).
  rewrite andb_true_iff, IH, Z.ltb_lt. split.
  - intros [Hxy Hs]. constructor; [done|]. pose proof Hs as Hs'.
    apply StronglySorted_inv in Hs' as [_ Hy]. constructor; [done|].
    eapply Forall_impl; [exact Hy|]. simpl. lia.
  - intros [Hs Hx]%StronglySorted_inv. split; [by inversion Hx|done].
Qed.

(** [m] is the least included index above [previous]. *)
Definition least_above (s : CheckSchedule) (previous : option Z) (m : Z) : Prop :=
  includes s m = true /\ (forall p, previous = Some p -> p < m)%Z /\
  forall k, includes s k = true -> (forall p, previous = Some p -> p < k)%Z -> (m <= k)%Z.

Lemma includes_explicit l k : includes (Explicit l) k = true <-> k ∈ l.
Proof.
  unfold includes, binary_search_is_ok. rewrite existsb_exists.
  setoid_rewrite <-list_elem_of_In. setoid_rewrite Z.eqb_eq. naive_solver.
Qed.

Lemma partition_point_spec l i :
  StronglySorted Z.lt l ->
  forall k n, l !! k = Some n ->
    (k < partition_point (fun m => m <=? i)%Z l)%nat <-> (n <= i)%Z.
Proof.
  induction l as [|x l IH]; [done|]. intros [Hl Hx]%StronglySorted_inv k n Hk. simpl.
  rewrite Forall_forall in Hx.
  destruct (x <=? i)%Z eqn:Hxi; bools; destruct k as [|k]; simpl in Hk.
  - injection Hk as <-. lia.
  - specialize (IH Hl k n Hk). lia.
  - injection Hk as <-. lia.
  - apply list_elem_of_lookup_2, Hx in Hk. lia.
Qed.

Definition schedule_wf (s : CheckSchedule) : Prop :=
  match s with
  | Periodic every start => (0 <= every)%Z /\ (0 <= start)%Z
  | Explicit indices => Forall (fun n => 0 <= n)%Z indices
  end.

Lemma next_after_explicit l previous :
  StronglySorted Z.lt l ->
  match next_after (Explicit l) previous with
  | Some m => least_above (Explicit l) previous m
  | None => forall k, k ∈ l -> (forall p, previous = Some p -> p < k)%Z -> False
  end.
Proof.
  intros Hs. simpl.
  set (i := match previous with None => 0%nat | Some index => _ end).
  assert (forall k n, l !! k = Some n ->
    (i <= k)%nat <-> (forall p, previous = Some p -> p < n)%Z) as Hi.
  { intros k n Hk. unfold i. destruct previous as [p|]; [|split; [done|lia]].
    pose proof (partition_point_spec l p Hs k n Hk) as Hp.
    split; [intros ? ? [= <-]; lia|]. intros H. specialize (H p eq_refl). lia. }
  destruct (l !! i) as [m|] eqn:Hm.
  - split; [apply includes_explicit; by eapply list_elem_of_lookup_2|].
    split; [by apply (Hi i)|]. intros k Hk Habove.
    apply includes_explicit, list_elem_of_lookup in Hk as [j Hj].
    apply (Hi j k Hj) in Habove.
    destruct (decide (i = j)) as [<-|Hne]; [simplify_eq; lia|].
    assert (m < k)%Z; [|lia].
    by eapply (StronglySorted_lookup_lt Z.lt l i j); eauto; lia.
  - intros k Hk Habove. apply list_elem_of_lookup in Hk as [j Hj].
    apply (Hi j k Hj) in Habove. apply lookup_ge_None in Hm.
    apply lookup_lt_Some in Hj. lia.
Qed.

Lemma periodic_next every start p :
  (0 < every)%Z -> (0 <= start <= p)%Z ->
  next_after (Periodic every start) (Some p) =
    let m := (((p - start) / every + 1) * every + start)%Z in
    if (m <=? MAX_SAFE_INTEGER)%Z then Some m else None.
Proof.
  intros He Hp. simpl. rewrite (proj2 (Z.ltb_ge p start)) by lia.
  unfold checked_div. rewrite (proj2 (Z.eqb_neq every 0)) by lia. simpl.
  assert (0 <= (p - start) / every)%Z by (apply Z.div_pos; lia).
  set (q := ((p - start) / every)%Z) in *.
  assert (MAX_SAFE_INTEGER < u64_max)%Z as Hm by (unfold MAX_SAFE_INTEGER, u64_max; lia).
  unfold checked_add_u64 at 2.
  destruct (q + 1 <=? u64_max)%Z eqn:H1; bools; simpl;
    [unfold checked_mul_u64; destruct ((q + 1) * every <=? u64_max)%Z eqn:H2; bools; simpl;
     [unfold checked_add_u64;
      destruct ((q + 1) * every + start <=? u64_max)%Z eqn:H3; bools; simpl; [done|]|]|];
    rewrite (proj2 (Z.leb_gt _ MAX_SAFE_INTEGER)) by nia; done.
Qed.

Lemma periodic_least every start p :
  (0 < every)%Z -> (start <= p)%Z ->
  least_above (Periodic every start) (Some p) (((p - start) / every + 1) * every + start).
Proof.
  intros He Hp. unfold least_above, includes.
  pose proof (Z.div_mod (p - start) every ltac:(lia)) as Hd.
  pose proof (Z.mod_pos_bound (p - start) every ltac:(lia)) as Hr.
  assert (0 <= (p - start) / every)%Z by (apply Z.div_pos; lia).
  set (q := ((p - start) / every)%Z) in *.
  rewrite (proj2 (Z.ltb_lt 0 every)) by lia. split; [|split].
  - rewrite (proj2 (Z.leb_le start _)) by nia. simpl. apply Z.eqb_eq.
    replace ((q + 1) * every + start - start)%Z with ((q + 1) * every)%Z by lia.
    apply Z.mod_mul. lia.
  - intros ? [= <-]. nia.
  - intros k Hk Habove. specialize (Habove p eq_refl).
    apply andb_true_iff in Hk as [_ Hk]. apply Z.eqb_eq, Z.mod_divide in Hk as [j Hj]; [|lia].
    assert (q < j)%Z by nia. nia.
Qed.

(** [next_after] and [includes] agree: on a validated schedule,
    [next_after(previous)] is the least included index above [previous]
    ([None] standing for the start), a safe integer; and it is absent only
    when every included index above [previous] exceeds the safe range. *)
Theorem next_after_spec s previous :
  is_valid s = true -> schedule_wf s ->
  (forall p, previous = Some p -> 0 <= p)%Z ->
  match next_after s previous with
  | Some m => (m <= MAX_SAFE_INTEGER)%Z /\ least_above s previous m
  | None => forall k, includes s k = true ->
      (forall p, previous = Some p -> p < k)%Z -> (MAX_SAFE_INTEGER < k)%Z
  end.
Proof.
  destruct s as [every start|l]; intros Hv Hwf Hprev; simpl in Hv.
  - bools. assert (least_above (Periodic every start) None start) as Hfirst.
    { unfold least_above, includes. rewrite Z.sub_diag, Z.mod_0_l by lia.
      rewrite (proj2 (Z.ltb_lt 0 every)), Z.leb_refl by lia.
      split; [done|]. split; [done|]. intros k Hk _. apply andb_true_iff in Hk as [Hk _]. bools. lia. }
    assert (forall p, previous = Some p -> (p < start)%Z ->
      least_above (Periodic every start) previous start) as Hlow.
    { intros p -> Hp. destruct Hfirst as (? & _ & Hl). split; [done|].
      split; [by intros ? [= <-]|]. intros k Hk _. by apply Hl. }
    destruct previous as [p|]; [destruct (Z.ltb_spec p start) as [Hp|Hp]|].
    + simpl. rewrite (proj2 (Z.ltb_lt p start)) by lia. simpl.
      rewrite (proj2 (Z.leb_le start _)) by lia. split; [lia|]. by apply (Hlow p).
    + destruct Hwf. rewrite periodic_next by lia. cbv zeta.
      pose proof (periodic_least every start p ltac:(lia) Hp) as Hleast.
      destruct (_ <=? _)%Z eqn:Hm; bools; [done|].
      intros k Hk Habove. destruct Hleast as (_ & _ & Hl). specialize (Hl k Hk Habove). lia.
    + simpl. rewrite (proj2 (Z.leb_le start _)) by lia. split; [lia|done].
  - apply andb_true_iff in Hv as [Hv Hs]. apply andb_true_iff in Hv as [_ Hsafe].
    apply strictly_increasing_sorted in Hs.
    pose proof (next_after_explicit l previous Hs) as Hn.
    destruct (next_after _ _) as [m|].
    + split; [|done]. destruct Hn as (Hm & _ & _). apply includes_explicit in Hm.
      rewrite forallb_forall in Hsafe. apply list_elem_of_In, Hsafe in Hm. bools. lia.
    + intros k Hk Habove. apply includes_explicit in Hk. by destruct (Hn k).
Qed.

Lemma next_after_spec_witness :
  next_after (Periodic 5 2) (Some 11%Z) = Some 12%Z /\
  least_above (Periodic 5 2) (Some 11%Z) 12.
Proof.
  split; [reflexivity|].
  apply (next_after_spec (Periodic 5 2) (Some 11%Z)); [reflexivity|simpl; lia|].
  intros p [= <-]. lia.
Defined.

(** *** Geometric generation *)

Definition geometric_values (n : nat) (start ratio : Z) : list Z :=
  map (fun i => start * ratio ^ Z.of_nat i)%Z (seq 0 n).

Lemma geometric_values_S n start ratio :
  geometric_values (S n) start ratio = start :: geometric_values n (start * ratio) ratio.
Proof.
  unfold geometric_values. simpl seq. rewrite <-seq_shift, fmap_cons, map_map.
  f_equal; [simpl; lia|]. apply map_ext. intros i.
  rewrite Nat2Z.inj_succ, Z.pow_succ_r by lia. lia.
Qed.

Lemma generate_Ok n acc value ratio l :
  (0 < value)%Z -> (2 <= ratio)%Z ->
  generate n acc value ratio = Ok l <->
  l = acc ++ geometric_values n value ratio /\
  Forall (fun k => k <= MAX_SAFE_INTEGER)%Z (geometric_values n value ratio).
Proof.
  assert (MAX_SAFE_INTEGER < u64_max)%Z as Hm by (unfold MAX_SAFE_INTEGER, u64_max; lia).
  revert acc value. induction n as [|n IH]; intros acc value Hv Hr.
  - simpl. rewrite app_nil_r. split; [intros [= <-]; by split|by intros [-> _]].
  - rewrite geometric_values_S, Forall_cons. cbn [generate].
    destruct (Z.ltb_spec MAX_SAFE_INTEGER value) as [Hu|Hu];
      [split; [done|intros (_ & ? & _); lia]|].
    destruct n as [|n].
    + simpl. split; [intros [= <-]; repeat split; [lia|constructor]|by intros [-> _]].
    + unfold checked_mul_u64. destruct (value * ratio <=? u64_max)%Z eqn:Ho.
      * simpl ok_or. cbn [mbind result_bind]. rewrite IH by nia.
        rewrite <-app_assoc. simpl. naive_solver lia.
      * simpl. bools. split; [done|]. intros (_ & _ & HF).
        rewrite geometric_values_S, Forall_cons in HF. lia.
Qed.

(** A geometric declaration is accepted exactly when its parameters are in
    range and the indices it denotes (the prefix, then [start * ratio^i])
    are strictly increasing safe integers; the checked multiplication never
    lets a wrapped index through. *)
Theorem deserialize_geometric start ratio count prefix s :
  (0 <= start)%Z -> (0 <= count)%Z ->
  deserialize (RawGenerated start ratio count prefix) = Ok s <->
  (1 <= start)%Z /\ (1 <= count <= MAX_SAFE_INTEGER)%Z /\
  (2 <= ratio <= MAX_SAFE_INTEGER)%Z /\
  s = Explicit (prefix ++ geometric_values (Z.to_nat count) start ratio) /\
  is_valid s = true.
Proof.
  intros Hs Hc. simpl.
  destruct (_ || _) eqn:Hguard.
  - split; [done|]. intros (? & ? & ? & _). exfalso.
    rewrite !orb_true_iff, negb_true_iff, andb_false_iff, !Z.eqb_eq, Z.ltb_lt, !Z.leb_gt in Hguard.
    lia.
  - bools. destruct (generate _ _ _ _) as [l|e] eqn:Hg; simpl.
    + apply generate_Ok in Hg as [-> Hsafe]; [|lia|lia].
      unfold validate, ensure. destruct (is_valid _) eqn:Hv; simpl.
      * split; [intros [= <-]; repeat split; auto; lia|].
        by intros (_ & _ & _ & -> & _).
      * split; [done|]. intros (_ & _ & _ & -> & Hv'). congruence.
    + split; [done|]. intros (_ & _ & _ & -> & Hv). exfalso.
      assert (generate (Z.to_nat count) prefix start ratio =
        Ok (prefix ++ geometric_values (Z.to_nat count) start ratio)) as Heq; [|congruence].
      apply generate_Ok; [lia|lia|]. split; [done|]. simpl in Hv.
      apply andb_true_iff in Hv as [Hv _]. apply andb_true_iff in Hv as [_ Hv].
      rewrite forallb_app in Hv. apply andb_true_iff in Hv as [_ Hv].
      rewrite forallb_Forall_iff in Hv. eapply Forall_impl; [exact Hv|].
      intros k Hk. simpl in Hk. by apply Z.leb_le.
Qed.

Lemma deserialize_geometric_witness :
  deserialize (RawGenerated 2 3 4 [0; 1]%Z) = Ok (Explicit [0; 1; 2; 6; 18; 54]%Z).
Proof. apply deserialize_geometric; [lia|lia|]. repeat split; vm_compute; congruence. Defined.
End Check.

(** ** Completion policy *)
Inductive Direction := AtMost | AtLeast.
#[export] Instance direction_eq_dec : EqDecision Direction.
Proof. solve_decision. Defined.

Record ProfilePolicy := {
  metric : option string;
  direction : option Direction;
  threshold : option spec_float;
  record_thresholds : list spec_float;
  max_observations : Z;
  max_checkpoint_bytes : Z;
  max_trace_points : Z;
  max_buffer_bytes : Z;
  terminal_reserve_bytes : Z;
  max_active_time : string;
}.

(** Why a profile stopped. *)
Inductive StopReason :=
  | StopTargetReached | StopFixedCount | TraceLimit | ObservationLimit | ByteLimit
  | StopActiveTimeLimit | ImplementationStopped.
#[export] Instance stop_reason_eq_dec : EqDecision StopReason.
Proof. solve_decision. Defined.
Definition stop_reason_name (r : StopReason) : string :=
  match r with
  | StopTargetReached => "target_reached" | StopFixedCount => "fixed_count"
  | TraceLimit => "trace_limit" | ObservationLimit => "observation_limit"
  | ByteLimit => "byte_limit" | StopActiveTimeLimit => "active_time_limit"
  | ImplementationStopped => "implementation_stopped"
  end.
Definition all_stop_reasons : list StopReason :=
  [StopTargetReached; StopFixedCount; TraceLimit; ObservationLimit; ByteLimit; StopActiveTimeLimit;
   ImplementationStopped].

Inductive PolicyError :=
  | MaxObservations
  | BufferedBounds
  | ActiveTime (e : Duration.DurationError)
  | TooFewTracePoints
  | RecordThresholds
  | IncompleteCompletion.

Module Policy.
(** [positive_bound], the field deserializer. *)
Definition positive_bound (v : Z) : option Z :=
  if (v =? 0)%Z || (MAX_SAFE_INTEGER <? v)%Z then None else Some v.

Definition active_time_ns (p : ProfilePolicy) : result PolicyError Z :=
  map_err ActiveTime (Duration.positive_nanoseconds (max_active_time p)).

Definition validate_buffered (p : ProfilePolicy) : result PolicyError unit :=
  if existsb (fun v => (v =? 0)%Z || (MAX_SAFE_INTEGER <? v)%Z)
       [max_trace_points p; max_buffer_bytes p; terminal_reserve_bytes p]
     || (max_buffer_bytes p <? terminal_reserve_bytes p)%Z
  then Err BufferedBounds else Ok tt.

Definition thresholds (p : ProfilePolicy) : list spec_float :=
  match record_thresholds p with
  | [] => option_list (threshold p)
  | l => l
  end.

Definition reaches (p : ProfilePolicy) (value threshold : spec_float) : bool :=
  match direction p with
  | Some AtMost => SFleb value threshold
  | Some AtLeast => SFleb threshold value
  | None => false
  end.

(** [thresholds.windows(2).any(|v| v[0] == v[1] || !self.reaches(v[1], v[0]))]. *)
Fixpoint unordered (p : ProfilePolicy) (l : list spec_float) : bool :=
  match l with
  | a :: (b :: _) as l' => SFeqb a b || negb (reaches p b a) || unordered p l'
  | _ => false
  end.

(** [thresholds.last() != Some(&target)]: binary64 equality. *)
Definition last_differs (l : list spec_float) (target : spec_float) : bool :=
  match last l with
  | Some t => negb (SFeqb t target)
  | None => true
  end.

Definition validate (p : ProfilePolicy) : result PolicyError unit :=
  if (max_observations p =? 0)%Z || (MAX_SAFE_INTEGER <? max_observations p)%Z
  then Err MaxObservations
  else
    _ ← (if negb (max_trace_points p =? 0)%Z || negb (max_buffer_bytes p =? 0)%Z
            || negb (terminal_reserve_bytes p =? 0)%Z
         then validate_buffered p else Ok tt);
    _ ← active_time_ns p;
    match metric p, direction p, threshold p, record_thresholds p with
    | None, None, None, [] =>
        if negb (max_trace_points p =? 0)%Z && (max_trace_points p <? max_observations p)%Z
        then Err TooFewTracePoints else Ok tt
    | Some m, Some _, Some target, _ =>
        if negb (String.eqb m "") && is_finite target then
          let ts := thresholds p in
          if (max_observations p <? Z.of_nat (length ts))%Z
             || last_differs ts target
             || existsb (fun v => negb (is_finite v)) ts
             || unordered p ts
          then Err RecordThresholds else Ok tt
        else Err IncompleteCompletion
    | _, _, _, _ => Err IncompleteCompletion
    end.

(** *** Comparison of binary64 numbers is a preorder on the numbers *)
Lemma SFleb_trans a b c : SFleb a b = true -> SFleb b c = true -> SFleb a c = true.
Proof.
  unfold SFleb, SFcompare.
  destruct a as [[]|[]| |[] ma ea], b as [[]|[]| |[] mb eb], c as [[]|[]| |[] mc ec];
    try done;
    change (Pos.compare_cont Eq ?x ?y) with (Pos.compare x y);
    destruct (Z.compare_spec ea eb), (Z.compare_spec eb ec), (Z.compare_spec ea ec);
    try done; try lia;
    destruct (Pos.compare_spec ma mb), (Pos.compare_spec mb mc), (Pos.compare_spec ma mc);
    simpl; try done; lia.
Qed.

Lemma SFleb_refl a : is_finite a = true -> SFleb a a = true.
Proof.
  unfold SFleb, SFcompare. destruct a as [[]|[]| |[] m e]; try done; intros _;
    rewrite Z.compare_refl; change (Pos.compare_cont Eq m m) with (Pos.compare m m);
    by rewrite Pos.compare_refl.
Qed.

Lemma reaches_trans p a b c :
  reaches p a b = true -> reaches p b c = true -> reaches p a c = true.
Proof.
  unfold reaches. destruct (direction p) as [[]|]; [| |done]; eauto using SFleb_trans.
Qed.

Lemma unordered_suffix p ts i j a b :
  unordered p ts = false -> (i < j)%nat -> ts !! i = Some a -> ts !! j = Some b ->
  reaches p b a = true.
Proof.
  revert i j a b. induction ts as [|x [|y ts] IH]; intros i j a b Hu Hij Hi Hj;
    [done|destruct i, j; simpl in *; try done; lia|].
  apply orb_false_iff in Hu as [Hu Hrest]. apply orb_false_iff in Hu as [_ Hxy].
  apply negb_false_iff in Hxy.
  destruct i as [|i], j as [|j]; simpl in Hi, Hj; try lia.
  - injection Hi as <-. destruct j as [|j]; simpl in Hj; [by injection Hj as <-|].
    eapply reaches_trans; [|exact Hxy]. apply (IH 0%nat (S j)); auto; lia.
  - apply (IH i j); auto; lia.
Qed.

(** In a validated policy with a completion target the recorded
    thresholds are nested: a value that reaches one threshold reaches every
    earlier one; and the last threshold equals the target, so a value that
    reaches the last threshold reaches them all. *)
Theorem validate_thresholds p target i j a b value :
  validate p = Ok tt -> threshold p = Some target ->
  thresholds p !! i = Some a -> thresholds p !! j = Some b -> (i <= j)%nat ->
  reaches p value b = true ->
  reaches p value a = true /\
  exists t, last (thresholds p) = Some t /\ SFeqb t target = true.
Proof.
  unfold validate. intros Hv Ht Hi Hj Hij Hr.
  destruct (_ || _); [done|]. apply bind_Ok in Hv as (? & _ & Hv).
  apply bind_Ok in Hv as (? & _ & Hv). rewrite Ht in Hv.
  destruct (metric p) as [m|]; [|by destruct (direction p)].
  destruct (direction p) as [d|]; [|done].
  destruct (_ && _); [|done]. destruct (_ || _) eqn:Hg; [done|].
  apply orb_false_iff in Hg as [Hg Hu]. apply orb_false_iff in Hg as [Hg _].
  apply orb_false_iff in Hg as [_ Hl]. split.
  - destruct (decide (i = j)) as [<-|Hne]; [by simplify_eq|].
    eapply reaches_trans; [exact Hr|]. eapply (unordered_suffix p _ i j); eauto. lia.
  - unfold last_differs in Hl. destruct (last (thresholds p)) as [t|]; [|done].
    exists t. by apply negb_false_iff in Hl.
Qed.

Definition example_policy : ProfilePolicy := {|
  metric := Some "gap"; direction := Some AtMost;
  threshold := Some (S754_finite false 1 (-3));
  record_thresholds := [S754_finite false 1 0; S754_finite false 1 (-3)];
  max_observations := 4; max_checkpoint_bytes := 0; max_trace_points := 0;
  max_buffer_bytes := 0; terminal_reserve_bytes := 0; max_active_time := "10s" |}.

Lemma validate_thresholds_witness :
  validate example_policy = Ok tt /\
  (reaches example_policy (S754_zero false) (S754_finite false 1 0) = true /\
   exists t, last (thresholds example_policy) = Some t /\
     SFeqb t (S754_finite false 1 (-3)) = true).
Proof.
  split; [vm_compute; reflexivity|].
  apply (validate_thresholds example_policy (S754_finite false 1 (-3)) 0 1
           (S754_finite false 1 0) (S754_finite false 1 (-3)));
    try (vm_compute; reflexivity). lia.
Defined.
End Policy.

(** ** Control schedules of fresh sequences *)
Inductive ControlSchedule :=
  | ExplicitControls (controls : list value)
  | Linear (field : string) (start step : spec_float) (count : Z) (prefix : list value)
  | Geometric (field : string) (start ratio : spec_float) (count : Z) (prefix : list value).

Record FreshControl := {
  schedule_index : Z;
  observation_control : value;
}.

Inductive ControlError :=
  | CountOutOfBound
  | ControlNotObject
  | EmptyField
  | NoGeneratedControls
  | NotFinite
  | ControlValue (e : CanonicalValueViolation).

Module Control.
Definition prefix (s : ControlSchedule) : list value :=
  match s with
  | ExplicitControls _ => []
  | Linear _ _ _ _ p | Geometric _ _ _ _ p => p
  end.

(** [u64::saturating_add]. *)
Definition saturating_add (a b : Z) : Z := Z.min u64_max (a + b).

Definition len (s : ControlSchedule) : Z :=
  match s with
  | ExplicitControls controls => Z.of_nat (length controls)
  | Linear _ _ _ count p | Geometric _ _ _ count p =>
      saturating_add count (Z.of_nat (length p))
  end.

Definition is_object (v : value) : bool :=
  match v with Object _ => true | _ => false end.

(** The body shared by the loops over authored controls. *)
Definition push_authored (controls : list value) (v : value)
  : result ControlError (list value) :=
  if negb (is_object v) then Err ControlNotObject
  else c ← map_err ControlValue (try_from v); Ok (controls ++ [c]).

(** [json!(value as i64)] or [json!(value)]. *)
Definition control_number (f : spec_float) : number :=
  if fract_is_zero f && (Z.abs (f64_trunc f) <=? MAX_SAFE_INTEGER)%Z
  then number_of_i64 (f64_trunc f) else Float f.

(** The [for index in 0..generated] loop. *)
Fixpoint generate (remaining : nat) (field : string)
  (next : spec_float -> spec_float) (value : spec_float) (controls : list Json.value)
  : result ControlError (list Json.value) :=
  match remaining with
  | O => Ok controls
  | S remaining' =>
      if negb (is_finite value) then Err NotFinite
      else
        c ← map_err ControlValue
              (try_from (object [(field, Number (control_number value))]));
        let controls' := controls ++ [c] in
        match remaining' with
        | O => Ok controls'
        | S _ => generate remaining' field next (next value) controls'
        end
  end.

(** [value + step] and [value * ratio] in binary64. *)
Definition next_value (s : ControlSchedule) (value : spec_float) : spec_float :=
  match s with
  | Linear _ _ step _ _ => SFadd 53 1024 value step
  | Geometric _ _ ratio _ _ => SFmul 53 1024 value ratio
  | ExplicitControls _ => value
  end.

(** Memory reservation succeeds in the model. *)
Definition expand (s : ControlSchedule) (bound : Z)
  : result ControlError (list value) :=
  let count := len s in
  if (count =? 0)%Z || (bound <? count)%Z || (MAX_SAFE_INTEGER <? count)%Z
  then Err CountOutOfBound
  else
    match s with
    | ExplicitControls values => try_fold push_authored [] values
    | Linear field start _ _ _ | Geometric field start _ _ _ =>
        if String.eqb field "" then Err EmptyField
        else
          controls ← try_fold push_authored [] (prefix s);
          let generated := (count - Z.of_nat (length (prefix s)))%Z in
          if (generated =? 0)%Z then Err NoGeneratedControls
          else generate (Z.to_nat generated) field (next_value s) start controls
    end.

Lemma push_authored_fold acc l k :
  try_fold push_authored acc l = Ok k ->
  exists l', k = acc ++ l' /\ Forall2 (fun v w => is_object v = true /\ try_from v = Ok w) l l'.
Proof.
  revert acc. induction l as [|v l IH]; simpl; intros acc H.
  - injection H as <-. exists []. by rewrite app_nil_r.
  - apply bind_Ok in H as (acc' & Hv & H). unfold push_authored in Hv.
    destruct (is_object v) eqn:Ho; simpl in Hv; [|done].
    apply bind_Ok in Hv as (c & Hc & [= <-]). apply map_err_Ok in Hc.
    apply IH in H as (l' & -> & Hl'). exists (c :: l').
    rewrite <-app_assoc. split; [done|]. by constructor.
Qed.

Lemma generate_length n field next v acc k :
  generate n field next v acc = Ok k ->
  exists l, k = acc ++ l /\ length l = n /\
    Forall (fun c => exists f, is_finite f = true /\
      try_from (object [(field, Number (control_number f))]) = Ok c) l.
Proof.
  revert v acc. induction n as [|n IH]; intros v acc H.
  - injection H as <-. exists []. by rewrite app_nil_r.
  - cbn [generate] in H. destruct (is_finite v) eqn:Hf; [simpl in H|done].
    apply bind_Ok in H as (c & Hc & H).
    apply map_err_Ok in Hc.
    destruct n as [|n].
    + injection H as <-. exists [c]. repeat split. repeat constructor. eauto.
    + apply IH in H as (l & -> & Hl & HF). exists (c :: l).
      rewrite <-app_assoc. simpl. repeat split; [by rewrite Hl|]. constructor; eauto.
Qed.

Lemma control_number_wf f : is_finite f = true -> number_wf (control_number f) = true.
Proof.
  unfold control_number. intros Hf. destruct (_ && _) eqn:H; [|done]. bools.
  assert (MAX_SAFE_INTEGER < i64_max)%Z by (unfold MAX_SAFE_INTEGER, i64_max; lia).
  assert (i64_min < - MAX_SAFE_INTEGER)%Z by (unfold MAX_SAFE_INTEGER, i64_min; lia).
  assert (i64_max < u64_max)%Z by (unfold u64_max, i64_max; lia).
  unfold number_of_i64. destruct (_ <? 0)%Z eqn:Hs; bools; simpl; unfold in_i64, in_u64; lia.
Qed.

(** Authored control values hold numbers [serde_json] can hold. *)
Definition schedule_wf (s : ControlSchedule) : Prop :=
  match s with
  | ExplicitControls l => Forall (fun v => value_numbers_wf v = true) l
  | Linear _ _ _ count p | Geometric _ _ _ count p =>
      (0 <= count)%Z /\ Forall (fun v => value_numbers_wf v = true) p
  end.

Definition canonical_object (c : value) : Prop :=
  is_object c = true /\ in_domain c = true /\ value_wf c.

Lemma try_from_object v c :
  is_object v = true -> value_numbers_wf v = true -> try_from v = Ok c -> canonical_object c.
Proof.
  intros Ho Hn H. unfold try_from in H.
  pose proof (normalize_value_domain v c Hn H) as [? ?]. repeat split; auto.
  destruct v; try done. simpl in H. ok_inv. done.
Qed.

Lemma generated_object field f c :
  is_finite f = true -> try_from (object [(field, Number (control_number f))]) = Ok c ->
  canonical_object c.
Proof.
  intros Hf. apply try_from_object; [done|].
  change (number_wf (control_number f) && true = true). by rewrite control_number_wf.
Qed.

Lemma authored_objects l l' :
  Forall (fun v => value_numbers_wf v = true) l ->
  Forall2 (fun v w => is_object v = true /\ try_from v = Ok w) l l' ->
  Forall canonical_object l'.
Proof.
  intros Hn Hl. eapply Forall2_Forall_r_impl; [exact Hl|exact Hn|].
  intros v w Hv [Ho Ht]. eauto using try_from_object.
Qed.

(** Expanding a schedule delivers exactly [len] controls, no more than the
    observation bound, each of them a canonical object. *)
Theorem expand_spec s bound controls :
  schedule_wf s -> expand s bound = Ok controls ->
  Z.of_nat (length controls) = len s /\ (0 < len s <= bound)%Z /\
  Forall canonical_object controls.
Proof.
  intros Hwf H. unfold expand in H. destruct (_ || _) eqn:Hg; [done|]. bools.
  assert (0 <= len s)%Z as Hlen.
  { destruct s; simpl in *; unfold saturating_add, u64_max; lia. }
  assert (forall field start count p, (0 <= count)%Z ->
    Forall (fun v => value_numbers_wf v = true) p -> prefix s = p ->
    len s = saturating_add count (Z.of_nat (length p)) ->
    (if String.eqb field "" then Err EmptyField
     else
       c ← try_fold push_authored [] (prefix s);
       let generated := (len s - Z.of_nat (length (prefix s)))%Z in
       if (generated =? 0)%Z then Err NoGeneratedControls
       else generate (Z.to_nat generated) field (next_value s) start c) = Ok controls ->
    Z.of_nat (length controls) = len s /\ Forall canonical_object controls) as Hgen.
  { clear H. intros field start count p Hc Hp -> Hls HH. destruct (String.eqb field ""); [done|].
    apply bind_Ok in HH as (c & Ha & HH).
    apply push_authored_fold in Ha as (p' & -> & Hp'). simpl in HH.
    destruct (len s - _ =? 0)%Z eqn:Hz; [done|].
    apply generate_length in HH as (l & -> & Hl & HF).
    apply Forall2_length in Hp' as Hpl. bools.
    rewrite length_app, Hl, <-Hpl.
    assert (Z.of_nat (length p) <= len s)%Z.
    { unfold saturating_add in Hls. unfold MAX_SAFE_INTEGER, u64_max in *. lia. }
    split; [lia|]. apply Forall_app. split; [by eapply authored_objects|].
    eapply Forall_impl; [exact HF|]. intros c (f & Hf & Ht). by eapply generated_object. }
  assert (Z.of_nat (length controls) = len s /\ Forall canonical_object controls) as [? ?];
    [|repeat split; auto; lia].
  destruct s as [values|field start step count p|field start ratio count p].
  - apply push_authored_fold in H as (l' & -> & Hl). simpl.
    apply Forall2_length in Hl as Hll. split; [by rewrite Hll|by eapply authored_objects].
  - destruct Hwf as [Hc Hp]. by apply (Hgen field start count p).
  - destruct Hwf as [Hc Hp]. by apply (Hgen field start count p).
Qed.

Definition example_schedule : ControlSchedule :=
  Geometric "iterations" (S754_finite false 1 0) (S754_finite false 1 1) 3
    [Object [("iterations", Number (PosInt 0))]].

Example example_expand :
  expand example_schedule 8 =
    Ok (map (fun n => Object [("iterations", Number (PosInt n))]) [0; 1; 2; 4]%Z).
Proof. vm_compute. reflexivity. Qed.

Lemma expand_spec_witness :
  exists controls, expand example_schedule 8 = Ok controls /\
    (Z.of_nat (length controls) = len example_schedule /\ (0 < len example_schedule <= 8)%Z /\
     Forall canonical_object controls).
Proof.
  eexists. split; [vm_compute; reflexivity|].
  apply (expand_spec example_schedule 8); [|vm_compute; reflexivity].
  split; [lia|]. repeat constructor.
Defined.
End Control.
