(* ===== verification/Records.v ===== *)
(** * Identity-ready records (src/core/records.rs, src/core/identity.rs)

    The records of the benchmark lifecycle and the explicit canonical JSON
    representation each is identified by.  A [CanonicalValue] field is the
    value it wraps, a repository path the text it is spelled with, a
    [BTreeMap] the ordered list of its entries and a [BTreeSet] the ordered
    list of its elements. *)
From S2P Require Import Prelude Json Canonical Identity Profile.
From Stdlib Require Import Ascii Floats.SpecFloat.

(** ** Rendering helpers *)

Definition digest_value (b : bytes) : value := Str (string_of (hex b)).
Definition json_f64 (f : spec_float) : value :=
  if is_finite f then Number (Float f) else Null.
Definition strings (l : list string) : value := Array (map Str l).

Inductive InterpretedRunner := Python | RLang | Julia.
Inductive ProtocolTransport := Pipes | Socket | Stdio.
Inductive TimingScope := ColdEndToEnd | PrepareAndExecute | ExecuteOnly.
Inductive PrimaryTime := TimedWallTime | CpuTime.
Inductive RunOrder := Sequential | Randomized.
Inductive Enforcement := BestEffort | Required.
Inductive ObservationKind := ObserveOneShot | ObserveProfile.
Inductive ImplementationCapability :=
  | CapOneShot | CapApplicability | CapFreshSequence | CapBufferedProfile | CapStreamingProfile.
Inductive NixOutputKind := Package | App.

Definition interpreted_runner (r : InterpretedRunner) : string :=
  match r with Python => "python" | RLang => "r" | Julia => "julia" end.
Definition protocol_transport (t : ProtocolTransport) : string :=
  match t with Pipes => "pipes" | Socket => "socket" | Stdio => "stdio" end.
Definition timing_scope (t : TimingScope) : string :=
  match t with
  | ColdEndToEnd => "cold_end_to_end" | PrepareAndExecute => "prepare_and_execute"
  | ExecuteOnly => "execute_only"
  end.
Definition primary_time (t : PrimaryTime) : string :=
  match t with TimedWallTime => "timed_wall_time" | CpuTime => "cpu_time" end.
Definition run_order (r : RunOrder) : string :=
  match r with Sequential => "sequential" | Randomized => "randomized" end.
Definition enforcement (e : Enforcement) : string :=
  match e with BestEffort => "best_effort" | Required => "required" end.
Definition observation_kind (k : ObservationKind) : string :=
  match k with ObserveOneShot => "one_shot" | ObserveProfile => "profile" end.
Definition implementation_capability (c : ImplementationCapability) : string :=
  match c with
  | CapOneShot => "one_shot" | CapApplicability => "applicability"
  | CapFreshSequence => "fresh_sequence" | CapBufferedProfile => "buffered_profile"
  | CapStreamingProfile => "streaming_profile"
  end.
Definition nix_output_kind (k : NixOutputKind) : string :=
  match k with Package => "package" | App => "app" end.

(** [slice::sort] on strings. *)
Definition string_le (a b : string) : Prop := String.compare a b <> Gt.
#[export] Instance string_le_dec : RelDecision string_le.
Proof. intros a b. unfold string_le. destruct (String.compare a b); [left|left|right]; congruence. Defined.
Definition sorted_strings (l : list string) : list string := merge_sort string_le l.

(** ** Definitions *)

Inductive EnvironmentDefinitionKind :=
  | Local
  | LocalWithVariables (environment_variables : list (string * string))
  | Uv (project lockfile : string) (groups extras : list string)
  | Renv (project lockfile : string)
  | Nix (flake installable system : string) (output_kind : NixOutputKind) (output : string)
  | Oci (image : string).

Record EnvironmentDefinitionRecord := {
  ed_name : string;
  ed_kind : EnvironmentDefinitionKind;
}.

Inductive WorkerLaunch :=
  | Interpreted (runner : InterpretedRunner) (entrypoint : string)
      (source_bundle : RecordId SourceBundleResource)
  | Command (program : string) (source_bundle : option (RecordId SourceBundleResource)).

Record WorkerDefinitionRecord := {
  wd_launch : WorkerLaunch;
  wd_args : list string;
  wd_environment : RecordId EnvironmentDefinitionType;
  wd_protocol_transport : option ProtocolTransport;
}.

Record RemoteSourceRecord := { rs_url : string; rs_sha256 : bytes }.

Inductive DatasetDefinitionKind :=
  | Unit
  | Fixed (source_bundle : RecordId SourceBundleResource)
  | Generated (source : option RemoteSourceRecord) (materializer : WorkerDefinitionRecord).

Record DatasetDefinitionRecord := {
  dd_name : string;
  dd_parameter_schema : option (RecordId SchemaResource);
  dd_parameter_defaults : option value;
  dd_output_schema : RecordId SchemaResource;
  dd_kind : DatasetDefinitionKind;
}.

Record ProblemPreparationDefinitionRecord := {
  pp_worker : WorkerDefinitionRecord;
  pp_output_schema : RecordId SchemaResource;
}.

Record ProblemDefinitionRecord := {
  pd_name : string;
  pd_contract : RecordId ProblemContractResource;
  pd_parameter_defaults : option value;
  pd_evaluator : WorkerDefinitionRecord;
  pd_preparation : option ProblemPreparationDefinitionRecord;
}.

Record ImplementationDefinitionRecord := {
  im_name : string;
  im_worker : WorkerDefinitionRecord;
  im_problem_contracts : list (RecordId ProblemDefinitionType);
  im_parameter_schema : option (RecordId SchemaResource);
  im_parameter_defaults : option value;
  im_capabilities : list ImplementationCapability;
}.

Record ExecutionPolicyRecord := {
  ep_name : string;
  ep_cpus : option Z;
  ep_threads : option Z;
  ep_memory : option string;
  ep_network : bool;
  ep_worker_reuse : bool;
  ep_warmup_runs : Z;
  ep_timeout : option string;
  ep_timing_scope : TimingScope;
  ep_primary_time : PrimaryTime;
  ep_run_order : RunOrder;
  ep_max_concurrency : Z;
  ep_enforcement : Enforcement;
}.

Record ObservationPolicyRecord := {
  op_profile : option value;
  op_name : string;
  op_kind : ObservationKind;
}.

(** ** Configurations and logical plan records *)

Record DerivedSeedRecord := { ds_value : Z; ds_derivation_digest : bytes }.

Record DatasetConfigurationRecord := {
  dc_definition : RecordId DatasetDefinitionType;
  dc_parameters : value;
  dc_seed : DerivedSeedRecord;
}.
Record ProblemConfigurationRecord := {
  pc_definition : RecordId ProblemDefinitionType;
  pc_parameters : value;
}.
Record ImplementationConfigurationRecord := {
  ic_definition : RecordId ImplementationDefinitionType;
  ic_parameters : value;
  ic_environment : RecordId EnvironmentDefinitionType;
}.
Record DatasetInstanceRecord := {
  di_configuration : RecordId DatasetConfigurationType;
  di_artifact : RecordId DatasetArtifact;
  di_output_schema : RecordId SchemaResource;
}.
Record ProblemInstanceRecord := {
  pi_dataset : RecordId DatasetInstanceType;
  pi_configuration : RecordId ProblemConfigurationType;
  pi_preparation : option (RecordId DatasetArtifact);
}.
Record LogicalCandidateRecord := {
  lc_dataset_configuration : RecordId DatasetConfigurationType;
  lc_problem_configuration : RecordId ProblemConfigurationType;
  lc_implementation_configuration : RecordId ImplementationConfigurationType;
  lc_execution_policy : RecordId ExecutionPolicyType;
  lc_observation_policy : RecordId ObservationPolicyType;
}.
(** [ScientificBudget]. *)
Inductive ScientificBudget := NoBudget.
Definition scientific_budget (b : ScientificBudget) : string :=
  match b with NoBudget => "none" end.

Record OneShotLogicalSpecificationRecord := {
  ls_candidate : RecordId LogicalCandidateType;
  ls_scientific_budget : ScientificBudget;
  ls_implementation_repetition : Z;
  ls_implementation_seed : DerivedSeedRecord;
}.
Record LogicalObservationSlotRecord := {
  lo_fresh : option FreshControl;
  lo_specification : RecordId LogicalSpecificationType;
  lo_measurement_index : Z;
}.
Inductive AttemptSlotRole :=
  | WarmupRole (warmup_index : Z)
  | Measured (observation_slot : RecordId LogicalObservationSlotType).
Record LogicalAttemptSlotRecord := {
  la_specification : RecordId LogicalSpecificationType;
  la_role : AttemptSlotRole;
  la_scheduling_priority : bytes;
}.

(** ** Resolved records *)

Record ResolvedEnvironmentRecord := {
  re_definition : RecordId EnvironmentDefinitionType;
  re_fingerprint : value;
}.
Inductive WorkerWorkingDirectory := PrivateRunDirectory.
Record ResolvedLaunchRecord := {
  rl_environment : RecordId ResolvedEnvironmentType;
  rl_program : string;
  rl_args : list string;
  rl_environment_variables : list (string * string);
  rl_working_directory : WorkerWorkingDirectory;
}.
Record ExecutorDefinitionRecord := { ex_kind : string; ex_configuration : value }.
Record ResolvedWorkerRecord := {
  rw_source_bundle : option (RecordId SourceBundleArtifact);
  rw_environment : RecordId ResolvedEnvironmentType;
  rw_launch : RecordId ResolvedLaunchType;
}.
Inductive ApplicabilityOutcome := Unchecked | Applicable | NotApplicable.
#[export] Instance applicability_outcome_eq_dec : EqDecision ApplicabilityOutcome.
Proof. solve_decision. Defined.
Record ApplicabilityDecisionRecord := {
  ad_candidate_id : RecordId LogicalCandidateType;
  ad_outcome : ApplicabilityOutcome;
  ad_code : string;
  ad_reason : string;
  ad_checked_inputs : option value;
  ad_evidence : option value;
  ad_details : option value;
}.
Record ResolvedOneShotSpecificationRecord := {
  ro_applicability : option (RecordId ApplicabilityType);
  ro_logical_specification : RecordId LogicalSpecificationType;
  ro_problem_instance : RecordId ProblemInstanceType;
  ro_implementation : ResolvedWorkerRecord;
  ro_evaluator : ResolvedWorkerRecord;
  ro_executor : RecordId ExecutorDefinitionType;
  ro_wire_protocol_version : Z;
  ro_execution_semantics_version : Z;
}.
Record ResolvedObservationSlotRecord := {
  rs_logical_slot : RecordId LogicalObservationSlotType;
  rs_specification : RecordId ResolvedSpecificationType;
}.
Record ResolvedAttemptSlotRecord := {
  ra_logical_slot : RecordId LogicalAttemptSlotType;
  ra_specification : RecordId ResolvedSpecificationType;
}.

(** ** Execution records *)

(** [std::time::Duration]. *)
Record duration := { as_secs : Z; subsec_nanos : Z }.

Record ArtifactReference (t : IdentityType) := {
  af_id : RecordId t;
  af_path : string;
  af_sha256 : bytes;
}.
Arguments af_id {t} a.
Arguments af_path {t} a.
Arguments af_sha256 {t} a.

Record ObservationTimingRecord := {
  ot_primary_time : PrimaryTime;
  ot_timed_wall_time : duration;
  ot_implementation_time : option duration;
  ot_evaluation_time : duration;
  ot_cpu_time : option duration;
  ot_peak_rss_bytes : option Z;
}.

Inductive CompletionStatus := NotRequired | Reached | NotReached.
#[export] Instance completion_eq_dec : EqDecision CompletionStatus.
Proof. solve_decision. Defined.
Definition completion_name (c : CompletionStatus) : string :=
  match c with
  | NotRequired => "not_required" | Reached => "reached" | NotReached => "not_reached"
  end.

Record ProvenanceRecord := {
  pr_tool_version : string;
  pr_wire_protocol_version : Z;
  pr_execution_semantics_version : Z;
  pr_data : value;
}.

Record BufferedObservationRecord := {
  bo_instrumented_scope : string;
  bo_clock : string;
  bo_instrumented_time_ns : Z;
  bo_instrumented_total_time_ns : Z;
  bo_trace_index : Z;
  bo_capture_ordinal : Z;
  bo_thresholds : list spec_float;
  bo_provisional_metrics : value;
}.
Record FreshObservationRecord := {
  fo_measurement_index : Z;
  fo_schedule_index : Z;
  fo_observation_control : value;
}.
Record StreamingObservationRecord := {
  so_checkpoint_sequence : Z;
  so_check_index : Z;
  so_work : list (string * Z);
  so_terminal : bool;
  so_thresholds : list spec_float;
  so_active_time_ns : Z;
  so_elapsed_wall_time_ns : Z;
  so_evaluation_time_ns : Z;
  so_decision : string;
  so_stop_reason : option StopReason;
}.
Inductive ProfileObservationRecord :=
  | BufferedObservation (r : BufferedObservationRecord)
  | FreshObservationOf (r : FreshObservationRecord)
  | StreamingObservation (r : StreamingObservationRecord).

Record RunObservationRecord := {
  rb_profile : option ProfileObservationRecord;
  rb_slot : RecordId ResolvedObservationSlotType;
  rb_producing_attempt : RecordId AttemptType;
  rb_result : ArtifactReference ResultArtifact;
  rb_metrics : ArtifactReference MetricsArtifact;
  rb_timing : ObservationTimingRecord;
  rb_completion : CompletionStatus;
  rb_provenance : ProvenanceRecord;
}.

Inductive ProfileAttemptStatus := StatusAccepted | StatusCensored | StatusSuperseded | StatusFailed.
Definition profile_status_name (s : ProfileAttemptStatus) : string :=
  match s with
  | StatusAccepted => "accepted" | StatusCensored => "censored"
  | StatusSuperseded => "superseded" | StatusFailed => "failed"
  end.
Record AttemptDiagnostic := {
  dg_code : string;
  dg_message : string;
  dg_details : option value;
}.
Module AttemptOutcome.
Inductive RunAttemptOutcome :=
  | Censored (reason : string) (observation : option (RecordId ObservationType))
  | Profile (status : ProfileAttemptStatus) (observations : list (RecordId ObservationType))
      (reason : string) (diagnostic : option AttemptDiagnostic)
  | Accepted (observation : RecordId ObservationType)
  | Superseded (observation : option (RecordId ObservationType))
  | Failed (diagnostic : AttemptDiagnostic) (observation : option (RecordId ObservationType)).
End AttemptOutcome.
(** A [SystemTime] is nanoseconds since the Unix epoch, negative before it. *)
Record RunAttemptRecord := {
  rt_slot : RecordId ResolvedAttemptSlotType;
  rt_retry_index : Z;
  rt_outcome : AttemptOutcome.RunAttemptOutcome;
  rt_started_at : Z;
  rt_finished_at : Z;
  rt_provenance : ProvenanceRecord;
}.

(** ** Identity representations *)

Definition as_fields (v : value) : list (string * value) :=
  match v with Object m => m | _ => [] end.
Definition canonical_or_null (o : option value) : value := default Null o.
Definition optional_string (o : option string) : value := optional Str o.
Definition optional_u64 (o : option Z) : value := optional json_u64 o.
Definition optional_id {t} (o : option (RecordId t)) : value := optional id_value o.

Definition seed_value (s : DerivedSeedRecord) : value :=
  object [("value", json_u64 (ds_value s));
          ("derivation_digest", digest_value (ds_derivation_digest s))].

Definition worker (w : WorkerDefinitionRecord) : value :=
  object [
    ("launch", match wd_launch w with
       | Interpreted runner entrypoint source_bundle => object [
           ("kind", Str "interpreted");
           ("runner", Str (interpreted_runner runner));
           ("entrypoint", Str entrypoint);
           ("source_bundle", id_value source_bundle)]
       | Command program source_bundle => object [
           ("kind", Str "command");
           ("program", Str program);
           ("source_bundle", optional_id source_bundle)]
       end);
    ("args", strings (wd_args w));
    ("environment", id_value (wd_environment w));
    ("protocol_transport",
       optional (fun t => Str (protocol_transport t)) (wd_protocol_transport w))].

Definition resolved_worker (w : ResolvedWorkerRecord) : value :=
  object [
    ("source_bundle", optional_id (rw_source_bundle w));
    ("environment", id_value (rw_environment w));
    ("launch", id_value (rw_launch w))].

Definition artifact {t} (a : ArtifactReference t) : value :=
  object [
    ("id", id_value (af_id a));
    ("path", Str (af_path a));
    ("sha256", digest_value (af_sha256 a))].

Definition duration_value (d : duration) : value :=
  object [("seconds", json_u64 (as_secs d)); ("nanoseconds", json_u64 (subsec_nanos d))].

Definition timing (t : ObservationTimingRecord) : value :=
  object [
    ("primary_time", Str (primary_time (ot_primary_time t)));
    ("timed_wall_time", duration_value (ot_timed_wall_time t));
    ("implementation_time", optional duration_value (ot_implementation_time t));
    ("evaluation_time", duration_value (ot_evaluation_time t));
    ("cpu_time", optional duration_value (ot_cpu_time t));
    ("peak_rss_bytes", optional_u64 (ot_peak_rss_bytes t))].

(** [json!] of a [BTreeMap<String, String>]. *)
Definition string_map (m : list (string * string)) : value :=
  object ((fun kv => (kv.1, Str kv.2)) <$> m).

Definition environment_definition (k : EnvironmentDefinitionKind) : value :=
  match k with
  | Local => object [("kind", Str "local")]
  | LocalWithVariables variables => object [
      ("kind", Str "local"); ("environment_variables", string_map variables)]
  | Uv project lockfile groups extras =>
      object ([("kind", Str "uv"); ("project", Str project); ("lockfile", Str lockfile)] ++
        (if bool_decide (groups = []) then [] else [("groups", strings groups)]) ++
        (if bool_decide (extras = []) then [] else [("extras", strings extras)]))
  | Renv project lockfile => object [
      ("kind", Str "renv"); ("project", Str project); ("lockfile", Str lockfile)]
  | Nix flake installable system output_kind output => object [
      ("kind", Str "nix"); ("flake", Str flake); ("installable", Str installable);
      ("system", Str system); ("output_kind", Str (nix_output_kind output_kind));
      ("output", Str output)]
  | Oci image => object [("kind", Str "oci"); ("image", Str image)]
  end.

Definition remote_source (s : RemoteSourceRecord) : value :=
  object [("url", Str (rs_url s)); ("sha256", digest_value (rs_sha256 s))].

Definition dataset_definition (k : DatasetDefinitionKind) : value :=
  match k with
  | Unit => object [("kind", Str "unit")]
  | Fixed source_bundle => object [
      ("kind", Str "fixed"); ("source_bundle", id_value source_bundle)]
  | Generated source materializer => object [
      ("kind", Str "generated"); ("source", optional remote_source source);
      ("materializer", worker materializer)]
  end.

Definition work_value (work : list (string * Z)) : value :=
  object ((fun kv => (kv.1, json_u64 kv.2)) <$> work).

(** [Serialize] of the profile records; the one-variant [delivery] and
    [measurement_basis] enums are constants. *)
Definition profile_observation_value (p : ProfileObservationRecord) : value :=
  match p with
  | BufferedObservation b => object [
      ("delivery", Str "buffered_profile");
      ("measurement_basis", Str "instrumented");
      ("instrumented_scope", Str (bo_instrumented_scope b));
      ("clock", Str (bo_clock b));
      ("instrumented_time_ns", json_u64 (bo_instrumented_time_ns b));
      ("instrumented_total_time_ns", json_u64 (bo_instrumented_total_time_ns b));
      ("trace_index", json_u64 (bo_trace_index b));
      ("capture_ordinal", json_u64 (bo_capture_ordinal b));
      ("thresholds", Array (map json_f64 (bo_thresholds b)));
      ("provisional_metrics", bo_provisional_metrics b)]
  | FreshObservationOf f => object [
      ("delivery", Str "fresh_sequence");
      ("measurement_basis", Str "executor_observed");
      ("measurement_index", json_u64 (fo_measurement_index f));
      ("schedule_index", json_u64 (fo_schedule_index f));
      ("observation_control", fo_observation_control f)]
  | StreamingObservation s => object [
      ("delivery", Str "streaming_profile");
      ("measurement_basis", Str "executor_observed");
      ("checkpoint_sequence", json_u64 (so_checkpoint_sequence s));
      ("check_index", json_u64 (so_check_index s));
      ("work", work_value (so_work s));
      ("terminal", Bool (so_terminal s));
      ("thresholds", Array (map json_f64 (so_thresholds s)));
      ("active_time_ns", json_u64 (so_active_time_ns s));
      ("elapsed_wall_time_ns", json_u64 (so_elapsed_wall_time_ns s));
      ("evaluation_time_ns", json_u64 (so_evaluation_time_ns s));
      ("decision", Str (so_decision s));
      ("stop_reason", optional (fun r => Str (stop_reason_name r)) (so_stop_reason s))]
  end.

Definition fresh_control_value (c : FreshControl) : value :=
  object [("schedule_index", json_u64 (schedule_index c));
          ("observation_control", observation_control c)].

(** [map.insert(key, ..)] under [if let Some(..)]. *)
Definition insert_some {A} (key : string) (f : A -> value) (o : option A)
    (m : list (string * value)) : list (string * value) :=
  match o with Some a => map_insert key (f a) m | None => m end.

(** *** The document of a profile policy *)

Definition direction_name (d : Direction) : string :=
  match d with AtMost => "at_most" | AtLeast => "at_least" end.

(** [skip_serializing_if]. *)
Definition field_if {A} (key : string) (f : A -> value) (o : option A) : list (string * value) :=
  match o with Some a => [(key, f a)] | None => [] end.
Definition nonzero (n : Z) : option Z := if (n =? 0)%Z then None else Some n.
Definition nonempty {A} (l : list A) : option (list A) :=
  match l with [] => None | _ => Some l end.

(** [Serialize for ProfilePolicy]. *)
Definition policy_fields (p : ProfilePolicy) : list (string * value) :=
  field_if "metric" Str (metric p) ++
  field_if "direction" (fun d => Str (direction_name d)) (direction p) ++
  field_if "threshold" json_f64 (threshold p) ++
  field_if "record-thresholds" (fun l => Array (map json_f64 l)) (nonempty (record_thresholds p)) ++
  [("max-observations", json_u64 (max_observations p))] ++
  field_if "max-checkpoint-bytes" json_u64 (nonzero (max_checkpoint_bytes p)) ++
  field_if "max-trace-points" json_u64 (nonzero (max_trace_points p)) ++
  field_if "max-buffer-bytes" json_u64 (nonzero (max_buffer_bytes p)) ++
  field_if "terminal-reserve-bytes" json_u64 (nonzero (terminal_reserve_bytes p)) ++
  [("max-active-time", Str (max_active_time p))].
Definition policy_value (p : ProfilePolicy) : value := object (policy_fields p).

#[export] Instance environment_definition_record : IdentityRecord EnvironmentDefinitionRecord := {
  identity_type := EnvironmentDefinitionType;
  identity_fields r := map_collect [
    ("name", Str (ed_name r)); ("definition", environment_definition (ed_kind r))] }.
#[export] Instance worker_definition_record : IdentityRecord WorkerDefinitionRecord := {
  identity_type := WorkerDefinitionType;
  identity_fields r := as_fields (worker r) }.
#[export] Instance dataset_definition_record : IdentityRecord DatasetDefinitionRecord := {
  identity_type := DatasetDefinitionType;
  identity_fields r := map_collect [
    ("name", Str (dd_name r));
    ("parameter_schema", optional_id (dd_parameter_schema r));
    ("parameter_defaults", canonical_or_null (dd_parameter_defaults r));
    ("output_schema", id_value (dd_output_schema r));
    ("definition", dataset_definition (dd_kind r))] }.
#[export] Instance problem_definition_record : IdentityRecord ProblemDefinitionRecord := {
  identity_type := ProblemDefinitionType;
  identity_fields r :=
    insert_some "preparation" (fun p => object [
        ("worker", worker (pp_worker p)); ("output_schema", id_value (pp_output_schema p))])
      (pd_preparation r)
      (map_collect [
        ("name", Str (pd_name r));
        ("contract", id_value (pd_contract r));
        ("parameter_defaults", canonical_or_null (pd_parameter_defaults r));
        ("evaluator", worker (pd_evaluator r))]) }.
#[export] Instance implementation_definition_record
  : IdentityRecord ImplementationDefinitionRecord := {
  identity_type := ImplementationDefinitionType;
  identity_fields r := map_collect [
    ("name", Str (im_name r));
    ("worker", worker (im_worker r));
    ("problem_contracts", strings (sorted_strings (to_string <$> im_problem_contracts r)));
    ("parameter_schema", optional_id (im_parameter_schema r));
    ("parameter_defaults", canonical_or_null (im_parameter_defaults r));
    ("capabilities",
       strings (sorted_strings (implementation_capability <$> im_capabilities r)))] }.
#[export] Instance execution_policy_record : IdentityRecord ExecutionPolicyRecord := {
  identity_type := ExecutionPolicyType;
  identity_fields r := map_collect [
    ("name", Str (ep_name r));
    ("cpus", optional_u64 (ep_cpus r));
    ("threads", optional_u64 (ep_threads r));
    ("memory", optional_string (ep_memory r));
    ("network", Bool (ep_network r));
    ("worker_reuse", Bool (ep_worker_reuse r));
    ("warmup_runs", json_u64 (ep_warmup_runs r));
    ("timeout", optional_string (ep_timeout r));
    ("timing_scope", Str (timing_scope (ep_timing_scope r)));
    ("primary_time", Str (primary_time (ep_primary_time r)));
    ("run_order", Str (run_order (ep_run_order r)));
    ("max_concurrency", json_u64 (ep_max_concurrency r));
    ("enforcement", Str (enforcement (ep_enforcement r)))] }.
#[export] Instance observation_policy_record : IdentityRecord ObservationPolicyRecord := {
  identity_type := ObservationPolicyType;
  identity_fields r := insert_some "profile" (fun p => p) (op_profile r) (map_collect [
    ("name", Str (op_name r)); ("kind", Str (observation_kind (op_kind r)))]) }.
#[export] Instance dataset_configuration_record : IdentityRecord DatasetConfigurationRecord := {
  identity_type := DatasetConfigurationType;
  identity_fields r := map_collect [
    ("definition", id_value (dc_definition r));
    ("parameters", dc_parameters r);
    ("seed", seed_value (dc_seed r))] }.
#[export] Instance problem_configuration_record : IdentityRecord ProblemConfigurationRecord := {
  identity_type := ProblemConfigurationType;
  identity_fields r := map_collect [
    ("definition", id_value (pc_definition r)); ("parameters", pc_parameters r)] }.
#[export] Instance implementation_configuration_record
  : IdentityRecord ImplementationConfigurationRecord := {
  identity_type := ImplementationConfigurationType;
  identity_fields r := map_collect [
    ("definition", id_value (ic_definition r));
    ("parameters", ic_parameters r);
    ("environment", id_value (ic_environment r))] }.
#[export] Instance dataset_instance_record : IdentityRecord DatasetInstanceRecord := {
  identity_type := DatasetInstanceType;
  identity_fields r := map_collect [
    ("configuration", id_value (di_configuration r));
    ("artifact", id_value (di_artifact r));
    ("output_schema", id_value (di_output_schema r))] }.
#[export] Instance problem_instance_record : IdentityRecord ProblemInstanceRecord := {
  identity_type := ProblemInstanceType;
  identity_fields r := insert_some "preparation" id_value (pi_preparation r) (map_collect [
    ("dataset", id_value (pi_dataset r));
    ("configuration", id_value (pi_configuration r))]) }.
#[export] Instance logical_candidate_record : IdentityRecord LogicalCandidateRecord := {
  identity_type := LogicalCandidateType;
  identity_fields r := map_collect [
    ("dataset_configuration", id_value (lc_dataset_configuration r));
    ("problem_configuration", id_value (lc_problem_configuration r));
    ("implementation_configuration", id_value (lc_implementation_configuration r));
    ("execution_policy", id_value (lc_execution_policy r));
    ("observation_policy", id_value (lc_observation_policy r))] }.
#[export] Instance logical_specification_record
  : IdentityRecord OneShotLogicalSpecificationRecord := {
  identity_type := LogicalSpecificationType;
  identity_fields r := map_collect [
    ("kind", Str "one_shot");
    ("candidate", id_value (ls_candidate r));
    ("scientific_budget", Str (scientific_budget (ls_scientific_budget r)));
    ("implementation_repetition", json_u64 (ls_implementation_repetition r));
    ("implementation_seed", seed_value (ls_implementation_seed r))] }.
#[export] Instance logical_observation_slot_record
  : IdentityRecord LogicalObservationSlotRecord := {
  identity_type := LogicalObservationSlotType;
  identity_fields r := insert_some "fresh" fresh_control_value (lo_fresh r) (map_collect [
    ("specification", id_value (lo_specification r));
    ("measurement_index", json_u64 (lo_measurement_index r))]) }.
#[export] Instance logical_attempt_slot_record : IdentityRecord LogicalAttemptSlotRecord := {
  identity_type := LogicalAttemptSlotType;
  identity_fields r := map_collect [
    ("specification", id_value (la_specification r));
    ("role", match la_role r with
       | WarmupRole i => object [("kind", Str "warmup"); ("warmup_index", json_u64 i)]
       | Measured o => object [("kind", Str "measured"); ("observation_slot", id_value o)]
       end);
    ("scheduling_priority", digest_value (la_scheduling_priority r))] }.
#[export] Instance resolved_environment_record : IdentityRecord ResolvedEnvironmentRecord := {
  identity_type := ResolvedEnvironmentType;
  identity_fields r := map_collect [
    ("definition", id_value (re_definition r)); ("fingerprint", re_fingerprint r)] }.
#[export] Instance resolved_launch_record : IdentityRecord ResolvedLaunchRecord := {
  identity_type := ResolvedLaunchType;
  identity_fields r := map_collect [
    ("environment", id_value (rl_environment r));
    ("program", Str (rl_program r));
    ("args", strings (rl_args r));
    ("environment_variables", string_map (rl_environment_variables r));
    ("working_directory", Str match rl_working_directory r with
       | PrivateRunDirectory => "private_run_directory" end)] }.
#[export] Instance executor_definition_record : IdentityRecord ExecutorDefinitionRecord := {
  identity_type := ExecutorDefinitionType;
  identity_fields r := map_collect [
    ("kind", Str (ex_kind r)); ("configuration", ex_configuration r)] }.
#[export] Instance resolved_worker_record : IdentityRecord ResolvedWorkerRecord := {
  identity_type := ResolvedWorkerType;
  identity_fields r := as_fields (resolved_worker r) }.
Definition applicability_outcome (o : ApplicabilityOutcome) : string :=
  match o with
  | Unchecked => "unchecked" | Applicable => "applicable" | NotApplicable => "not_applicable"
  end.
#[export] Instance applicability_record : IdentityRecord ApplicabilityDecisionRecord := {
  identity_type := ApplicabilityType;
  identity_fields r := map_collect [
    ("candidate_id", id_value (ad_candidate_id r));
    ("outcome", Str (applicability_outcome (ad_outcome r)));
    ("code", Str (ad_code r));
    ("reason", Str (ad_reason r));
    ("checked_inputs", canonical_or_null (ad_checked_inputs r));
    ("evidence", canonical_or_null (ad_evidence r));
    ("details", canonical_or_null (ad_details r))] }.
#[export] Instance resolved_specification_record
  : IdentityRecord ResolvedOneShotSpecificationRecord := {
  identity_type := ResolvedSpecificationType;
  identity_fields r := insert_some "applicability" id_value (ro_applicability r) (map_collect [
    ("kind", Str "one_shot");
    ("logical_specification", id_value (ro_logical_specification r));
    ("problem_instance", id_value (ro_problem_instance r));
    ("implementation", resolved_worker (ro_implementation r));
    ("evaluator", resolved_worker (ro_evaluator r));
    ("executor", id_value (ro_executor r));
    ("wire_protocol_version", json_u64 (ro_wire_protocol_version r));
    ("execution_semantics_version", json_u64 (ro_execution_semantics_version r))]) }.
#[export] Instance resolved_observation_slot_record
  : IdentityRecord ResolvedObservationSlotRecord := {
  identity_type := ResolvedObservationSlotType;
  identity_fields r := map_collect [
    ("logical_slot", id_value (rs_logical_slot r));
    ("specification", id_value (rs_specification r))] }.
#[export] Instance resolved_attempt_slot_record : IdentityRecord ResolvedAttemptSlotRecord := {
  identity_type := ResolvedAttemptSlotType;
  identity_fields r := map_collect [
    ("logical_slot", id_value (ra_logical_slot r));
    ("specification", id_value (ra_specification r))] }.
#[export] Instance observation_record : IdentityRecord RunObservationRecord := {
  identity_type := ObservationType;
  identity_fields r :=
    insert_some "profile" profile_observation_value (rb_profile r) (map_collect [
      ("slot", id_value (rb_slot r));
      ("producing_attempt", id_value (rb_producing_attempt r));
      ("result", artifact (rb_result r));
      ("metrics", artifact (rb_metrics r));
      ("timing", timing (rb_timing r));
      ("completion", Str (completion_name (rb_completion r)))]) }.
#[export] Instance attempt_record : IdentityRecord RunAttemptRecord := {
  identity_type := AttemptType;
  identity_fields r := map_collect [
    ("slot", id_value (rt_slot r)); ("retry_index", json_u64 (rt_retry_index r))] }.
