(* ===== verification/RecordIdentity.v ===== *)
(** * Identity values determine records (src/core/identity.rs)

    The rendered fields of a well-formed record determine every field the
    identity covers, type by type.  [IdentityBytes] lifts this to the bytes that
    are hashed, and adds the observations and implementation definitions, whose
    rendered fields are not yet canonical or do not determine an order. *)
From S2P Require Import Prelude Json Canonical Identity ThirdPartyModel Profile Records.
From Stdlib Require Import Ascii.

(** ** Values already in the spelling the canonicalizer produces *)

Definition number_ok (n : number) : bool := number_spelled n && number_wf n.
Definition value_ok (v : value) : Prop :=
  value_numbers number_ok v = true /\ value_wf v.
Definition fields_ok (m : list (string * value)) : Prop :=
  map_wf m /\ Forall (fun kv => value_ok kv.2) m.

Lemma value_numbers_impl (P Q : number -> bool) v :
  (forall n, P n = true -> Q n = true) ->
  value_numbers P v = true -> value_numbers Q v = true.
Proof.
  intros HPQ. induction v as [|b|n|s|l IH|m IH] using value_ind'; try done; [apply HPQ| |].
  - rewrite !value_numbers_array. rewrite !Forall_forall in *. eauto.
  - rewrite !value_numbers_object. rewrite !Forall_forall in *. eauto.
Qed.

Lemma Forall_value_ok (m : list (string * value)) :
  Forall (fun kv => value_ok kv.2) m <->
  Forall (fun kv => value_numbers number_ok kv.2 = true) m /\ Forall (fun kv => value_wf kv.2) m.
Proof. apply (Forall_and (fun kv => value_numbers number_ok kv.2 = true)). Qed.

Lemma value_ok_object m : value_ok (Object m) <-> fields_ok m.
Proof.
  unfold fields_ok. rewrite Forall_value_ok. unfold value_ok.
  rewrite value_numbers_object, value_wf_object. tauto.
Qed.
Lemma value_ok_array l : Forall value_ok l -> value_ok (Array l).
Proof.
  intros H. unfold value_ok. rewrite value_numbers_array, value_wf_array.
  by apply (proj1 (Forall_and _ _)).
Qed.
Lemma fields_ok_collect l :
  Forall (fun kv => value_ok kv.2) l -> fields_ok (map_collect l).
Proof.
  intros H. split; [auto with json|]. rewrite Forall_forall in *.
  intros kv Hkv%map_collect_elem. auto.
Qed.
Lemma value_ok_collect l : Forall (fun kv => value_ok kv.2) l -> value_ok (object l).
Proof. intros H. by apply value_ok_object, fields_ok_collect. Qed.
Lemma fields_ok_insert k v m : value_ok v -> fields_ok m -> fields_ok (map_insert k v m).
Proof.
  intros Hv [Hm Hf]. split; [auto with json|]. rewrite Forall_forall in *.
  intros [j x] [[= -> ->]|Hx]%map_insert_elem; [done|by apply (Hf (j, x))].
Qed.
Lemma fields_ok_insert_some {A} k (f : A -> value) o m :
  (forall a, o = Some a -> value_ok (f a)) -> fields_ok m -> fields_ok (insert_some k f o m).
Proof. destruct o; simpl; auto using fields_ok_insert. Qed.
Lemma fields_ok_as_fields v : value_ok v -> fields_ok (as_fields v).
Proof.
  destruct v; simpl; intros H; try (by split; [constructor|]).
  by apply value_ok_object.
Qed.
Lemma value_ok_leaf v :
  match v with Null | Bool _ | Str _ => True | _ => False end -> value_ok v.
Proof. by destruct v. Qed.
Lemma value_ok_str s : value_ok (Str s).
Proof. done. Qed.
Lemma value_ok_bool b : value_ok (Bool b).
Proof. done. Qed.
Lemma value_ok_null : value_ok Null.
Proof. done. Qed.
Lemma value_ok_u64 n : in_u64 n = true -> value_ok (json_u64 n).
Proof. intros H. split; [|done]. simpl. unfold number_ok. simpl. by rewrite H. Qed.
Lemma value_ok_id {t} (i : RecordId t) : value_ok (id_value i).
Proof. done. Qed.
Lemma value_ok_digest b : value_ok (digest_value b).
Proof. done. Qed.
Lemma value_ok_strings l : value_ok (strings l).
Proof. unfold strings. apply value_ok_array. by induction l; simpl; constructor. Qed.
Lemma value_ok_optional {A} (f : A -> value) o :
  (forall a, o = Some a -> value_ok (f a)) -> value_ok (optional f o).
Proof. destruct o; simpl; [auto|done]. Qed.
Lemma value_ok_default o :
  (forall v, o = Some v -> value_ok v) -> value_ok (canonical_or_null o).
Proof. destruct o; simpl; [auto|done]. Qed.
Lemma value_ok_string_map m : value_ok (string_map m).
Proof.
  apply value_ok_collect. rewrite Forall_fmap. apply Forall_true. by intros [].
Qed.

Create HintDb spelled.
#[export] Hint Resolve value_ok_str value_ok_bool value_ok_null value_ok_u64 value_ok_id
  value_ok_digest value_ok_strings value_ok_string_map value_ok_optional value_ok_default
  value_ok_collect fields_ok_collect fields_ok_insert_some fields_ok_as_fields : spelled.

(** ** Injectivity of the rendering helpers *)

Lemma Str_inj a b : Str a = Str b -> a = b.
Proof. by intros [= ->]. Qed.
Lemma id_value_inj {t} (i j : RecordId t) : id_value i = id_value j -> i = j.
Proof. intros H%Str_inj. by apply to_string_inj. Qed.
Lemma digest_value_inj b c : digest_value b = digest_value c -> b = c.
Proof.
  intros H%Str_inj. apply (f_equal bytes_of) in H.
  rewrite !bytes_of_string_of in H. by apply hex_inj.
Qed.
Lemma json_u64_inj m n : json_u64 m = json_u64 n -> m = n.
Proof. by intros [= ->]. Qed.
Lemma strings_inj l k : strings l = strings k -> l = k.
Proof.
  unfold strings. intros H. injection H as H. revert k H.
  induction l as [|x l IH]; intros [|y k]; simpl; intros H; simplify_eq; [done|].
  f_equal. auto.
Qed.
Lemma optional_inj {A} (f : A -> value) o p :
  (forall a, f a <> Null) -> (forall a b, f a = f b -> a = b) ->
  optional f o = optional f p -> o = p.
Proof.
  intros Hn Hf. destruct o as [a|], p as [b|]; simpl; intros H; [|by apply Hn in H| |done].
  - f_equal. auto.
  - symmetry in H. by apply Hn in H.
Qed.
Lemma optional_id_inj {t} (o p : option (RecordId t)) : optional_id o = optional_id p -> o = p.
Proof. apply optional_inj; [done|apply id_value_inj]. Qed.
Lemma optional_string_inj o p : optional_string o = optional_string p -> o = p.
Proof. apply optional_inj; [done|by intros ?? [= ->]]. Qed.
Lemma optional_u64_inj o p : optional_u64 o = optional_u64 p -> o = p.
Proof. apply optional_inj; [done|apply json_u64_inj]. Qed.
(** An optional object: [None] is not confused with a value. *)
Definition not_null (o : option value) : Prop := o <> Some Null.
Lemma canonical_or_null_inj o p :
  not_null o -> not_null p -> canonical_or_null o = canonical_or_null p -> o = p.
Proof. unfold not_null. destruct o, p; simpl; congruence. Qed.

Arguments id_value : simpl never.
Arguments digest_value : simpl never.
Arguments json_u64 : simpl never.
Arguments strings : simpl never.
Arguments optional_id : simpl never.
Arguments optional_string : simpl never.
Arguments optional_u64 : simpl never.
Arguments canonical_or_null : simpl never.
Arguments seed_value : simpl never.
Arguments worker : simpl never.
Arguments resolved_worker : simpl never.
Arguments string_map : simpl never.
Arguments artifact : simpl never.
Arguments timing : simpl never.
Arguments duration_value : simpl never.
Arguments fresh_control_value : simpl never.
Arguments optional : simpl never.
Arguments map_collect {V} l /.

Lemma field_cons k x y m n :
  Object ((k, x) :: m) = Object ((k, y) :: n) -> x = y /\ Object m = Object n.
Proof. by intros [= -> ->]. Qed.

(** Reads the fields of an equality between two rendered objects, without
    looking into the rendered values. *)
Ltac fields H :=
  unfold object, identity_value in H; simpl in H;
  repeat (let E := fresh "Hfield" in apply field_cons in H as [E H]);
  first [clear H; match goal with F : Str ?a = Str ?b |- _ => discriminate F end
        | discriminate H
        | clear H].

(** ** The shared components *)

Lemma interpreted_runner_inj a b : interpreted_runner a = interpreted_runner b -> a = b.
Proof. by destruct a, b. Qed.
Lemma protocol_transport_inj a b : protocol_transport a = protocol_transport b -> a = b.
Proof. by destruct a, b. Qed.
Lemma timing_scope_inj a b : timing_scope a = timing_scope b -> a = b.
Proof. by destruct a, b. Qed.
Lemma primary_time_inj a b : primary_time a = primary_time b -> a = b.
Proof. by destruct a, b. Qed.
Lemma run_order_inj a b : run_order a = run_order b -> a = b.
Proof. by destruct a, b. Qed.
Lemma enforcement_inj a b : enforcement a = enforcement b -> a = b.
Proof. by destruct a, b. Qed.
Lemma observation_kind_inj a b : observation_kind a = observation_kind b -> a = b.
Proof. by destruct a, b. Qed.
Lemma implementation_capability_inj a b :
  implementation_capability a = implementation_capability b -> a = b.
Proof. by destruct a, b. Qed.
Lemma nix_output_kind_inj a b : nix_output_kind a = nix_output_kind b -> a = b.
Proof. by destruct a, b. Qed.
Lemma applicability_outcome_inj a b :
  applicability_outcome a = applicability_outcome b -> a = b.
Proof. by destruct a, b. Qed.
Lemma scientific_budget_inj (a b : ScientificBudget) : a = b.
Proof. by destruct a, b. Qed.
Lemma working_directory_inj (a b : WorkerWorkingDirectory) : a = b.
Proof. by destruct a, b. Qed.

(** Rewrites every rendered field with the injectivity of its renderer. *)
Ltac injects :=
  repeat match goal with
  | H : Str _ = Str _ |- _ => apply Str_inj in H; subst
  | H : Bool _ = Bool _ |- _ => injection H as H; subst
  | H : id_value _ = id_value _ |- _ => apply id_value_inj in H; subst
  | H : optional_id _ = optional_id _ |- _ => apply optional_id_inj in H; subst
  | H : optional_string _ = optional_string _ |- _ => apply optional_string_inj in H; subst
  | H : optional_u64 _ = optional_u64 _ |- _ => apply optional_u64_inj in H; subst
  | H : json_u64 _ = json_u64 _ |- _ => apply json_u64_inj in H; subst
  | H : strings _ = strings _ |- _ => apply strings_inj in H; subst
  | H : digest_value _ = digest_value _ |- _ => apply digest_value_inj in H; subst
  | H : canonical_or_null _ = canonical_or_null _ |- _ =>
      apply canonical_or_null_inj in H; [subst|assumption|assumption]
  | H : interpreted_runner _ = interpreted_runner _ |- _ =>
      apply interpreted_runner_inj in H; subst
  | H : timing_scope _ = timing_scope _ |- _ => apply timing_scope_inj in H; subst
  | H : primary_time _ = primary_time _ |- _ => apply primary_time_inj in H; subst
  | H : run_order _ = run_order _ |- _ => apply run_order_inj in H; subst
  | H : enforcement _ = enforcement _ |- _ => apply enforcement_inj in H; subst
  | H : observation_kind _ = observation_kind _ |- _ => apply observation_kind_inj in H; subst
  | H : nix_output_kind _ = nix_output_kind _ |- _ => apply nix_output_kind_inj in H; subst
  | H : applicability_outcome _ = applicability_outcome _ |- _ =>
      apply applicability_outcome_inj in H; subst
  end.

Lemma worker_inj a b : worker a = worker b -> a = b.
Proof.
  intros H. destruct a as [la aa ea ta], b as [lb ab eb tb].
  unfold worker in H. fields H.
  destruct la, lb; match goal with H : Object _ = Object _ |- _ => fields H end; injects;
    match goal with H : optional _ _ = optional _ _ |- _ => apply optional_inj in H;
      [subst|done|by intros ?? ?%Str_inj%protocol_transport_inj] end; done.
Qed.
Lemma resolved_worker_inj a b : resolved_worker a = resolved_worker b -> a = b.
Proof.
  intros H. destruct a, b. unfold resolved_worker in H. fields H. by injects.
Qed.
Lemma seed_value_inj a b : seed_value a = seed_value b -> a = b.
Proof. intros H. destruct a, b. unfold seed_value in H. fields H. by injects. Qed.
Lemma remote_source_inj a b : remote_source a = remote_source b -> a = b.
Proof. intros H. destruct a, b. unfold remote_source in H. fields H. by injects. Qed.
Lemma fresh_control_value_inj a b : fresh_control_value a = fresh_control_value b -> a = b.
Proof.
  intros H. destruct a, b. unfold fresh_control_value in H. fields H. by injects.
Qed.

(** A [BTreeMap] with string values. *)
Lemma string_map_inj m n : map_wf m -> map_wf n -> string_map m = string_map n -> m = n.
Proof.
  unfold string_map, object. intros Hm Hn H.
  assert (forall l : list (string * string), map_wf l ->
    map_collect ((fun kv => (kv.1, Str kv.2)) <$> l) = (fun kv => (kv.1, Str kv.2)) <$> l) as Hc.
  { intros l Hl. apply map_collect_id. unfold map_wf in *. rewrite <-list_fmap_compose. done. }
  rewrite !Hc in H by done. clear Hc Hm Hn. injection H as H. revert n H.
  induction m as [|[k x] m IH]; intros [|[j y] n]; simpl; intros H; simplify_eq; [done|].
  f_equal. auto.
Qed.

(** ** Lawful records *)
Class LawfulRecord (R : Type) `{IdentityRecord R} := {
  (** Machine integers in range, wrapped values canonical, maps ordered. *)
  record_wf : R -> Prop;
  (** What the identity covers. *)
  same_record : R -> R -> Prop;
  lawful_fields r : record_wf r -> fields_ok (identity_fields r);
  lawful_inj r r' :
    record_wf r -> record_wf r' -> identity_value r = identity_value r' -> same_record r r';
}.

(** A wrapped canonical value, and an optional one that cannot be mistaken for
    an absent one. *)
Definition some_ok (o : option value) : Prop :=
  not_null o /\ forall v, o = Some v -> value_ok v.
Definition some_u64 (o : option Z) : Prop := forall n, o = Some n -> in_u64 n = true.
Definition seed_wf (s : DerivedSeedRecord) : Prop := in_u64 (ds_value s) = true.

Lemma value_ok_some_u64 o : some_u64 o -> value_ok (optional_u64 o).
Proof. intros H. apply value_ok_optional. intros n Hn. auto using value_ok_u64. Qed.
Lemma value_ok_optional_string o : value_ok (optional_string o).
Proof. by apply value_ok_optional. Qed.
Lemma value_ok_optional_id {t} (o : option (RecordId t)) : value_ok (optional_id o).
Proof. by apply value_ok_optional. Qed.
Lemma value_ok_some_ok o : some_ok o -> value_ok (canonical_or_null o).
Proof. intros [_ H]. by apply value_ok_default. Qed.
#[export] Hint Resolve value_ok_some_u64 value_ok_optional_string value_ok_optional_id
  value_ok_some_ok : spelled.
Ltac entries := repeat first [apply Forall_nil_2 | apply Forall_cons_2]; simpl; eauto with spelled.

Lemma value_ok_seed s : seed_wf s -> value_ok (seed_value s).
Proof. intros H. apply value_ok_collect. entries. Qed.
Lemma value_ok_worker w : value_ok (worker w).
Proof.
  apply value_ok_collect. entries. destruct (wd_launch w); apply value_ok_collect; entries.
Qed.
Lemma value_ok_resolved_worker w : value_ok (resolved_worker w).
Proof. apply value_ok_collect. entries. Qed.
Lemma value_ok_environment k : value_ok (environment_definition k).
Proof.
  destruct k; apply value_ok_collect; repeat case_bool_decide; entries.
Qed.
Lemma value_ok_dataset k : value_ok (dataset_definition k).
Proof.
  assert (forall s, value_ok (remote_source s)) by (intros s; apply value_ok_collect; entries).
  destruct k; apply value_ok_collect; entries; apply value_ok_worker.
Qed.
#[export] Hint Resolve value_ok_seed value_ok_worker value_ok_resolved_worker
  value_ok_environment value_ok_dataset : spelled.

(** The environment's ordered maps and sets. *)
Definition environment_wf (k : EnvironmentDefinitionKind) : Prop :=
  match k with LocalWithVariables m => map_wf m | _ => True end.

Lemma environment_definition_inj a b :
  environment_wf a -> environment_wf b ->
  environment_definition a = environment_definition b -> a = b.
Proof.
  intros Ha Hb H.
  destruct a, b; unfold environment_definition in H; repeat case_bool_decide;
    fields H; injects; try done.
  f_equal. by apply string_map_inj.
Qed.
Lemma dataset_definition_inj a b : dataset_definition a = dataset_definition b -> a = b.
Proof.
  intros H. destruct a, b; unfold dataset_definition in H; fields H; injects; try done.
  match goal with H : worker _ = worker _ |- _ => apply worker_inj in H; subst end.
  match goal with H : optional _ _ = optional _ _ |- _ => apply optional_inj in H;
    [by subst|done|apply remote_source_inj] end.
Qed.
Arguments environment_definition : simpl never.
Arguments dataset_definition : simpl never.

Ltac lawful_fields := intros r Hr; simpl; (apply fields_ok_collect || idtac); entries.
Ltac lawful_inj := intros r r' Hr Hr' H; destruct r, r'; fields H; injects.

#[export, refine] Instance environment_definition_lawful
  : LawfulRecord EnvironmentDefinitionRecord := {
  record_wf r := environment_wf (ed_kind r);
  same_record := eq }.
Proof.
  - intros r _. apply fields_ok_collect. entries.
  - lawful_inj. f_equal. by apply environment_definition_inj.
Defined.
#[export, refine] Instance worker_definition_lawful : LawfulRecord WorkerDefinitionRecord := {
  record_wf _ := True;
  same_record := eq }.
Proof.
  - intros r _. apply fields_ok_as_fields, value_ok_worker.
  - intros r r' _ _ H. apply worker_inj. unfold identity_value, worker in *.
    unfold object in *. simpl in *. fields H.
    destruct r, r'; simpl in *. congruence.
Defined.
#[export, refine] Instance dataset_definition_lawful : LawfulRecord DatasetDefinitionRecord := {
  record_wf r := some_ok (dd_parameter_defaults r);
  same_record := eq }.
Proof.
  - intros r Hr. apply fields_ok_collect. entries.
  - intros r r' [Hn _] [Hn' _] H. destruct r, r'. fields H. injects.
    f_equal. by apply dataset_definition_inj.
Defined.
#[export, refine] Instance problem_definition_lawful : LawfulRecord ProblemDefinitionRecord := {
  record_wf r := some_ok (pd_parameter_defaults r);
  same_record := eq }.
Proof.
  - intros r Hr. apply fields_ok_insert_some; [|apply fields_ok_collect; entries].
    intros p _. apply value_ok_collect. entries.
  - intros r r' [Hn _] [Hn' _] H. destruct r as [? ? ? ? p], r' as [? ? ? ? p'].
    destruct p as [[]|], p' as [[]|]; fields H; injects;
      repeat match goal with
      | H : object _ = object _ |- _ => fields H; injects
      | H : worker _ = worker _ |- _ => apply worker_inj in H; subst
      end; done.
Defined.
#[export, refine] Instance execution_policy_lawful : LawfulRecord ExecutionPolicyRecord := {
  record_wf r := some_u64 (ep_cpus r) /\ some_u64 (ep_threads r) /\
    in_u64 (ep_warmup_runs r) = true /\ in_u64 (ep_max_concurrency r) = true;
  same_record := eq }.
Proof.
  - intros r (? & ? & ? & ?). apply fields_ok_collect. entries.
  - lawful_inj. done.
Defined.
#[export, refine] Instance observation_policy_lawful : LawfulRecord ObservationPolicyRecord := {
  record_wf r := forall v, op_profile r = Some v -> value_ok v;
  same_record := eq }.
Proof.
  - intros r Hr. apply fields_ok_insert_some; [done|]. apply fields_ok_collect. entries.
  - intros r r' _ _ H. destruct r as [[p|] ? ?], r' as [[p'|] ? ?]; fields H; by injects.
Defined.
#[export, refine] Instance dataset_configuration_lawful
  : LawfulRecord DatasetConfigurationRecord := {
  record_wf r := value_ok (dc_parameters r) /\ seed_wf (dc_seed r);
  same_record := eq }.
Proof.
  - intros r [? ?]. apply fields_ok_collect. entries.
  - lawful_inj. f_equal. by apply seed_value_inj.
Defined.
#[export, refine] Instance problem_configuration_lawful
  : LawfulRecord ProblemConfigurationRecord := {
  record_wf r := value_ok (pc_parameters r);
  same_record := eq }.
Proof.
  - intros r ?. apply fields_ok_collect. entries.
  - lawful_inj. done.
Defined.
#[export, refine] Instance implementation_configuration_lawful
  : LawfulRecord ImplementationConfigurationRecord := {
  record_wf r := value_ok (ic_parameters r);
  same_record := eq }.
Proof.
  - intros r ?. apply fields_ok_collect. entries.
  - lawful_inj. done.
Defined.
#[export, refine] Instance dataset_instance_lawful : LawfulRecord DatasetInstanceRecord := {
  record_wf _ := True;
  same_record := eq }.
Proof.
  - intros r ?. apply fields_ok_collect. entries.
  - lawful_inj. done.
Defined.
#[export, refine] Instance problem_instance_lawful : LawfulRecord ProblemInstanceRecord := {
  record_wf _ := True;
  same_record := eq }.
Proof.
  - intros r ?. apply fields_ok_insert_some; [done|]. apply fields_ok_collect. entries.
  - intros r r' _ _ H. destruct r as [? ? [p|]], r' as [? ? [p'|]]; fields H; by injects.
Defined.
#[export, refine] Instance logical_candidate_lawful : LawfulRecord LogicalCandidateRecord := {
  record_wf _ := True;
  same_record := eq }.
Proof.
  - intros r ?. apply fields_ok_collect. entries.
  - lawful_inj. done.
Defined.
#[export, refine] Instance logical_specification_lawful
  : LawfulRecord OneShotLogicalSpecificationRecord := {
  record_wf r := in_u64 (ls_implementation_repetition r) = true /\
                 seed_wf (ls_implementation_seed r);
  same_record := eq }.
Proof.
  - intros r [? ?]. apply fields_ok_collect. entries.
  - lawful_inj. f_equal; [apply scientific_budget_inj|by apply seed_value_inj].
Defined.
Lemma value_ok_fresh_control c :
  in_u64 (schedule_index c) = true -> value_ok (observation_control c) ->
  value_ok (fresh_control_value c).
Proof. intros ? ?. apply value_ok_collect. entries. Qed.
#[export, refine] Instance logical_observation_slot_lawful
  : LawfulRecord LogicalObservationSlotRecord := {
  record_wf r := in_u64 (lo_measurement_index r) = true /\
    forall c, lo_fresh r = Some c -> in_u64 (schedule_index c) = true /\
                                     value_ok (observation_control c);
  same_record := eq }.
Proof.
  - intros r [Hm Hc]. apply fields_ok_insert_some.
    + intros c [? ?]%Hc. by apply value_ok_fresh_control.
    + apply fields_ok_collect. entries.
  - intros r r' _ _ H. destruct r as [[p|] ? ?], r' as [[p'|] ? ?]; fields H; injects; [|done].
    match goal with H : fresh_control_value _ = _ |- _ =>
      apply fresh_control_value_inj in H; by subst end.
Defined.
#[export, refine] Instance logical_attempt_slot_lawful : LawfulRecord LogicalAttemptSlotRecord := {
  record_wf r := match la_role r with
                 | WarmupRole i => in_u64 i = true | Measured _ => True end;
  same_record := eq }.
Proof.
  - intros r Hr. apply fields_ok_collect. entries.
    destruct (la_role r); apply value_ok_collect; entries.
  - intros r r' _ _ H. destruct r as [? [i|o] ?], r' as [? [i'|o'] ?]; fields H;
      match goal with H : object _ = object _ |- _ => fields H end; by injects.
Defined.
#[export, refine] Instance resolved_environment_lawful : LawfulRecord ResolvedEnvironmentRecord := {
  record_wf r := value_ok (re_fingerprint r);
  same_record := eq }.
Proof.
  - intros r ?. apply fields_ok_collect. entries.
  - lawful_inj. done.
Defined.
#[export, refine] Instance resolved_launch_lawful : LawfulRecord ResolvedLaunchRecord := {
  record_wf r := map_wf (rl_environment_variables r);
  same_record := eq }.
Proof.
  - intros r ?. apply fields_ok_collect. entries.
  - lawful_inj. f_equal; [by apply string_map_inj|apply working_directory_inj].
Defined.
#[export, refine] Instance executor_definition_lawful : LawfulRecord ExecutorDefinitionRecord := {
  record_wf r := value_ok (ex_configuration r);
  same_record := eq }.
Proof.
  - intros r ?. apply fields_ok_collect. entries.
  - lawful_inj. done.
Defined.
#[export, refine] Instance resolved_worker_lawful : LawfulRecord ResolvedWorkerRecord := {
  record_wf _ := True;
  same_record := eq }.
Proof.
  - intros r _. apply fields_ok_as_fields, value_ok_resolved_worker.
  - intros r r' _ _ H. apply resolved_worker_inj. unfold identity_value, resolved_worker in *.
    unfold object in *. simpl in *. fields H.
    destruct r, r'; simpl in *. congruence.
Defined.
#[export, refine] Instance applicability_lawful : LawfulRecord ApplicabilityDecisionRecord := {
  record_wf r := some_ok (ad_checked_inputs r) /\ some_ok (ad_evidence r) /\
                 some_ok (ad_details r);
  same_record := eq }.
Proof.
  - intros r (? & ? & ?). apply fields_ok_collect. entries.
  - intros r r' ([Ha _] & [Hb _] & [Hc _]) ([Ha' _] & [Hb' _] & [Hc' _]) H.
    destruct r, r'. fields H. by injects.
Defined.
#[export, refine] Instance resolved_specification_lawful
  : LawfulRecord ResolvedOneShotSpecificationRecord := {
  record_wf r := in_u64 (ro_wire_protocol_version r) = true /\
                 in_u64 (ro_execution_semantics_version r) = true;
  same_record := eq }.
Proof.
  - intros r [? ?]. apply fields_ok_insert_some; [done|]. apply fields_ok_collect. entries.
  - intros r r' _ _ H. destruct r as [[p|] ? ? ? ? ? ? ?], r' as [[p'|] ? ? ? ? ? ? ?];
      fields H; injects;
      repeat match goal with H : resolved_worker _ = resolved_worker _ |- _ =>
        apply resolved_worker_inj in H; subst end; done.
Defined.
#[export, refine] Instance resolved_observation_slot_lawful
  : LawfulRecord ResolvedObservationSlotRecord := {
  record_wf _ := True;
  same_record := eq }.
Proof.
  - intros r ?. apply fields_ok_collect. entries.
  - lawful_inj. done.
Defined.
#[export, refine] Instance resolved_attempt_slot_lawful
  : LawfulRecord ResolvedAttemptSlotRecord := {
  record_wf _ := True;
  same_record := eq }.
Proof.
  - intros r ?. apply fields_ok_collect. entries.
  - lawful_inj. done.
Defined.
(** An attempt's outcome, times and provenance are not part of its identity. *)
#[export, refine] Instance run_attempt_lawful : LawfulRecord RunAttemptRecord := {
  record_wf r := in_u64 (rt_retry_index r) = true;
  same_record r r' := rt_slot r = rt_slot r' /\ rt_retry_index r = rt_retry_index r' }.
Proof.
  - intros r ?. apply fields_ok_collect. entries.
  - lawful_inj. done.
Defined.

(** ** Canonical spelling of the identity values *)

Lemma number_ok_parts n : number_ok n = true -> number_spelled n = true /\ number_wf n = true.
Proof. apply andb_true_iff. Qed.

Lemma identity_value_ok `{LawfulRecord R} (r : R) : record_wf r -> value_ok (identity_value r).
Proof.
  intros Hr. apply value_ok_object, fields_ok_insert; [by apply value_ok_u64|].
  by apply lawful_fields.
Qed.

(** A value already in canonical spelling goes through the canonicalizer
    unchanged and ends up in the canonical domain. *)
Lemma canonical_bytes_spelled `{ThirdParty} v b :
  value_ok v -> canonical_bytes v = Ok b ->
  to_vec v = Some b /\ in_domain v = true.
Proof.
  intros [Hn Hw] Hb. unfold canonical_bytes, to_canonical_bytes in Hb. ok_inv.
  match goal with E : try_from v = Ok ?c |- _ => rename E into Ht; rename c into w end.
  unfold try_from in Ht.
  assert (w = v) as -> by (eapply normalize_value_spelled;
    [by eapply value_numbers_impl; [apply number_ok_parts|]|done|done]).
  split; [done|]. eapply normalize_value_domain; [|done].
  eapply value_numbers_impl; [|done]. apply number_ok_parts.
Qed.

(** [run_attempt_id], computed before the terminal record exists, is the
    identity of the terminal record, whatever its outcome. *)
Theorem run_attempt_id_record `{ThirdParty} (r : RunAttemptRecord) :
  run_attempt_id (rt_slot r) (rt_retry_index r) = record_id r.
Proof. reflexivity. Qed.

(** Distinct (slot, retry index) pairs have distinct representations. *)
Lemma attempt_bytes_inj `{ThirdPartyLaws} (r r' : RunAttemptRecord) b :
  record_wf r -> record_wf r' ->
  canonical_identity_bytes r = Ok b -> canonical_identity_bytes r' = Ok b ->
  rt_slot r = rt_slot r' /\ rt_retry_index r = rt_retry_index r'.
Proof.
  intros Hr Hr' Hb Hb'.
  pose proof (identity_value_ok r Hr) as Hv. pose proof (identity_value_ok r' Hr') as Hv'.
  destruct (canonical_bytes_spelled _ _ Hv Hb) as [Ht _].
  destruct (canonical_bytes_spelled _ _ Hv' Hb') as [Ht' _].
  apply (lawful_inj r r' Hr Hr').
  eapply to_vec_inj; try done;
    [by eapply canonical_bytes_spelled|apply Hv|by eapply canonical_bytes_spelled|apply Hv'].
Qed.

(** ** Declaration order *)

#[export] Instance string_le_total : Total string_le.
Proof.
  intros a b. unfold string_le. rewrite (String.compare_antisym b a).
  destruct (String.compare a b); simpl; auto.
Qed.
#[export] Instance string_le_trans : Transitive string_le.
Proof.
  intros a b c. unfold string_le. intros Hab Hbc Hac.
  destruct (String.compare a b) eqn:Eab; [|clear Hab|done].
  - apply String.compare_eq_iff in Eab as ->. done.
  - destruct (String.compare b c) eqn:Ebc; [|clear Hbc|done].
    + apply String.compare_eq_iff in Ebc as ->. congruence.
    + pose proof (key_lt_trans a b c Eab Ebc) as H. unfold key_lt in H. congruence.
Qed.
#[export] Instance string_le_antisymm : AntiSymm (=) string_le.
Proof.
  intros a b. unfold string_le. rewrite (String.compare_antisym b a).
  destruct (String.compare a b) eqn:E; simpl; try done.
  intros _ _. by apply String.compare_eq_iff.
Qed.

Lemma sorted_strings_perm l k : sorted_strings l = sorted_strings k <-> l ≡ₚ k.
Proof.
  unfold sorted_strings. split; intros H.
  - rewrite <-(merge_sort_Permutation string_le l), H. apply merge_sort_Permutation.
  - eapply (Sorted_unique string_le); try apply (Sorted_merge_sort string_le).
    by rewrite !merge_sort_Permutation.
Qed.

Lemma fmap_perm_inj {A B} (f : A -> B) `{!Inj (=) (=) f} l k : f <$> l ≡ₚ f <$> k <-> l ≡ₚ k.
Proof.
  split; [|by intros ->]. intros H. symmetry in H.
  apply Permutation_map_inv in H as (l' & H & Hl). apply list_fmap_eq_inj in H; [|done].
  by subst.
Qed.

#[export] Instance to_string_inj' t : Inj (=) (=) (@to_string t).
Proof. intros i j. apply to_string_inj. Qed.
#[export] Instance implementation_capability_inj' : Inj (=) (=) implementation_capability.
Proof. intros a b. apply implementation_capability_inj. Qed.

(** The order in which an implementation declares its problem contracts
    and capabilities does not enter its identity, and nothing else is lost:
    two definitions are represented alike exactly when they differ by a
    permutation of those two lists. *)
Theorem implementation_identity_unordered (r r' : ImplementationDefinitionRecord) :
  not_null (im_parameter_defaults r) -> not_null (im_parameter_defaults r') ->
  identity_value r = identity_value r' <->
  im_name r = im_name r' /\ im_worker r = im_worker r' /\
  im_problem_contracts r ≡ₚ im_problem_contracts r' /\
  im_parameter_schema r = im_parameter_schema r' /\
  im_parameter_defaults r = im_parameter_defaults r' /\
  im_capabilities r ≡ₚ im_capabilities r'.
Proof.
  intros Hn Hn'. rewrite <-(fmap_perm_inj (@to_string ProblemDefinitionType)).
  rewrite <-(fmap_perm_inj implementation_capability (im_capabilities r)).
  rewrite <-!sorted_strings_perm.
  destruct r, r'; simpl in *. split.
  - intros H. fields H. injects.
    match goal with E : worker _ = worker _ |- _ => apply worker_inj in E; subst end.
    repeat split; assumption.
  - intros (-> & -> & Hp & -> & -> & Hc). unfold identity_value. simpl. by rewrite Hp, Hc.
Qed.

Definition some_worker : WorkerDefinitionRecord := {|
  wd_launch := Command "solve" None; wd_args := ["--fast"];
  wd_environment := from_digest (repeat "e"%char 32); wd_protocol_transport := Some Stdio |}.
Definition some_implementation (contracts : list (RecordId ProblemDefinitionType)) := {|
  im_name := "solver"; im_worker := some_worker; im_problem_contracts := contracts;
  im_parameter_schema := None; im_parameter_defaults := None;
  im_capabilities := [CapOneShot; CapApplicability] |}.

Lemma implementation_identity_unordered_witness :
  let p := from_digest (t := ProblemDefinitionType) (repeat "p"%char 32) in
  let q := from_digest (t := ProblemDefinitionType) (repeat "q"%char 32) in
  identity_value (some_implementation [p; q]) = identity_value (some_implementation [q; p]).
Proof.
  intros p q.
  apply (implementation_identity_unordered (some_implementation [p; q])
           (some_implementation [q; p])); [done|done|].
  simpl. repeat split; try reflexivity. apply perm_swap.
Defined.
