(* ===== verification/Materialization.v ===== *)
(** * Derivation identities (src/core/materialization.rs)

    The records that determine a dataset construction and a shared problem
    preparation before their output is observed, with what their identities
    determine. *)
From S2P Require Import Prelude Json Canonical Identity Records RecordIdentity.

Record VerifiedSourceRecord := {
  vs_selection : value;
  vs_tree_hash_version : Z;
  vs_tree_digest : bytes;
  vs_decoding : option value;
}.
Record DatasetDerivationRecord := {
  dv_definition : RecordId DatasetDefinitionType;
  dv_sources : list VerifiedSourceRecord;
  dv_materializer : ResolvedWorkerRecord;
  dv_parameters : value;
  dv_seed : DerivedSeedRecord;
}.
Record ProblemPreparationRecord := {
  pr_dataset : RecordId DatasetInstanceType;
  pr_problem : RecordId ProblemConfigurationType;
  pr_preparer : ResolvedWorkerRecord;
}.

Definition verified_source_value (s : VerifiedSourceRecord) : value := object [
  ("selection", vs_selection s);
  ("tree_hash_version", json_u64 (vs_tree_hash_version s));
  ("tree_sha256", digest_value (vs_tree_digest s));
  ("decoding", canonical_or_null (vs_decoding s))].

#[export] Instance dataset_derivation_record : IdentityRecord DatasetDerivationRecord := {
  identity_type := DatasetDerivationType;
  identity_fields r := map_collect [
    ("definition", id_value (dv_definition r));
    ("sources", Array (map verified_source_value (dv_sources r)));
    ("materializer", resolved_worker (dv_materializer r));
    ("parameters", dv_parameters r);
    ("seed", seed_value (dv_seed r))] }.
#[export] Instance problem_preparation_record : IdentityRecord ProblemPreparationRecord := {
  identity_type := ProblemPreparationType;
  identity_fields r := map_collect [
    ("dataset", id_value (pr_dataset r));
    ("problem", id_value (pr_problem r));
    ("preparer", resolved_worker (pr_preparer r))] }.

(** A selection and a decoding are canonical; the version is a [u32]. *)
Definition source_wf (s : VerifiedSourceRecord) : Prop :=
  value_ok (vs_selection s) /\ in_u64 (vs_tree_hash_version s) = true /\ some_ok (vs_decoding s).

Lemma value_ok_source s : source_wf s -> value_ok (verified_source_value s).
Proof. intros (? & ? & ?). apply value_ok_collect. entries. Qed.
Lemma verified_source_inj a b :
  source_wf a -> source_wf b -> verified_source_value a = verified_source_value b -> a = b.
Proof.
  intros (_ & _ & Ha & _) (_ & _ & Hb & _) H. destruct a, b. unfold verified_source_value in H. fields H.
  injects. done.
Qed.
Lemma cons_equal {A} (x y : A) l k : x :: l = y :: k -> x = y /\ l = k.
Proof. by intros [= -> ->]. Qed.
Lemma verified_sources_inj l k :
  Forall source_wf l -> Forall source_wf k ->
  map verified_source_value l = map verified_source_value k -> l = k.
Proof.
  intros Hl. revert k. induction Hl as [|a l Ha _ IH]; intros [|b k] Hk; try done.
  inversion Hk; subst. cbn [map]. intros [Hab Hlk]%cons_equal. f_equal; [by apply verified_source_inj|by apply IH].
Qed.
#[local] Arguments verified_source_value : simpl never.

#[export, refine] Instance dataset_derivation_lawful : LawfulRecord DatasetDerivationRecord := {
  record_wf r := Forall source_wf (dv_sources r) /\ value_ok (dv_parameters r) /\ seed_wf (dv_seed r);
  same_record := eq }.
Proof.
  - intros r (Hs & ? & ?). apply fields_ok_collect. entries. apply value_ok_array.
    rewrite Forall_map. eapply Forall_impl; [exact Hs|]. apply value_ok_source.
  - intros [d l w p s] [d' l' w' p' s'] [Hl _] [Hl' _] H. simpl in *. fields H. injects.
    match goal with H : Array _ = Array _ |- _ => injection H as Hsources end.
    match goal with H : resolved_worker _ = resolved_worker _ |- _ => apply resolved_worker_inj in H end.
    match goal with H : seed_value _ = seed_value _ |- _ => apply seed_value_inj in H end.
    apply verified_sources_inj in Hsources; [|done..]. by subst.
Defined.
#[export, refine] Instance problem_preparation_lawful : LawfulRecord ProblemPreparationRecord := {
  record_wf _ := True;
  same_record := eq }.
Proof.
  - intros r _. apply fields_ok_collect. entries.
  - lawful_inj. match goal with H : resolved_worker _ = resolved_worker _ |- _ => apply resolved_worker_inj in H end.
    by subst.
Defined.
