(* ===== verification/IdentityBytes.v ===== *)
(** * What an identity commits to (src/core/identity.rs, core/materialization.rs)

    Every type of record that has an identity, as one finite list of kinds, with
    what its identity covers.  The hash input of a record determines its kind and
    everything that is covered. *)
From S2P Require Import Prelude Json Canonical Identity ThirdPartyModel Profile Records RecordIdentity Materialization.
From Stdlib Require Import Ascii Floats.SpecFloat.

(** ** Values with the same canonical form *)

Definition alike (v v' : value) : Prop :=
  exists w, normalize_value v = Ok w /\ normalize_value v' = Ok w.

Lemma value_ok_normal v w : value_ok v -> normalize_value v = Ok w -> w = v.
Proof.
  intros [Hn Hw]. apply normalize_value_spelled; [|done].
  by eapply value_numbers_impl; [apply number_ok_parts|].
Qed.
Lemma alike_ok v v' : value_ok v -> value_ok v' -> alike v v' -> v = v'.
Proof.
  intros Hv Hv' (w & Hw & Hw'). apply value_ok_normal in Hw, Hw'; congruence.
Qed.

Definition entry_alike (kv kv' : string * value) : Prop := kv.1 = kv'.1 /\ alike kv.2 kv'.2.

Lemma alike_object m m' :
  map_wf m -> map_wf m' -> alike (Object m) (Object m') -> Forall2 entry_alike m m'.
Proof.
  intros Hm Hm' (w & (n & Hn & ->)%normalize_object_Ok & (n' & Hn' & E)%normalize_object_Ok).
  assert (map_wf n) as Hw by (unfold map_wf in *; by rewrite (normal_entries_keys _ _ Hn)).
  assert (map_wf n') as Hw' by (unfold map_wf in *; by rewrite (normal_entries_keys _ _ Hn')).
  rewrite !map_collect_id in E by done. injection E as <-. clear Hm Hm' Hw Hw'.
  revert m' Hn'. induction Hn as [|[k v] [i x] m n [Hk Hv] _ IH]; intros m' Hn'; inversion Hn'; subst; [constructor|].
  match goal with H : normal_entry ?y (i, x) |- _ => destruct y as [k' v'], H as [Hk' Hv'] end.
  cbn in *. subst. constructor; [|by apply IH]. split; [done|]. by exists x.
Qed.
Lemma alike_array l l' : alike (Array l) (Array l') -> Forall2 alike l l'.
Proof.
  intros (w & (n & Hn & ->)%normalize_array_Ok & (n' & Hn' & [= <-])%normalize_array_Ok).
  revert l' Hn'. induction Hn as [|v x l n Hv _ IH]; intros l' Hn'; inversion Hn'; subst; constructor; [|by apply IH].
  by exists x.
Qed.

(** Finite numbers with the same canonical spelling. *)
Definition same_number (f f' : spec_float) : Prop := normalize_f64 f = normalize_f64 f'.
Lemma alike_number f f' :
  is_finite f = true -> is_finite f' = true -> alike (json_f64 f) (json_f64 f') -> same_number f f'.
Proof.
  unfold json_f64. intros -> -> (w & Hw & Hw'). cbn in Hw, Hw'. unfold normalize_number in Hw, Hw'. cbn in Hw, Hw'.
  unfold same_number. destruct (normalize_f64 f), (normalize_f64 f'); cbn in *; congruence.
Qed.
Lemma alike_numbers l l' :
  Forall (fun f => is_finite f = true) l -> Forall (fun f => is_finite f = true) l' ->
  alike (Array (map json_f64 l)) (Array (map json_f64 l')) -> Forall2 same_number l l'.
Proof.
  intros Hl Hl' H%alike_array. revert l' Hl' H.
  induction Hl as [|f l Hf _ IH]; intros [|f' l'] Hl' H; inversion H; subst; [done|].
  apply Forall_cons in Hl' as [Hf' Hl']. constructor; [by apply alike_number|by apply IH].
Qed.

Lemma work_value_inj m n : map_wf m -> map_wf n -> work_value m = work_value n -> m = n.
Proof.
  unfold work_value, object. intros Hm Hn H.
  assert (forall l : list (string * Z), map_wf l ->
    map_collect ((fun kv => (kv.1, json_u64 kv.2)) <$> l) = (fun kv => (kv.1, json_u64 kv.2)) <$> l) as Hc.
  { intros l Hl. apply map_collect_id. unfold map_wf in *. by rewrite <-list_fmap_compose. }
  rewrite !Hc in H by done. clear Hc Hm Hn. injection H as H. revert n H.
  induction m as [|[k x] m IH]; intros [|[j y] n]; cbn; intros H; [done..|].
  injection H as -> -> H. f_equal. by apply IH.
Qed.

(** ** Observations *)

Definition duration_wf (d : duration) : Prop := in_u64 (as_secs d) = true /\ in_u64 (subsec_nanos d) = true.
Definition timing_wf (t : ObservationTimingRecord) : Prop :=
  duration_wf (ot_timed_wall_time t) /\ duration_wf (ot_evaluation_time t) /\
  (forall d, ot_implementation_time t = Some d -> duration_wf d) /\
  (forall d, ot_cpu_time t = Some d -> duration_wf d) /\ some_u64 (ot_peak_rss_bytes t).
Definition finite_numbers (l : list spec_float) : Prop := Forall (fun f => is_finite f = true) l.
(** Machine integers in range, finite thresholds, canonical payloads, an ordered map. *)
Definition profile_wf (p : ProfileObservationRecord) : Prop :=
  match p with
  | BufferedObservation b =>
      in_u64 (bo_instrumented_time_ns b) = true /\ in_u64 (bo_instrumented_total_time_ns b) = true /\
      in_u64 (bo_trace_index b) = true /\ in_u64 (bo_capture_ordinal b) = true /\
      finite_numbers (bo_thresholds b) /\ value_ok (bo_provisional_metrics b)
  | FreshObservationOf f =>
      in_u64 (fo_measurement_index f) = true /\ in_u64 (fo_schedule_index f) = true /\
      value_ok (fo_observation_control f)
  | StreamingObservation s =>
      in_u64 (so_checkpoint_sequence s) = true /\ in_u64 (so_check_index s) = true /\
      map_wf (so_work s) /\ Forall (fun kv => in_u64 kv.2 = true) (so_work s) /\
      finite_numbers (so_thresholds s) /\ in_u64 (so_active_time_ns s) = true /\
      in_u64 (so_elapsed_wall_time_ns s) = true /\ in_u64 (so_evaluation_time_ns s) = true
  end.
Definition observation_wf (r : RunObservationRecord) : Prop :=
  timing_wf (rb_timing r) /\ forall p, rb_profile r = Some p -> profile_wf p.

(** The profile of an observation, its thresholds by their canonical spelling. *)
Definition same_profile (p p' : ProfileObservationRecord) : Prop :=
  match p, p' with
  | BufferedObservation b, BufferedObservation b' =>
      bo_instrumented_scope b = bo_instrumented_scope b' /\ bo_clock b = bo_clock b' /\
      bo_instrumented_time_ns b = bo_instrumented_time_ns b' /\
      bo_instrumented_total_time_ns b = bo_instrumented_total_time_ns b' /\
      bo_trace_index b = bo_trace_index b' /\ bo_capture_ordinal b = bo_capture_ordinal b' /\
      Forall2 same_number (bo_thresholds b) (bo_thresholds b') /\
      bo_provisional_metrics b = bo_provisional_metrics b'
  | FreshObservationOf f, FreshObservationOf f' => f = f'
  | StreamingObservation s, StreamingObservation s' =>
      so_checkpoint_sequence s = so_checkpoint_sequence s' /\ so_check_index s = so_check_index s' /\
      so_work s = so_work s' /\ so_terminal s = so_terminal s' /\
      Forall2 same_number (so_thresholds s) (so_thresholds s') /\
      so_active_time_ns s = so_active_time_ns s' /\ so_elapsed_wall_time_ns s = so_elapsed_wall_time_ns s' /\
      so_evaluation_time_ns s = so_evaluation_time_ns s' /\ so_decision s = so_decision s' /\
      so_stop_reason s = so_stop_reason s'
  | _, _ => False
  end.
Definition same_option {A} (R : A -> A -> Prop) (o o' : option A) : Prop :=
  match o, o' with Some a, Some b => R a b | None, None => True | _, _ => False end.
(** Provenance is not part of the identity of an observation. *)
Definition same_observation (r r' : RunObservationRecord) : Prop :=
  same_option same_profile (rb_profile r) (rb_profile r') /\
  rb_slot r = rb_slot r' /\ rb_producing_attempt r = rb_producing_attempt r' /\
  rb_result r = rb_result r' /\ rb_metrics r = rb_metrics r' /\ rb_timing r = rb_timing r' /\
  rb_completion r = rb_completion r'.

Lemma value_ok_duration d : duration_wf d -> value_ok (duration_value d).
Proof. intros [? ?]. apply value_ok_collect. entries. Qed.
Lemma value_ok_artifact {t} (a : ArtifactReference t) : value_ok (artifact a).
Proof. apply value_ok_collect. entries. Qed.
#[export] Hint Resolve value_ok_duration value_ok_artifact : spelled.
Lemma value_ok_timing t : timing_wf t -> value_ok (timing t).
Proof. intros (? & ? & ? & ? & ?). apply value_ok_collect. entries. Qed.
Lemma value_ok_work m : Forall (fun kv => in_u64 kv.2 = true) m -> value_ok (work_value m).
Proof.
  intros H. apply value_ok_collect. rewrite Forall_fmap. eapply Forall_impl; [exact H|].
  intros [k n] Hn. by apply value_ok_u64.
Qed.
#[export] Hint Resolve value_ok_timing value_ok_work : spelled.

Lemma artifact_inj {t} (a b : ArtifactReference t) : artifact a = artifact b -> a = b.
Proof. intros H. destruct a, b. unfold artifact in H. fields H. by injects. Qed.
Lemma duration_value_inj a b : duration_value a = duration_value b -> a = b.
Proof. intros H. destruct a, b. unfold duration_value in H. fields H. by injects. Qed.
Lemma optional_duration_inj a b : optional duration_value a = optional duration_value b -> a = b.
Proof. apply optional_inj; [done|apply duration_value_inj]. Qed.
Lemma timing_inj a b : timing a = timing b -> a = b.
Proof.
  intros H. destruct a, b. unfold timing in H. fields H. injects.
  repeat match goal with
  | H : duration_value _ = duration_value _ |- _ => apply duration_value_inj in H; subst
  | H : optional duration_value _ = _ |- _ => apply optional_duration_inj in H; subst
  end. done.
Qed.
Lemma completion_name_inj a b : completion_name a = completion_name b -> a = b.
Proof. by destruct a, b. Qed.
Lemma stop_reason_name_inj a b : stop_reason_name a = stop_reason_name b -> a = b.
Proof. by destruct a, b. Qed.

#[local] Arguments work_value : simpl never.

(** Reads the entries of two objects that are alike. *)
Ltac alike_entries H :=
  repeat (let K := fresh "Hkey" in let E := fresh "Halike" in
    apply Forall2_cons in H as [[K E] H]; cbn [fst snd] in K, E; first [discriminate K | clear K]);
  clear H.
Ltac alike_fields :=
  repeat match goal with
  | H : alike (Array (map json_f64 _)) _ |- _ => apply alike_numbers in H; [|assumption..]
  | H : alike ?v ?w |- _ => apply alike_ok in H; [|solve [eauto with spelled]..]
  end; injects;
  repeat match goal with
  | H : artifact _ = artifact _ |- _ => apply artifact_inj in H; subst
  | H : timing _ = timing _ |- _ => apply timing_inj in H; subst
  | H : Str _ = Str _ |- _ => apply Str_inj in H
  | H : work_value _ = work_value _ |- _ => apply work_value_inj in H; [subst|assumption..]
  | H : completion_name _ = completion_name _ |- _ => apply completion_name_inj in H; subst
  | H : optional (fun r => Str (stop_reason_name r)) _ = _ |- _ =>
      apply optional_inj in H; [subst|done|by intros ?? ?%Str_inj%stop_reason_name_inj]
  end.

Lemma alike_profile p p' :
  profile_wf p -> profile_wf p' ->
  alike (profile_observation_value p) (profile_observation_value p') -> same_profile p p'.
Proof.
  intros Hp Hp' H. destruct p as [[]|[]|[]], p' as [[]|[]|[]]; cbn [profile_wf] in Hp, Hp';
    (apply alike_object in H; [|by auto with json..]); simpl in H.
  all: alike_entries H; destruct_and?; alike_fields; by repeat split.
Qed.

Lemma alike_record `{IdentityRecord R} (r r' : R) :
  map_wf (identity_fields r) -> map_wf (identity_fields r') -> alike (identity_value r) (identity_value r') ->
  Forall2 entry_alike (map_insert "version" (json_u64 IDENTITY_VERSION) (identity_fields r))
    (map_insert "version" (json_u64 IDENTITY_VERSION) (identity_fields r')).
Proof. intros Hr Hr'. apply alike_object; auto with json. Qed.

Lemma alike_observation r r' :
  observation_wf r -> observation_wf r' -> alike (identity_value r) (identity_value r') -> same_observation r r'.
Proof.
  intros [Ht Hp] [Ht' Hp'] H. apply alike_record in H; cbn [identity_fields observation_record].
  2,3: unfold insert_some; case_match; auto with json.
  destruct r as [p ? ? ? ? ? ? ?], r' as [p' ? ? ? ? ? ? ?].
  destruct p as [p|], p' as [p'|]; simpl in *; alike_entries H; destruct_and?; alike_fields; repeat split.
  apply alike_profile; auto.
Qed.

(** ** The kinds of records *)

Inductive RecordKind :=
  | KEnvironmentDefinition | KWorkerDefinition | KDatasetDefinition | KProblemDefinition
  | KImplementationDefinition | KExecutionPolicy | KObservationPolicy | KDatasetConfiguration
  | KProblemConfiguration | KImplementationConfiguration | KDatasetInstance | KProblemInstance
  | KLogicalCandidate | KLogicalSpecification | KLogicalObservationSlot | KLogicalAttemptSlot
  | KResolvedEnvironment | KResolvedLaunch | KExecutorDefinition | KResolvedWorker
  | KApplicability | KResolvedSpecification | KResolvedObservationSlot | KResolvedAttemptSlot
  | KObservation | KAttempt | KDatasetDerivation | KProblemPreparation.
#[export] Instance record_kind_eq_dec : EqDecision RecordKind.
Proof. solve_decision. Defined.
Definition record_type (k : RecordKind) : Type :=
  match k with
  | KEnvironmentDefinition => EnvironmentDefinitionRecord
  | KWorkerDefinition => WorkerDefinitionRecord
  | KDatasetDefinition => DatasetDefinitionRecord
  | KProblemDefinition => ProblemDefinitionRecord
  | KImplementationDefinition => ImplementationDefinitionRecord
  | KExecutionPolicy => ExecutionPolicyRecord
  | KObservationPolicy => ObservationPolicyRecord
  | KDatasetConfiguration => DatasetConfigurationRecord
  | KProblemConfiguration => ProblemConfigurationRecord
  | KImplementationConfiguration => ImplementationConfigurationRecord
  | KDatasetInstance => DatasetInstanceRecord
  | KProblemInstance => ProblemInstanceRecord
  | KLogicalCandidate => LogicalCandidateRecord
  | KLogicalSpecification => OneShotLogicalSpecificationRecord
  | KLogicalObservationSlot => LogicalObservationSlotRecord
  | KLogicalAttemptSlot => LogicalAttemptSlotRecord
  | KResolvedEnvironment => ResolvedEnvironmentRecord
  | KResolvedLaunch => ResolvedLaunchRecord
  | KExecutorDefinition => ExecutorDefinitionRecord
  | KResolvedWorker => ResolvedWorkerRecord
  | KApplicability => ApplicabilityDecisionRecord
  | KResolvedSpecification => ResolvedOneShotSpecificationRecord
  | KResolvedObservationSlot => ResolvedObservationSlotRecord
  | KResolvedAttemptSlot => ResolvedAttemptSlotRecord
  | KObservation => RunObservationRecord
  | KAttempt => RunAttemptRecord
  | KDatasetDerivation => DatasetDerivationRecord
  | KProblemPreparation => ProblemPreparationRecord
  end.
#[export] Instance record_identity (k : RecordKind) : IdentityRecord (record_type k) :=
  match k with
  | KEnvironmentDefinition => environment_definition_record
  | KWorkerDefinition => worker_definition_record
  | KDatasetDefinition => dataset_definition_record
  | KProblemDefinition => problem_definition_record
  | KImplementationDefinition => implementation_definition_record
  | KExecutionPolicy => execution_policy_record
  | KObservationPolicy => observation_policy_record
  | KDatasetConfiguration => dataset_configuration_record
  | KProblemConfiguration => problem_configuration_record
  | KImplementationConfiguration => implementation_configuration_record
  | KDatasetInstance => dataset_instance_record
  | KProblemInstance => problem_instance_record
  | KLogicalCandidate => logical_candidate_record
  | KLogicalSpecification => logical_specification_record
  | KLogicalObservationSlot => logical_observation_slot_record
  | KLogicalAttemptSlot => logical_attempt_slot_record
  | KResolvedEnvironment => resolved_environment_record
  | KResolvedLaunch => resolved_launch_record
  | KExecutorDefinition => executor_definition_record
  | KResolvedWorker => resolved_worker_record
  | KApplicability => applicability_record
  | KResolvedSpecification => resolved_specification_record
  | KResolvedObservationSlot => resolved_observation_slot_record
  | KResolvedAttemptSlot => resolved_attempt_slot_record
  | KObservation => observation_record
  | KAttempt => attempt_record
  | KDatasetDerivation => dataset_derivation_record
  | KProblemPreparation => problem_preparation_record
  end.

(** No two kinds share a hash domain. *)
Definition record_domain (k : RecordKind) : IdentityType := identity_type (record_type k).
Lemma record_domain_inj k k' : KIND (record_domain k) = KIND (record_domain k') -> k = k'.
Proof. destruct k, k'; intros H; first [reflexivity|discriminate H]. Qed.

(** Two definitions of an implementation are the same whatever the order in which
    they declare their problem contracts and capabilities. *)
Definition same_implementation (r r' : ImplementationDefinitionRecord) : Prop :=
  im_name r = im_name r' /\ im_worker r = im_worker r' /\
  im_problem_contracts r ≡ₚ im_problem_contracts r' /\
  im_parameter_schema r = im_parameter_schema r' /\
  im_parameter_defaults r = im_parameter_defaults r' /\
  im_capabilities r ≡ₚ im_capabilities r'.
(** An attempt is its slot and retry index: its outcome, times and provenance are
    recorded later. *)
Definition same_attempt (r r' : RunAttemptRecord) : Prop :=
  rt_slot r = rt_slot r' /\ rt_retry_index r = rt_retry_index r'.
Definition same_identity (k : RecordKind) : record_type k -> record_type k -> Prop :=
  match k with
  | KImplementationDefinition => same_implementation
  | KObservation => same_observation
  | KAttempt => same_attempt
  | _ => eq
  end.

(** Machine integers in range, payloads canonical, maps ordered. *)
Definition record_ok (k : RecordKind) : record_type k -> Prop :=
  match k with
  | KEnvironmentDefinition => record_wf (R := EnvironmentDefinitionRecord)
  | KWorkerDefinition => record_wf (R := WorkerDefinitionRecord)
  | KDatasetDefinition => record_wf (R := DatasetDefinitionRecord)
  | KProblemDefinition => record_wf (R := ProblemDefinitionRecord)
  | KImplementationDefinition => fun r => some_ok (im_parameter_defaults r)
  | KExecutionPolicy => record_wf (R := ExecutionPolicyRecord)
  | KObservationPolicy => record_wf (R := ObservationPolicyRecord)
  | KDatasetConfiguration => record_wf (R := DatasetConfigurationRecord)
  | KProblemConfiguration => record_wf (R := ProblemConfigurationRecord)
  | KImplementationConfiguration => record_wf (R := ImplementationConfigurationRecord)
  | KDatasetInstance => record_wf (R := DatasetInstanceRecord)
  | KProblemInstance => record_wf (R := ProblemInstanceRecord)
  | KLogicalCandidate => record_wf (R := LogicalCandidateRecord)
  | KLogicalSpecification => record_wf (R := OneShotLogicalSpecificationRecord)
  | KLogicalObservationSlot => record_wf (R := LogicalObservationSlotRecord)
  | KLogicalAttemptSlot => record_wf (R := LogicalAttemptSlotRecord)
  | KResolvedEnvironment => record_wf (R := ResolvedEnvironmentRecord)
  | KResolvedLaunch => record_wf (R := ResolvedLaunchRecord)
  | KExecutorDefinition => record_wf (R := ExecutorDefinitionRecord)
  | KResolvedWorker => record_wf (R := ResolvedWorkerRecord)
  | KApplicability => record_wf (R := ApplicabilityDecisionRecord)
  | KResolvedSpecification => record_wf (R := ResolvedOneShotSpecificationRecord)
  | KResolvedObservationSlot => record_wf (R := ResolvedObservationSlotRecord)
  | KResolvedAttemptSlot => record_wf (R := ResolvedAttemptSlotRecord)
  | KObservation => observation_wf
  | KAttempt => record_wf (R := RunAttemptRecord)
  | KDatasetDerivation => record_wf (R := DatasetDerivationRecord)
  | KProblemPreparation => record_wf (R := ProblemPreparationRecord)
  end.

Lemma implementation_ok r : some_ok (im_parameter_defaults r) -> value_ok (identity_value r).
Proof.
  intros Hr. apply value_ok_object, fields_ok_insert; [by apply value_ok_u64|].
  apply fields_ok_collect. entries.
Qed.
Lemma record_alike k (r r' : record_type k) :
  record_ok k r -> record_ok k r' -> alike (identity_value r) (identity_value r') -> same_identity k r r'.
Proof.
  assert (forall R (IR : IdentityRecord R) (L : LawfulRecord R) (x y : R), record_wf x -> record_wf y ->
    alike (identity_value x) (identity_value y) -> same_record x y) as Hlawful.
  { intros R IR L x y Hx Hy H. apply lawful_inj; [done..|]. apply alike_ok; [by apply identity_value_ok..|done]. }
  destruct k; cbn [record_type record_identity record_ok same_identity] in *; intros Hr Hr' H;
    try exact (Hlawful _ _ _ r r' Hr Hr' H).
  - apply alike_ok in H; [|by apply implementation_ok..].
    apply implementation_identity_unordered in H; [done|apply Hr|apply Hr'].
  - by apply alike_observation.
Qed.

(** ** Canonical bytes *)

Lemma value_ok_numbers v : value_ok v -> value_numbers_wf v = true.
Proof. intros [Hn _]. eapply value_numbers_impl; [|exact Hn]. intros n Hok. by apply number_ok_parts. Qed.
Lemma numbers_wf_array l :
  Forall (fun v => value_numbers_wf v = true) l -> value_numbers_wf (Array l) = true.
Proof. apply value_numbers_array. Qed.
Lemma numbers_wf_object m :
  Forall (fun kv => value_numbers_wf kv.2 = true) m -> value_numbers_wf (Object m) = true.
Proof. apply value_numbers_object. Qed.
Lemma thresholds_numbers l : finite_numbers l -> value_numbers_wf (Array (map json_f64 l)) = true.
Proof.
  intros Hl. apply numbers_wf_array, Forall_map. eapply Forall_impl; [exact Hl|].
  intros f Hf. unfold json_f64. by rewrite Hf.
Qed.
#[local] Hint Resolve value_ok_numbers thresholds_numbers : spelled.
Ltac number_entries := apply numbers_wf_object; repeat constructor; cbn [snd]; eauto with spelled.

Lemma profile_numbers p : profile_wf p -> value_numbers_wf (profile_observation_value p) = true.
Proof. destruct p as [[]|[]|[]]; cbn; intros Hp; destruct_and?; number_entries. Qed.
Lemma observation_numbers r : observation_wf r -> value_numbers_wf (identity_value r) = true.
Proof.
  intros [Ht Hp]. destruct r as [[p|] ? ? ? ? ? ? ?]; unfold identity_value; simpl in *; number_entries.
  apply profile_numbers. auto.
Qed.
Lemma record_numbers k (r : record_type k) : record_ok k r -> value_numbers_wf (identity_value r) = true.
Proof.
  assert (forall R (IR : IdentityRecord R) (L : LawfulRecord R) (x : R), record_wf x ->
    value_numbers_wf (identity_value x) = true) as Hlawful.
  { intros R IR L x Hx. by apply value_ok_numbers, identity_value_ok. }
  destruct k; cbn [record_type record_identity record_ok] in *; intros Hr; try exact (Hlawful _ _ _ r Hr).
  - by apply value_ok_numbers, implementation_ok.
  - by apply observation_numbers.
Qed.

(** *** What is not covered does not matter *)

Definition normal_alike (kv kv' : string * value) : Prop :=
  kv.1 = kv'.1 /\ normalize_value kv.2 = normalize_value kv'.2.
Lemma normalize_object_congr m m' :
  Forall2 normal_alike m m' -> normalize_value (Object m) = normalize_value (Object m').
Proof.
  intros H. simpl. f_equal. induction H as [|[k v] [k' v'] m m' [Hk Hv] _ IH]; [done|].
  cbn [mapM fst snd] in *. rewrite Hk, Hv. destruct (normalize_value v'); [|done]. cbn. by rewrite IH.
Qed.
Lemma thresholds_congr l l' :
  finite_numbers l -> finite_numbers l' -> Forall2 same_number l l' ->
  normalize_value (Array (map json_f64 l)) = normalize_value (Array (map json_f64 l')).
Proof.
  intros Hl Hl' H. simpl. f_equal. revert Hl Hl'.
  induction H as [|f f' l l' Hf _ IH]; intros Hl Hl'; [done|].
  apply Forall_cons in Hl as [Hff Hl], Hl' as [Hff' Hl']. cbn [map mapM]. rewrite (IH Hl Hl').
  unfold json_f64. rewrite Hff, Hff'. cbn. unfold normalize_number. cbn. by rewrite Hf.
Qed.
Lemma profile_congr p p' :
  profile_wf p -> profile_wf p' -> same_profile p p' ->
  normalize_value (profile_observation_value p) = normalize_value (profile_observation_value p').
Proof.
  destruct p as [[]|[]|[]], p' as [[]|[]|[]]; cbn; intros Hp Hp' H; try done; [|by injection H as -> -> ->|];
    destruct_and?; subst; apply normalize_object_congr; repeat constructor; try done;
    by apply thresholds_congr.
Qed.
Lemma observation_congr r r' :
  observation_wf r -> observation_wf r' -> same_observation r r' ->
  normalize_value (identity_value r) = normalize_value (identity_value r').
Proof.
  intros [_ Hp] [_ Hp'] (Hprofile & ? & ? & ? & ? & ? & ?).
  destruct r as [p a1 a2 a3 a4 a5 a6 a7], r' as [p' b1 b2 b3 b4 b5 b6 b7].
  cbn [rb_profile rb_slot rb_producing_attempt rb_result rb_metrics rb_timing rb_completion] in *. subst.
  destruct p as [p|], p' as [p'|]; try done. cbn [same_option] in Hprofile.
  unfold identity_value. apply normalize_object_congr. simpl. repeat constructor.
  cbn [snd]. apply profile_congr; auto.
Qed.

Section Bytes.
Context `{ThirdPartyLaws}.

Lemma canonical_bytes_alike v v' b :
  value_numbers_wf v = true -> value_numbers_wf v' = true ->
  canonical_bytes v = Ok b -> canonical_bytes v' = Ok b -> alike v v'.
Proof.
  unfold canonical_bytes, to_canonical_bytes, try_from. intros Hv Hv' Hb Hb'.
  destruct (normalize_value v) as [w|] eqn:Hw; [|done]. destruct (normalize_value v') as [w'|] eqn:Hw'; [|done].
  cbn in Hb, Hb'. destruct (to_vec w) as [c|] eqn:Ec; [|done]. destruct (to_vec w') as [c'|] eqn:Ec'; [|done].
  cbn in Hb, Hb'. destruct (normalize_value_domain _ _ Hv Hw), (normalize_value_domain _ _ Hv' Hw').
  assert (w = w') as <- by (eapply to_vec_inj; eauto; congruence). by exists w.
Qed.

Lemma same_identity_bytes k (r r' : record_type k) :
  record_ok k r -> record_ok k r' -> same_identity k r r' ->
  canonical_identity_bytes r = canonical_identity_bytes r'.
Proof.
  intros Hr Hr' Hsame. assert (normalize_value (identity_value r) = normalize_value (identity_value r')) as E.
  { destruct k; cbn [record_type record_identity record_ok same_identity] in *; try (by rewrite Hsame).
    - f_equal. by apply implementation_identity_unordered; [apply Hr|apply Hr'|].
    - by apply observation_congr.
    - destruct r, r', Hsame; cbn in *; by subst. }
  unfold canonical_identity_bytes, canonical_bytes, try_from. by rewrite E.
Qed.

End Bytes.

(** ** Examples

    Two declarations of an implementation that list their contracts in another
    order, and a problem definition of the same name. *)
Definition contract_p : RecordId ProblemDefinitionType := from_digest (repeat "p"%char 32).
Definition contract_q : RecordId ProblemDefinitionType := from_digest (repeat "q"%char 32).
Definition sample_domain (k : RecordKind) (r : record_type k) : option bytes :=
  match @canonical_identity_bytes model _ _ r with
  | Ok b => Some (identity_transcript (record_domain k) b)
  | Err _ => None
  end.

