(* ===== verification/RunDocuments.v ===== *)
(** * Public run documents (src/core/run_documents.rs)

    The canonical observation and attempt envelopes and the RFC 3339
    timestamps they carry. *)
From S2P Require Import Prelude Json Canonical Identity Profile Records.
From Stdlib Require Import Ascii.

Definition PUBLIC_SCHEMA_VERSION : Z := 1.

Inductive RunDocumentError :=
  | UnsupportedPrimaryTime
  | DocumentCanonical (e : CanonicalJsonError)
  | DocumentIdentity (e : IdentityError)
  | TimestampRange
  | DurationRange.

(** ** Timestamps *)

Definition leap_year (year : Z) : bool :=
  (year mod 4 =? 0)%Z && (negb (year mod 100 =? 0)%Z || (year mod 400 =? 0)%Z).
Definition year_length (year : Z) : Z := if leap_year year then 366 else 365.
Definition months (year : Z) : list Z :=
  [31; if leap_year year then 29 else 28; 31; 30; 31; 30; 31; 31; 30; 31; 30; 31]%Z.

(** [while year <= 9999 { .. }]: the loop runs at most once per year from 1970
    to 9999, so [year_fuel] iterations are enough. *)
Definition year_fuel : nat := 8031.
Fixpoint year_loop (fuel : nat) (year days : Z) : Z * Z :=
  match fuel with
  | O => (year, days)
  | S fuel =>
      if (year <=? 9999)%Z then
        if (days <? year_length year)%Z then (year, days)
        else year_loop fuel (year + 1) (days - year_length year)
      else (year, days)
  end.

(** [while days >= months[month] { .. }]: [None] is the index panic past
    December. *)
Fixpoint month_loop (lengths : list Z) (month : nat) (days : Z) : option (nat * Z) :=
  match lengths with
  | [] => None
  | n :: rest => if (n <=? days)%Z then month_loop rest (S month) (days - n) else Some (month, days)
  end.

(** Zero-padded decimal. *)
Fixpoint digits (width : nat) (n : Z) (acc : bytes) : bytes :=
  match width with
  | O => acc
  | S w => digits w (n / 10) (ascii_of_nat (48 + Z.to_nat (n mod 10)) :: acc)
  end.
Definition pad (width : nat) (n : Z) : string := string_of (digits width n []).

Record civil := { c_year : Z; c_month : nat; c_day : Z }.

(** The calendar date of a day number, as the two loops compute it.  The year
    and the month stay below 10000 and 12. *)
Definition civil_of_days (days : Z) : result RunDocumentError civil :=
  let '(year, days) := year_loop year_fuel 1970 days in
  if (9999 <? year)%Z then Err TimestampRange
  else
    '(month, days) ← ok_or (month_loop (months year) 0 days) TimestampRange;
    Ok {| c_year := year; c_month := month; c_day := days |}.

(** [time] is nanoseconds since the epoch; [duration_since] fails before it. *)
Definition timestamp (time : Z) : result RunDocumentError string :=
  if (time <? 0)%Z then Err TimestampRange
  else
    let elapsed := (time / 1000000000)%Z in
    c ← civil_of_days (elapsed / 86400);
    let seconds := (elapsed mod 86400)%Z in
    Ok (pad 4 (c_year c) +:+ "-" +:+ pad 2 (Z.of_nat (c_month c) + 1) +:+ "-" +:+
        pad 2 (c_day c + 1) +:+ "T" +:+ pad 2 (seconds / 3600) +:+ ":" +:+
        pad 2 (seconds / 60 mod 60) +:+ ":" +:+ pad 2 (seconds mod 60) +:+ "." +:+
        pad 9 (time mod 1000000000) +:+ "Z").

Example epoch : timestamp 12300 = Ok "1970-01-01T00:00:00.000012300Z".
Proof. vm_compute. reflexivity. Qed.
Example leap_day : timestamp 951782400000012300 = Ok "2000-02-29T00:00:00.000012300Z".
Proof. vm_compute. reflexivity. Qed.
Example century : timestamp 4107542400000012300 = Ok "2100-03-01T00:00:00.000012300Z".
Proof. vm_compute. reflexivity. Qed.
Example last_second : timestamp 253402300799000012300 = Ok "9999-12-31T23:59:59.000012300Z".
Proof. vm_compute. reflexivity. Qed.
Example past_9999 : timestamp 253402300800000000000 = Err TimestampRange.
Proof. vm_compute. reflexivity. Qed.

(** ** Documents *)

Definition as_nanos (d : duration) : Z := as_secs d * 1000000000 + subsec_nanos d.
Definition nanoseconds (d : duration) : result RunDocumentError Z :=
  if (as_nanos d <=? u64_max)%Z then Ok (as_nanos d) else Err DurationRange.
(** [option.map(f).transpose()]. *)
Definition transpose {E A B} (f : A -> result E B) (o : option A) : result E (option B) :=
  match o with
  | Some a => b ← f a; Ok (Some b)
  | None => Ok None
  end.

Definition provenance (p : ProvenanceRecord) : value :=
  object [
    ("tool_version", Str (pr_tool_version p));
    ("wire_protocol_version", json_u64 (pr_wire_protocol_version p));
    ("execution_semantics_version", json_u64 (pr_execution_semantics_version p));
    ("data", pr_data p)].

Definition diagnostic_value (d : AttemptDiagnostic) : value :=
  object [("code", Str (dg_code d)); ("message", Str (dg_message d));
          ("details", canonical_or_null (dg_details d))].
Definition failed_diagnostic (d : AttemptDiagnostic) : value :=
  Object (insert_some "details" (fun v => v) (dg_details d)
    (map_collect [("code", Str (dg_code d)); ("message", Str (dg_message d))])).

Section Documents.
Context `{ThirdParty}.

Definition document (v : value) : result RunDocumentError value :=
  map_err (fun e => DocumentCanonical (InvalidValue e)) (try_from v).

Definition observation_document (r : RunObservationRecord) : result RunDocumentError value :=
  match ot_primary_time (rb_timing r) with
  | CpuTime => Err UnsupportedPrimaryTime
  | TimedWallTime =>
      i ← map_err DocumentIdentity (record_id r);
      wall ← nanoseconds (ot_timed_wall_time (rb_timing r));
      implementation ← transpose nanoseconds (ot_implementation_time (rb_timing r));
      evaluation ← nanoseconds (ot_evaluation_time (rb_timing r));
      cpu ← transpose nanoseconds (ot_cpu_time (rb_timing r));
      document (Object (insert_some "profile" profile_observation_value (rb_profile r)
        (map_collect [
          ("schema_version", json_u64 PUBLIC_SCHEMA_VERSION);
          ("id", id_value i);
          ("slot_id", id_value (rb_slot r));
          ("attempt_id", id_value (rb_producing_attempt r));
          ("result", artifact (rb_result r));
          ("metrics", artifact (rb_metrics r));
          ("timing", object [
             ("primary_time", Str "timed_wall_time");
             ("timed_wall_time_ns", json_u64 wall);
             ("implementation_time_ns", optional_u64 implementation);
             ("evaluation_time_ns", json_u64 evaluation);
             ("cpu_time_ns", optional_u64 cpu);
             ("peak_rss_bytes", optional_u64 (ot_peak_rss_bytes (rb_timing r)))]);
          ("validity", object [
             ("valid", Bool true);
             ("completion", Str (completion_name (rb_completion r)))]);
          ("provenance", provenance (rb_provenance r))])))
  end.

Definition attempt_parts (o : AttemptOutcome.RunAttemptOutcome)
  : value * list (RecordId ObservationType) :=
  match o with
  | AttemptOutcome.Profile status observations reason diagnostic =>
      (object [("kind", Str (profile_status_name status)); ("reason", Str reason);
               ("diagnostic", optional diagnostic_value diagnostic)], observations)
  | AttemptOutcome.Censored reason observation =>
      (object [("kind", Str "censored"); ("reason", Str reason)], option_list observation)
  | AttemptOutcome.Accepted observation =>
      (object [("kind", Str "accepted")], [observation])
  | AttemptOutcome.Superseded observation =>
      (object [("kind", Str "superseded")], option_list observation)
  | AttemptOutcome.Failed diagnostic observation =>
      (object [("kind", Str "failed"); ("diagnostic", failed_diagnostic diagnostic)],
       option_list observation)
  end.

Definition attempt_document (r : RunAttemptRecord) : result RunDocumentError value :=
  let '(outcome, observations) := attempt_parts (rt_outcome r) in
  i ← map_err DocumentIdentity (record_id r);
  started ← timestamp (rt_started_at r);
  finished ← timestamp (rt_finished_at r);
  document (object [
    ("schema_version", json_u64 PUBLIC_SCHEMA_VERSION);
    ("id", id_value i);
    ("slot_id", id_value (rt_slot r));
    ("retry_index", json_u64 (rt_retry_index r));
    ("outcome", outcome);
    ("observations", Array (id_value <$> observations));
    ("started_at", Str started);
    ("finished_at", Str finished);
    ("provenance", provenance (rt_provenance r))]).
End Documents.

(** ** The calendar *)

(** Days from 1970-01-01 to the first day of [year], [n] years later. *)
Fixpoint days_of_years (year : Z) (n : nat) : Z :=
  match n with O => 0 | S n => year_length year + days_of_years (year + 1) n end.
Definition sum (l : list Z) : Z := foldr Z.add 0%Z l.

Lemma year_loop_spec fuel year days :
  (0 <= days)%Z -> (10000 - year <= Z.of_nat fuel)%Z -> (year <= 10000)%Z ->
  let '(y, d) := year_loop fuel year days in
  exists n, y = (year + Z.of_nat n)%Z /\ days = (days_of_years year n + d)%Z /\
    (0 <= d)%Z /\ (y <= 10000)%Z /\ ((y <= 9999)%Z -> (d < year_length y)%Z).
Proof.
  revert year days. induction fuel as [|fuel IH]; intros year days Hd Hf Hy; simpl.
  - exists 0%nat. simpl. repeat split; lia.
  - destruct (year <=? 9999)%Z eqn:H1; bools;
      [destruct (days <? year_length year)%Z eqn:H2; bools|];
      [exists 0%nat; simpl; repeat split; lia| |exists 0%nat; simpl; repeat split; lia].
    specialize (IH (year + 1)%Z (days - year_length year)%Z ltac:(lia) ltac:(lia) ltac:(lia)).
    destruct (year_loop fuel _ _) as [y d]. destruct IH as (n & -> & Hn & ? & ? & ?).
    exists (S n). cbn [days_of_years]. repeat split; lia.
Qed.

Lemma month_loop_spec lengths month days :
  (0 <= days < sum lengths)%Z ->
  exists m d n, month_loop lengths month days = Some (m, d) /\ (month <= m)%nat /\
    lengths !! (m - month)%nat = Some n /\ (0 <= d < n)%Z /\
    days = (sum (take (m - month) lengths) + d)%Z.
Proof.
  revert month days. induction lengths as [|n rest IH]; simpl; intros month days Hd; [lia|].
  destruct (n <=? days)%Z eqn:Hn; bools.
  - destruct (IH (S month) (days - n)%Z ltac:(lia)) as (m & d & k & -> & Hm & Hk & Hkd & Hs).
    exists m, d, k. replace (m - month)%nat with (S (m - S month)) by lia. simpl.
    repeat split; try lia; done.
  - exists month, days, n. rewrite Nat.sub_diag. simpl. repeat split; try lia; done.
Qed.

Lemma months_sum year : sum (months year) = year_length year.
Proof. unfold months, year_length. destruct (leap_year year); reflexivity. Qed.

(** The calendar computation is total and exact: every day number has
    either a year past 9999, which is refused, or a month and a day inside that
    month of that year (no array access past December), and the whole years,
    whole months and days add up to the day number. *)
Theorem civil_of_days_spec days :
  (0 <= days)%Z ->
  match civil_of_days days with
  | Ok c => exists n length,
      c_year c = (1970 + Z.of_nat n)%Z /\ (c_year c <= 9999)%Z /\
      months (c_year c) !! c_month c = Some length /\ (0 <= c_day c < length)%Z /\
      days = (days_of_years 1970 n + sum (take (c_month c) (months (c_year c))) + c_day c)%Z
  | Err e => e = TimestampRange /\ (days_of_years 1970 (Z.to_nat (10000 - 1970)) <= days)%Z
  end.
Proof.
  intros Hd. unfold civil_of_days.
  pose proof (year_loop_spec year_fuel 1970 days Hd ltac:(vm_compute; congruence) ltac:(lia)) as H.
  destruct (year_loop year_fuel 1970 days) as [year d].
  destruct H as (n & Hy & Hn & Hd0 & Hmax & Hlt).
  destruct (9999 <? year)%Z eqn:Hyear; bools.
  - split; [done|]. replace (Z.to_nat (10000 - 1970)) with n by lia. lia.
  - specialize (Hlt Hyear). rewrite <-months_sum in Hlt.
    destruct (month_loop_spec (months year) 0 d ltac:(lia))
      as (m & r & k & -> & _ & Hk & Hr & Hs). rewrite Nat.sub_0_r in *. simpl.
    exists n, k. repeat split; try done; lia.
Qed.

Lemma civil_of_days_spec_witness :
  match civil_of_days 11016 with
  | Ok c => c = {| c_year := 2000; c_month := 1; c_day := 28 |} /\
      exists n length, c_year c = (1970 + Z.of_nat n)%Z /\ (c_year c <= 9999)%Z /\
      months (c_year c) !! c_month c = Some length /\ (0 <= c_day c < length)%Z /\
      11016%Z = (days_of_years 1970 n + sum (take (c_month c) (months (c_year c))) + c_day c)%Z
  | Err _ => False
  end.
Proof.
  pose proof (civil_of_days_spec 11016 ltac:(lia)) as H.
  assert (civil_of_days 11016 = Ok {| c_year := 2000; c_month := 1; c_day := 28 |}) as E
    by (vm_compute; reflexivity).
  rewrite E in *. split; [reflexivity|exact H].
Defined.
