(* ===== verification/Store.v ===== *)
(** * The run store: tables and statements (src/runtime/run_store/v3.sql)

    The coordination database as a value.  A table with a [TEXT PRIMARY KEY]
    is a finite map; the append-only [events] and [attempt_transitions] tables
    are lists in insertion order, an event's [sequence] being its position
    plus one.  Columns that hold the canonical JSON text of a record hold the
    value that text denotes.

    Every [INSERT], [UPDATE] and [DELETE] the Rust code issues is a function
    that returns the new database or [Sqlite] when a key, [CHECK], foreign key
    or trigger of the schema refuses it; the deferred foreign key of
    [attempts] is checked by [commit].  A transaction that returns an error is
    rolled back: its caller keeps the database it started from. *)
From S2P Require Import Prelude Json Canonical Identity Profile Records.
From Stdlib Require Import Ascii.

(** ** Row types *)

(** [AttemptPhase], and the terminal outcomes beside it. *)
Inductive AttemptPhase :=
  | Materializing | Starting | Preparing | Executing
  | Checkpointing | Validating | Evaluating | Finalizing.

Inductive attempt_state :=
  | Reserved
  | InPhase (p : AttemptPhase)
  | Accepted | Censored | Superseded | Failed.

#[export] Instance phase_eq_dec : EqDecision AttemptPhase.
Proof. solve_decision. Defined.
#[export] Instance state_eq_dec : EqDecision attempt_state.
Proof. solve_decision. Defined.

Definition phase_name (p : AttemptPhase) : string :=
  match p with
  | Materializing => "materializing" | Starting => "starting"
  | Preparing => "preparing" | Executing => "executing"
  | Checkpointing => "checkpointing" | Validating => "validating"
  | Evaluating => "evaluating" | Finalizing => "finalizing"
  end.

Definition state_name (s : attempt_state) : string :=
  match s with
  | Reserved => "reserved"
  | InPhase p => phase_name p
  | Accepted => "accepted" | Censored => "censored"
  | Superseded => "superseded" | Failed => "failed"
  end.

(** [state IN ('accepted', 'censored', 'superseded', 'failed')]. *)
Definition is_terminal (s : attempt_state) : bool :=
  match s with Accepted | Censored | Superseded | Failed => true | _ => false end.

(** The edges admitted by the [CHECK] of [attempt_transitions]. *)
Definition allowed_edge (from to : attempt_state) : bool :=
  match from, to with
  | Reserved, InPhase Materializing
  | InPhase Materializing, InPhase Starting
  | InPhase Starting, InPhase Preparing
  | InPhase Preparing, InPhase Executing
  | InPhase Executing, InPhase Checkpointing
  | InPhase Executing, InPhase Validating
  | InPhase Checkpointing, InPhase Validating
  | InPhase Validating, InPhase Evaluating
  | InPhase Evaluating, InPhase Executing => true
  | InPhase Finalizing, InPhase Finalizing => false
  | (Reserved | InPhase _), InPhase Finalizing => true
  | InPhase Finalizing, (Accepted | Censored | Superseded | Failed) => true
  | _, _ => false
  end.

Inductive execution_kind := OneShot | FreshObservation | Stream | Buffered.
#[export] Instance kind_eq_dec : EqDecision execution_kind.
Proof. solve_decision. Defined.

Inductive slot_role := Measurement | Warmup.
#[export] Instance role_eq_dec : EqDecision slot_role.
Proof. solve_decision. Defined.

Inductive lease_purpose := Reservation | Staging | Finalization | ArtifactLease.
#[export] Instance purpose_eq_dec : EqDecision lease_purpose.
Proof. solve_decision. Defined.

Inductive artifact_kind :=
  | AttemptArtifact | ObservationArtifact | ResultKind | MetricsKind
  | DatasetKind | SourceKind | EnvironmentKind | OtherKind.
#[export] Instance artifact_kind_eq_dec : EqDecision artifact_kind.
Proof. solve_decision. Defined.

Inductive disposition_reason := SkippedTargetReached | ActiveTimeLimit.
#[export] Instance disposition_eq_dec : EqDecision disposition_reason.
Proof. solve_decision. Defined.

Record decision_row := {
  dec_candidate : string; dec_applicable : bool; dec_record : value }.
Record run_row := {
  run_logical : string; run_candidate : string; run_applicability : string;
  run_record : value }.
Record slot_row := {
  os_logical : string; os_run : string; os_record : value }.
Record attempt_slot_row := {
  as_logical : string; as_run : string; as_kind : execution_kind;
  as_role : slot_role; as_record : value }.
(** [attempt_observation_slots], keyed by the observation slot. *)
Record membership_row := { mem_attempt_slot : string; mem_run : string }.

Record attempt_row := {
  att_slot : string;
  att_retry_index : Z;
  att_state : attempt_state;
  att_revision : Z;
  att_started : Z;
  att_updated : Z;
  att_finished : option Z;
  att_failure_code : option string;
  att_final_artifact : option string;
}.

Record event_row := {
  ev_attempt : option string; ev_at : Z; ev_kind : string; ev_payload : value }.

Record transition_row := {
  tr_attempt : string; tr_revision : Z; tr_previous : option Z;
  tr_from : option attempt_state; tr_to : attempt_state;
  tr_at : Z; tr_event : Z }.

Record lease_row := {
  le_owner : string; le_attempt : option string; le_purpose : lease_purpose;
  le_staging : option string; le_acquired : Z; le_expires : Z;
  le_released : option Z }.

Record claim_row := { cl_attempt : string; cl_lease : string }.

Record artifact_row := {
  art_kind : artifact_kind; art_path : string; art_content : bytes;
  art_directory : bool; art_manifest : option bytes; art_verified : Z }.

Record observation_row := {
  ob_slot : string; ob_attempt : string; ob_attempt_slot : string;
  ob_valid : bool; ob_completion : CompletionStatus; ob_artifact : string;
  ob_record : value }.

Record selected_row := { sel_observation : string; sel_at : Z }.

Record member_row := {
  fm_run : string; fm_measurement : Z; fm_schedule : Z; fm_control : value }.
Record budget_row := { bu_reserved : Z; bu_charged : option Z }.
Record disposition_row := { di_reason : disposition_reason; di_attempt : string }.

(** ** The database *)
Record plan_tables := {
  applicability_decisions_ : gmap string decision_row;
  resolved_runs_ : gmap string run_row;
  observation_slots_ : gmap string slot_row;
  attempt_slots_ : gmap string attempt_slot_row;
  attempt_observation_slots_ : gmap string membership_row;
}.
Record exec_tables := {
  attempts_ : gmap string attempt_row;
  events_ : list event_row;
  attempt_transitions_ : list transition_row;
  leases_ : gmap string lease_row;
  finalization_claims_ : gmap string claim_row;
}.
Record evidence_tables := {
  artifacts_ : gmap string artifact_row;
  observations_ : gmap string observation_row;
  selected_observations_ : gmap string selected_row;
  attempt_artifacts_ : list (string * string * string);
  leased_artifacts_ : list (string * string);
}.
Record fresh_tables := {
  fresh_sequences_ : gmap (string * Z) ProfilePolicy;
  fresh_members_ : gmap string member_row;
  fresh_budget_ : gmap string budget_row;
  fresh_dispositions_ : gmap string disposition_row;
}.
Record db := {
  user_version : Z;
  plan : plan_tables;
  exec : exec_tables;
  evidence : evidence_tables;
  fresh : fresh_tables;
}.
Definition applicability_decisions (d : db) : gmap string decision_row := applicability_decisions_ (plan d).
Definition resolved_runs (d : db) : gmap string run_row := resolved_runs_ (plan d).
Definition observation_slots (d : db) : gmap string slot_row := observation_slots_ (plan d).
Definition attempt_slots (d : db) : gmap string attempt_slot_row := attempt_slots_ (plan d).
Definition attempt_observation_slots (d : db) : gmap string membership_row := attempt_observation_slots_ (plan d).
Definition attempts (d : db) : gmap string attempt_row := attempts_ (exec d).
Definition events (d : db) : list event_row := events_ (exec d).
Definition attempt_transitions (d : db) : list transition_row := attempt_transitions_ (exec d).
Definition leases (d : db) : gmap string lease_row := leases_ (exec d).
Definition finalization_claims (d : db) : gmap string claim_row := finalization_claims_ (exec d).
Definition artifacts (d : db) : gmap string artifact_row := artifacts_ (evidence d).
Definition observations (d : db) : gmap string observation_row := observations_ (evidence d).
Definition selected_observations (d : db) : gmap string selected_row := selected_observations_ (evidence d).
Definition attempt_artifacts (d : db) : list (string * string * string) := attempt_artifacts_ (evidence d).
Definition leased_artifacts (d : db) : list (string * string) := leased_artifacts_ (evidence d).
Definition fresh_sequences (d : db) : gmap (string * Z) ProfilePolicy := fresh_sequences_ (fresh d).
Definition fresh_members (d : db) : gmap string member_row := fresh_members_ (fresh d).
Definition fresh_budget (d : db) : gmap string budget_row := fresh_budget_ (fresh d).
Definition fresh_dispositions (d : db) : gmap string disposition_row := fresh_dispositions_ (fresh d).
Definition set_applicability_decisions (x : gmap string decision_row) (d : db) : db :=
  {| user_version := user_version d; plan := {| applicability_decisions_ := x; resolved_runs_ := resolved_runs d; observation_slots_ := observation_slots d; attempt_slots_ := attempt_slots d; attempt_observation_slots_ := attempt_observation_slots d |}; exec := exec d; evidence := evidence d; fresh := fresh d |}.
Definition set_resolved_runs (x : gmap string run_row) (d : db) : db :=
  {| user_version := user_version d; plan := {| applicability_decisions_ := applicability_decisions d; resolved_runs_ := x; observation_slots_ := observation_slots d; attempt_slots_ := attempt_slots d; attempt_observation_slots_ := attempt_observation_slots d |}; exec := exec d; evidence := evidence d; fresh := fresh d |}.
Definition set_observation_slots (x : gmap string slot_row) (d : db) : db :=
  {| user_version := user_version d; plan := {| applicability_decisions_ := applicability_decisions d; resolved_runs_ := resolved_runs d; observation_slots_ := x; attempt_slots_ := attempt_slots d; attempt_observation_slots_ := attempt_observation_slots d |}; exec := exec d; evidence := evidence d; fresh := fresh d |}.
Definition set_attempt_slots (x : gmap string attempt_slot_row) (d : db) : db :=
  {| user_version := user_version d; plan := {| applicability_decisions_ := applicability_decisions d; resolved_runs_ := resolved_runs d; observation_slots_ := observation_slots d; attempt_slots_ := x; attempt_observation_slots_ := attempt_observation_slots d |}; exec := exec d; evidence := evidence d; fresh := fresh d |}.
Definition set_attempt_observation_slots (x : gmap string membership_row) (d : db) : db :=
  {| user_version := user_version d; plan := {| applicability_decisions_ := applicability_decisions d; resolved_runs_ := resolved_runs d; observation_slots_ := observation_slots d; attempt_slots_ := attempt_slots d; attempt_observation_slots_ := x |}; exec := exec d; evidence := evidence d; fresh := fresh d |}.
Definition set_attempts (x : gmap string attempt_row) (d : db) : db :=
  {| user_version := user_version d; plan := plan d; exec := {| attempts_ := x; events_ := events d; attempt_transitions_ := attempt_transitions d; leases_ := leases d; finalization_claims_ := finalization_claims d |}; evidence := evidence d; fresh := fresh d |}.
Definition set_events (x : list event_row) (d : db) : db :=
  {| user_version := user_version d; plan := plan d; exec := {| attempts_ := attempts d; events_ := x; attempt_transitions_ := attempt_transitions d; leases_ := leases d; finalization_claims_ := finalization_claims d |}; evidence := evidence d; fresh := fresh d |}.
Definition set_attempt_transitions (x : list transition_row) (d : db) : db :=
  {| user_version := user_version d; plan := plan d; exec := {| attempts_ := attempts d; events_ := events d; attempt_transitions_ := x; leases_ := leases d; finalization_claims_ := finalization_claims d |}; evidence := evidence d; fresh := fresh d |}.
Definition set_leases (x : gmap string lease_row) (d : db) : db :=
  {| user_version := user_version d; plan := plan d; exec := {| attempts_ := attempts d; events_ := events d; attempt_transitions_ := attempt_transitions d; leases_ := x; finalization_claims_ := finalization_claims d |}; evidence := evidence d; fresh := fresh d |}.
Definition set_finalization_claims (x : gmap string claim_row) (d : db) : db :=
  {| user_version := user_version d; plan := plan d; exec := {| attempts_ := attempts d; events_ := events d; attempt_transitions_ := attempt_transitions d; leases_ := leases d; finalization_claims_ := x |}; evidence := evidence d; fresh := fresh d |}.
Definition set_artifacts (x : gmap string artifact_row) (d : db) : db :=
  {| user_version := user_version d; plan := plan d; exec := exec d; evidence := {| artifacts_ := x; observations_ := observations d; selected_observations_ := selected_observations d; attempt_artifacts_ := attempt_artifacts d; leased_artifacts_ := leased_artifacts d |}; fresh := fresh d |}.
Definition set_observations (x : gmap string observation_row) (d : db) : db :=
  {| user_version := user_version d; plan := plan d; exec := exec d; evidence := {| artifacts_ := artifacts d; observations_ := x; selected_observations_ := selected_observations d; attempt_artifacts_ := attempt_artifacts d; leased_artifacts_ := leased_artifacts d |}; fresh := fresh d |}.
Definition set_selected_observations (x : gmap string selected_row) (d : db) : db :=
  {| user_version := user_version d; plan := plan d; exec := exec d; evidence := {| artifacts_ := artifacts d; observations_ := observations d; selected_observations_ := x; attempt_artifacts_ := attempt_artifacts d; leased_artifacts_ := leased_artifacts d |}; fresh := fresh d |}.
Definition set_attempt_artifacts (x : list (string * string * string)) (d : db) : db :=
  {| user_version := user_version d; plan := plan d; exec := exec d; evidence := {| artifacts_ := artifacts d; observations_ := observations d; selected_observations_ := selected_observations d; attempt_artifacts_ := x; leased_artifacts_ := leased_artifacts d |}; fresh := fresh d |}.
Definition set_leased_artifacts (x : list (string * string)) (d : db) : db :=
  {| user_version := user_version d; plan := plan d; exec := exec d; evidence := {| artifacts_ := artifacts d; observations_ := observations d; selected_observations_ := selected_observations d; attempt_artifacts_ := attempt_artifacts d; leased_artifacts_ := x |}; fresh := fresh d |}.
Definition set_fresh_sequences (x : gmap (string * Z) ProfilePolicy) (d : db) : db :=
  {| user_version := user_version d; plan := plan d; exec := exec d; evidence := evidence d; fresh := {| fresh_sequences_ := x; fresh_members_ := fresh_members d; fresh_budget_ := fresh_budget d; fresh_dispositions_ := fresh_dispositions d |} |}.
Definition set_fresh_members (x : gmap string member_row) (d : db) : db :=
  {| user_version := user_version d; plan := plan d; exec := exec d; evidence := evidence d; fresh := {| fresh_sequences_ := fresh_sequences d; fresh_members_ := x; fresh_budget_ := fresh_budget d; fresh_dispositions_ := fresh_dispositions d |} |}.
Definition set_fresh_budget (x : gmap string budget_row) (d : db) : db :=
  {| user_version := user_version d; plan := plan d; exec := exec d; evidence := evidence d; fresh := {| fresh_sequences_ := fresh_sequences d; fresh_members_ := fresh_members d; fresh_budget_ := x; fresh_dispositions_ := fresh_dispositions d |} |}.
Definition set_fresh_dispositions (x : gmap string disposition_row) (d : db) : db :=
  {| user_version := user_version d; plan := plan d; exec := exec d; evidence := evidence d; fresh := {| fresh_sequences_ := fresh_sequences d; fresh_members_ := fresh_members d; fresh_budget_ := fresh_budget d; fresh_dispositions_ := x |} |}.

(** An accessor of an updated database reduces to the updated table. *)
Arguments applicability_decisions !d /.
Arguments resolved_runs !d /.
Arguments observation_slots !d /.
Arguments attempt_slots !d /.
Arguments attempt_observation_slots !d /.
Arguments attempts !d /.
Arguments events !d /.
Arguments attempt_transitions !d /.
Arguments leases !d /.
Arguments finalization_claims !d /.
Arguments artifacts !d /.
Arguments observations !d /.
Arguments selected_observations !d /.
Arguments attempt_artifacts !d /.
Arguments leased_artifacts !d /.
Arguments fresh_sequences !d /.
Arguments fresh_members !d /.
Arguments fresh_budget !d /.
Arguments fresh_dispositions !d /.

(** [RunStoreError], without the file-system cases of [open]. *)
Inductive RunStoreError :=
  | SequenceBusy
  | InvalidAttempt (message : string)
  | StaleAttempt
  | SatisfiedSlot
  | RetryNotAuthorized
  | Identity (e : IdentityError)
  | CanonicalJson (e : CanonicalJsonError)
  | Sqlite.

Abbreviation M := (result RunStoreError).
Definition invalid {A} (message : string) : M A := Err (InvalidAttempt message).
(** [if !ok { return Err(invalid(message)) }]. *)
Definition require (ok : bool) (message : string) : M unit :=
  ensure ok (InvalidAttempt message).
(** A constraint of the schema. *)
Definition constraint (ok : bool) : M unit := ensure ok Sqlite.

(** ** Queries *)

(** [SELECT EXISTS(SELECT 1 FROM table WHERE p)]. *)
Definition exists_row {A} (p : string -> A -> bool) (m : gmap string A) : bool :=
  existsb (fun kv => p kv.1 kv.2) (map_to_list m).
(** [SELECT count]. *)
Definition count_rows {A} (p : string -> A -> bool) (m : gmap string A) : nat :=
  length (List.filter (fun kv => p kv.1 kv.2) (map_to_list m)).
(** [coalesce(sum(f), 0)]. *)
Definition sum_rows {A} (f : string -> A -> Z) (m : gmap string A) : Z :=
  foldr (fun kv acc => (f kv.1 kv.2 + acc)%Z) 0%Z (map_to_list m).

Definition has_key {A} (k : string) (m : gmap string A) : bool :=
  match m !! k with Some _ => true | None => false end.

Lemma exists_row_spec {A} (p : string -> A -> bool) m :
  exists_row p m = true <-> exists k x, m !! k = Some x /\ p k x = true.
Proof.
  unfold exists_row. rewrite existsb_exists. split.
  - intros ([k x] & Hin & Hp). apply list_elem_of_In, elem_of_map_to_list in Hin. eauto.
  - intros (k & x & Hk & Hp). exists (k, x). split; [|done].
    by apply list_elem_of_In, elem_of_map_to_list.
Qed.

Lemma exists_row_false {A} (p : string -> A -> bool) m :
  exists_row p m = false <-> forall k x, m !! k = Some x -> p k x = false.
Proof.
  rewrite <-not_true_iff_false, exists_row_spec. split.
  - intros H k x Hk. destruct (p k x) eqn:Hp; [|done]. exfalso. eauto.
  - intros H (k & x & Hk & Hp). specialize (H k x Hk). congruence.
Qed.

Lemma has_key_spec {A} k (m : gmap string A) : has_key k m = true <-> is_Some (m !! k).
Proof.
  unfold has_key. destruct (m !! k); split; intros H; done.
Qed.

(** ** Statements *)

(** The [CHECK] on stored relative paths: [segments] splits at ['/']. *)
Fixpoint segments (current : bytes) (s : bytes) : list bytes :=
  match s with
  | [] => [rev current]
  | c :: s' =>
      if Ascii.eqb c "/"%char then rev current :: segments [] s'
      else segments (c :: current) s'
  end.
Definition relative_path_ok (path : string) : bool :=
  let b := bytes_of path in
  negb (existsb (fun c => Ascii.eqb c NUL || Ascii.eqb c "\"%char) b) &&
  forallb (fun s => negb (bool_decide (s = [])) && negb (bool_decide (s = bytes_of "."))
                    && negb (bool_decide (s = bytes_of ".."))) (segments [] b).

Definition insert_attempt (id : string) (a : attempt_row) (d : db) : M db :=
  _ ← constraint (negb (has_key id (attempts d)));
  (* CHECKs and the trigger attempts_start_reserved *)
  _ ← constraint ((0 <=? att_retry_index a)%Z && (0 <=? att_started a)%Z &&
                  bool_decide (att_state a = Reserved) && (att_revision a =? 0)%Z &&
                  (att_updated a =? att_started a)%Z);
  (* REFERENCES attempt_slots (id) *)
  _ ← constraint (has_key (att_slot a) (attempt_slots d));
  (* UNIQUE (slot_id, retry_index) *)
  _ ← constraint (negb (exists_row (fun _ b =>
        String.eqb (att_slot b) (att_slot a) && (att_retry_index b =? att_retry_index a)%Z)
        (attempts d)));
  Ok (set_attempts (<[id := a]> (attempts d)) d).

(** [UPDATE attempts SET ... WHERE id = ?1 AND revision = ?8], with the
    trigger [attempts_advance], the [CHECK]s of the projection, the claim
    trigger and the partial unique index on accepted attempts.  The count of
    updated rows is the second component. *)
Definition update_attempt (id : string) (expected : Z) (to : attempt_state)
    (revision updated : Z) (finished : option Z) (failure artifact : option string)
    (d : db) : M (db * nat) :=
  match attempts d !! id with
  | None => Ok (d, 0%nat)
  | Some old =>
      if negb (att_revision old =? expected)%Z then Ok (d, 0%nat)
      else
        _ ← constraint (negb (is_terminal (att_state old)) &&
              (revision =? att_revision old + 1)%Z && (att_updated old <=? updated)%Z);
        _ ← constraint (att_started old <=? updated)%Z;
        _ ← constraint (bool_decide (is_terminal to = bool_decide (is_Some finished)));
        _ ← constraint (match finished with Some f => (f =? updated)%Z | None => true end);
        _ ← constraint (match failure with Some c => negb (String.eqb c "") | None => true end);
        _ ← constraint (bool_decide (bool_decide (to = Failed) = bool_decide (is_Some failure)));
        _ ← constraint (bool_decide (is_terminal to = bool_decide (is_Some artifact)));
        _ ← constraint (match artifact with
              | Some k => match artifacts d !! k with
                          | Some r => bool_decide (art_kind r = AttemptArtifact)
                          | None => false end
              | None => true end);
        _ ← constraint (negb (bool_decide (to = Accepted)) ||
              match finalization_claims d !! att_slot old with
              | Some c => String.eqb (cl_attempt c) id
              | None => false end);
        _ ← constraint (negb (bool_decide (to = Accepted)) ||
              negb (exists_row (fun k b => negb (String.eqb k id) &&
                      String.eqb (att_slot b) (att_slot old) &&
                      bool_decide (att_state b = Accepted)) (attempts d)));
        Ok (set_attempts (<[id := {| att_slot := att_slot old;
              att_retry_index := att_retry_index old; att_state := to;
              att_revision := revision; att_started := att_started old;
              att_updated := updated; att_finished := finished;
              att_failure_code := failure; att_final_artifact := artifact |}]> (attempts d)) d,
            1%nat)
  end.

(** The new row's [sequence] is [last_insert_rowid]. *)
Definition insert_event (e : event_row) (d : db) : M (db * Z) :=
  _ ← constraint (match ev_attempt e with
        | Some a => has_key a (attempts d) | None => true end);
  _ ← constraint ((0 <=? ev_at e)%Z && negb (String.eqb (ev_kind e) ""));
  Ok (set_events (events d ++ [e]) d, Z.of_nat (S (length (events d)))).

Definition find_transition (id : string) (revision : Z) (d : db) : option transition_row :=
  List.find (fun t => String.eqb (tr_attempt t) id && (tr_revision t =? revision)%Z)
    (attempt_transitions d).

Definition insert_transition (t : transition_row) (d : db) : M db :=
  _ ← constraint (has_key (tr_attempt t) (attempts d));
  _ ← constraint (match find_transition (tr_attempt t) (tr_revision t) d with
        | Some _ => false | None => true end);
  _ ← constraint ((0 <=? tr_at t)%Z &&
        match tr_previous t, tr_from t with
        | None, None => (tr_revision t =? 0)%Z && bool_decide (tr_to t = Reserved)
        | Some p, Some f =>
            (0 <? tr_revision t)%Z && (p =? tr_revision t - 1)%Z && allowed_edge f (tr_to t)
        | _, _ => false
        end);
  (* FOREIGN KEY (attempt_id, previous_revision, from_state) *)
  _ ← constraint (match tr_previous t with
        | Some p => match find_transition (tr_attempt t) p d with
                    | Some q => bool_decide (Some (tr_to q) = tr_from t)
                    | None => false end
        | None => true end);
  (* event_sequence UNIQUE *)
  _ ← constraint (negb (existsb (fun u => tr_event u =? tr_event t)%Z (attempt_transitions d)));
  (* FOREIGN KEY (event_sequence, attempt_id, occurred_at_ns) *)
  _ ← constraint (match events d !! Z.to_nat (tr_event t - 1) with
        | Some e => bool_decide (ev_attempt e = Some (tr_attempt t)) && (ev_at e =? tr_at t)%Z
        | None => false end);
  Ok (set_attempt_transitions (attempt_transitions d ++ [t]) d).

Definition insert_lease_row (id : string) (l : lease_row) (d : db) : M db :=
  _ ← constraint (negb (has_key id (leases d)));
  _ ← constraint (negb (String.eqb (le_owner l) "") && (0 <=? le_acquired l)%Z &&
        (le_acquired l <? le_expires l)%Z);
  _ ← constraint (bool_decide (le_purpose l = ArtifactLease) ||
        bool_decide (is_Some (le_attempt l)));
  _ ← constraint (bool_decide (bool_decide (le_purpose l = Staging) =
        bool_decide (is_Some (le_staging l))));
  (* staging_path UNIQUE and its CHECK *)
  _ ← constraint (match le_staging l with
        | Some p => relative_path_ok p &&
                    negb (exists_row (fun _ r => bool_decide (le_staging r = Some p)) (leases d))
        | None => true end);
  _ ← constraint (match le_attempt l with
        | Some a => has_key a (attempts d) | None => true end);
  (* one_reservation_lease_per_attempt *)
  _ ← constraint (negb (bool_decide (le_purpose l = Reservation)) ||
        negb (exists_row (fun _ r => bool_decide (le_attempt r = le_attempt l) &&
                bool_decide (le_purpose r = Reservation) &&
                bool_decide (le_released r = None)) (leases d)));
  Ok (set_leases (<[id := l]> (leases d)) d).

Definition insert_claim (slot : string) (c : claim_row) (d : db) : M db :=
  _ ← constraint (negb (has_key slot (finalization_claims d)));
  (* UNIQUE (attempt_id), UNIQUE (lease_id) *)
  _ ← constraint (negb (exists_row (fun _ r => String.eqb (cl_attempt r) (cl_attempt c) ||
        String.eqb (cl_lease r) (cl_lease c)) (finalization_claims d)));
  (* FOREIGN KEY (attempt_id, slot_id); trigger claims_require_finalizing_attempt *)
  _ ← constraint (match attempts d !! cl_attempt c with
        | Some a => String.eqb (att_slot a) slot &&
                    bool_decide (att_state a = InPhase Finalizing)
        | None => false end);
  _ ← constraint (negb (exists_row (fun _ a => String.eqb (att_slot a) slot &&
        bool_decide (att_state a = Accepted)) (attempts d)));
  (* FOREIGN KEY (lease_id, attempt_id, lease_purpose) *)
  _ ← constraint (match leases d !! cl_lease c with
        | Some l => bool_decide (le_attempt l = Some (cl_attempt c)) &&
                    bool_decide (le_purpose l = Finalization) &&
                    bool_decide (le_released l = None)
        | None => false end);
  Ok (set_finalization_claims (<[slot := c]> (finalization_claims d)) d).

(** [DELETE FROM finalization_claims WHERE attempt_id = ?1], with the trigger
    [claims_release_after_terminal]. *)
Definition delete_claims (id : string) (d : db) : M db :=
  _ ← constraint (negb (exists_row (fun _ c => String.eqb (cl_attempt c) id)
                     (finalization_claims d)) ||
        match attempts d !! id with Some a => is_terminal (att_state a) | None => false end);
  Ok (set_finalization_claims
        (filter (fun kv => cl_attempt kv.2 <> id) (finalization_claims d)) d).

(** [UPDATE leases SET released_at_ns = ?2 WHERE attempt_id = ?1 AND
    released_at_ns IS NULL]. *)
Definition release_lease (at_ns : Z) (l : lease_row) : lease_row :=
  {| le_owner := le_owner l; le_attempt := le_attempt l; le_purpose := le_purpose l;
     le_staging := le_staging l; le_acquired := le_acquired l; le_expires := le_expires l;
     le_released := Some at_ns |}.
Definition held_by (id : string) (l : lease_row) : bool :=
  bool_decide (le_attempt l = Some id) && bool_decide (le_released l = None).
Definition release_leases (id : string) (at_ns : Z) (d : db) : M db :=
  _ ← constraint (negb (exists_row (fun _ l => held_by id l && (at_ns <? le_acquired l)%Z)
                     (leases d)));
  Ok (set_leases ((fun l => if held_by id l then release_lease at_ns l else l) <$> leases d) d).

Definition insert_artifact (id : string) (r : artifact_row) (d : db) : M db :=
  _ ← constraint (negb (has_key id (artifacts d)));
  _ ← constraint (negb (exists_row (fun _ b => String.eqb (art_path b) (art_path r)) (artifacts d)));
  _ ← constraint (relative_path_ok (art_path r) && (0 <=? art_verified r)%Z &&
        (negb (art_directory r) || bool_decide (is_Some (art_manifest r))));
  Ok (set_artifacts (<[id := r]> (artifacts d)) d).

Definition insert_attempt_artifact (attempt role artifact : string) (d : db) : M db :=
  _ ← constraint (has_key attempt (attempts d) && negb (String.eqb role "") &&
        has_key artifact (artifacts d));
  _ ← constraint (negb (bool_decide ((attempt, role, artifact) ∈ attempt_artifacts d)));
  Ok (set_attempt_artifacts (attempt_artifacts d ++ [(attempt, role, artifact)]) d).

Definition insert_observation (id : string) (o : observation_row) (d : db) : M db :=
  _ ← constraint (negb (has_key id (observations d)));
  (* FOREIGN KEY (producing_attempt_id, attempt_slot_id) *)
  _ ← constraint (match attempts d !! ob_attempt o with
        | Some a => String.eqb (att_slot a) (ob_attempt_slot o) | None => false end);
  (* FOREIGN KEY (attempt_slot_id, slot_id) *)
  _ ← constraint (match attempt_observation_slots d !! ob_slot o with
        | Some m => String.eqb (mem_attempt_slot m) (ob_attempt_slot o) | None => false end);
  (* FOREIGN KEY (artifact_id, artifact_kind) *)
  _ ← constraint (match artifacts d !! ob_artifact o with
        | Some r => bool_decide (art_kind r = ObservationArtifact) | None => false end);
  Ok (set_observations (<[id := o]> (observations d)) d).

(** [INSERT ... ON CONFLICT(slot_id) DO NOTHING]: the other constraints still
    apply to a row that is inserted. *)
Definition select_observation (slot : string) (s : selected_row) (d : db) : M db :=
  _ ← constraint (0 <=? sel_at s)%Z;
  if has_key slot (selected_observations d) then Ok d
  else
    _ ← constraint (negb (exists_row (fun _ r => String.eqb (sel_observation r) (sel_observation s))
                  (selected_observations d)));
    _ ← constraint (match observations d !! sel_observation s with
          | Some o => String.eqb (ob_slot o) slot && ob_valid o | None => false end);
    Ok (set_selected_observations (<[slot := s]> (selected_observations d)) d).

(** [UPDATE leases SET expires_at_ns = ?2 WHERE id = ?1 AND owner_token = ?3
    AND released_at_ns IS NULL AND expires_at_ns > ?4]: the updated row's owner
    and purpose stay, and the trigger [leases_preserve_owner] refuses an
    earlier expiration.  The count of updated rows is the second component. *)
Definition extend_lease (expires : Z) (l : lease_row) : lease_row :=
  {| le_owner := le_owner l; le_attempt := le_attempt l; le_purpose := le_purpose l;
     le_staging := le_staging l; le_acquired := le_acquired l; le_expires := expires;
     le_released := le_released l |}.
Definition update_lease (id : string) (expires : Z) (owner : string) (now : Z) (d : db)
  : M (db * nat) :=
  match leases d !! id with
  | None => Ok (d, 0%nat)
  | Some l =>
      if String.eqb (le_owner l) owner && bool_decide (le_released l = None)
         && (now <? le_expires l)%Z
      then
        _ ← constraint (le_expires l <=? expires)%Z;
        _ ← constraint (le_acquired l <? expires)%Z;
        Ok (set_leases (<[id := extend_lease expires l]> (leases d)) d, 1%nat)
      else Ok (d, 0%nat)
  end.

(** The registration statements are [INSERT ... ON CONFLICT (key) DO NOTHING]:
    a row whose key is present is left alone, and any other conflict fails. *)
Definition insert_decision (id : string) (r : decision_row) (d : db) : M db :=
  if has_key id (applicability_decisions d) then Ok d
  else Ok (set_applicability_decisions (<[id := r]> (applicability_decisions d)) d).

Definition insert_run (id : string) (r : run_row) (d : db) : M db :=
  if has_key id (resolved_runs d) then Ok d
  else
    (* FOREIGN KEY (applicability_id, candidate_id, applicable = 1) *)
    _ ← constraint (match applicability_decisions d !! run_applicability r with
          | Some a => String.eqb (dec_candidate a) (run_candidate r) && dec_applicable a
          | None => false end);
    Ok (set_resolved_runs (<[id := r]> (resolved_runs d)) d).

Definition insert_attempt_slot (id : string) (r : attempt_slot_row) (d : db) : M db :=
  if has_key id (attempt_slots d) then Ok d
  else
    (* UNIQUE (logical_slot_id, resolved_run_id) *)
    _ ← constraint (negb (exists_row (fun _ s => String.eqb (as_logical s) (as_logical r) &&
          String.eqb (as_run s) (as_run r)) (attempt_slots d)));
    _ ← constraint (has_key (as_run r) (resolved_runs d));
    Ok (set_attempt_slots (<[id := r]> (attempt_slots d)) d).

Definition insert_observation_slot (id : string) (r : slot_row) (d : db) : M db :=
  if has_key id (observation_slots d) then Ok d
  else
    _ ← constraint (negb (exists_row (fun _ s => String.eqb (os_logical s) (os_logical r) &&
          String.eqb (os_run s) (os_run r)) (observation_slots d)));
    _ ← constraint (has_key (os_run r) (resolved_runs d));
    Ok (set_observation_slots (<[id := r]> (observation_slots d)) d).

Definition insert_membership (observation : string) (r : membership_row) (d : db) : M db :=
  if has_key observation (attempt_observation_slots d) then Ok d
  else
    _ ← constraint (match attempt_slots d !! mem_attempt_slot r with
          | Some s => String.eqb (as_run s) (mem_run r) | None => false end);
    _ ← constraint (match observation_slots d !! observation with
          | Some s => String.eqb (os_run s) (mem_run r) | None => false end);
    Ok (set_attempt_observation_slots (<[observation := r]> (attempt_observation_slots d)) d).

(** [ON CONFLICT DO NOTHING] without a target: every uniqueness conflict is
    ignored. *)
Definition insert_sequence (run : string) (index : Z) (p : ProfilePolicy) (d : db) : M db :=
  _ ← constraint (0 <=? index)%Z;
  match fresh_sequences d !! (run, index) with
  | Some _ => Ok d
  | None =>
      _ ← constraint (has_key run (resolved_runs d));
      Ok (set_fresh_sequences (<[(run, index) := p]> (fresh_sequences d)) d)
  end.

Definition insert_member (slot : string) (m : member_row) (d : db) : M db :=
  _ ← constraint ((0 <=? fm_measurement m)%Z && (0 <=? fm_schedule m)%Z);
  if has_key slot (fresh_members d) ||
     exists_row (fun _ b => String.eqb (fm_run b) (fm_run m) &&
       (fm_measurement b =? fm_measurement m)%Z && (fm_schedule b =? fm_schedule m)%Z)
       (fresh_members d)
  then Ok d
  else
    _ ← constraint (has_key slot (attempt_slots d) &&
          bool_decide (is_Some (fresh_sequences d !! (fm_run m, fm_measurement m))));
    Ok (set_fresh_members (<[slot := m]> (fresh_members d)) d).

Definition insert_budget (attempt : string) (reserved : Z) (d : db) : M db :=
  _ ← constraint (negb (has_key attempt (fresh_budget d)));
  _ ← constraint (has_key attempt (attempts d) && (0 <? reserved)%Z);
  Ok (set_fresh_budget
        (<[attempt := {| bu_reserved := reserved; bu_charged := None |}]> (fresh_budget d)) d).

(** [UPDATE fresh_budget SET charged_ns = min(?2, reserved_ns) WHERE
    attempt_id = ?1], with the trigger [fresh_budget_preserve_reservation]. *)
Definition charge_budget (attempt : string) (measured : Z) (d : db) : M db :=
  match fresh_budget d !! attempt with
  | None => Ok d
  | Some b =>
      _ ← constraint (bool_decide (bu_charged b = None));
      let charged := Z.min measured (bu_reserved b) in
      _ ← constraint ((0 <=? charged)%Z && (charged <=? bu_reserved b)%Z);
      Ok (set_fresh_budget
            (<[attempt := {| bu_reserved := bu_reserved b; bu_charged := Some charged |}]>
               (fresh_budget d)) d)
  end.

(** The deferred foreign key of [attempts]: every projection row agrees with
    the transition it was derived from. *)
Definition projection_ok (d : db) (id : string) (a : attempt_row) : bool :=
  match find_transition id (att_revision a) d with
  | Some t => bool_decide (tr_to t = att_state a) && (tr_at t =? att_updated a)%Z
  | None => false
  end.
Definition commit (d : db) : M db :=
  _ ← constraint (negb (exists_row (fun id a => negb (projection_ok d id a)) (attempts d)));
  Ok d.
