(* ===== verification/Attempts.v ===== *)
(** * Attempt guards and transitions (src/runtime/run_store/attempts.rs)

    The types of the reservation API, the fence every writer passes and the
    one function that moves an attempt between states.  [RunStore.v] builds
    the public operations on top. *)
From S2P Require Import Prelude Json Canonical Identity Profile Records Store.
From Stdlib Require Import Ascii.

(** ** Types *)

Inductive RetryAuthorization :=
  | FirstAttempt
  | Next (retry : bool)
  | Retry (next_index max_index : Z).

Record LeaseRequest := {
  lr_id : string;
  lr_owner_token : string;
  lr_expires_at_ns : Z;
}.

Record OwnedAttempt := {
  oa_id : RecordId AttemptType;
  oa_slot : RecordId ResolvedAttemptSlotType;
  oa_retry_index : Z;
  oa_revision : Z;
  oa_updated_at_ns : Z;
  oa_lease_id : string;
  oa_owner_token : string;
}.

(** The text of the two identities, as the statements bind them. *)
Definition id_text (a : OwnedAttempt) : string := to_string (oa_id a).
Definition slot_text (a : OwnedAttempt) : string := to_string (oa_slot a).

Module Outcome.
Inductive TerminalOutcome :=
  | Accepted
  | Censored (reason : string)
  | Superseded
  | Failed (code : string) (details : value).

Definition state (o : TerminalOutcome) : attempt_state :=
  match o with
  | Accepted => Store.Accepted
  | Censored _ => Store.Censored
  | Superseded => Store.Superseded
  | Failed _ _ => Store.Failed
  end.

(** [matches!(outcome, TerminalOutcome::Accepted)]. *)
Definition is_accepted (o : TerminalOutcome) : bool :=
  match o with Accepted => true | _ => false end.

Definition failure_code (o : TerminalOutcome) : option string :=
  match o with Failed code _ => Some code | _ => None end.
End Outcome.

Record ArtifactRegistration := {
  ar_id : string;
  ar_relative_path : string;
  ar_content_sha256 : bytes;
  ar_manifest_sha256 : bytes;
  ar_verified_at_ns : Z;
}.

Inductive ClaimDisposition := Claimed | SupersededClaim.
#[export] Instance disposition_eq : EqDecision ClaimDisposition.
Proof. solve_decision. Defined.

Record Finalization := {
  fin_attempt : OwnedAttempt;
  fin_disposition : ClaimDisposition;
}.

Record TerminalAttempt := {
  ta_id : RecordId AttemptType;
  ta_outcome : Outcome.TerminalOutcome;
  ta_finished_at_ns : Z;
  ta_event_sequence : Z;
}.

Record TerminalProjection := {
  tp_artifact_id : string;
  tp_failure_code : option string;
}.

(** ** Blank text

    [s.trim().is_empty()]: every character of the UTF-8 text is Unicode
    white space. *)
Section Blank.
Local Open Scope nat_scope.
Definition space1 (c : ascii) : bool := Duration.is_space c.
Definition space2 (a b : ascii) : bool :=
  (nat_of_ascii a =? 194) && ((nat_of_ascii b =? 133) || (nat_of_ascii b =? 160)).
Definition space3 (a b c : ascii) : bool :=
  let x := nat_of_ascii a in let y := nat_of_ascii b in let z := nat_of_ascii c in
  ((x =? 225) && (y =? 154) && (z =? 128)) ||
  ((x =? 226) && (y =? 128) &&
     (((128 <=? z) && (z <=? 138)) || (z =? 168) || (z =? 169) || (z =? 175))) ||
  ((x =? 226) && (y =? 129) && (z =? 159)) ||
  ((x =? 227) && (y =? 128) && (z =? 128)).
Fixpoint blank_bytes (s : bytes) : bool :=
  match s with
  | [] => true
  | a :: s1 =>
      if space1 a then blank_bytes s1
      else match s1 with
           | [] => false
           | b :: s2 =>
               if space2 a b then blank_bytes s2
               else match s2 with
                    | [] => false
                    | c :: s3 => space3 a b c && blank_bytes s3
                    end
           end
  end.
Definition blank (s : string) : bool := blank_bytes (bytes_of s).
End Blank.

(** ** Guards *)

Definition timestamp (v : Z) : M Z :=
  if (v <=? i64_max)%Z then Ok v
  else invalid "timestamp exceeds SQLite's signed integer range".

Definition validate_lease (lease : LeaseRequest) (now : Z) : M unit :=
  if String.eqb (lr_id lease) "" || String.eqb (lr_owner_token lease) ""
  then invalid "lease requires unique tokens and a future expiration"
  else
    expires ← timestamp (lr_expires_at_ns lease);
    if (expires <=? now)%Z
    then invalid "lease requires unique tokens and a future expiration"
    else Ok tt.

Definition insert_lease (attempt : string) (purpose : lease_purpose) (lease : LeaseRequest)
    (now : Z) (d : db) : M db :=
  expires ← timestamp (lr_expires_at_ns lease);
  insert_lease_row (lr_id lease)
    {| le_owner := lr_owner_token lease; le_attempt := Some attempt; le_purpose := purpose;
       le_staging := None; le_acquired := now; le_expires := expires; le_released := None |} d.

Definition satisfied (d : db) (slot : string) : bool :=
  exists_row (fun _ a => String.eqb (att_slot a) slot && bool_decide (att_state a = Accepted))
    (attempts d).

(** The claim of the attempt, when it has one, has a live lease of the same
    owner at [t]. *)
Definition claim_lapsed (d : db) (attempt owner : string) (t : Z) : bool :=
  exists_row (fun _ c => String.eqb (cl_attempt c) attempt &&
    match leases d !! cl_lease c with
    | Some f => negb (String.eqb (le_owner f) owner) || bool_decide (is_Some (le_released f))
                || (le_expires f <=? t)%Z
    | None => false
    end) (finalization_claims d).

Definition fence (d : db) (attempt : OwnedAttempt) (now : Z) : M attempt_state :=
  retry_index ← timestamp (oa_retry_index attempt);
  revision ← timestamp (oa_revision attempt);
  updated ← timestamp (oa_updated_at_ns attempt);
  let t := Z.max now updated in
  match attempts d !! id_text attempt, leases d !! oa_lease_id attempt with
  | Some a, Some l =>
      if String.eqb (att_slot a) (slot_text attempt) && (att_retry_index a =? retry_index)%Z
         && (att_revision a =? revision)%Z && bool_decide (att_finished a = None)
         && bool_decide (le_attempt l = Some (id_text attempt))
         && String.eqb (le_owner l) (oa_owner_token attempt)
         && bool_decide (le_purpose l = Reservation) && bool_decide (le_released l = None)
         && (t <? le_expires l)%Z
         && negb (claim_lapsed d (id_text attempt) (oa_owner_token attempt) t)
      then Ok (att_state a)
      else Err StaleAttempt
  | _, _ => Err StaleAttempt
  end.

(** ** Transitions *)

Definition event_kind (revision : Z) (to : attempt_state) : string :=
  if (revision =? 0)%Z then "attempt_reserved"
  else match to with
       | InPhase Finalizing => "attempt_finalizing"
       | Accepted | Censored | Superseded | Failed => "attempt_finished"
       | _ => "attempt_transition"
       end.

(** [revision.checked_sub(1)]. *)
Definition checked_pred (n : Z) : option Z := if (1 <=? n)%Z then Some (n - 1)%Z else None.

Section Transitions.
Context `{ThirdParty}.

(** [CanonicalValue::try_from(v)?.to_canonical_bytes()?]: the text is kept
    as the value it denotes. *)
Definition canonical (v : value) : M value :=
  c ← map_err (fun e => CanonicalJson (InvalidValue e)) (try_from v);
  _ ← map_err CanonicalJson (to_canonical_bytes c);
  Ok c.

Definition transition_payload (details : list (string * value))
    (from : option attempt_state) (to : attempt_state) (revision : Z) : value :=
  Object (map_insert "revision" (json_u64 revision)
    (map_insert "to" (Str (state_name to))
      (map_insert "from" (optional (fun s => Str (state_name s)) from) details))).

Definition append_transition (id : string) (from : option attempt_state)
    (to : attempt_state) (revision now : Z) (details : value) (d : db) : M db :=
  fields ← ok_or (as_object details) (InvalidAttempt "event details must be an object");
  payload ← canonical (transition_payload fields from to revision);
  '(d, sequence) ← insert_event
    {| ev_attempt := Some id; ev_at := now; ev_kind := event_kind revision to;
       ev_payload := payload |} d;
  stored ← timestamp revision;
  previous ← match checked_pred revision with
             | Some p => p ← timestamp p; Ok (Some p)
             | None => Ok None
             end;
  insert_transition
    {| tr_attempt := id; tr_revision := stored; tr_previous := previous; tr_from := from;
       tr_to := to; tr_at := now; tr_event := sequence |} d.

Definition next_revision (revision : Z) : M Z :=
  ok_or (r ← checked_add_u64 revision 1; if (r <=? MAX_SAFE_INTEGER)%Z then Some r else None)
    (InvalidAttempt "revision exceeds canonical integer range").

Definition transition (attempt : OwnedAttempt) (from to : attempt_state) (now : Z)
    (details : value) (terminal : option TerminalProjection) (d : db)
  : M (OwnedAttempt * db) :=
  let artifact_id := tp_artifact_id <$> terminal in
  let failure_code := t ← terminal; tp_failure_code t in
  revision ← next_revision (oa_revision attempt);
  updated ← timestamp (oa_updated_at_ns attempt);
  let now := Z.max now updated in
  d ← append_transition (id_text attempt) (Some from) to revision now details d;
  stored ← timestamp revision;
  expected ← timestamp (oa_revision attempt);
  '(d, count) ← update_attempt (id_text attempt) expected to stored now
    ((fun _ => now) <$> artifact_id) failure_code artifact_id d;
  if negb (count =? 1)%nat then Err StaleAttempt
  else Ok ({| oa_id := oa_id attempt; oa_slot := oa_slot attempt;
              oa_retry_index := oa_retry_index attempt; oa_revision := revision;
              oa_updated_at_ns := now; oa_lease_id := oa_lease_id attempt;
              oa_owner_token := oa_owner_token attempt |}, d).

(** [TerminalOutcome::details]. *)
Definition outcome_details (o : Outcome.TerminalOutcome) : M value :=
  match o with
  | Outcome.Failed code details =>
      if blank code || negb (bool_decide (is_Some (as_object details)))
      then invalid "failure requires a code and object diagnostic"
      else Ok (object [("failure_code", Str code); ("diagnostic", details)])
  | Outcome.Censored reason =>
      if blank reason then invalid "censoring requires a reason"
      else Ok (object [("reason", Str reason)])
  | _ => Ok (Object [])
  end.
End Transitions.
