(* ===== verification/Fresh.v ===== *)
(** * Fresh sequences (src/runtime/run_store/fresh.rs)

    Executions of one repetition share a durable active-time budget and a
    terminal target decision. *)
From S2P Require Import Prelude Json Canonical Identity Profile Records Store Attempts.
From Stdlib Require Import Ascii.

Definition supported (d : db) : bool := (user_version d =? 3)%Z.

(** [unsigned]: a column read as [u64]. *)
Definition unsigned (n : Z) : M Z :=
  if (0 <=? n)%Z && (n <=? i64_max)%Z then Ok n else Err Sqlite.

Definition membership (d : db) (slot : string) : option (string * Z) :=
  if negb (supported d) then None
  else m ← fresh_members d !! slot; Some (fm_run m, fm_measurement m).

Definition in_sequence (run : string) (index : Z) (m : member_row) : bool :=
  String.eqb (fm_run m) run && (fm_measurement m =? index)%Z.

(** The slot of attempt row [a] is a member of the sequence. *)
Definition attempt_in_sequence (d : db) (run : string) (index : Z) (a : attempt_row) : bool :=
  match fresh_members d !! att_slot a with
  | Some m => in_sequence run index m
  | None => false
  end.

(** [CASE WHEN a.finished_at_ns IS NULL THEN b.reserved_ns ELSE
    coalesce(b.charged_ns, b.reserved_ns) END]. *)
Definition charge (a : attempt_row) (b : budget_row) : Z :=
  match att_finished a with
  | None => bu_reserved b
  | Some _ => default (bu_reserved b) (bu_charged b)
  end.

Definition sum_budget (d : db) (run : string) (index : Z)
    (f : attempt_row -> budget_row -> Z) : Z :=
  sum_rows (fun id b =>
    match attempts d !! id with
    | Some a => if attempt_in_sequence d run index a then f a b else 0%Z
    | None => 0%Z
    end) (fresh_budget d).

Definition used_time (d : db) (run : string) (index : Z) : Z := sum_budget d run index charge.

Definition allowance (d : db) (run : string) (index : Z) : M (Z * Z) :=
  index ← timestamp index;
  policy ← ok_or (fresh_sequences d !! (run, index)) Sqlite;
  limit ← map_err (fun _ => InvalidAttempt "invalid persisted active-time bound")
    (Policy.active_time_ns policy);
  used ← unsigned (used_time d run index);
  Ok (limit, used).

Definition sequence_active (d : db) (run : string) (index : Z) : bool :=
  exists_row (fun _ a => attempt_in_sequence d run index a && bool_decide (att_finished a = None))
    (attempts d).

Definition check_reservation (d : db) (slot : string) : M unit :=
  match membership d slot with
  | None =>
      if supported d
      then
        s ← ok_or (attempt_slots d !! slot) Sqlite;
        if bool_decide (as_kind s = FreshObservation)
        then invalid "fresh slot requires complete repetition membership before reservation"
        else Ok tt
      else Ok tt
  | Some (run, index) =>
      if has_key slot (fresh_dispositions d) then Err SatisfiedSlot
      else
        index' ← timestamp index;
        if sequence_active d run index' then Err SequenceBusy
        else
          '(limit, used) ← allowance d run index;
          if (limit <=? used)%Z then Err SatisfiedSlot else Ok tt
  end.

(** [coalesce((SELECT reserved_ns - coalesce(charged_ns, reserved_ns) FROM
    fresh_budget WHERE attempt_id = ?1), 0)]. *)
Definition refund (d : db) (attempt : string) : M Z :=
  unsigned (match fresh_budget d !! attempt with
            | Some b => bu_reserved b - default (bu_reserved b) (bu_charged b)
            | None => 0
            end)%Z.

Definition target_reached (d : db) (attempt : string) : bool :=
  exists_row (fun _ o => String.eqb (ob_attempt o) attempt &&
    bool_decide (ob_completion o = Reached)) (observations d).

Definition effect (d : db) (attempt : OwnedAttempt) (outcome : Outcome.TerminalOutcome)
  : M (option disposition_reason) :=
  match membership d (slot_text attempt) with
  | None => Ok None
  | Some (run, index) =>
      if Outcome.is_accepted outcome && target_reached d (id_text attempt)
      then Ok (Some SkippedTargetReached)
      else
        '(limit, used) ← allowance d run index;
        back ← refund d (id_text attempt);
        Ok (if (limit <=? saturating_sub used back)%Z then Some ActiveTimeLimit else None)
  end.

Definition slot_accepted (d : db) (slot : string) : bool :=
  exists_row (fun _ a => String.eqb (att_slot a) slot && bool_decide (att_state a = Accepted))
    (attempts d).

(** [INSERT INTO fresh_dispositions SELECT ... ON CONFLICT DO NOTHING]. *)
Definition insert_dispositions (run : string) (index : Z) (reason : disposition_reason)
    (attempt slot : string) (accepted : bool) (d : db) : M db :=
  let rows := filter (fun kv => in_sequence run index kv.2 && negb (slot_accepted d kv.1)
                && (negb (String.eqb kv.1 slot) || negb accepted) = true) (fresh_members d) in
  let fresh := filter (fun kv => has_key kv.1 (fresh_dispositions d) = false) rows in
  _ ← constraint (bool_decide (fresh = ∅) || has_key attempt (attempts d));
  Ok (set_fresh_dispositions
        (fresh_dispositions d ∪
         ((fun _ => {| di_reason := reason; di_attempt := attempt |}) <$> rows)) d).

Definition finish (attempt : OwnedAttempt) (outcome : Outcome.TerminalOutcome) (d : db) : M db :=
  reason ← effect d attempt outcome;
  match reason with
  | None => Ok d
  | Some reason =>
      (* [expect]: a disposition is computed for a member only *)
      '(run, index) ← ok_or (membership d (slot_text attempt)) Sqlite;
      index ← timestamp index;
      insert_dispositions run index reason (id_text attempt) (slot_text attempt)
        (bool_decide (Outcome.state outcome = Accepted)) d
  end.

(** ** Operations *)

Definition reserve_fresh_time (attempt : OwnedAttempt) (point_limit : option Z) (now : Z)
    (d : db) : M (option Z * db) :=
  now ← timestamp now;
  _ ← fence d attempt now;
  match membership d (slot_text attempt) with
  | None => Ok (None, d)
  | Some (run, index) =>
      '(limit, used) ← allowance d run index;
      let remaining := saturating_sub limit used in
      let reserved := Z.min remaining (default remaining point_limit) in
      if (reserved =? 0)%Z then invalid "fresh-sequence active time is exhausted"
      else
        stored ← timestamp reserved;
        d ← insert_budget (id_text attempt) stored d;
        d ← commit d;
        Ok (Some reserved, d)
  end.

Definition record_fresh_time (attempt : OwnedAttempt) (measured now : Z) (d : db) : M db :=
  now ← timestamp now;
  _ ← fence d attempt now;
  measured ← timestamp measured;
  d ← charge_budget (id_text attempt) measured d;
  commit d.

Definition fresh_budget_exhausted (d : db) (attempt : OwnedAttempt) : M bool :=
  match membership d (slot_text attempt) with
  | None => Ok false
  | Some (run, index) =>
      '(limit, used) ← allowance d run index;
      back ← refund d (id_text attempt);
      Ok (limit <=? saturating_sub used back)%Z
  end.

(** ** Progress *)

Inductive ProgressStatus := PAccepted | PPartial | PCensored.
Inductive ProgressReason := TargetReached | FixedCount | ActiveTimeLimitReached | ScheduleExhausted.

Record FreshSequenceProgress := {
  fp_resolved_specification_id : string;
  fp_logical_specification_id : string;
  fp_measurement_index : Z;
  fp_scheduled_points : Z;
  fp_accepted_points : Z;
  fp_consumed_time_ns : Z;
  fp_conservative_time_ns : Z;
  fp_status : ProgressStatus;
  fp_reason : option ProgressReason;
}.

(** Members with an attempt that satisfies [p]. *)
Definition members_with (d : db) (run : string) (index : Z) (p : attempt_row -> bool) : nat :=
  count_rows (fun slot m => in_sequence run index m &&
    exists_row (fun _ a => String.eqb (att_slot a) slot && p a) (attempts d)) (fresh_members d).

Definition sequence_target (d : db) (run : string) (index : Z) : bool :=
  exists_row (fun id a => attempt_in_sequence d run index a &&
    bool_decide (att_state a = Accepted) && target_reached d id) (attempts d).

Definition conservative_charge (a : attempt_row) (b : budget_row) : Z :=
  match att_finished a, bu_charged b with
  | None, c => bu_reserved b - default 0%Z c
  | Some _, None => bu_reserved b
  | Some _, Some _ => 0
  end.

(** The [if]/[else if] cascade of [progress]. *)
Definition progress_status (target fixed active exhausted attempted_all : bool)
  : ProgressStatus * option ProgressReason :=
  if target then (PAccepted, Some TargetReached)
  else if fixed then (PAccepted, Some FixedCount)
  else if active then (PPartial, None)
  else if exhausted then (PCensored, Some ActiveTimeLimitReached)
  else if attempted_all then (PCensored, Some ScheduleExhausted)
  else (PPartial, None).

Definition sequence_progress (d : db) (run logical : string) (index : Z) (policy : ProfilePolicy)
  : M FreshSequenceProgress :=
  let count := count_rows (fun _ m => in_sequence run index m) (fresh_members d) in
  let accepted := members_with d run index (fun a => bool_decide (att_state a = Accepted)) in
  let attempted := members_with d run index (fun a => bool_decide (is_Some (att_finished a))) in
  '(limit, used) ← allowance d run index;
  conservative ← unsigned (sum_budget d run index conservative_charge);
  let '(status, reason) := progress_status (sequence_target d run index)
    (bool_decide (metric policy = None) && (accepted =? count)%nat)
    (sequence_active d run index) (limit <=? used)%Z (attempted =? count)%nat in
  Ok {| fp_resolved_specification_id := run; fp_logical_specification_id := logical;
        fp_measurement_index := index; fp_scheduled_points := Z.of_nat count;
        fp_accepted_points := Z.of_nat accepted; fp_consumed_time_ns := used;
        fp_conservative_time_ns := conservative; fp_status := status; fp_reason := reason |}.

(** [ORDER BY resolved_run_id, measurement_index]. *)
Definition sequence_le (a b : string * Z * ProfilePolicy) : Prop :=
  match String.compare a.1.1 b.1.1 with
  | Lt => True
  | Gt => False
  | Eq => (a.1.2 <= b.1.2)%Z
  end.
#[export] Instance sequence_le_dec : RelDecision sequence_le.
Proof. intros a b. unfold sequence_le. destruct (String.compare _ _); apply _. Defined.

Definition sequence_rows (d : db) : list (string * string * Z * ProfilePolicy) :=
  omap (fun '(run, index, policy) =>
          r ← resolved_runs d !! run; Some (run, run_logical r, index, policy))
    (merge_sort sequence_le (map_to_list (fresh_sequences d))).

Definition progress (d : db) : M (list FreshSequenceProgress) :=
  if negb (supported d) then Ok []
  else mapM (fun '(run, logical, index, policy) =>
               sequence_progress d run logical index policy) (sequence_rows d).
