(* ===== verification/RunStore.v ===== *)
(** * The reservation API (src/runtime/run_store/attempts.rs)

    [reserve], [advance], [renew], [begin_finalization] and
    [commit_finalization], each as one immediate transaction: a function of the
    database that returns its result and the committed database, or the error
    after which the database is unchanged. *)
From S2P Require Import Prelude Json Canonical Identity Profile Records Store Attempts Fresh.
From Stdlib Require Import Ascii.

(** [SELECT max(retry_index) FROM attempts WHERE slot_id = ?1]. *)
Definition max_retry (d : db) (slot : string) : option Z :=
  foldr (fun kv acc =>
    if String.eqb (att_slot kv.2) slot
    then Some (match acc with
               | Some m => Z.max (att_retry_index kv.2) m
               | None => att_retry_index kv.2
               end)
    else acc) None (map_to_list (attempts d)).

(** [i64::checked_add(1)]. *)
Definition next_retry (previous : option Z) : M Z :=
  match previous with
  | None => Ok 0%Z
  | Some n =>
      if (n + 1 <=? i64_max)%Z then Ok (n + 1)%Z else invalid "retry index overflow"
  end.

Definition authorize (authorization : RetryAuthorization) (next : Z) : M unit :=
  match authorization with
  | Next true =>
      if (next <=? MAX_SAFE_INTEGER)%Z then Ok tt
      else invalid "retry is unauthorized, stale, or exhausted"
  | Next false => if (next =? 0)%Z then Ok tt else Err RetryNotAuthorized
  | FirstAttempt =>
      if (next =? 0)%Z then Ok tt else invalid "retry is unauthorized, stale, or exhausted"
  | Retry next_index max_index =>
      if (0 <? next)%Z && (next_index =? next)%Z && (next_index <=? max_index)%Z
         && (max_index <=? MAX_SAFE_INTEGER)%Z
      then Ok tt else invalid "retry is unauthorized, stale, or exhausted"
  end.

Section Operations.
Context `{ThirdParty}.

Definition reserve (slot : RecordId ResolvedAttemptSlotType)
    (authorization : RetryAuthorization) (lease : LeaseRequest) (now_ns : Z) (d : db)
  : M (OwnedAttempt * db) :=
  now ← timestamp now_ns;
  _ ← validate_lease lease now;
  let text := to_string slot in
  _ ← require (has_key text (attempt_slots d)) "resolved execution slot is not registered";
  _ ← ensure (negb (satisfied d text)) SatisfiedSlot;
  _ ← check_reservation d text;
  next ← next_retry (max_retry d text);
  _ ← authorize authorization next;
  id ← map_err Identity (run_attempt_id slot next);
  d ← insert_attempt (to_string id)
    {| att_slot := text; att_retry_index := next; att_state := Reserved; att_revision := 0;
       att_started := now; att_updated := now; att_finished := None;
       att_failure_code := None; att_final_artifact := None |} d;
  d ← insert_lease (to_string id) Reservation lease now d;
  d ← append_transition (to_string id) None Reserved 0 now
    (object [("slot", Str text); ("retry_index", Number (number_of_i64 next))]) d;
  d ← commit d;
  Ok ({| oa_id := id; oa_slot := slot; oa_retry_index := next; oa_revision := 0;
         oa_updated_at_ns := now_ns; oa_lease_id := lr_id lease;
         oa_owner_token := lr_owner_token lease |}, d).

Definition advance (attempt : OwnedAttempt) (phase : AttemptPhase) (now_ns : Z) (d : db)
  : M (OwnedAttempt * db) :=
  now ← timestamp now_ns;
  state ← fence d attempt now;
  '(advanced, d) ← transition attempt state (InPhase phase) now (Object []) None d;
  d ← commit d;
  Ok (advanced, d).

(** The rows [renew] selects, as (id, expires_at_ns); the row order is the
    database's own. *)
Definition renewable (d : db) (id : string) (now : Z) : list (string * Z) :=
  (fun kv => (kv.1, le_expires kv.2)) <$>
    List.filter (fun kv => held_by id kv.2 &&
      (bool_decide (le_purpose kv.2 = Reservation) ||
       bool_decide (le_purpose kv.2 = Store.Finalization) ||
       (bool_decide (le_purpose kv.2 = Staging) && (now <? le_expires kv.2)%Z)))
      (map_to_list (leases d)).

Definition renew_one (expires : Z) (owner : string) (now : Z) (d : db) (row : string * Z)
  : M db :=
  if (expires <? row.2)%Z then invalid "lease renewal cannot shorten expiration"
  else
    '(d, count) ← update_lease row.1 expires owner now d;
    if negb (count =? 1)%nat then Err StaleAttempt else Ok d.

Definition renew (attempt : OwnedAttempt) (expires_at_ns now_ns : Z) (d : db) : M db :=
  now ← timestamp now_ns;
  expires ← timestamp expires_at_ns;
  if (expires <=? now)%Z then invalid "lease expiration must be in the future"
  else
    _ ← fence d attempt now;
    updated ← timestamp (oa_updated_at_ns attempt);
    d ← try_fold (renew_one expires (oa_owner_token attempt) now) d
      (renewable d (id_text attempt) (Z.max now updated));
    commit d.

Definition begin_finalization (attempt : OwnedAttempt) (lease : LeaseRequest) (now_ns : Z)
    (d : db) : M (Finalization * db) :=
  now ← timestamp now_ns;
  updated ← timestamp (oa_updated_at_ns attempt);
  let now := Z.max now updated in
  _ ← validate_lease lease now;
  _ ← require (String.eqb (lr_owner_token lease) (oa_owner_token attempt))
    "finalization lease must have the reservation owner";
  state ← fence d attempt now;
  let competing := has_key (slot_text attempt) (finalization_claims d) in
  let disposition :=
    if competing || satisfied d (slot_text attempt) then SupersededClaim else Claimed in
  '(advanced, d) ← transition attempt state (InPhase Finalizing) now
    (object [("claim", Str (if decide (disposition = Claimed)
                            then "claimed" else "superseded"))]) None d;
  d ← (if decide (disposition = Claimed)
       then
         d ← insert_lease (id_text attempt) Store.Finalization lease now d;
         insert_claim (slot_text attempt)
           {| cl_attempt := id_text attempt; cl_lease := lr_id lease |} d
       else Ok d);
  d ← commit d;
  Ok ({| fin_attempt := advanced; fin_disposition := disposition |}, d).

Definition is_profile_kind (k : execution_kind) : bool :=
  match k with Buffered | FreshObservation | Stream => true | OneShot => false end.

(** *** Acceptance *)

Definition membership_count (d : db) (slot : string) : nat :=
  count_rows (fun _ m => String.eqb (mem_attempt_slot m) slot) (attempt_observation_slots d).

Definition produced_count (d : db) (id : string) : nat :=
  count_rows (fun _ o => String.eqb (ob_attempt o) id && ob_valid o) (observations d).

(** A member slot of the attempt's slot has a selection from another attempt. *)
Definition selection_conflicts (d : db) (slot id : string) : bool :=
  exists_row (fun observation m => String.eqb (mem_attempt_slot m) slot &&
    match selected_observations d !! observation with
    | Some s => match observations d !! sel_observation s with
                | Some o => negb (String.eqb (ob_attempt o) id)
                | None => false end
    | None => false end) (attempt_observation_slots d).

Definition is_observation_artifact (d : db) (artifact : string) : bool :=
  match artifacts d !! artifact with
  | Some r => bool_decide (art_kind r = ObservationArtifact)
  | None => false
  end.

Definition produced_complete (d : db) (observation id : string) : bool :=
  exists_row (fun _ o => String.eqb (ob_slot o) observation && String.eqb (ob_attempt o) id &&
    ob_valid o && negb (bool_decide (ob_completion o = NotReached)) &&
    is_observation_artifact d (ob_artifact o)) (observations d).

Definition complete_count (d : db) (slot id : string) (kind : execution_kind) : nat :=
  count_rows (fun observation m => String.eqb (mem_attempt_slot m) slot &&
    match selected_observations d !! observation with
    | Some s => match observations d !! sel_observation s with
                | Some o => ob_valid o && is_observation_artifact d (ob_artifact o)
                | None => false end
    | None => false end &&
    (bool_decide (kind = Stream) || produced_complete d observation id))
    (attempt_observation_slots d).

Definition validate_acceptance (d : db) (attempt : OwnedAttempt) : M unit :=
  let slot := slot_text attempt in
  s ← ok_or (attempt_slots d !! slot) Sqlite;
  let total := membership_count d slot in
  if bool_decide (as_role s = Warmup) then
    require (total =? 0)%nat "warm-up cannot select measured observations"
  else if (total =? 0)%nat then invalid "measurement requires observation slots"
  else if is_profile_kind (as_kind s) then
    require (negb (produced_count d (id_text attempt) =? 0)%nat &&
             negb (selection_conflicts d slot (id_text attempt)))
      "buffered acceptance requires this attempt's complete trajectory without selections from another retry"
  else
    require (complete_count d slot (id_text attempt) (as_kind s) =? total)%nat
      "required selections or this attempt's complete observations are missing".

Definition owns_claim (d : db) (id : string) : bool :=
  exists_row (fun _ c => String.eqb (cl_attempt c) id) (finalization_claims d).

Definition validate_finalization (d : db) (attempt : OwnedAttempt)
    (outcome : Outcome.TerminalOutcome) (now : Z) : M unit :=
  state ← fence d attempt now;
  _ ← require (bool_decide (state = InPhase Finalizing))
    "terminal outcome requires finalizing";
  if Outcome.is_accepted outcome then
    _ ← require (owns_claim d (id_text attempt)) "acceptance requires this attempt's claim";
    validate_acceptance d attempt
  else Ok tt.

(** *** Terminal commit *)

(** [INSERT INTO selected_observations SELECT slot_id, id, 1, ?2 FROM
    observations WHERE producing_attempt_id = ?1 AND valid = 1 ON CONFLICT
    (slot_id) DO NOTHING]. *)
Definition select_produced (id : string) (at_ns : Z) (d : db) : M db :=
  try_fold (fun d kv => select_observation (ob_slot kv.2)
              {| sel_observation := kv.1; sel_at := at_ns |} d) d
    (List.filter (fun kv => String.eqb (ob_attempt kv.2) id && ob_valid kv.2)
       (map_to_list (observations d))).

Definition commit_terminal_in (attempt : OwnedAttempt) (outcome : Outcome.TerminalOutcome)
    (artifact : ArtifactRegistration) (references : list (string * string))
    (now_ns checked_at_ns : Z) (d : db) : M (TerminalAttempt * db) :=
  d ← (if Outcome.is_accepted outcome then
         s ← ok_or (attempt_slots d !! slot_text attempt) Sqlite;
         if is_profile_kind (as_kind s)
         then at_ns ← timestamp now_ns; select_produced (id_text attempt) at_ns d
         else Ok d
       else Ok d);
  now ← timestamp now_ns;
  updated ← timestamp (oa_updated_at_ns attempt);
  let now := Z.max now updated in
  checked ← timestamp checked_at_ns;
  let checked := Z.max checked now in
  verified ← timestamp (ar_verified_at_ns artifact);
  _ ← require (negb (String.eqb (ar_id artifact) "") && (verified <=? checked)%Z)
    "invalid finalized artifact metadata";
  d ← finish attempt outcome d;
  details ← outcome_details outcome;
  d ← insert_artifact (ar_id artifact)
    {| art_kind := AttemptArtifact; art_path := ar_relative_path artifact;
       art_content := ar_content_sha256 artifact; art_directory := true;
       art_manifest := Some (ar_manifest_sha256 artifact); art_verified := verified |} d;
  d ← insert_attempt_artifact (id_text attempt) "final" (ar_id artifact) d;
  d ← try_fold (fun d r => insert_attempt_artifact (id_text attempt) r.1 r.2 d) d references;
  '(finished, d) ← transition attempt (InPhase Finalizing) (Outcome.state outcome) now details
    (Some {| tp_artifact_id := ar_id artifact;
             tp_failure_code := Outcome.failure_code outcome |}) d;
  revision ← timestamp (oa_revision finished);
  row ← ok_or (find_transition (id_text attempt) revision d) Sqlite;
  d ← delete_claims (id_text attempt) d;
  d ← release_leases (id_text attempt) checked d;
  Ok ({| ta_id := oa_id attempt; ta_outcome := outcome;
         ta_finished_at_ns := oa_updated_at_ns finished; ta_event_sequence := tr_event row |}, d).

Definition commit_finalization_in (attempt : OwnedAttempt) (outcome : Outcome.TerminalOutcome)
    (artifact : ArtifactRegistration) (references : list (string * string))
    (now_ns checked_at_ns : Z) (d : db) : M (TerminalAttempt * db) :=
  now ← timestamp now_ns;
  updated ← timestamp (oa_updated_at_ns attempt);
  let now := Z.max now updated in
  checked ← timestamp checked_at_ns;
  let checked := Z.max checked now in
  _ ← validate_finalization d attempt outcome checked;
  commit_terminal_in attempt outcome artifact references now_ns checked_at_ns d.

Definition commit_finalization (attempt : OwnedAttempt) (outcome : Outcome.TerminalOutcome)
    (artifact : ArtifactRegistration) (references : list (string * string)) (now_ns : Z)
    (d : db) : M (TerminalAttempt * db) :=
  '(terminal, d) ← commit_finalization_in attempt outcome artifact references now_ns now_ns d;
  d ← commit d;
  Ok (terminal, d).
End Operations.
