(* ===== verification/Publisher.v ===== *)
(** * Publication (src/runtime/run_store/publisher.rs, [snapshot] of fresh.rs)

    The database side of publication: staging leases, the registration of
    published artifacts and the immutable outcome document.  The file-system
    work between the transactions (staging directories, hashing, atomic rename,
    synchronization) is not modelled; its results are the arguments of the
    transaction that follows it. *)
From S2P Require Import Prelude Json Canonical Identity Profile Records Store Attempts Fresh.
From S2P Require Import RunStore.
From stdpp Require Import pretty.
From Stdlib Require Import Ascii.

Definition artifact_kind_name (k : artifact_kind) : string :=
  match k with
  | AttemptArtifact => "attempt" | ObservationArtifact => "observation"
  | ResultKind => "result" | MetricsKind => "metrics" | DatasetKind => "dataset"
  | SourceKind => "source" | EnvironmentKind => "environment" | OtherKind => "other"
  end.
Definition kind_name (k : execution_kind) : string :=
  match k with
  | OneShot => "one_shot" | FreshObservation => "fresh_observation"
  | Stream => "stream" | Buffered => "buffered"
  end.
Definition role_name (r : slot_role) : string :=
  match r with Measurement => "measurement" | Warmup => "warmup" end.
Definition disposition_name (r : disposition_reason) : string :=
  match r with
  | SkippedTargetReached => "skipped_target_reached" | ActiveTimeLimit => "active_time_limit"
  end.
(** [u64::to_string]. *)
Definition decimal (n : Z) : string := pretty n.

(** ** Staging leases *)

Record Stage := { st_lease_id : string; st_acquired_at_ns : Z }.

(** [RunStore::stage], once the private directory [relative] is created. *)
Definition stage (attempt : OwnedAttempt) (relative : string) (now_ns : Z) (d : db)
  : M (Stage * db) :=
  now ← timestamp now_ns;
  updated ← timestamp (oa_updated_at_ns attempt);
  let now := Z.max now updated in
  let key := "staging:" +:+ relative in
  _ ← fence d attempt now;
  d ← match leases d !! oa_lease_id attempt with
      | Some l => insert_lease_row key
          {| le_owner := le_owner l; le_attempt := le_attempt l; le_purpose := Staging;
             le_staging := Some relative; le_acquired := now; le_expires := le_expires l;
             le_released := None |} d
      | None => Ok d
      end;
  d ← commit d;
  Ok ({| st_lease_id := key; st_acquired_at_ns := now |}, d).

Definition check_stage (d : db) (attempt : OwnedAttempt) (s : Stage) (now : Z) : M unit :=
  now ← timestamp now;
  _ ← fence d attempt now;
  ensure (match leases d !! st_lease_id s with
    | Some l => bool_decide (le_attempt l = Some (id_text attempt)) &&
                String.eqb (le_owner l) (oa_owner_token attempt) &&
                bool_decide (le_purpose l = Staging) && bool_decide (le_released l = None) &&
                (now <? le_expires l)%Z
    | None => false end) StaleAttempt.

(** [UPDATE leases SET released_at_ns = ?2 WHERE id = ?1 AND released_at_ns IS
    NULL]. *)
Definition release_one (key : string) (at_ns : Z) (d : db) : M db :=
  match leases d !! key with
  | Some l =>
      if bool_decide (le_released l = None) then
        _ ← constraint (le_acquired l <=? at_ns)%Z;
        Ok (set_leases (<[key := release_lease at_ns l]> (leases d)) d)
      else Ok d
  | None => Ok d
  end.
Definition release_stage (s : Stage) (now : Z) (d : db) : M db :=
  now ← timestamp now; release_one (st_lease_id s) now d.

Definition register_artifact (artifact : ArtifactRegistration) (kind : artifact_kind) (d : db)
  : M db :=
  verified ← timestamp (ar_verified_at_ns artifact);
  let row := {| art_kind := kind; art_path := ar_relative_path artifact;
                art_content := ar_content_sha256 artifact; art_directory := true;
                art_manifest := Some (ar_manifest_sha256 artifact); art_verified := verified |} in
  d ← (if has_key (ar_id artifact) (artifacts d) then Ok d
       else insert_artifact (ar_id artifact) row d);
  let same := match artifacts d !! ar_id artifact with
    | Some r => bool_decide (art_kind r = kind) && String.eqb (art_path r) (art_path row) &&
                bool_decide (art_content r = art_content row) && art_directory r &&
                bool_decide (art_manifest r = art_manifest row)
    | None => false end in
  _ ← require same "registered artifact metadata conflicts with published content";
  Ok d.

(** [INSERT OR IGNORE INTO leased_artifacts]: only the uniqueness conflict is
    ignored. *)
Definition insert_leased_artifact (lease artifact : string) (d : db) : M db :=
  if bool_decide ((lease, artifact) ∈ leased_artifacts d) then Ok d
  else
    _ ← constraint (has_key lease (leases d) && has_key artifact (artifacts d));
    Ok (set_leased_artifacts (leased_artifacts d ++ [(lease, artifact)]) d).

(** The last transaction of [publish_artifact]; [clock] is the third sample. *)
Definition publish_artifact (attempt : OwnedAttempt) (kind : artifact_kind)
    (artifact : ArtifactRegistration) (s : Stage) (clock : Z) (d : db)
  : M (ArtifactRegistration * db) :=
  let now := Z.max clock (st_acquired_at_ns s) in
  let artifact := {| ar_id := ar_id artifact; ar_relative_path := ar_relative_path artifact;
                     ar_content_sha256 := ar_content_sha256 artifact;
                     ar_manifest_sha256 := ar_manifest_sha256 artifact;
                     ar_verified_at_ns := now |} in
  _ ← check_stage d attempt s now;
  d ← register_artifact artifact kind d;
  d ← insert_leased_artifact (oa_lease_id attempt) (ar_id artifact) d;
  d ← release_stage s now d;
  d ← commit d;
  Ok (artifact, d).

(** ** The outcome document *)

(** [references.sort()]. *)
Definition reference_le (a b : string * string) : Prop :=
  match String.compare a.1 b.1 with Lt => True | Gt => False | Eq => string_le a.2 b.2 end.
#[export] Instance reference_le_dec : RelDecision reference_le.
Proof. intros a b. unfold reference_le. destruct (String.compare _ _); apply _. Defined.

(** [windows(2).any(|pair| pair[0] == pair[1])]. *)
Fixpoint adjacent_equal (l : list (string * string)) : bool :=
  match l with
  | a :: (b :: _) as l' => bool_decide (a = b) || adjacent_equal l'
  | _ => false
  end.

Definition sql_bool (b : bool) : value := json_u64 (if b then 1 else 0).

(** Rows in the order of their key ([ORDER BY id]). *)
Definition row_le {A} (a b : string * A) : Prop := string_le a.1 b.1.
#[export] Instance row_le_dec {A} : RelDecision (@row_le A).
Proof. intros a b. unfold row_le. apply _. Defined.
Definition rows_by_id {A} (p : string -> A -> bool) (m : gmap string A) : list (string * A) :=
  merge_sort row_le (List.filter (fun kv => p kv.1 kv.2) (map_to_list m)).

(** [ORDER BY schedule_index]. *)
Definition schedule_le (a b : string * member_row) : Prop := (fm_schedule a.2 <= fm_schedule b.2)%Z.
#[export] Instance schedule_le_dec : RelDecision schedule_le.
Proof. intros a b. unfold schedule_le. apply _. Defined.

Section OutcomeDocument.
Context `{ThirdParty}.

(** A row document goes through [CanonicalValue::from_slice]. *)
Definition row_document (v : value) : M value :=
  map_err (fun e => CanonicalJson (InvalidValue e)) (try_from v).

Definition slot_document (key : string) (s : attempt_slot_row) : value := object [
  ("id", Str key); ("logical_slot_id", Str (as_logical s));
  ("resolved_run_id", Str (as_run s)); ("kind", Str (kind_name (as_kind s)));
  ("role", Str (role_name (as_role s))); ("record", as_record s)].
Definition run_document (key : string) (r : run_row) : value := object [
  ("id", Str key); ("logical_specification_id", Str (run_logical r));
  ("candidate_id", Str (run_candidate r)); ("applicability_id", Str (run_applicability r));
  ("record", run_record r)].
Definition decision_document (key : string) (r : decision_row) : value := object [
  ("id", Str key); ("candidate_id", Str (dec_candidate r));
  ("applicable", sql_bool (dec_applicable r)); ("record", dec_record r)].
Definition observation_slot_document (key : string) (r : slot_row) : value := object [
  ("id", Str key); ("logical_slot_id", Str (os_logical r)); ("resolved_run_id", Str (os_run r));
  ("record", os_record r)].

(** [o LEFT JOIN selected_observations s ON s.observation_id = o.id]: the
    selection time, as [UNIQUE (observation_id)] leaves at most one. *)
Definition selected_at (d : db) (key : string) : option Z :=
  (fun kv => sel_at kv.2) <$>
    List.find (fun kv => String.eqb (sel_observation kv.2) key)
      (map_to_list (selected_observations d)).
Definition observation_row_document (d : db) (key : string) (o : observation_row)
    (selected : option Z) : value := object [
  ("id", Str key); ("slot_id", Str (ob_slot o)); ("producing_attempt_id", Str (ob_attempt o));
  ("valid", sql_bool (ob_valid o)); ("completion", Str (completion_name (ob_completion o)));
  ("artifact_id", Str (ob_artifact o)); ("record", ob_record o);
  ("selected_at_ns", optional (fun n => Str (decimal n)) selected)].

(** [fresh::snapshot]. *)
Definition fresh_snapshot (d : db) (attempt : OwnedAttempt) (outcome : Outcome.TerminalOutcome)
  : M (option value) :=
  match membership d (slot_text attempt) with
  | None => Ok None
  | Some (run, index) =>
      policy ← ok_or (fresh_sequences d !! (run, index)) Sqlite;
      policy ← canonical (policy_value policy);
      let members := merge_sort schedule_le
        (List.filter (fun kv => in_sequence run index kv.2) (map_to_list (fresh_members d))) in
      disposition ← effect d attempt outcome;
      Ok (Some (object [
        ("resolved_run_id", Str run); ("measurement_index", json_u64 index); ("policy", policy);
        ("members", Array ((fun kv => object [
           ("slot_id", Str kv.1); ("schedule_index", json_u64 (fm_schedule kv.2));
           ("control", fm_control kv.2)]) <$> members));
        ("budget", optional (fun b => object [
           ("reserved_ns", json_u64 (bu_reserved b));
           ("charged_ns", optional_u64 (bu_charged b))]) (fresh_budget d !! id_text attempt));
        ("disposition", optional (fun r => Str (disposition_name r)) disposition)]))
  end.

(** The selections a snapshot shows: for an accepted buffered or fresh attempt
    its own observations read as selected at the finish time. *)
Definition snapshot_selected (d : db) (attempt : OwnedAttempt)
    (outcome : Outcome.TerminalOutcome) (finished : Z) (kind : option execution_kind)
    (key : string) (o : observation_row) : option Z :=
  if Outcome.is_accepted outcome &&
     (bool_decide (kind = Some Buffered) || bool_decide (kind = Some FreshObservation)) &&
     String.eqb (ob_attempt o) (id_text attempt)
  then Some finished else selected_at d key.

Definition snapshot_observation (d : db) (attempt : OwnedAttempt) (include_selected : bool)
    (slot : option string) (key : string) (o : observation_row) : bool :=
  String.eqb (ob_attempt o) (id_text attempt) ||
  (include_selected && bool_decide (is_Some (selected_at d key)) &&
   match attempt_observation_slots d !! ob_slot o, slot with
   | Some m, Some s => String.eqb (mem_attempt_slot m) s
   | _, _ => false
   end).

Definition coordination_snapshot (d : db) (attempt : OwnedAttempt)
    (outcome : Outcome.TerminalOutcome) (finished : Z) : M value :=
  let slot := att_slot <$> attempts d !! id_text attempt in
  let slot_row := s ← slot; r ← attempt_slots d !! s; Some (s, r) in
  let run_row := '(_, s) ← slot_row; r ← resolved_runs d !! as_run s; Some (as_run s, r) in
  let decision_row := '(_, r) ← run_row;
    a ← applicability_decisions d !! run_applicability r; Some (run_applicability r, a) in
  let include_selected := match outcome with
    | Outcome.Accepted | Outcome.Censored _ => true | _ => false end in
  slots ← mapM (fun kv => row_document (slot_document kv.1 kv.2)) (option_list slot_row);
  runs ← mapM (fun kv => row_document (run_document kv.1 kv.2)) (option_list run_row);
  decisions ← mapM (fun kv => row_document (decision_document kv.1 kv.2))
    (option_list decision_row);
  observation_slots ← mapM (fun kv => row_document (observation_slot_document kv.1 kv.2))
    (rows_by_id (fun key _ =>
       match attempt_observation_slots d !! key, slot with
       | Some m, Some s => String.eqb (mem_attempt_slot m) s
       | _, _ => false
       end) (observation_slots d));
  observations ← mapM (fun kv => row_document (observation_row_document d kv.1 kv.2
       (snapshot_selected d attempt outcome finished (as_kind <$> (snd <$> slot_row))
          kv.1 kv.2)))
    (rows_by_id (snapshot_observation d attempt include_selected slot) (observations d));
  fresh ← fresh_snapshot d attempt outcome;
  Ok (Object (insert_some "fresh" (fun v => v) fresh (map_collect [
    ("attempt_slots", Array slots); ("resolved_runs", Array runs);
    ("applicability_decisions", Array decisions);
    ("observation_slots", Array observation_slots); ("observations", Array observations)]))).

Definition dependency_document (d : db) (r : string * string) : M value :=
  a ← ok_or (artifacts d !! r.2) (InvalidAttempt "dependency is not registered");
  Ok (object [
    ("role", Str r.1); ("id", Str r.2); ("kind", Str (artifact_kind_name (art_kind a)));
    ("relative_path", Str (art_path a)); ("content_sha256", digest_value (art_content a));
    ("storage_kind", Str (if art_directory a then "directory" else "file"));
    ("manifest_sha256", optional digest_value (art_manifest a))]).

Definition build_outcome_document (d : db) (attempt : OwnedAttempt)
    (outcome : Outcome.TerminalOutcome) (references : list (string * string)) (finished : Z)
  : M value :=
  let references := merge_sort reference_le references in
  _ ← require (negb (adjacent_equal references) &&
               forallb (fun r => negb (blank r.1) && negb (String.eqb r.1 "final")) references)
    "dependency roles must be nonempty, non-final, and unique per artifact";
  dependencies ← mapM (dependency_document d) references;
  a ← ok_or (attempts d !! id_text attempt) Sqlite;
  coordination ← coordination_snapshot d attempt outcome finished;
  details ← outcome_details outcome;
  map_err (fun e => CanonicalJson (InvalidValue e)) (try_from (object [
    ("run_store_version", json_u64 (user_version d));
    ("attempt_id", id_value (oa_id attempt)); ("slot_id", id_value (oa_slot attempt));
    ("retry_index", json_u64 (oa_retry_index attempt));
    ("finalizing_revision", json_u64 (oa_revision attempt));
    ("state", Str (state_name (Outcome.state outcome))); ("details", details);
    ("started_at_ns", Str (decimal (att_started a))); ("finished_at_ns", Str (decimal finished));
    ("references", Array dependencies); ("coordination", coordination)])).

(** [RunStore::outcome_document]. *)
Definition outcome_document (d : db) (attempt : OwnedAttempt)
    (outcome : Outcome.TerminalOutcome) (references : list (string * string)) (finished : Z)
    (s : Stage) : M value :=
  now ← timestamp finished;
  _ ← check_stage d attempt s finished;
  _ ← validate_finalization d attempt outcome now;
  build_outcome_document d attempt outcome references finished.

(** The last transaction of [publish_finalization]: [document] is the outcome
    written to disk, [artifact] what was published, [clock] the third
    sample. *)
Definition publish_finalization (attempt : OwnedAttempt) (outcome : Outcome.TerminalOutcome)
    (artifact : ArtifactRegistration) (references : list (string * string)) (document : value)
    (s : Stage) (finished clock : Z) (d : db) : M (TerminalAttempt * db) :=
  let now := Z.max clock finished in
  let artifact := {| ar_id := ar_id artifact; ar_relative_path := ar_relative_path artifact;
                     ar_content_sha256 := ar_content_sha256 artifact;
                     ar_manifest_sha256 := ar_manifest_sha256 artifact;
                     ar_verified_at_ns := now |} in
  _ ← check_stage d attempt s now;
  snapshot ← coordination_snapshot d attempt outcome finished;
  _ ← require (value_eqb snapshot (index document "coordination"))
    "coordination records changed during publication";
  '(terminal, d) ← commit_finalization_in attempt outcome artifact references finished now d;
  d ← commit d;
  Ok (terminal, d).
End OutcomeDocument.
