(* ===== verification/Recovery.v ===== *)
(** * Recovery (src/runtime/run_store/recovery.rs)

    The transactions of a recovery pass: an expired attempt is moved to
    finalizing, then either its single verified published outcome is imported
    or it fails as interrupted; abandoned staging leases are released.  What
    the pass reads from disk (the documents of published outcomes, whether
    their trees verify) is an argument. *)
From S2P Require Import Prelude Json Canonical Identity Profile Records Store Attempts Fresh.
From S2P Require Import RunStore Publisher.
From Stdlib Require Import Ascii.

(** [str::parse::<u64>]: an optional plus sign and decimal digits. *)
Definition parse_u64 (s : string) : option Z :=
  let b := bytes_of s in
  let b := match b with c :: b' => if Ascii.eqb c "+"%char then b' else b | [] => [] end in
  if bool_decide (b = []) || negb (forallb is_ascii_digit b) then None else Duration.parse_u64 b.

(** [string]. *)
Definition string_field (v : value) (key : string) : M string :=
  ok_or (as_str (index v key)) (InvalidAttempt "missing coordination string field").

(** A claim of [attempt] whose lease is released or expired at [t]. *)
Definition claim_expired (d : db) (attempt : string) (t : Z) : bool :=
  exists_row (fun _ c => String.eqb (cl_attempt c) attempt &&
    match leases d !! cl_lease c with
    | Some f => bool_decide (is_Some (le_released f)) || (le_expires f <=? t)%Z
    | None => false
    end) (finalization_claims d).

(** The reservation lease the join delivers: an attempt has one. *)
Definition reservation_lease (d : db) (attempt : string) : option (string * lease_row) :=
  List.find (fun kv => bool_decide (le_attempt kv.2 = Some attempt) &&
    bool_decide (le_purpose kv.2 = Reservation)) (map_to_list (leases d)).

Section Recovery.
Context `{ThirdParty}.

Definition expired_attempt (d : db) (key : string) (now : Z)
  : M (option (OwnedAttempt * attempt_state)) :=
  match attempts d !! key, reservation_lease d key with
  | Some a, Some (lease, l) =>
      let t := Z.max now (att_updated a) in
      if bool_decide (att_finished a = None) &&
         (bool_decide (is_Some (le_released l)) || (le_expires l <=? t)%Z ||
          claim_expired d key t)
      then
        slot ← map_err (fun _ => InvalidAttempt "invalid resolved attempt slot identity")
          (from_str ResolvedAttemptSlotType (att_slot a));
        expected ← map_err Identity (run_attempt_id slot (att_retry_index a));
        _ ← require (String.eqb (to_string expected) key)
          "attempt identity disagrees with its reservation";
        Ok (Some ({| oa_id := expected; oa_slot := slot; oa_retry_index := att_retry_index a;
                     oa_revision := att_revision a; oa_updated_at_ns := att_updated a;
                     oa_lease_id := lease; oa_owner_token := le_owner l |}, att_state a))
      else Ok None
  | _, _ => Ok None
  end.

Definition require_expired (d : db) (attempt : OwnedAttempt) (now : Z) : M unit :=
  current ← expired_attempt d (id_text attempt) now;
  ensure (match current with
    | Some (a, state) =>
        (oa_revision a =? oa_revision attempt)%Z && bool_decide (state = InPhase Finalizing) &&
        String.eqb (oa_lease_id a) (oa_lease_id attempt) &&
        String.eqb (oa_owner_token a) (oa_owner_token attempt)
    | None => false end) StaleAttempt.

(** The first transaction of the pass over one attempt; [None] is the
    [continue] for an attempt that is not expired. *)
Definition recover_finalizing (key : string) (clock now : Z) (d : db)
  : M (option OwnedAttempt * db) :=
  checked ← timestamp (Z.max clock now);
  expired ← expired_attempt d key checked;
  match expired with
  | None => Ok (None, d)
  | Some (attempt, state) =>
      '(attempt, d) ← (if bool_decide (state = InPhase Finalizing) then Ok (attempt, d)
        else transition attempt state (InPhase Finalizing) checked
               (object [("recovery", Bool true)]) None d);
      d ← commit d;
      Ok (Some attempt, d)
  end.

(** *** Published outcomes *)

Definition orphan_outcome (v : value) : M Outcome.TerminalOutcome :=
  let details := index v "details" in
  match as_str (index v "state") with
  | Some "accepted" => Ok Outcome.Accepted
  | Some "superseded" => Ok Outcome.Superseded
  | Some "censored" =>
      reason ← string_field details "reason"; Ok (Outcome.Censored reason)
  | Some "failed" =>
      code ← string_field details "failure_code";
      diagnostic ← map_err (fun e => CanonicalJson (InvalidValue e))
        (try_from (index details "diagnostic"));
      Ok (Outcome.Failed code diagnostic)
  | _ => invalid "unknown coordination outcome"
  end.

(** The acceptance was authorized when it was published: the claim and the
    reservation both covered the finish time. *)
Definition claim_covers (d : db) (attempt : OwnedAttempt) (finished : Z) : bool :=
  exists_row (fun slot c => String.eqb (cl_attempt c) (id_text attempt) &&
    String.eqb slot (slot_text attempt) &&
    match leases d !! cl_lease c with
    | Some f =>
        String.eqb (le_owner f) (oa_owner_token attempt) &&
        bool_decide (le_released f = None) && (le_acquired f <=? finished)%Z &&
        (finished <? le_expires f)%Z &&
        exists_row (fun _ r => bool_decide (le_attempt r = Some (cl_attempt c)) &&
          bool_decide (le_purpose r = Reservation) &&
          String.eqb (le_owner r) (oa_owner_token attempt) &&
          bool_decide (le_released r = None) && (finished <? le_expires r)%Z) (leases d)
    | None => false
    end) (finalization_claims d).

Record Evidence := {
  ev_outcome : Outcome.TerminalOutcome;
  ev_references : list (string * string);
  ev_finished : Z;
}.

(** The registered artifacts a published outcome depends on ([roots]) are
    looked up here and verified on disk by the caller. *)
Definition root_ids (d : db) (attempt : OwnedAttempt) (references : list (string * string))
  : list string :=
  remove_dups ((snd <$> references) ++
    ((fun kv => ob_artifact kv.2) <$> List.filter (fun kv =>
      String.eqb (ob_attempt kv.2) (id_text attempt) ||
      (bool_decide (is_Some (selected_at d kv.1)) &&
       match attempt_observation_slots d !! ob_slot kv.2 with
       | Some m => String.eqb (mem_attempt_slot m) (slot_text attempt)
       | None => false end)) (map_to_list (observations d)))).

Definition validate_orphan (d : db) (attempt : OwnedAttempt) (document : value) (now : Z)
  : M Evidence :=
  checked ← timestamp now;
  _ ← require_expired d attempt checked;
  finished ← ok_or (s ← as_str (index document "finished_at_ns"); parse_u64 s)
    (InvalidAttempt "invalid immutable finish time");
  _ ← require ((oa_updated_at_ns attempt <=? finished)%Z && (finished <=? now)%Z)
    "immutable finish time is outside the attempt history";
  outcome ← orphan_outcome document;
  items ← ok_or (as_array (index document "references"))
    (InvalidAttempt "missing dependency metadata");
  references ← mapM (fun v =>
    role ← string_field v "role"; i ← string_field v "id"; Ok (role, i)) items;
  rebuilt ← build_outcome_document d attempt outcome references finished;
  _ ← require (value_eqb rebuilt document)
    "completed outcome disagrees with authoritative coordination records";
  _ ← (if Outcome.is_accepted outcome then
         covered ← timestamp finished;
         _ ← require (claim_covers d attempt covered)
           "completed acceptance lacks its original authorized claim";
         validate_acceptance d attempt
       else Ok tt);
  _ ← mapM (fun i => ok_or (artifacts d !! i) Sqlite) (root_ids d attempt references);
  Ok {| ev_outcome := outcome; ev_references := references; ev_finished := finished |}.

(** Importing the single valid outcome: [evidence] was checked before the
    trees were synchronized. *)
Definition recover_import (attempt : OwnedAttempt) (document : value)
    (artifact : ArtifactRegistration) (evidence : Evidence) (clock : Z) (d : db)
  : M (TerminalAttempt * db) :=
  checked ← timestamp clock;
  _ ← require_expired d attempt checked;
  _ ← validate_orphan d attempt document checked;
  let artifact := {| ar_id := ar_id artifact; ar_relative_path := ar_relative_path artifact;
                     ar_content_sha256 := ar_content_sha256 artifact;
                     ar_manifest_sha256 := ar_manifest_sha256 artifact;
                     ar_verified_at_ns := checked |} in
  '(terminal, d) ← commit_terminal_in attempt (ev_outcome evidence) artifact
    (ev_references evidence) (ev_finished evidence) checked d;
  d ← commit d;
  Ok (terminal, d).

(** *** Interrupted attempts *)

Definition interrupted : M Outcome.TerminalOutcome :=
  details ← map_err (fun e => CanonicalJson (InvalidValue e)) (try_from (object
    [("reason", Str "owner lease expired without an unambiguous verified published outcome")]));
  Ok (Outcome.Failed "interrupted_attempt" details).

(** Artifacts retained by the attempt's leases, under the role [retained]. *)
Definition retained (d : db) (attempt : OwnedAttempt) : list (string * string) :=
  (fun a => ("retained", a)) <$> sorted_strings (remove_dups (snd <$>
    List.filter (fun la => match leases d !! la.1 with
      | Some l => bool_decide (le_attempt l = Some (id_text attempt))
      | None => false end) (leased_artifacts d))).

(** The first transaction of [fail_interrupted]: the outcome to publish. *)
Definition interrupted_document (d : db) (attempt : OwnedAttempt) (clock earliest : Z)
  : M (Z * Outcome.TerminalOutcome * list (string * string) * value) :=
  let finished := Z.max (Z.max clock earliest) (oa_updated_at_ns attempt) in
  now ← timestamp finished;
  _ ← require_expired d attempt now;
  outcome ← interrupted;
  let references := retained d attempt in
  document ← build_outcome_document d attempt outcome references finished;
  Ok (finished, outcome, references, document).

(** The second, after the document was published as [artifact]. *)
Definition fail_interrupted (attempt : OwnedAttempt) (outcome : Outcome.TerminalOutcome)
    (references : list (string * string)) (document : value) (finished : Z)
    (artifact : ArtifactRegistration) (clock : Z) (d : db) : M (TerminalAttempt * db) :=
  let checked := Z.max clock finished in
  now ← timestamp checked;
  _ ← require_expired d attempt now;
  rebuilt ← build_outcome_document d attempt outcome references finished;
  _ ← require (value_eqb rebuilt document)
    "coordination records changed during recovery publication";
  let artifact := {| ar_id := ar_id artifact; ar_relative_path := ar_relative_path artifact;
                     ar_content_sha256 := ar_content_sha256 artifact;
                     ar_manifest_sha256 := ar_manifest_sha256 artifact;
                     ar_verified_at_ns := checked |} in
  '(terminal, d) ← commit_terminal_in attempt outcome artifact references finished checked d;
  d ← commit d;
  Ok (terminal, d).

(** [find_orphans] registers completed artifacts that are not attempts. *)
Definition import_artifact (artifact : ArtifactRegistration) (kind : artifact_kind) (d : db)
  : M db :=
  d ← register_artifact artifact kind d;
  commit d.
End Recovery.

(** ** Stages *)

(** What the pass finds at a staging path: nothing, something that is not a
    directory, a lock that is not a file, a lock held by a publisher, a stage
    whose lock it could take (or that has no lock file), another failure. *)
Inductive stage_status := Missing | UnsafeStage | UnsafeLock | Locked | Unlocked | Broken.

(** The failures of the walk: [RunStoreError::UnsafePath] and [Io]. *)
Inductive stage_error := UnsafePath (path : string) | StageIo.

Record Stage := { sg_relative_path : string; sg_lease_id : option string }.

Definition staging_prefix : string := ".staging-".

(** The parent of [path] is [artifacts] and its name is that of a stage. *)
Definition staging_path_ok (path : string) : bool :=
  String.prefix "artifacts/" path &&
  (let name := String.substring 10 (String.length path) path in
   String.prefix staging_prefix name && negb (existsb (Ascii.eqb "/") (bytes_of name))).

Definition staging_row (d : db) (path : string) : option (string * lease_row) :=
  List.find (fun kv => bool_decide (le_staging kv.2 = Some path)) (map_to_list (leases d)).

(** The paths of the leases of purpose staging. *)
Definition leased_stages (d : db) : list string :=
  omap (fun kv => if bool_decide (le_purpose kv.2 = Staging) then le_staging kv.2 else None)
    (map_to_list (leases d)).

(** One path of the walk: the stages locked so far, the busy paths and the busy
    attempts. *)
Definition lock_stage (look : string -> stage_status) (d : db) (path : string)
    (acc : list Stage * list string * list string)
  : result stage_error (list Stage * list string * list string) :=
  let '(stages, busy_stages, busy) := acc in
  let lease := staging_row d path in
  let stage := {| sg_relative_path := path; sg_lease_id := fst <$> lease |} in
  match look path with
  | UnsafeStage => Err (UnsafePath path)
  | UnsafeLock => Err (UnsafePath (path ++ "/lock")%string)
  | Broken => Err StageIo
  | Locked => Ok (stages, busy_stages ++ [path],
      match (kv ← lease; le_attempt kv.2) with Some id => busy ++ [id] | None => busy end)
  | Missing | Unlocked => Ok (stages ++ [stage], busy_stages, busy)
  end.

Fixpoint lock_paths (look : string -> stage_status) (d : db) (paths : list string)
    (acc : list Stage * list string * list string)
  : result stage_error (list Stage * list string * list string) :=
  match paths with
  | [] => Ok acc
  | path :: rest => acc ← lock_stage look d path acc; lock_paths look d rest acc
  end.

(** [entries] are the names of the directory of the artifacts, [look] what the
    walk finds at a path. *)
Definition lock_stages (entries : list string) (look : string -> stage_status) (d : db)
  : result stage_error (list Stage * list string * list string) :=
  let found := (fun name => ("artifacts/" ++ name)%string) <$>
    List.filter (String.prefix staging_prefix) entries in
  match List.find (fun path => negb (staging_path_ok path)) (sorted_strings (leased_stages d)) with
  | Some path => Err (UnsafePath path)
  | None => lock_paths look d (sorted_strings (remove_dups (found ++ leased_stages d))) ([], [], [])
  end.

(** The pass over one attempt starts with the [continue] for the attempts whose
    stage is locked. *)
Definition recover_attempt `{ThirdParty} (busy : list string) (key : string) (clock now : Z) (d : db)
  : M (option OwnedAttempt * db) :=
  if bool_decide (key ∈ busy) then Ok (None, d) else recover_finalizing key clock now d.

(** Whether the lease of an abandoned stage may be released. *)
Definition stage_recoverable (d : db) (lease : option string) (checked : Z) : M bool :=
  match lease with
  | None => Ok true
  | Some key =>
      l ← ok_or (leases d !! key) Sqlite;
      Ok (bool_decide (is_Some (le_released l)) || (le_expires l <=? checked)%Z ||
          match (a ← le_attempt l; attempts d !! a) with
          | Some a => bool_decide (is_Some (att_finished a))
          | None => false end)
  end.

(** [UPDATE leases SET released_at_ns = max(?2, acquired_at_ns) ...]. *)
Definition release_recovered (key : string) (checked : Z) (d : db) : M db :=
  match leases d !! key with
  | Some l => release_one key (Z.max checked (le_acquired l)) d
  | None => Ok d
  end.

Definition recover_stage (lease : option string) (clock now : Z) (d : db) : M db :=
  checked ← timestamp (Z.max clock now);
  recoverable ← stage_recoverable d lease checked;
  if negb recoverable then Ok d
  else
    d ← match lease with Some key => release_recovered key checked d | None => Ok d end;
    commit d.
