(* ===== verification/Coordination.v ===== *)
(** * Registration and queries (src/runtime/run_store/coordination.rs,
    [register_fresh] of fresh.rs)

    The immutable coordination records a run is registered with, the
    observations its attempts produce, and the read-only queries. *)
From S2P Require Import Prelude Json Canonical Identity Profile Records RunDocuments Store.
From S2P Require Import Attempts Fresh.
From Stdlib Require Import Ascii.

Definition FRESH_RUN_STORE_SCHEMA_VERSION : Z := 3.
Definition BUFFERED_RUN_STORE_SCHEMA_VERSION : Z := 2.

Section Coordination.
Context `{ThirdParty}.

(** The text of [canonical_identity_bytes], as the value it denotes. *)
Definition identity_document `{IdentityRecord R} (r : R) : M value :=
  c ← map_err (fun e => Identity (CanonicalError (InvalidValue e))) (try_from (identity_value r));
  _ ← map_err (fun e => Identity (CanonicalError e)) (to_canonical_bytes c);
  Ok c.
Definition identity_of `{IdentityRecord R} (r : R) : M (RecordId (identity_type R)) :=
  map_err Identity (record_id r).

(** [record_id(&r.record)? != r.id]. *)
Definition mismatched `{IdentityRecord R} (r : IdentifiedRecord (identity_type R) R) : M bool :=
  i ← identity_of (record r); Ok (bool_decide (i <> id r)).

Definition register_applicability
    (decision : IdentifiedRecord ApplicabilityType ApplicabilityDecisionRecord) (d : db) : M db :=
  bad ← mismatched (R := ApplicabilityDecisionRecord) decision;
  if bad || bool_decide (ad_outcome (record decision) = Unchecked)
  then invalid "applicability decision must be resolved and match its identity"
  else
    document ← identity_document (record decision);
    let key := to_string (id decision) in
    d ← insert_decision key
      {| dec_candidate := to_string (ad_candidate_id (record decision));
         dec_applicable := bool_decide (ad_outcome (record decision) = Applicable);
         dec_record := document |} d;
    row ← ok_or (applicability_decisions d !! key) Sqlite;
    if bool_decide (dec_record row <> document)
    then invalid "applicability identity has conflicting contents" else Ok d.

(** The decision a run is registered under: the checked one, or the record
    of unconditional support that legacy runs share. *)
Definition unconditional_key (candidate : RecordId LogicalCandidateType) : string :=
  "run-store-v1:unconditional:" +:+ to_string candidate.
Definition unconditional_record (candidate : RecordId LogicalCandidateType) : value :=
  object [
    ("candidate_id", id_value candidate); ("applicable", Bool true);
    ("outcome", Str "applicable"); ("code", Str "unconditional_one_shot");
    ("reason", Str "The implementation declares support for every admitted configuration.");
    ("checked_inputs", Null); ("basis", Str "unconditional_one_shot")].

Definition run_decision (candidate : RecordId LogicalCandidateType)
    (run : ResolvedOneShotSpecificationRecord) (d : db) : M (string * db) :=
  match ro_applicability run with
  | Some decision =>
      _ ← require (match applicability_decisions d !! to_string decision with
            | Some r => String.eqb (dec_candidate r) (to_string candidate) && dec_applicable r
            | None => false end) "run requires a registered applicable decision";
      Ok (to_string decision, d)
  | None =>
      d ← insert_decision (unconditional_key candidate)
        {| dec_candidate := to_string candidate; dec_applicable := true;
           dec_record := unconditional_record candidate |} d;
      Ok (unconditional_key candidate, d)
  end.

Definition observation_row_of (run : string) (o : ResolvedObservationSlotRecord)
    (document : value) : slot_row :=
  {| os_logical := to_string (rs_logical_slot o); os_run := run; os_record := document |}.

(** [for extra in &observations[1..]]. *)
Definition register_extra (run : RecordId ResolvedSpecificationType) (attempt : string) (d : db)
    (extra : IdentifiedRecord ResolvedObservationSlotType ResolvedObservationSlotRecord) : M db :=
  bad ← mismatched (R := ResolvedObservationSlotRecord) extra;
  if bad || bool_decide (rs_specification (record extra) <> run)
  then invalid "invalid buffered observation slot"
  else
    document ← identity_document (record extra);
    let key := to_string (id extra) in
    d ← insert_observation_slot key (observation_row_of (to_string run) (record extra) document) d;
    row ← ok_or (observation_slots d !! key) Sqlite;
    _ ← require (bool_decide (os_record row = document))
      "conflicting buffered observation identity";
    insert_membership key {| mem_attempt_slot := attempt; mem_run := to_string run |} d.

Definition register_execution (candidate : RecordId LogicalCandidateType)
    (run : IdentifiedRecord ResolvedSpecificationType ResolvedOneShotSpecificationRecord)
    (attempt : IdentifiedRecord ResolvedAttemptSlotType ResolvedAttemptSlotRecord)
    (observations : list (IdentifiedRecord ResolvedObservationSlotType ResolvedObservationSlotRecord))
    (kind : execution_kind) (d : db) : M db :=
  match observations with
  | [] => invalid "execution requires observation slots"
  | observation :: extras =>
      bad_run ← mismatched (R := ResolvedOneShotSpecificationRecord) run;
      bad ← (if bad_run : bool then Ok true
             else
               bad_attempt ← mismatched (R := ResolvedAttemptSlotRecord) attempt;
               if bad_attempt : bool then Ok true
               else mismatched (R := ResolvedObservationSlotRecord) observation);
      _ ← require (negb bad) "registered record does not match its identity";
      _ ← require (bool_decide (ra_specification (record attempt) = id run) &&
                   bool_decide (rs_specification (record observation) = id run))
        "slot and run identities disagree";
      '(decision, d) ← run_decision candidate (record run) d;
      let run_key := to_string (id run) in
      let attempt_key := to_string (id attempt) in
      let observation_key := to_string (id observation) in
      run_document ← identity_document (record run);
      d ← insert_run run_key
        {| run_logical := to_string (ro_logical_specification (record run));
           run_candidate := to_string candidate; run_applicability := decision;
           run_record := run_document |} d;
      attempt_document ← identity_document (record attempt);
      d ← insert_attempt_slot attempt_key
        {| as_logical := to_string (ra_logical_slot (record attempt)); as_run := run_key;
           as_kind := kind; as_role := Measurement; as_record := attempt_document |} d;
      observation_document ← identity_document (record observation);
      d ← insert_observation_slot observation_key
        (observation_row_of run_key (record observation) observation_document) d;
      d ← insert_membership observation_key
        {| mem_attempt_slot := attempt_key; mem_run := run_key |} d;
      r ← ok_or (resolved_runs d !! run_key) Sqlite;
      _ ← require (bool_decide (run_record r = run_document))
        "registered identity has conflicting contents";
      a ← ok_or (attempt_slots d !! attempt_key) Sqlite;
      _ ← require (bool_decide (as_record a = attempt_document))
        "registered identity has conflicting contents";
      o ← ok_or (observation_slots d !! observation_key) Sqlite;
      _ ← require (bool_decide (os_record o = observation_document))
        "registered identity has conflicting contents";
      d ← try_fold (register_extra (id run) attempt_key) d extras;
      a ← ok_or (attempt_slots d !! attempt_key) Sqlite;
      _ ← require (bool_decide (as_kind a = kind)) "conflicting execution delivery kind";
      commit d
  end.

Definition register_one_shot candidate run attempt observation (d : db) : M db :=
  register_execution candidate run attempt [observation] OneShot d.

Definition register_streaming candidate run attempt observations (d : db) : M db :=
  if negb (user_version d =? FRESH_RUN_STORE_SCHEMA_VERSION)%Z
  then invalid "streaming profiles require a version-3 output directory"
  else register_execution candidate run attempt observations Stream d.

Definition register_buffered candidate run attempt observations (d : db) : M db :=
  if negb ((user_version d =? BUFFERED_RUN_STORE_SCHEMA_VERSION)%Z ||
           (user_version d =? FRESH_RUN_STORE_SCHEMA_VERSION)%Z)
  then invalid "buffered profiles require a new version-2 output directory"
  else register_execution candidate run attempt observations Buffered d.

(** *** Fresh points *)

(** The second transaction of [register_fresh]. *)
Definition register_point (run attempt : string) (measurement_index : Z)
    (control : FreshControl) (policy : ProfilePolicy) (d : db) : M db :=
  policy_document ← canonical (policy_value policy);
  control_document ← canonical (observation_control control);
  index ← timestamp measurement_index;
  d ← insert_sequence run index policy d;
  previous ← ok_or (fresh_sequences d !! (run, index)) Sqlite;
  previous_document ← canonical (policy_value previous);
  _ ← require (bool_decide (previous_document = policy_document))
    "conflicting fresh-sequence policy";
  schedule ← timestamp (schedule_index control);
  d ← insert_member attempt
    {| fm_run := run; fm_measurement := index; fm_schedule := schedule;
       fm_control := control_document |} d;
  m ← ok_or (fresh_members d !! attempt) Sqlite;
  _ ← require (String.eqb (fm_run m) run && (fm_measurement m =? measurement_index)%Z &&
               (fm_schedule m =? schedule_index control)%Z &&
               bool_decide (fm_control m = control_document))
    "conflicting fresh-sequence membership";
  commit d.

(** Two transactions: when the second fails the first stays committed. *)
Definition register_fresh (candidate : RecordId LogicalCandidateType)
    (run : IdentifiedRecord ResolvedSpecificationType ResolvedOneShotSpecificationRecord)
    (attempt : IdentifiedRecord ResolvedAttemptSlotType ResolvedAttemptSlotRecord)
    (observation : IdentifiedRecord ResolvedObservationSlotType ResolvedObservationSlotRecord)
    (measurement_index : Z) (control : FreshControl) (policy : ProfilePolicy) (d : db)
  : db * M unit :=
  if negb (supported d)
  then (d, invalid "fresh sequences require a new version-3 output directory")
  else
    match register_execution candidate run attempt [observation] FreshObservation d with
    | Err e => (d, Err e)
    | Ok d1 =>
        match register_point (to_string (id run)) (to_string (id attempt)) measurement_index
                control policy d1 with
        | Err e => (d1, Err e)
        | Ok d2 => (d2, Ok tt)
        end
    end.

(** *** Observations *)

(** The number of checkpoints the attempt has committed. *)
Definition checkpoint_events (d : db) (attempt : string) : Z :=
  Z.of_nat (length (List.filter (fun e => bool_decide (ev_attempt e = Some attempt) &&
    String.eqb (ev_kind e) "stream_checkpoint") (events d))).

Definition register_observation (attempt : OwnedAttempt)
    (observation : IdentifiedRecord ObservationType RunObservationRecord)
    (artifact : ArtifactRegistration) (select : bool) (now_ns : Z) (d : db) : M db :=
  bad ← mismatched (R := RunObservationRecord) observation;
  _ ← require (negb bad) "observation record does not match its identity";
  _ ← require (bool_decide (rb_producing_attempt (record observation) = oa_id attempt))
    "observation belongs to another attempt";
  document ← map_err (fun _ => InvalidAttempt "invalid observation document")
    (observation_document (record observation));
  _ ← map_err CanonicalJson (to_canonical_bytes document);
  now ← timestamp now_ns;
  _ ← fence d attempt now;
  d ← insert_observation (to_string (id observation))
    {| ob_slot := to_string (rb_slot (record observation)); ob_attempt := id_text attempt;
       ob_attempt_slot := slot_text attempt; ob_valid := true;
       ob_completion := rb_completion (record observation); ob_artifact := ar_id artifact;
       ob_record := document |} d;
  d ← (if select then
         _ ← require (match finalization_claims d !! slot_text attempt with
               | Some c => String.eqb (cl_attempt c) (id_text attempt)
               | None => false end) "selection requires this attempt's finalization claim";
         select_observation (to_string (rb_slot (record observation)))
           {| sel_observation := to_string (id observation); sel_at := now |} d
       else Ok d);
  d ← match rb_profile (record observation) with
      | Some (StreamingObservation profile) =>
          s ← ok_or (attempt_slots d !! slot_text attempt) Sqlite;
          _ ← require (bool_decide (as_kind s = Stream) && negb select &&
                (checkpoint_events d (id_text attempt) =? so_checkpoint_sequence profile)%Z)
            "streaming checkpoint must commit once, in sequence, without selection";
          payload ← canonical (object [
            ("observation_id", id_value (id observation));
            ("checkpoint", profile_observation_value (StreamingObservation profile))]);
          '(d, _) ← insert_event
            {| ev_attempt := Some (id_text attempt); ev_at := now;
               ev_kind := "stream_checkpoint"; ev_payload := payload |} d;
          Ok d
      | _ => Ok d
      end;
  commit d.
End Coordination.

(** ** Queries *)

Record SlotProgress := {
  sp_disposition : option disposition_reason;
  sp_accepted : bool;
  sp_attempts : Z;
  sp_active : bool;
}.

Definition slot_progress (d : db) (slot : RecordId ResolvedAttemptSlotType) : SlotProgress :=
  let key := to_string slot in
  {| sp_disposition :=
       if supported d then di_reason <$> fresh_dispositions d !! key else None;
     sp_accepted := satisfied d key;
     sp_attempts := Z.of_nat (count_rows (fun _ a => String.eqb (att_slot a) key) (attempts d));
     sp_active := exists_row (fun _ a => String.eqb (att_slot a) key &&
       bool_decide (att_finished a = None)) (attempts d) |}.

Definition attempt_is_terminal (d : db) (attempt : RecordId AttemptType) : M bool :=
  a ← ok_or (attempts d !! to_string attempt) Sqlite;
  Ok (bool_decide (is_Some (att_finished a))).

(** The two branches of the [UNION]; each has at most one row. *)
Definition slots_for_record (d : db) (key : string) : M (list (RecordId ResolvedAttemptSlotType)) :=
  mapM (fun s => map_err (fun _ => InvalidAttempt "invalid stored slot identity")
                   (from_str ResolvedAttemptSlotType s))
    (remove_dups (option_list (att_slot <$> attempts d !! key) ++
                  option_list (ob_attempt_slot <$> observations d !! key))).
