(* ===== verification/Statements.v ===== *)
(** * Transactions are sequences of statements

    Every operation of the run store is a sequence of the statements of
    [Store.v]; [stmt] is one of them, as a step on databases.  The statements
    that create an attempt with its first transition, those that move one, and
    those that finish one and release its claim and leases never occur apart and
    are one step each.  What each step preserves is preserved by every
    operation. *)
From S2P Require Import Prelude Json Canonical Identity Profile Records RunDocuments Store.
From S2P Require Import Attempts Fresh RunStore Publisher Recovery Coordination.
From stdpp Require Import relations.

(** The claim an accepted attempt commits under, and the selections of a
    trajectory: none of them belongs to another attempt. *)
Definition claims_slot (d : db) (id slot : string) : Prop :=
  exists c, finalization_claims d !! slot = Some c /\ cl_attempt c = id.
Definition own_selections (d : db) (id slot : string) : Prop :=
  forall s, attempt_slots d !! slot = Some s -> is_profile_kind (as_kind s) = true ->
    selection_conflicts d slot id = false.

Inductive stmt `{ThirdParty} : db -> db -> Prop :=
  | st_reserved id a purpose lease now details u (slot : RecordId ResolvedAttemptSlotType) i d d1 d2 d' :
      to_string slot = att_slot a -> run_attempt_id slot (att_retry_index a) = Ok i ->
      to_string i = id -> satisfied d (att_slot a) = false ->
      att_state a = Reserved -> att_finished a = None -> att_failure_code a = None ->
      att_final_artifact a = None -> purpose = Reservation ->
      next_retry (max_retry d (att_slot a)) = Ok (att_retry_index a) ->
      check_reservation d (att_slot a) = Ok u ->
      insert_attempt id a d = Ok d1 -> insert_lease id purpose lease now d1 = Ok d2 ->
      append_transition id None Reserved 0 (att_started a) details d2 = Ok d' -> stmt d d'
  | st_transition g from phase now details d g' d' :
      transition g from (InPhase phase) now details None d = Ok (g', d') -> stmt d d'
  | st_finish g o now details terminal checked d g' d1 d2 d' :
      (o = Outcome.Accepted -> claims_slot d (id_text g) (slot_text g) /\
         own_selections d (id_text g) (slot_text g)) ->
      transition g (InPhase Finalizing) (Outcome.state o) now details (Some terminal) d
        = Ok (g', d1) ->
      delete_claims (id_text g) d1 = Ok d2 -> release_leases (id_text g) checked d2 = Ok d' ->
      stmt d d'
  | st_checkpoint id p payload (observation : RecordId ObservationType) at_ns d d' n :
      canonical (object [("observation_id", id_value observation);
        ("checkpoint", profile_observation_value (StreamingObservation p))]) = Ok payload ->
      checkpoint_events d id = so_checkpoint_sequence p ->
      insert_event {| ev_attempt := Some id; ev_at := at_ns; ev_kind := "stream_checkpoint";
        ev_payload := payload |} d = Ok (d', n) -> stmt d d'
  | st_lease id l d d' :
      le_purpose l <> Reservation -> insert_lease_row id l d = Ok d' -> stmt d d'
  | st_extend id expires owner now d d' n :
      update_lease id expires owner now d = Ok (d', n) -> stmt d d'
  | st_claim slot c d d' : insert_claim slot c d = Ok d' -> stmt d d'
  | st_release_one id t d d' : release_one id t d = Ok d' -> stmt d d'
  | st_artifact id r d d' : insert_artifact id r d = Ok d' -> stmt d d'
  | st_attempt_artifact a r i d d' : insert_attempt_artifact a r i d = Ok d' -> stmt d d'
  | st_leased l a d d' : insert_leased_artifact l a d = Ok d' -> stmt d d'
  | st_observation id o d d' : insert_observation id o d = Ok d' -> stmt d d'
  | st_select slot s o claimed d d' :
      observations d !! sel_observation s = Some o -> claims_slot d (ob_attempt o) claimed ->
      select_observation slot s d = Ok d' -> stmt d d'
  | st_decision id r d d' : insert_decision id r d = Ok d' -> stmt d d'
  | st_run id r d d' : insert_run id r d = Ok d' -> stmt d d'
  | st_attempt_slot id r d d' : insert_attempt_slot id r d = Ok d' -> stmt d d'
  | st_observation_slot id r d d' : insert_observation_slot id r d = Ok d' -> stmt d d'
  | st_membership o r d d' : insert_membership o r d = Ok d' -> stmt d d'
  | st_sequence run i p d d' : insert_sequence run i p d = Ok d' -> stmt d d'
  | st_member slot m s d d' :
      supported d = true -> attempt_slots d !! slot = Some s -> as_kind s = FreshObservation ->
      insert_member slot m d = Ok d' -> stmt d d'
  | st_budget a n row run index limit used d d' :
      attempts d !! a = Some row -> att_finished row = None ->
      membership d (att_slot row) = Some (run, index) -> allowance d run index = Ok (limit, used) ->
      (n <= saturating_sub limit used)%Z -> insert_budget a n d = Ok d' -> stmt d d'
  | st_charge a n d d' : charge_budget a n d = Ok d' -> stmt d d'
  | st_dispositions run i reason a slot acc d d' :
      insert_dispositions run i reason a slot acc d = Ok d' -> stmt d d'.

(** A transaction body. *)
Abbreviation stmts := (rtc stmt).

(** Case analysis of an operation known to have succeeded. *)
Ltac op_inv :=
  repeat first
    [ progress ok_inv
    | match goal with
      | H : require _ _ = Ok _ |- _ => unfold require in H
      | H : constraint _ = Ok _ |- _ => unfold constraint in H
      | H : invalid _ = Ok _ |- _ => discriminate H
      | H : (match ?x with _ => _ end) = Ok _ |- _ => destruct x eqn:?; simpl in H
      end ].

Create HintDb stmts.

Lemma stmts_trans `{ThirdParty} d d1 d2 : stmts d d1 -> stmts d1 d2 -> stmts d d2.
Proof. intros H1 H2. by transitivity d1. Qed.

Lemma commit_Ok d d' : commit d = Ok d' -> d' = d /\
  forall id a, attempts d !! id = Some a -> projection_ok d id a = true.
Proof.
  unfold commit, constraint, ensure. destruct (negb _) eqn:E; [|done].
  intros [= ->]. split; [done|]. intros id a Ha.
  apply negb_true_iff in E. rewrite exists_row_false in E. specialize (E id a Ha). by bools.
Qed.
Lemma commit_stmts `{ThirdParty} d d' : commit d = Ok d' -> stmts d d'.
Proof. intros [-> _]%commit_Ok. apply rtc_refl. Qed.
Lemma try_fold_stmts `{ThirdParty} {A} (f : db -> A -> M db) :
  (forall d x d', f d x = Ok d' -> stmts d d') ->
  forall l d d', try_fold f d l = Ok d' -> stmts d d'.
Proof.
  intros Hf l. induction l as [|x l IH]; simpl; intros d d' E; op_inv; [apply rtc_refl|].
  eapply stmts_trans; eauto.
Qed.

Section Lift.
Context `{ThirdParty}.
Local Ltac one C := intros; eapply rtc_once, C; eassumption.
Lemma insert_reserved_stmts (slot : RecordId ResolvedAttemptSlotType) i next lease now details u
    d d1 d2 d' :
  run_attempt_id slot next = Ok i -> satisfied d (to_string slot) = false ->
  next_retry (max_retry d (to_string slot)) = Ok next -> check_reservation d (to_string slot) = Ok u ->
  insert_attempt (to_string i) {| att_slot := to_string slot; att_retry_index := next;
    att_state := Reserved; att_revision := 0; att_started := now; att_updated := now;
    att_finished := None; att_failure_code := None; att_final_artifact := None |} d = Ok d1 ->
  insert_lease (to_string i) Reservation lease now d1 = Ok d2 ->
  append_transition (to_string i) None Reserved 0 now details d2 = Ok d' -> stmts d d'.
Proof. intros. eapply rtc_once, (st_reserved (to_string i)); try eassumption; done. Qed.
Lemma transition_stmts a from phase now details d g d' :
  transition a from (InPhase phase) now details None d = Ok (g, d') -> stmts d d'.
Proof. one st_transition. Qed.
Lemma terminal_stmts g o now details terminal checked d g' d1 d2 d' :
  (o = Outcome.Accepted -> claims_slot d (id_text g) (slot_text g) /\
     own_selections d (id_text g) (slot_text g)) ->
  transition g (InPhase Finalizing) (Outcome.state o) now details (Some terminal) d
    = Ok (g', d1) ->
  delete_claims (id_text g) d1 = Ok d2 -> release_leases (id_text g) checked d2 = Ok d' ->
  stmts d d'.
Proof. intros. eapply rtc_once, st_finish; eassumption. Qed.
Lemma insert_staging_stmts id owner attempt staging acquired expires released d d' :
  insert_lease_row id {| le_owner := owner; le_attempt := attempt; le_purpose := Staging;
    le_staging := staging; le_acquired := acquired; le_expires := expires;
    le_released := released |} d = Ok d' -> stmts d d'.
Proof. intros. eapply rtc_once, st_lease; [|eassumption]. done. Qed.
Lemma update_lease_stmts id e o t d d' n : update_lease id e o t d = Ok (d', n) -> stmts d d'.
Proof. one st_extend. Qed.
Lemma insert_claim_stmts s c d d' : insert_claim s c d = Ok d' -> stmts d d'.
Proof. one st_claim. Qed.
Lemma release_one_stmts i t d d' : release_one i t d = Ok d' -> stmts d d'.
Proof. one st_release_one. Qed.
Lemma insert_artifact_stmts i r d d' : insert_artifact i r d = Ok d' -> stmts d d'.
Proof. one st_artifact. Qed.
Lemma insert_attempt_artifact_stmts a r i d d' :
  insert_attempt_artifact a r i d = Ok d' -> stmts d d'.
Proof. one st_attempt_artifact. Qed.
Lemma insert_leased_artifact_stmts l a d d' :
  insert_leased_artifact l a d = Ok d' -> stmts d d'.
Proof. one st_leased. Qed.
Lemma insert_observation_stmts i o d d' : insert_observation i o d = Ok d' -> stmts d d'.
Proof. one st_observation. Qed.
Lemma select_observation_stmts s r o claimed d d' :
  observations d !! sel_observation r = Some o -> claims_slot d (ob_attempt o) claimed ->
  select_observation s r d = Ok d' -> stmts d d'.
Proof. one st_select. Qed.
Lemma insert_decision_stmts i r d d' : insert_decision i r d = Ok d' -> stmts d d'.
Proof. one st_decision. Qed.
Lemma insert_run_stmts i r d d' : insert_run i r d = Ok d' -> stmts d d'.
Proof. one st_run. Qed.
Lemma insert_attempt_slot_stmts i r d d' : insert_attempt_slot i r d = Ok d' -> stmts d d'.
Proof. one st_attempt_slot. Qed.
Lemma insert_observation_slot_stmts i r d d' :
  insert_observation_slot i r d = Ok d' -> stmts d d'.
Proof. one st_observation_slot. Qed.
Lemma insert_membership_stmts i r d d' : insert_membership i r d = Ok d' -> stmts d d'.
Proof. one st_membership. Qed.
Lemma insert_sequence_stmts r i p d d' : insert_sequence r i p d = Ok d' -> stmts d d'.
Proof. one st_sequence. Qed.
Lemma charge_budget_stmts a n d d' : charge_budget a n d = Ok d' -> stmts d d'.
Proof. one st_charge. Qed.
Lemma insert_dispositions_stmts r i q a s b d d' :
  insert_dispositions r i q a s b d = Ok d' -> stmts d d'.
Proof. one st_dispositions. Qed.
End Lift.
#[export] Hint Resolve commit_stmts transition_stmts
  insert_staging_stmts update_lease_stmts insert_claim_stmts
  release_one_stmts insert_artifact_stmts
  insert_attempt_artifact_stmts insert_leased_artifact_stmts insert_observation_stmts
  insert_decision_stmts insert_run_stmts insert_attempt_slot_stmts
  insert_observation_slot_stmts insert_membership_stmts insert_sequence_stmts
  charge_budget_stmts insert_dispositions_stmts : stmts.

(** Chains the statements found in the context, from the starting database. *)
Ltac chain :=
  repeat (eapply stmts_trans; [solve [eauto 2 with stmts nocore]|]); apply rtc_refl.

Section Operations.
Context `{ThirdParty}.

Lemma insert_lease_stmts a l n d d' :
  insert_lease a Store.Finalization l n d = Ok d' -> stmts d d'.
Proof.
  unfold insert_lease. intros E. apply bind_Ok in E as (e & _ & E).
  eapply rtc_once, st_lease; [|eassumption]. done.
Qed.
Hint Resolve insert_lease_stmts : stmts.
Lemma finish_stmts a o d d' : finish a o d = Ok d' -> stmts d d'.
Proof. unfold finish. intros E. op_inv; chain. Qed.
Hint Resolve finish_stmts : stmts.
Lemma references_stmts id (l : list (string * string)) d d' :
  try_fold (fun d r => insert_attempt_artifact id r.1 r.2 d) d l = Ok d' -> stmts d d'.
Proof. apply try_fold_stmts. intros ? ? ? ?. eauto with stmts. Qed.
Hint Resolve references_stmts : stmts.

(** No statement changes the schema version. *)
Lemma stmt_version d d' : stmt d d' -> user_version d' = user_version d.
Proof.
  destruct 1; unfold insert_attempt, insert_lease, insert_lease_row, transition, append_transition,
    insert_event, insert_transition, update_attempt, delete_claims, release_leases, update_lease,
    insert_claim, release_one, insert_artifact, insert_attempt_artifact, insert_leased_artifact,
    insert_observation, select_observation, insert_decision, insert_run, insert_attempt_slot,
    insert_observation_slot, insert_membership, insert_sequence, insert_member, insert_budget,
    charge_budget, insert_dispositions in *; op_inv; reflexivity.
Qed.
Lemma stmts_version d d' : stmts d d' -> user_version d' = user_version d.
Proof. induction 1 as [|d d1 d2 H1 _ IH]; [done|]. by rewrite IH, (stmt_version _ _ H1). Qed.

(** *** The statements before a terminal transition

    They leave attempts, claims and the plan alone and select observations of
    the finishing attempt only. *)
Record settles (id : string) (d d' : db) : Prop := {
  se_stmts : stmts d d';
  se_exec : exec d' = exec d;
  se_plan : plan d' = plan d;
  se_conflicts slot : selection_conflicts d slot id = false ->
    selection_conflicts d' slot id = false;
}.

Lemma settles_refl id d : settles id d d.
Proof. by constructor. Qed.
Lemma settles_trans id d d1 d2 : settles id d d1 -> settles id d1 d2 -> settles id d d2.
Proof.
  intros [S1 E1 P1 C1] [S2 E2 P2 C2]. constructor; [by eapply stmts_trans|congruence..|auto].
Qed.
Lemma settles_fold {A} id (f : db -> A -> M db) :
  (forall d x d', f d x = Ok d' -> settles id d d') ->
  forall l d d', try_fold f d l = Ok d' -> settles id d d'.
Proof.
  intros Hf l. induction l as [|x l IH]; simpl; intros d d' E;
    [injection E as ->; apply settles_refl|].
  apply bind_Ok in E as (d1 & E1 & E). eapply settles_trans; eauto.
Qed.
(** A statement outside the tables that conflicts are computed from. *)
Lemma settles_unrelated id d d' :
  stmts d d' -> exec d' = exec d -> plan d' = plan d -> observations d' = observations d ->
  selected_observations d' = selected_observations d -> settles id d d'.
Proof.
  intros Hs He Hp Ho Hsel. constructor; try done. intros slot.
  unfold selection_conflicts, attempt_observation_slots. by rewrite Hp, Ho, Hsel.
Qed.
Lemma finish_settles id g o d d' : finish g o d = Ok d' -> settles id d d'.
Proof.
  intros E. apply settles_unrelated; [by apply (finish_stmts g o)|..];
    unfold finish, insert_dispositions in E; by op_inv.
Qed.
Lemma insert_artifact_settles id k r d d' : insert_artifact k r d = Ok d' -> settles id d d'.
Proof.
  intros E. apply settles_unrelated; [by eapply insert_artifact_stmts|..];
    unfold insert_artifact in E; op_inv; done.
Qed.
Lemma insert_attempt_artifact_settles id a r i d d' :
  insert_attempt_artifact a r i d = Ok d' -> settles id d d'.
Proof.
  intros E. apply settles_unrelated; [by eapply insert_attempt_artifact_stmts|..];
    unfold insert_attempt_artifact in E; op_inv; done.
Qed.

Lemma selection_conflicts_false d slot id :
  selection_conflicts d slot id = false <->
  forall os m s o, attempt_observation_slots d !! os = Some m -> mem_attempt_slot m = slot ->
    selected_observations d !! os = Some s -> observations d !! sel_observation s = Some o ->
    ob_attempt o = id.
Proof.
  unfold selection_conflicts. rewrite exists_row_false. split.
  - intros Hn os m s o Hm Hs Hsel Ho. specialize (Hn os m Hm).
    rewrite Hs, String.eqb_refl, Hsel, Ho in Hn. simpl in Hn. bools. by apply String.eqb_eq.
  - intros Hn os m Hm. destruct (String.eqb_spec (mem_attempt_slot m) slot) as [Hs|]; [|done]. simpl.
    destruct (selected_observations d !! os) as [s|] eqn:Hsel; [|done].
    destruct (observations d !! sel_observation s) as [o|] eqn:Ho; [|done].
    apply negb_false_iff, String.eqb_eq. by eapply Hn.
Qed.

Lemma select_observation_settles id claimed slot s o d d' :
  observations d !! sel_observation s = Some o -> ob_attempt o = id -> claims_slot d id claimed ->
  select_observation slot s d = Ok d' -> settles id d d' /\ observations d' = observations d.
Proof.
  intros Ho Hid Hc E. assert (stmts d d') as Hs
    by (eapply rtc_once, st_select; [done|by rewrite Hid|done]).
  unfold select_observation in E. op_inv; (split; [|done]); constructor; try done.
  intros x. rewrite !selection_conflicts_false. simpl.
  intros Hn os m t p Hm Hx Hsel Hp. destruct (decide (os = slot)) as [->|Hne].
  - rewrite lookup_insert_eq in Hsel. injection Hsel as <-. congruence.
  - rewrite lookup_insert_ne in Hsel by done. by eapply Hn.
Qed.

Lemma select_produced_settles id claimed t d d' :
  claims_slot d id claimed -> select_produced id t d = Ok d' -> settles id d d'.
Proof.
  intros Hc E. unfold select_produced in E.
  assert (forall kv, kv ∈ List.filter (fun kv => String.eqb (ob_attempt kv.2) id && ob_valid kv.2)
      (map_to_list (observations d)) ->
    observations d !! kv.1 = Some kv.2 /\ ob_attempt kv.2 = id) as Hall.
  { intros [k o] Hin. apply list_elem_of_In, filter_In in Hin as [Hin Hp].
    apply andb_true_iff in Hp as [Hp _]. apply String.eqb_eq in Hp.
    split; [|done]. by apply elem_of_map_to_list, list_elem_of_In. }
  revert Hall Hc E. generalize (List.filter (fun kv => String.eqb (ob_attempt kv.2) id &&
    ob_valid kv.2) (map_to_list (observations d))). intros l. revert d.
  induction l as [|[k o] l IH]; simpl; intros d Hall Hc E; [injection E as ->; apply settles_refl|].
  apply bind_Ok in E as (d1 & E1 & E).
  destruct (Hall (k, o) ltac:(set_solver)) as [Ho Hid]. simpl in *.
  destruct (select_observation_settles id claimed (ob_slot o)
    {| sel_observation := k; sel_at := t |} o d d1 Ho Hid Hc E1) as [H1 Hobs].
  eapply settles_trans; [done|]. apply IH; [|by unfold claims_slot, finalization_claims;
    rewrite (se_exec _ _ _ H1)|done].
  intros kv Hkv. rewrite Hobs. apply Hall. set_solver.
Qed.

(** An accepting transition finds the claim of the attempt. *)
Lemma transition_claim g from now details terminal d g' d' :
  transition g from Accepted now details terminal d = Ok (g', d') ->
  exists a c, attempts d !! id_text g = Some a /\ finalization_claims d !! att_slot a = Some c /\
    cl_attempt c = id_text g.
Proof.
  unfold transition. intros E. apply bind_Ok in E as (r & _ & E). apply bind_Ok in E as (u & _ & E).
  apply bind_Ok in E as (d1 & Happ & E). apply bind_Ok in E as (v & _ & E).
  apply bind_Ok in E as (x & _ & E). apply bind_Ok in E as ([d2 n] & Hupd & E).
  destruct (negb (n =? 1)%nat) eqn:Hn; [done|]. apply negb_false_iff, Nat.eqb_eq in Hn as ->.
  assert (attempts d1 = attempts d /\ finalization_claims d1 = finalization_claims d) as [Ha Hc].
  { unfold append_transition, insert_event, insert_transition in Happ. by op_inv. }
  unfold update_attempt in Hupd. rewrite Ha, Hc in Hupd.
  destruct (attempts d !! id_text g) as [a|]; [|done].
  destruct (negb (att_revision a =? _)%Z); [done|]. op_inv.
  repeat match goal with F : negb (bool_decide (Accepted = Accepted)) || _ = true |- _ =>
    rewrite (bool_decide_eq_true_2 (Accepted = Accepted)) in F by done; simpl in F end.
  destruct (finalization_claims d !! att_slot a) as [c|] eqn:Hm; [|done].
  exists a, c. split; [done|]. split; [done|]. by apply String.eqb_eq.
Qed.

(** The finishing attempt's slot, as its row or as its claim gives it. *)
Definition slot_known (d : db) (g : OwnedAttempt) : Prop :=
  (exists a, attempts d !! id_text g = Some a /\ att_slot a = slot_text g) \/
  claims_slot d (id_text g) (slot_text g).

Lemma commit_terminal_in_stmts g o art refs now checked d t d' :
  (o = Outcome.Accepted -> slot_known d g /\ own_selections d (id_text g) (slot_text g)) ->
  commit_terminal_in g o art refs now checked d = Ok (t, d') -> stmts d d'.
Proof.
  intros Hacc E. unfold commit_terminal_in in E.
  apply bind_Ok in E as (da & Ea & E). apply bind_Ok in E as (n & _ & E).
  apply bind_Ok in E as (u & _ & E). apply bind_Ok in E as (c & _ & E).
  apply bind_Ok in E as (v & _ & E). apply bind_Ok in E as ([] & _ & E).
  apply bind_Ok in E as (db & Eb & E). apply bind_Ok in E as (details & _ & E).
  apply bind_Ok in E as (dc & Ec & E). apply bind_Ok in E as (dd & Ed & E).
  apply bind_Ok in E as (d0 & E0 & E). apply bind_Ok in E as ([g' d1] & E1 & E).
  apply bind_Ok in E as (rev & _ & E). apply bind_Ok in E as (row & _ & E).
  apply bind_Ok in E as (d2 & E2 & E). apply bind_Ok in E as (d3 & E3 & [= _ <-]).
  assert (settles (id_text g) da d0) as Hrest.
  { apply (finish_settles (id_text g)) in Eb. apply (insert_artifact_settles (id_text g)) in Ec.
    apply (insert_attempt_artifact_settles (id_text g)) in Ed.
    apply (settles_fold (id_text g)) in E0;
      [|intros ? ? ?; apply insert_attempt_artifact_settles].
    eauto using settles_trans. }
  assert (exec da = exec d) as Hexec.
  { destruct (Outcome.is_accepted o); [|by injection Ea as ->].
    apply bind_Ok in Ea as (s & _ & Ea). destruct (is_profile_kind _); [|by injection Ea as ->].
    apply bind_Ok in Ea as (at_ns & _ & Ea). revert Ea. unfold select_produced.
    generalize (List.filter (fun kv => String.eqb (ob_attempt kv.2) (id_text g) && ob_valid kv.2)
      (map_to_list (observations d))). intros l. clear Hacc. revert d.
    induction l as [|kv l IH]; simpl; intros d E; [by injection E as ->|].
    apply bind_Ok in E as (dx & Ex & E). rewrite (IH _ E).
    unfold select_observation in Ex. by op_inv. }
  assert (o = Outcome.Accepted -> claims_slot d (id_text g) (slot_text g)) as Hclaim.
  { intros ->. destruct (Hacc eq_refl) as [[(a & Ha & Hs)|?] _]; [|done].
    destruct (transition_claim _ _ _ _ _ _ _ _ E1) as (b & cl & Hb & Hc & Hid).
    unfold attempts, finalization_claims in *. rewrite (se_exec _ _ _ Hrest), Hexec in *.
    exists cl. split; [|done]. rewrite Ha in Hb. injection Hb as <-. by rewrite Hs in Hc. }
  assert (settles (id_text g) d d0) as Hd0.
  { eapply settles_trans; [|done]. destruct o; simpl in Ea; try (injection Ea as ->; apply settles_refl).
    apply bind_Ok in Ea as (s & _ & Ea). destruct (is_profile_kind _);
      [|injection Ea as ->; apply settles_refl].
    apply bind_Ok in Ea as (at_ns & _ & Ea).
    by eapply select_produced_settles; [apply Hclaim|]. }
  eapply stmts_trans; [apply (se_stmts _ _ _ Hd0)|]. eapply terminal_stmts; [|done..].
  intros ->. destruct (Hacc eq_refl) as [_ Hown]. split.
  - destruct (Hclaim eq_refl) as (cl & Hc & ?). exists cl. split; [|done].
    unfold finalization_claims in *. by rewrite (se_exec _ _ _ Hd0).
  - intros s. unfold attempt_slots. rewrite (se_plan _ _ _ Hd0). intros Hs Hk.
    apply (se_conflicts _ _ _ Hd0). by eapply Hown.
Qed.

Lemma validate_acceptance_own d g u :
  validate_acceptance d g = Ok u -> own_selections d (id_text g) (slot_text g).
Proof.
  unfold validate_acceptance. intros E s Hs Hk. rewrite Hs in E. simpl in E.
  destruct (bool_decide (as_role s = Warmup)).
  - unfold require in E. apply ensure_Ok, Nat.eqb_eq in E. unfold membership_count, count_rows in E.
    apply length_zero_iff_nil in E. apply selection_conflicts_false. intros os m t o Hm Hms.
    exfalso. assert (In (os, m) (map_to_list (attempt_observation_slots d))) as Hin
      by (by apply list_elem_of_In, elem_of_map_to_list).
    assert (In (os, m) (List.filter (fun kv => String.eqb (mem_attempt_slot kv.2) (slot_text g))
      (map_to_list (attempt_observation_slots d)))) as Hf
      by (apply filter_In; split; [done|]; simpl; rewrite Hms; apply String.eqb_refl).
    by rewrite E in Hf.
  - destruct (membership_count d (slot_text g) =? 0)%nat; [done|]. rewrite Hk in E.
    unfold require in E. apply ensure_Ok in E. bools. done.
Qed.
End Operations.
#[export] Hint Resolve insert_lease_stmts finish_stmts references_stmts : stmts.

(** ** The operations of the store, as steps *)
Section Steps.
Context `{ThirdParty}.

Inductive store_step : db -> db -> Prop :=
  | do_reserve slot auth lease now d g d' :
      reserve slot auth lease now d = Ok (g, d') -> store_step d d'
  | do_advance g phase now d g' d' : advance g phase now d = Ok (g', d') -> store_step d d'
  | do_renew g expires now d d' : renew g expires now d = Ok d' -> store_step d d'
  | do_begin_finalization g lease now d f d' :
      begin_finalization g lease now d = Ok (f, d') -> store_step d d'
  | do_commit_finalization g o art refs now d t d' :
      commit_finalization g o art refs now d = Ok (t, d') -> store_step d d'
  | do_reserve_fresh_time g limit now d n d' :
      reserve_fresh_time g limit now d = Ok (n, d') -> store_step d d'
  | do_record_fresh_time g n now d d' :
      record_fresh_time g n now d = Ok d' -> store_step d d'
  | do_register_applicability r d d' : register_applicability r d = Ok d' -> store_step d d'
  | do_register_execution c r a o k d d' :
      register_execution c r a o k d = Ok d' -> store_step d d'
  | do_register_fresh c r a o i ctl p d :
      store_step d (register_fresh c r a o i ctl p d).1
  | do_register_observation g o art sel now d d' :
      register_observation g o art sel now d = Ok d' -> store_step d d'
  | do_stage g path now d s d' : stage g path now d = Ok (s, d') -> store_step d d'
  | do_publish_artifact g k art s now d r d' :
      publish_artifact g k art s now d = Ok (r, d') -> store_step d d'
  | do_publish_finalization g o art refs doc s finished now d t d' :
      publish_finalization g o art refs doc s finished now d = Ok (t, d') -> store_step d d'
  | do_recover_finalizing key clock now d g d' :
      recover_finalizing key clock now d = Ok (g, d') -> store_step d d'
  | do_recover_import g doc art evidence clock d0 now0 d t d' :
      validate_orphan d0 g doc now0 = Ok evidence ->
      recover_import g doc art evidence clock d = Ok (t, d') -> store_step d d'
  | do_fail_interrupted g o refs doc finished art clock d0 clock0 earliest d t d' :
      interrupted_document d0 g clock0 earliest = Ok (finished, o, refs, doc) ->
      fail_interrupted g o refs doc finished art clock d = Ok (t, d') -> store_step d d'
  | do_import_artifact art k d d' : import_artifact art k d = Ok d' -> store_step d d'
  | do_recover_stage l clock now d d' :
      recover_stage l clock now d = Ok d' -> store_step d d'.

(** A new store: every table is empty. *)
Definition empty_store (version : Z) : db := {|
  user_version := version;
  plan := Build_plan_tables ∅ ∅ ∅ ∅ ∅;
  exec := Build_exec_tables ∅ [] [] ∅ ∅;
  evidence := Build_evidence_tables ∅ ∅ ∅ [] [];
  Store.fresh := Build_fresh_tables ∅ ∅ ∅ ∅ |}.
Definition reachable (d : db) : Prop := exists version, rtc store_step (empty_store version) d.
Lemma reachable_step d d' : reachable d -> store_step d d' -> reachable d'.
Proof. intros [v Hd] Hst. exists v. by eapply rtc_r. Qed.

(** *** Every operation is a sequence of statements *)

Lemma reserve_stmts slot auth lease now d g d' :
  reserve slot auth lease now d = Ok (g, d') -> stmts d d'.
Proof.
  unfold reserve. intros E. apply bind_Ok in E as (now' & _ & E).
  apply bind_Ok in E as (u & _ & E). apply bind_Ok in E as ([] & _ & E).
  apply bind_Ok in E as ([] & Hsat%ensure_Ok%negb_true_iff & E).
  apply bind_Ok in E as (v & Hcheck & E). apply bind_Ok in E as (next & Hnext & E).
  apply bind_Ok in E as ([] & _ & E). apply bind_Ok in E as (i & Hi & E).
  apply bind_Ok in E as (d1 & E1 & E). apply bind_Ok in E as (d2 & E2 & E).
  apply bind_Ok in E as (d3 & E3 & E). apply bind_Ok in E as (d4 & E4 & [= _ <-]).
  destruct (run_attempt_id slot next) as [x|] eqn:Hid; simplify_eq/=.
  eapply stmts_trans; [by eapply insert_reserved_stmts|by eapply commit_stmts].
Qed.
Lemma advance_stmts g phase now d g' d' : advance g phase now d = Ok (g', d') -> stmts d d'.
Proof. unfold advance. intros E. op_inv. chain. Qed.
Lemma renew_one_stmts e o t d r d' : renew_one e o t d r = Ok d' -> stmts d d'.
Proof. unfold renew_one. intros E. op_inv. chain. Qed.
Lemma renew_stmts g e now d d' : renew g e now d = Ok d' -> stmts d d'.
Proof.
  unfold renew. intros E. op_inv. eapply stmts_trans; [|by eapply commit_stmts].
  eapply try_fold_stmts; [|eassumption]. intros ? ? ?. apply renew_one_stmts.
Qed.
Lemma begin_finalization_stmts g l now d f d' :
  begin_finalization g l now d = Ok (f, d') -> stmts d d'.
Proof. unfold begin_finalization. intros E. op_inv; chain. Qed.
Lemma commit_finalization_in_stmts g o art refs now checked d t d' :
  commit_finalization_in g o art refs now checked d = Ok (t, d') -> stmts d d'.
Proof.
  unfold commit_finalization_in. intros E. op_inv. eapply commit_terminal_in_stmts; [|done].
  intros ->. unfold validate_finalization in *. op_inv. split.
  - left. match goal with F : fence _ _ _ = Ok _ |- _ => unfold fence in F end. op_inv. bools.
    eexists; split; [reflexivity|]. by apply String.eqb_eq.
  - by eapply validate_acceptance_own.
Qed.
Hint Resolve commit_finalization_in_stmts : stmts.
Lemma commit_finalization_stmts g o art refs now d t d' :
  commit_finalization g o art refs now d = Ok (t, d') -> stmts d d'.
Proof. unfold commit_finalization. intros E. op_inv. chain. Qed.
Lemma reserve_fresh_time_stmts g limit now d n d' :
  reserve_fresh_time g limit now d = Ok (n, d') -> stmts d d'.
Proof.
  unfold reserve_fresh_time. intros E.
  apply bind_Ok in E as (t & _ & E). apply bind_Ok in E as (s & Hf & E).
  destruct (membership d (slot_text g)) as [[run index]|] eqn:Hm; [|injection E as _ ->; apply rtc_refl].
  apply bind_Ok in E as ([limit' used] & Hal & E). destruct (_ =? 0)%Z; [done|].
  apply bind_Ok in E as (stored & Hst & E). apply bind_Ok in E as (d1 & Hb & E).
  apply bind_Ok in E as (d2 & [-> _]%commit_Ok & [= _ <-]).
  unfold fence in Hf. op_inv. bools.
  match goal with Hs : String.eqb _ (slot_text g) = true |- _ =>
    apply String.eqb_eq in Hs; rewrite <-Hs in Hm end.
  eapply rtc_once, st_budget; [eassumption..| |eassumption].
  unfold timestamp in Hst. destruct (_ <=? i64_max)%Z; [|done]. injection Hst as <-. lia.
Qed.
Lemma record_fresh_time_stmts g n now d d' : record_fresh_time g n now d = Ok d' -> stmts d d'.
Proof. unfold record_fresh_time. intros E. op_inv. chain. Qed.
Lemma register_applicability_stmts r d d' : register_applicability r d = Ok d' -> stmts d d'.
Proof. unfold register_applicability. intros E. op_inv. chain. Qed.
Lemma register_extra_stmts run a d x d' : register_extra run a d x = Ok d' -> stmts d d'.
Proof. unfold register_extra. intros E. op_inv. chain. Qed.
Lemma run_decision_stmts c r d k d' : run_decision c r d = Ok (k, d') -> stmts d d'.
Proof. unfold run_decision. intros E. op_inv; chain. Qed.
Lemma extras_stmts run a l d d' : try_fold (register_extra run a) d l = Ok d' -> stmts d d'.
Proof. apply try_fold_stmts. intros ? ? ?. apply register_extra_stmts. Qed.
Hint Resolve run_decision_stmts extras_stmts : stmts.
Lemma register_execution_stmts c r a o k d d' :
  register_execution c r a o k d = Ok d' -> stmts d d'.
Proof. unfold register_execution. intros E. destruct o; [done|]. op_inv; chain. Qed.
Lemma register_execution_kind c r a o k d d' :
  register_execution c r a o k d = Ok d' ->
  exists s, attempt_slots d' !! to_string (id a) = Some s /\ as_kind s = k.
Proof.
  unfold register_execution. intros E. destruct o; [done|]. op_inv.
  all: match goal with F : commit _ = Ok _ |- _ => apply commit_Ok in F as [-> _] end.
  all: bools; eauto.
Qed.
Lemma register_point_stmts r a i c p d s d' :
  supported d = true -> attempt_slots d !! a = Some s -> as_kind s = FreshObservation ->
  register_point r a i c p d = Ok d' -> stmts d d'.
Proof.
  intros Hv Hs Hk E. unfold register_point in E.
  apply bind_Ok in E as (pd & _ & E). apply bind_Ok in E as (cd & _ & E).
  apply bind_Ok in E as (index & _ & E). apply bind_Ok in E as (d1 & E1 & E).
  apply bind_Ok in E as (previous & _ & E). apply bind_Ok in E as (pv & _ & E).
  apply bind_Ok in E as ([] & _ & E). apply bind_Ok in E as (schedule & _ & E).
  apply bind_Ok in E as (d2 & E2 & E). apply bind_Ok in E as (m & _ & E).
  apply bind_Ok in E as ([] & _ & E%commit_stmts).
  eapply stmts_trans; [by eapply insert_sequence_stmts|]. eapply stmts_trans; [|done].
  assert (user_version d1 = user_version d /\ attempt_slots d1 = attempt_slots d) as [Hv1 Hs1].
  { unfold insert_sequence in E1. by op_inv. }
  eapply rtc_once, st_member; [|by rewrite Hs1|done|done]. unfold supported in *. by rewrite Hv1.
Qed.
Lemma register_fresh_stmts c r a o i ctl p d : stmts d (register_fresh c r a o i ctl p d).1.
Proof.
  unfold register_fresh. destruct (negb (supported d)) eqn:Hv; [apply rtc_refl|].
  apply negb_false_iff in Hv.
  destruct (register_execution _ _ _ _ _ _) as [d1|] eqn:E1; [|apply rtc_refl].
  destruct (register_execution_kind _ _ _ _ _ _ _ E1) as (s & Hs & Hk).
  apply register_execution_stmts in E1.
  destruct (register_point _ _ _ _ _ _) as [d2|] eqn:E2; [|done].
  eapply register_point_stmts in E2; [|by unfold supported in *; rewrite (stmts_version _ _ E1)|done|done].
  simpl. by eapply stmts_trans.
Qed.
Lemma insert_observation_Ok k o d d' :
  insert_observation k o d = Ok d' ->
  d' = set_observations (<[k := o]> (observations d)) d /\ observations d !! k = None /\
  (exists a, attempts d !! ob_attempt o = Some a /\ att_slot a = ob_attempt_slot o) /\
  (exists m, attempt_observation_slots d !! ob_slot o = Some m /\
             mem_attempt_slot m = ob_attempt_slot o).
Proof.
  unfold insert_observation, constraint. intros E.
  apply bind_Ok in E as ([] & E1%ensure_Ok & E). apply bind_Ok in E as ([] & E2%ensure_Ok & E).
  apply bind_Ok in E as ([] & E3%ensure_Ok & E). apply bind_Ok in E as ([] & _ & [= <-]).
  split; [done|]. split; [by unfold has_key in E1; destruct (observations d !! k)|].
  destruct (attempts d !! ob_attempt o) as [a|]; [|done].
  destruct (attempt_observation_slots d !! ob_slot o) as [m|]; [|done].
  apply String.eqb_eq in E2. apply String.eqb_eq in E3. split; eexists; split; done.
Qed.
Lemma register_observation_stmts g o art sel now d d' :
  register_observation g o art sel now d = Ok d' -> stmts d d'.
Proof.
  unfold register_observation. intros E.
  apply bind_Ok in E as (bad & _ & E). apply bind_Ok in E as ([] & _ & E).
  apply bind_Ok in E as ([] & _ & E). apply bind_Ok in E as (doc & _ & E).
  apply bind_Ok in E as (b & _ & E). apply bind_Ok in E as (t & _ & E).
  apply bind_Ok in E as (s & _ & E). apply bind_Ok in E as (d1 & E1 & E).
  apply bind_Ok in E as (d2 & E2 & E). apply bind_Ok in E as (d3 & E3 & E).
  eapply stmts_trans; [by eapply insert_observation_stmts|].
  destruct (insert_observation_Ok _ _ _ _ E1) as (-> & _ & _ & _).
  eapply (stmts_trans _ d2).
  - destruct sel; [|injection E2 as ->; apply rtc_refl].
    apply bind_Ok in E2 as ([] & Hc%ensure_Ok & E2).
    destruct (finalization_claims _ !! slot_text g) as [c|] eqn:Hcl; [|done].
    apply String.eqb_eq in Hc. eapply (select_observation_stmts _ _ _ (slot_text g)); [| |done].
    + simpl. by rewrite lookup_insert_eq.
    + simpl. by exists c.
  - eapply stmts_trans; [|by eapply commit_stmts]. clear E E1 E2. op_inv; try chain. bools.
    eapply rtc_once, st_checkpoint; eassumption.
Qed.
Lemma stage_stmts g p now d s d' : stage g p now d = Ok (s, d') -> stmts d d'.
Proof. unfold stage. intros E. op_inv; chain. Qed.
Lemma register_artifact_stmts art k d d' : register_artifact art k d = Ok d' -> stmts d d'.
Proof. unfold register_artifact. intros E. op_inv; chain. Qed.
Lemma release_stage_stmts s now d d' : release_stage s now d = Ok d' -> stmts d d'.
Proof. unfold release_stage. intros E. op_inv. chain. Qed.
Hint Resolve register_artifact_stmts release_stage_stmts : stmts.
Lemma publish_artifact_stmts g k art s now d r d' :
  publish_artifact g k art s now d = Ok (r, d') -> stmts d d'.
Proof. unfold publish_artifact. intros E. op_inv. chain. Qed.
Lemma publish_finalization_stmts g o art refs doc s finished now d t d' :
  publish_finalization g o art refs doc s finished now d = Ok (t, d') -> stmts d d'.
Proof. unfold publish_finalization. intros E. op_inv. chain. Qed.
Lemma recover_finalizing_stmts key clock now d g d' :
  recover_finalizing key clock now d = Ok (g, d') -> stmts d d'.
Proof. unfold recover_finalizing. intros E. op_inv; chain. Qed.
Lemma recover_import_stmts g doc art ev clock d0 now0 d t d' :
  validate_orphan d0 g doc now0 = Ok ev ->
  recover_import g doc art ev clock d = Ok (t, d') -> stmts d d'.
Proof.
  intros Hev E. unfold recover_import in E.
  apply bind_Ok in E as (checked & _ & E). apply bind_Ok in E as ([] & _ & E).
  apply bind_Ok in E as (ev' & Hval & E). apply bind_Ok in E as ([t1 d1] & Hct & E).
  apply bind_Ok in E as (d2 & [-> _]%commit_Ok & [= _ <-]).
  eapply commit_terminal_in_stmts; [|done]. intros Hacc.
  assert (orphan_outcome doc = Ok Outcome.Accepted) as Hout.
  { unfold validate_orphan in Hev. repeat (apply bind_Ok in Hev as (? & ? & Hev)).
    injection Hev as <-. simpl in Hacc. by subst. }
  unfold validate_orphan in Hval. rewrite Hout in Hval. simpl in Hval.
  repeat (apply bind_Ok in Hval as (? & ? & Hval)).
  match goal with G : context [claim_covers] |- _ => rename G into Hc end.
  apply bind_Ok in Hc as (? & _ & Hc). apply bind_Ok in Hc as ([] & Hcov%ensure_Ok & Hc).
  split; [right|by eapply validate_acceptance_own].
  unfold claim_covers in Hcov. apply exists_row_spec in Hcov as (slot & c & Hk & Hp).
  apply andb_true_iff in Hp as [Hp _]. apply andb_true_iff in Hp as [Hid Hs].
  apply String.eqb_eq in Hid. apply String.eqb_eq in Hs as <-. by exists c.
Qed.
Lemma interrupted_Failed o : interrupted = Ok o -> exists code details, o = Outcome.Failed code details.
Proof. unfold interrupted. intros E. apply bind_Ok in E as (details & _ & [= <-]). eauto. Qed.
Lemma fail_interrupted_stmts g o refs doc finished art clock d0 clock0 earliest d t d' :
  interrupted_document d0 g clock0 earliest = Ok (finished, o, refs, doc) ->
  fail_interrupted g o refs doc finished art clock d = Ok (t, d') -> stmts d d'.
Proof.
  intros Hdoc E. unfold interrupted_document in Hdoc.
  apply bind_Ok in Hdoc as (? & _ & Hdoc). apply bind_Ok in Hdoc as (? & _ & Hdoc).
  apply bind_Ok in Hdoc as (o' & (code & details & ->)%interrupted_Failed & Hdoc).
  apply bind_Ok in Hdoc as (? & _ & [= <- <- <- <-]).
  unfold fail_interrupted in E. apply bind_Ok in E as (checked & _ & E).
  apply bind_Ok in E as ([] & _ & E). apply bind_Ok in E as (r & _ & E).
  apply bind_Ok in E as ([] & _ & E). apply bind_Ok in E as ([t1 d1] & Hct & E).
  apply bind_Ok in E as (d2 & [-> _]%commit_Ok & [= _ <-]).
  by eapply commit_terminal_in_stmts; [|done].
Qed.
Lemma import_artifact_stmts art k d d' : import_artifact art k d = Ok d' -> stmts d d'.
Proof. unfold import_artifact. intros E. op_inv. chain. Qed.
Lemma release_recovered_stmts key t d d' : release_recovered key t d = Ok d' -> stmts d d'.
Proof. unfold release_recovered. intros E. op_inv; chain. Qed.
Hint Resolve release_recovered_stmts : stmts.
Lemma recover_stage_stmts l clock now d d' : recover_stage l clock now d = Ok d' -> stmts d d'.
Proof. unfold recover_stage. intros E. op_inv; chain. Qed.

Lemma store_step_stmts d d' : store_step d d' -> stmts d d'.
Proof.
  destruct 1; eauto using reserve_stmts, advance_stmts, renew_stmts, begin_finalization_stmts,
    commit_finalization_stmts, reserve_fresh_time_stmts, record_fresh_time_stmts,
    register_applicability_stmts, register_execution_stmts, register_fresh_stmts,
    register_observation_stmts, stage_stmts, publish_artifact_stmts,
    publish_finalization_stmts, recover_finalizing_stmts, recover_import_stmts,
    fail_interrupted_stmts, import_artifact_stmts, recover_stage_stmts.
Qed.

Lemma steps_stmts d d' : rtc store_step d d' -> stmts d d'.
Proof.
  induction 1 as [d|d d1 d2 H1 _ IH]; [apply rtc_refl|].
  eapply stmts_trans; [by apply store_step_stmts|done].
Qed.
End Steps.
Abbreviation steps := (rtc store_step).
