(* ===== verification/History.v ===== *)
(** * Attempt histories

    The invariant that ties the projection row of an attempt to its
    append-only transition history, and how every statement changes the two. *)
From S2P Require Import Prelude Json Canonical Identity Profile Records RunDocuments Store.
From S2P Require Import Attempts Fresh RunStore Publisher Recovery Coordination Statements.
From Stdlib Require Import Ascii.

(** ** What the two composite steps do *)

Definition moved (a : attempt_row) (to : attempt_state) (revision updated : Z)
    (failure artifact : option string) : attempt_row :=
  {| att_slot := att_slot a; att_retry_index := att_retry_index a; att_state := to;
     att_revision := revision; att_started := att_started a; att_updated := updated;
     att_finished := (fun _ => updated) <$> artifact; att_failure_code := failure;
     att_final_artifact := artifact |}.

Lemma find_transition_Some id r d t :
  find_transition id r d = Some t ->
  t ∈ attempt_transitions d /\ tr_attempt t = id /\ tr_revision t = r.
Proof.
  unfold find_transition. intros [Hin Hp]%find_some.
  apply andb_true_iff in Hp as [Ha Hr]. apply String.eqb_eq in Ha. apply Z.eqb_eq in Hr.
  split; [by apply list_elem_of_In|done].
Qed.
Lemma find_transition_None id r d t :
  find_transition id r d = None -> t ∈ attempt_transitions d ->
  tr_attempt t = id -> tr_revision t = r -> False.
Proof.
  unfold find_transition. intros Hn Hin <- <-.
  apply list_elem_of_In in Hin. apply (find_none _ _ Hn) in Hin.
  by rewrite String.eqb_refl, Z.eqb_refl in Hin.
Qed.

Lemma timestamp_Ok v n : timestamp v = Ok n -> n = v /\ (v <= i64_max)%Z.
Proof.
  unfold timestamp. destruct (v <=? i64_max)%Z eqn:E; [|done]. intros [= <-]. bools. done.
Qed.

Lemma next_revision_Ok r n :
  next_revision r = Ok n -> n = (r + 1)%Z /\ (r + 1 <= MAX_SAFE_INTEGER)%Z.
Proof.
  unfold next_revision, checked_add_u64. intros E.
  destruct (r + 1 <=? u64_max)%Z; simpl in E; [|done].
  destruct (r + 1 <=? MAX_SAFE_INTEGER)%Z eqn:Hs; simpl in E; [|done].
  injection E as <-. bools. done.
Qed.

(** The facts a transition row was checked against. *)
Record inserted (t : transition_row) (d : db) : Prop := {
  ins_new : find_transition (tr_attempt t) (tr_revision t) d = None;
  ins_at : (0 <= tr_at t)%Z;
  ins_edge :
    (tr_previous t = None /\ tr_from t = None /\ tr_revision t = 0%Z /\ tr_to t = Reserved) \/
    (exists f q, tr_previous t = Some (tr_revision t - 1)%Z /\ tr_from t = Some f /\
       (0 < tr_revision t)%Z /\ allowed_edge f (tr_to t) = true /\
       find_transition (tr_attempt t) (tr_revision t - 1) d = Some q /\ tr_to q = f);
  ins_event : exists e, events d !! Z.to_nat (tr_event t - 1) = Some e /\
    ev_attempt e = Some (tr_attempt t) /\ ev_at e = tr_at t;
}.

Lemma insert_transition_Ok t d d' :
  insert_transition t d = Ok d' ->
  d' = set_attempt_transitions (attempt_transitions d ++ [t]) d /\
  is_Some (attempts d !! tr_attempt t) /\ inserted t d.
Proof.
  unfold insert_transition, constraint. intros E.
  apply bind_Ok in E as ([] & E1 & E). apply bind_Ok in E as ([] & E2 & E).
  apply bind_Ok in E as ([] & E3 & E). apply bind_Ok in E as ([] & E4 & E).
  apply bind_Ok in E as ([] & E5 & E). apply bind_Ok in E as ([] & E6 & [= <-]).
  apply ensure_Ok in E1, E2, E3, E4, E5, E6.
  split; [done|]. split; [by apply has_key_spec|]. apply andb_true_iff in E3 as [Hat E3].
  constructor.
  - by destruct (find_transition (tr_attempt t) (tr_revision t) d).
  - by apply Z.leb_le.
  - destruct (tr_previous t) as [p|], (tr_from t) as [f|]; bools; try done; [right|by left].
    subst p.
    destruct (find_transition (tr_attempt t) (tr_revision t - 1) d) as [q|] eqn:Hq; [|done].
    bools. simplify_eq. eauto 10.
  - destruct (events d !! Z.to_nat (tr_event t - 1)) as [e|] eqn:He; [|done].
    bools. eauto.
Qed.

Section Effects.
Context `{ThirdParty}.

Lemma append_transition_Ok id from to revision now details d d' :
  append_transition id from to revision now details d = Ok d' ->
  exists e t,
    d' = set_attempt_transitions (attempt_transitions d ++ [t])
           (set_events (events d ++ [e]) d) /\
    ev_attempt e = Some id /\ ev_at e = now /\ ev_kind e = event_kind revision to /\
    tr_attempt t = id /\ tr_revision t = revision /\ tr_to t = to /\ tr_from t = from /\
    tr_at t = now /\ tr_event t = Z.of_nat (S (length (events d))) /\
    (0 <= now)%Z /\
    inserted t (set_events (events d ++ [e]) d).
Proof.
  unfold append_transition, insert_event, constraint. intros E.
  apply bind_Ok in E as (fields & _ & E). apply bind_Ok in E as (payload & _ & E).
  apply bind_Ok in E as ([d1 n] & Hevent & E).
  apply bind_Ok in Hevent as ([] & _ & Hevent). apply bind_Ok in Hevent as ([] & _ & [= <- <-]).
  apply bind_Ok in E as (stored & Hst & E). apply bind_Ok in E as (previous & _ & E).
  apply timestamp_Ok in Hst as [-> _].
  apply insert_transition_Ok in E as (-> & _ & Hins).
  eexists _, _. split; [reflexivity|]. split_and!; try done.
  apply (ins_at _ _ Hins).
Qed.

Record transition_effect (g : OwnedAttempt) (from to : attempt_state) (at_ns : Z)
    (failure artifact : option string) (old : attempt_row) (e : event_row)
    (t : transition_row) (d d' : db) : Prop := {
  te_row : attempts d !! id_text g = Some old;
  te_revision : att_revision old = oa_revision g;
  te_live : is_terminal (att_state old) = false;
  te_clock : (att_updated old <= at_ns)%Z;
  te_db : d' = set_attempts (<[id_text g := moved old to (oa_revision g + 1) at_ns failure artifact]>
                              (attempts d))
                (set_attempt_transitions (attempt_transitions d ++ [t])
                  (set_events (events d ++ [e]) d));
  te_event : ev_attempt e = Some (id_text g) /\ ev_at e = at_ns /\
             ev_kind e = event_kind (oa_revision g + 1) to;
  te_transition : tr_attempt t = id_text g /\ tr_revision t = (oa_revision g + 1)%Z /\
                  tr_to t = to /\ tr_from t = Some from /\ tr_at t = at_ns /\
                  tr_event t = Z.of_nat (S (length (events d)));
  te_inserted : inserted t (set_events (events d ++ [e]) d);
  te_terminal : is_terminal to = bool_decide (is_Some artifact);
  te_failure : bool_decide (to = Failed) = bool_decide (is_Some failure);
  te_claim : to = Accepted ->
    exists c, finalization_claims d !! att_slot old = Some c /\ cl_attempt c = id_text g;
  te_accepted : to = Accepted -> forall k b, attempts d !! k = Some b -> k <> id_text g ->
    att_slot b = att_slot old -> att_state b <> Accepted;
}.

Lemma update_attempt_Ok id expected to revision updated finished failure artifact d d' :
  update_attempt id expected to revision updated finished failure artifact d = Ok (d', 1%nat) ->
  exists old, attempts d !! id = Some old /\ att_revision old = expected /\
    is_terminal (att_state old) = false /\ revision = (att_revision old + 1)%Z /\
    (att_updated old <= updated)%Z /\
    is_terminal to = bool_decide (is_Some artifact) /\
    bool_decide (to = Failed) = bool_decide (is_Some failure) /\
    (to = Accepted -> exists c, finalization_claims d !! att_slot old = Some c /\
                                cl_attempt c = id) /\
    (to = Accepted -> forall k b, attempts d !! k = Some b -> k <> id ->
       att_slot b = att_slot old -> att_state b <> Accepted) /\
    d' = set_attempts (<[id := {| att_slot := att_slot old;
            att_retry_index := att_retry_index old; att_state := to;
            att_revision := revision; att_started := att_started old;
            att_updated := updated; att_finished := finished;
            att_failure_code := failure; att_final_artifact := artifact |}]> (attempts d)) d.
Proof.
  unfold update_attempt, constraint. intros E.
  destruct (attempts d !! id) as [old|] eqn:Hrow; [|discriminate].
  destruct (negb (att_revision old =? expected)%Z) eqn:Hexp; [discriminate|].
  op_inv. bools. exists old.
  assert (to = Accepted -> exists c, finalization_claims d !! att_slot old = Some c /\
                                     cl_attempt c = id) as Hc.
  { intros ->. match goal with E : negb (bool_decide (Accepted = Accepted)) || match _ with _ => _ end = true |- _ =>
      rewrite (bool_decide_eq_true_2 (Accepted = Accepted)) in E by done; simpl in E;
      destruct (finalization_claims d !! att_slot old) as [c|]; [|discriminate];
      apply String.eqb_eq in E end. eauto. }
  split; [done|]. repeat (split; [first [done|lia]|]). split; [|done].
  intros -> k b Hk Hne Hslot Hacc.
  match goal with E : negb (bool_decide (Accepted = Accepted)) || negb _ = true |- _ =>
    rewrite (bool_decide_eq_true_2 (Accepted = Accepted)) in E by done; simpl in E;
    apply negb_true_iff in E; rewrite exists_row_false in E; specialize (E k b Hk) end.
  rewrite Hslot, Hacc, String.eqb_refl, bool_decide_eq_true_2 in * by done.
  rewrite andb_true_r, andb_true_r in *. destruct (String.eqb_spec k id); done.
Qed.

Lemma transition_Ok g from to now details terminal d g' d' :
  transition g from to now details terminal d = Ok (g', d') ->
  exists old e t,
    transition_effect g from to (Z.max now (oa_updated_at_ns g)) (x ← terminal; tp_failure_code x)
      (tp_artifact_id <$> terminal) old e t d d' /\
    (oa_revision g + 1 <= MAX_SAFE_INTEGER)%Z /\
    g' = {| oa_id := oa_id g; oa_slot := oa_slot g; oa_retry_index := oa_retry_index g;
            oa_revision := oa_revision g + 1;
            oa_updated_at_ns := Z.max now (oa_updated_at_ns g);
            oa_lease_id := oa_lease_id g; oa_owner_token := oa_owner_token g |}.
Proof.
  unfold transition. intros E.
  apply bind_Ok in E as (revision & Hrev & E). apply bind_Ok in E as (updated & Hupd & E).
  apply bind_Ok in E as (d1 & Happ & E). apply bind_Ok in E as (stored & Hst & E).
  apply bind_Ok in E as (expected & Hexp & E). apply bind_Ok in E as ([d2 n] & Hupdate & E).
  destruct (negb (n =? 1)%nat) eqn:Hn; [discriminate|]. injection E as <- <-.
  apply negb_false_iff, Nat.eqb_eq in Hn as ->.
  apply next_revision_Ok in Hrev as [-> Hsafe].
  apply timestamp_Ok in Hupd as [-> _].
  apply timestamp_Ok in Hst as [-> _].
  apply timestamp_Ok in Hexp as [-> _].
  apply append_transition_Ok in Happ as (e & t & -> & ? & ? & ? & ? & ? & ? & ? & ? & ? & ? & Hins).
  apply update_attempt_Ok in Hupdate
    as (old & Hold & Hr & Hlive & _ & Hclock & Hterm & Hfail & Hclaim & Hacc & ->).
  exists old, e, t. split; [|done]. constructor; try done.
Qed.

Lemma reserved_Ok id a purpose lease now details d d1 d2 d' :
  insert_attempt id a d = Ok d1 -> insert_lease id purpose lease now d1 = Ok d2 ->
  append_transition id None Reserved 0 (att_started a) details d2 = Ok d' ->
  exists l e t,
    attempts d !! id = None /\ has_key (att_slot a) (attempt_slots d) = true /\
    (0 <= att_retry_index a)%Z /\ att_revision a = 0%Z /\ att_updated a = att_started a /\
    (forall k b, attempts d !! k = Some b -> att_slot b = att_slot a ->
       att_retry_index b <> att_retry_index a) /\
    leases d !! lr_id lease = None /\
    le_attempt l = Some id /\ le_purpose l = purpose /\ le_released l = None /\
    le_owner l = lr_owner_token lease /\ le_acquired l = now /\
    le_expires l = lr_expires_at_ns lease /\ le_staging l = None /\
    (now < lr_expires_at_ns lease)%Z /\
    d' = set_attempt_transitions (attempt_transitions d ++ [t])
           (set_events (events d ++ [e])
             (set_leases (<[lr_id lease := l]> (leases d))
               (set_attempts (<[id := a]> (attempts d)) d))) /\
    ev_attempt e = Some id /\ ev_kind e = "attempt_reserved" /\ ev_at e = att_started a /\
    tr_attempt t = id /\ tr_revision t = 0%Z /\ tr_to t = Reserved /\ tr_from t = None /\
    tr_at t = att_started a /\ tr_event t = Z.of_nat (S (length (events d))) /\
    (forall u, u ∈ attempt_transitions d -> tr_attempt u = id -> tr_revision u = 0%Z -> False).
Proof.
  intros E1 E2 E3.
  unfold insert_attempt, constraint in E1. op_inv. bools.
  unfold insert_lease, insert_lease_row, timestamp, constraint in E2. op_inv. bools.
  apply append_transition_Ok in E3 as (e & t & -> & ? & ? & ? & ? & ? & ? & ? & ? & ? & ? & Hins).
  eexists _, e, t. simpl in *.
  rewrite exists_row_false in *.
  repeat match goal with E : has_key _ _ = false |- _ =>
    apply not_true_iff_false in E; rewrite has_key_spec, <-eq_None_not_Some in E end.
  repeat split; try done.
  - intros k b Hk Hslot Hretry.
    match goal with E : forall k x, attempts d !! k = Some x -> _ |- _ => specialize (E k b Hk) end.
    rewrite Hslot, Hretry, String.eqb_refl, Z.eqb_refl in *. done.
  - intros u Hu Ha Hr. destruct Hins as [Hnew _ _ _].
    eapply (find_transition_None _ _ _ u Hnew); [done|congruence|congruence].
Qed.
End Effects.

(** ** The history invariant *)

(** Statements other than the two composite ones leave attempts and their
    transitions alone; events only grow. *)
Record same_history (d d' : db) : Prop := {
  sh_attempts : attempts d' = attempts d;
  sh_transitions : attempt_transitions d' = attempt_transitions d;
  sh_events : events d `prefix_of` events d';
}.

Lemma same_history_refl d : same_history d d.
Proof. by constructor. Qed.

Section Invariant.
Context `{ThirdParty}.

Lemma stmt_history d d' :
  stmt d d' ->
  (exists id a purpose lease now details d1 d2,
     att_state a = Reserved /\ att_finished a = None /\ att_failure_code a = None /\
     att_final_artifact a = None /\ purpose = Reservation /\
     next_retry (max_retry d (att_slot a)) = Ok (att_retry_index a) /\
     is_ok (check_reservation d (att_slot a)) = true /\
     insert_attempt id a d = Ok d1 /\ insert_lease id purpose lease now d1 = Ok d2 /\
     append_transition id None Reserved 0 (att_started a) details d2 = Ok d') \/
  (exists g from to now details terminal g' d1,
     transition g from to now details terminal d = Ok (g', d1) /\ same_history d1 d') \/
  same_history d d'.
Proof.
  destruct 1; [left; match goal with E : check_reservation _ _ = Ok _ |- _ =>
      apply (f_equal is_ok) in E end; eauto 20|right; left; eauto 20 using same_history_refl| |..].
  { right; left. do 8 eexists. split; [eassumption|].
    unfold delete_claims, release_leases in *. op_inv. by constructor. }
  all: right; right;
    match goal with E : _ = Ok _ |- _ =>
      unfold insert_event, insert_lease_row, update_lease, insert_claim, release_one, insert_artifact, insert_attempt_artifact,
        insert_leased_artifact, insert_observation, select_observation, insert_decision,
        insert_run, insert_attempt_slot, insert_observation_slot, insert_membership,
        insert_sequence, insert_member, insert_budget, charge_budget, insert_dispositions in E
    end; op_inv; (constructor; [reflexivity|reflexivity|simpl;
      first [reflexivity|apply prefix_app_r; reflexivity]]).
Qed.

Definition row_ok (a : attempt_row) : Prop :=
  (0 <= att_revision a)%Z /\ (0 <= att_retry_index a)%Z /\ (att_started a <= att_updated a)%Z /\
  (if is_terminal (att_state a)
   then att_finished a = Some (att_updated a) /\ is_Some (att_final_artifact a)
   else att_finished a = None /\ att_final_artifact a = None) /\
  (att_state a = Failed <-> is_Some (att_failure_code a)).

(** The transition before [t] in its attempt's history. *)
Definition edge_ok (d : db) (t : transition_row) : Prop :=
  (tr_revision t = 0%Z /\ tr_from t = None /\ tr_to t = Reserved) \/
  (exists q, (0 < tr_revision t)%Z /\ q ∈ attempt_transitions d /\
     tr_attempt q = tr_attempt t /\ tr_revision q = (tr_revision t - 1)%Z /\
     tr_from t = Some (tr_to q) /\ allowed_edge (tr_to q) (tr_to t) = true /\
     (tr_at q <= tr_at t)%Z).

Record history (d : db) : Prop := {
  hi_row id a : attempts d !! id = Some a -> row_ok a;
  hi_projection id a : attempts d !! id = Some a ->
    exists t, t ∈ attempt_transitions d /\ tr_attempt t = id /\
      tr_revision t = att_revision a /\ tr_to t = att_state a /\ tr_at t = att_updated a;
  hi_bound t : t ∈ attempt_transitions d ->
    exists a, attempts d !! tr_attempt t = Some a /\ (0 <= tr_revision t <= att_revision a)%Z;
  hi_unique t u : t ∈ attempt_transitions d -> u ∈ attempt_transitions d ->
    tr_attempt t = tr_attempt u -> tr_revision t = tr_revision u -> t = u;
  hi_edge t : t ∈ attempt_transitions d -> edge_ok d t;
  hi_event t : t ∈ attempt_transitions d ->
    exists e, events d !! Z.to_nat (tr_event t - 1) = Some e /\
      ev_attempt e = Some (tr_attempt t) /\ ev_at e = tr_at t;
}.

Lemma edge_ok_mono d d' t :
  (forall u, u ∈ attempt_transitions d -> u ∈ attempt_transitions d') ->
  edge_ok d t -> edge_ok d' t.
Proof. intros Hin [?|(q & ? & ? & ?)]; [by left|right]. eauto 10. Qed.

Lemma history_same d d' : same_history d d' -> history d -> history d'.
Proof.
  intros [Ha Ht He] [H1 H2 H3 H4 H5 H6]. constructor; rewrite ?Ha, ?Ht; try assumption.
  - intros t Hin. eapply edge_ok_mono; [|by apply H5]. by rewrite Ht.
  - intros t Hin. destruct (H6 t Hin) as (e & Hl & ?).
    exists e. split; [|done]. by eapply prefix_lookup_Some.
Qed.

Lemma history_event_append d e t :
  (exists x, (events d ++ [e]) !! Z.to_nat (tr_event t - 1) = Some x /\
     ev_attempt x = Some (tr_attempt t) /\ ev_at x = tr_at t) ->
  history d -> forall u, u ∈ attempt_transitions d ++ [t] ->
  exists x, (events d ++ [e]) !! Z.to_nat (tr_event u - 1) = Some x /\
    ev_attempt x = Some (tr_attempt u) /\ ev_at x = tr_at u.
Proof.
  intros Ht Hh u [Hu|Hu%list_elem_of_singleton]%elem_of_app; [|by subst].
  destruct (hi_event _ Hh u Hu) as (x & Hx & ?). exists x. split; [|done].
  by apply lookup_app_l_Some.
Qed.

Lemma history_reserved id a purpose lease now details d d1 d2 d' :
  att_state a = Reserved -> att_finished a = None -> att_failure_code a = None ->
  att_final_artifact a = None ->
  insert_attempt id a d = Ok d1 -> insert_lease id purpose lease now d1 = Ok d2 ->
  append_transition id None Reserved 0 (att_started a) details d2 = Ok d' ->
  history d -> history d'.
Proof.
  intros Hs Hf Hc Ha E1 E2 E3 Hh.
  pose proof (reserved_Ok _ _ _ _ _ _ _ _ _ _ E1 E2 E3)
    as (l & e & t & Hnew & _ & Hretry & Hrev & Hupd & _ & _ & _ & _ & _ & _ & _ & _ & _ & _ &
        -> & He1 & _ & He2 & Hta & Htr & Htt & Htf & Htat & Hte & Hfresh).
  constructor; simpl.
  - intros k b. destruct (decide (k = id)) as [->|Hne].
    + rewrite lookup_insert_eq. intros [= <-]. unfold row_ok. rewrite Hs. simpl.
      rewrite Hf, Hc, Ha. repeat split; try lia; done.
    + rewrite lookup_insert_ne by done. apply (hi_row _ Hh).
  - intros k b. destruct (decide (k = id)) as [->|Hne].
    + rewrite lookup_insert_eq. intros [= <-]. exists t. rewrite Hrev, Hs, Hupd.
      split; [set_solver|done].
    + rewrite lookup_insert_ne by done. intros Hk.
      destruct (hi_projection _ Hh k b Hk) as (q & ? & ?). exists q. split; [set_solver|done].
  - intros u [Hu|Hu%list_elem_of_singleton]%elem_of_app.
    + destruct (hi_bound _ Hh u Hu) as (b & Hb & ?). exists b.
      rewrite lookup_insert_ne; [done|]. intros Heq. by rewrite <-Heq, Hnew in Hb.
    + subst u. exists a. rewrite Hta, lookup_insert_eq, Htr, Hrev. split; [done|lia].
  - assert (forall u, u ∈ attempt_transitions d -> tr_attempt u <> id) as Hno.
    { intros u Hu <-. destruct (hi_bound _ Hh u Hu) as (b & Hb & _). by rewrite Hnew in Hb. }
    intros u v [Hu|Hu%list_elem_of_singleton]%elem_of_app [Hv|Hv%list_elem_of_singleton]%elem_of_app
      Huv Hruv; [by eapply (hi_unique _ Hh)|subst v|subst u|by subst].
    + by destruct (Hno u Hu); rewrite Huv.
    + by destruct (Hno v Hv); rewrite <-Huv.
  - intros u [Hu|Hu%list_elem_of_singleton]%elem_of_app.
    + eapply edge_ok_mono; [|by apply (hi_edge _ Hh)]. simpl. set_solver.
    + subst u. by left.
  - apply history_event_append; [|done]. exists e.
    rewrite Hte. replace (Z.to_nat (Z.of_nat (S (length (events d))) - 1)) with (length (events d)) by lia.
    rewrite lookup_app_r, Nat.sub_diag by lia. rewrite Hta, Htat. done.
Qed.

Lemma transition_effect_edge g from to at_ns failure artifact old e t d d' :
  history d -> transition_effect g from to at_ns failure artifact old e t d d' ->
  from = att_state old /\ allowed_edge from to = true /\
  exists q, q ∈ attempt_transitions d /\ tr_attempt q = id_text g /\
    tr_revision q = oa_revision g /\ tr_to q = from /\ tr_at q = att_updated old.
Proof.
  intros Hh [Hrow Hrev _ _ _ _ Htr [_ _ Hedge _] _ _ _ _].
  destruct Htr as (Hta & Hr & Hto & Hfrom & _).
  destruct (hi_projection _ Hh _ _ Hrow) as (p & Hp & Hpa & Hpr & Hps & Hpt).
  destruct Hedge as [(_ & Hn & _)|(f & q & _ & Hf & Hpos & Hall & Hq & Hqf)]; [congruence|].
  apply find_transition_Some in Hq as (Hqin & Hqa & Hqr). simpl in Hqin.
  assert (p = q) as -> by (eapply (hi_unique _ Hh); try done; [congruence|lia]).
  rewrite Hfrom in Hf. injection Hf as ->. rewrite Hto in Hall.
  split; [congruence|]. split; [done|]. exists q. repeat split; try done; lia.
Qed.

Lemma history_transition g from to now details terminal d g' d' :
  transition g from to now details terminal d = Ok (g', d') -> history d -> history d'.
Proof.
  intros E Hh. apply transition_Ok in E as (old & e & t & Heff & _ & _).
  pose proof (transition_effect_edge _ _ _ _ _ _ _ _ _ _ _ Hh Heff)
    as (Hfrom & Hall & q & Hq & Hqa & Hqr & Hqf & Hqt).
  destruct Heff as [Hrow Hrev Hlive Hclock -> [He1 [He2 _]] Htr Hins Hterm Hfail _ _].
  destruct Htr as (Hta & Htrev & Hto & Htf & Htat & Hte).
  pose proof (hi_row _ Hh _ _ Hrow) as (Hr0 & Hretry & Hstart & _ & _).
  set (at_ns := Z.max now (oa_updated_at_ns g)) in *.
  set (artifact := tp_artifact_id <$> terminal) in *.
  constructor; simpl.
  - intros k b. destruct (decide (k = id_text g)) as [->|Hne];
      [rewrite lookup_insert_eq; intros [= <-]|
       rewrite lookup_insert_ne by done; apply (hi_row _ Hh)].
    unfold row_ok, moved. simpl. rewrite Hterm. split_and!; try lia.
    + destruct artifact; simpl; [split; [done|by eexists]|done].
    + exact (bool_decide_iff _ _ Hfail).
  - intros k b. destruct (decide (k = id_text g)) as [->|Hne].
    + rewrite lookup_insert_eq. intros [= <-]. exists t. split; [set_solver|]. simpl. done.
    + rewrite lookup_insert_ne by done. intros Hk.
      destruct (hi_projection _ Hh k b Hk) as (p & ? & ?). exists p. split; [set_solver|done].
  - intros u [Hu|Hu%list_elem_of_singleton]%elem_of_app.
    + destruct (hi_bound _ Hh u Hu) as (b & Hb & ?).
      destruct (decide (tr_attempt u = id_text g)) as [Heq|Hne].
      * rewrite Heq, lookup_insert_eq. eexists; split; [done|]. simpl.
        rewrite Heq in Hb. simplify_eq. lia.
      * rewrite lookup_insert_ne by done. eauto.
    + subst u. rewrite Hta, lookup_insert_eq. eexists; split; [done|]. simpl. lia.
  - assert (forall u, u ∈ attempt_transitions d -> tr_attempt u = id_text g ->
              tr_revision u <> tr_revision t) as Hno.
    { intros u Hu Hua Hur. destruct (hi_bound _ Hh u Hu) as (b & Hb & ?).
      rewrite Hua in Hb. simplify_eq. lia. }
    intros u v [Hu|Hu%list_elem_of_singleton]%elem_of_app [Hv|Hv%list_elem_of_singleton]%elem_of_app
      Huv Hruv; [by eapply (hi_unique _ Hh)|subst v|subst u|by subst].
    + by destruct (Hno u Hu); [congruence|].
    + by destruct (Hno v Hv); [congruence|].
  - intros u [Hu|Hu%list_elem_of_singleton]%elem_of_app.
    + eapply edge_ok_mono; [|by apply (hi_edge _ Hh)]. simpl. set_solver.
    + subst u. right. exists q. simpl. rewrite Hta, Htrev, Hto, Htf, Hqf, Htat.
      repeat split; try done; try lia; set_solver.
  - apply history_event_append; [|done]. exists e.
    rewrite Hte. replace (Z.to_nat (Z.of_nat (S (length (events d))) - 1)) with (length (events d)) by lia.
    rewrite lookup_app_r, Nat.sub_diag by lia. rewrite Hta, Htat. done.
Qed.

Lemma history_stmt d d' : stmt d d' -> history d -> history d'.
Proof.
  intros [(id & a & purpose & lease & now & details & d1 & d2 & ? & ? & ? & ? & _ & _ & _ & ? & ? & ?)
         |[(g & from & to & now & details & terminal & g' & d1 & E & Hs)|Hs]]%stmt_history.
  - by eapply history_reserved.
  - intros Hh. eapply history_same; [done|]. by eapply history_transition.
  - by apply history_same.
Qed.

Lemma history_stmts d d' : stmts d d' -> history d -> history d'.
Proof. induction 1; eauto using history_stmt. Qed.

Lemma history_empty version : history (empty_store version).
Proof. constructor; simpl; try set_solver; done. Qed.

Lemma reachable_history d : reachable d -> history d.
Proof.
  intros [v Hd]. eapply history_stmts; [by apply steps_stmts|]. apply history_empty.
Qed.
End Invariant.
#[export] Hint Resolve reachable_history history_stmts : stmts.
