(* ===== verification/Claims.v ===== *)
(** * Finalization claims and acceptance

    The invariant behind exclusive acceptance: a claim belongs to an attempt
    that is still finalizing, and a slot with a claim has no accepted attempt. *)
From S2P Require Import Prelude Json Canonical Identity Profile Records RunDocuments Store.
From S2P Require Import Attempts Fresh RunStore Publisher Recovery Coordination Statements.
From S2P Require Import History.
From Stdlib Require Import Ascii.

Record claims_ok (d : db) : Prop := {
  co_claim slot c : finalization_claims d !! slot = Some c ->
    exists a, attempts d !! cl_attempt c = Some a /\ att_slot a = slot /\
      att_state a = InPhase Finalizing;
  co_open slot c k b : finalization_claims d !! slot = Some c ->
    attempts d !! k = Some b -> att_slot b = slot -> att_state b <> Accepted;
  co_unique k j a b : attempts d !! k = Some a -> attempts d !! j = Some b ->
    att_state a = Accepted -> att_state b = Accepted -> att_slot a = att_slot b -> k = j;
  co_lease slot c : finalization_claims d !! slot = Some c ->
    exists l, leases d !! cl_lease c = Some l /\ le_attempt l = Some (cl_attempt c) /\
      le_purpose l = Store.Finalization;
}.

(** What a statement does to a lease that exists: its identity stays, its
    expiry only grows, and a release is final. *)
Definition lease_evolves (l l' : lease_row) : Prop :=
  le_owner l' = le_owner l /\ le_attempt l' = le_attempt l /\ le_purpose l' = le_purpose l /\
  le_staging l' = le_staging l /\ le_acquired l' = le_acquired l /\
  (le_expires l <= le_expires l')%Z /\
  (is_Some (le_released l) -> l' = l).

Lemma lease_evolves_refl l : lease_evolves l l.
Proof. repeat split; auto; lia. Qed.
Lemma lease_evolves_trans a b c : lease_evolves a b -> lease_evolves b c -> lease_evolves a c.
Proof.
  intros (?&?&?&?&?&?&Hab) (?&?&?&?&?&?&Hbc). repeat split; try congruence; try lia.
  intros Ha. specialize (Hab Ha). subst b. auto.
Qed.
Definition leases_evolve (d d' : db) : Prop :=
  forall key l, leases d !! key = Some l -> exists l', leases d' !! key = Some l' /\ lease_evolves l l'.
Lemma leases_evolve_same d d' : leases d' = leases d -> leases_evolve d d'.
Proof. intros E key l Hl. rewrite E. eauto using lease_evolves_refl. Qed.
Lemma leases_evolve_insert d d' key l :
  leases d !! key = None -> leases d' = <[key := l]> (leases d) -> leases_evolve d d'.
Proof.
  intros Hn E k m Hm. rewrite E, lookup_insert_ne; [eauto using lease_evolves_refl|congruence].
Qed.
Lemma leases_evolve_trans d d1 d2 :
  leases_evolve d d1 -> leases_evolve d1 d2 -> leases_evolve d d2.
Proof.
  intros H1 H2 key l Hl. destruct (H1 key l Hl) as (m & Hm & ?).
  destruct (H2 key m Hm) as (n & Hn & ?). eauto using lease_evolves_trans.
Qed.
Lemma release_lease_evolves t l : le_released l = None -> lease_evolves l (release_lease t l).
Proof. intros E. repeat split; simpl; try lia. rewrite E. by intros [? ?]. Qed.

Lemma has_key_false {A} k (m : gmap string A) : has_key k m = false <-> m !! k = None.
Proof. unfold has_key. by destruct (m !! k). Qed.

Lemma insert_lease_row_Ok id l d d' :
  insert_lease_row id l d = Ok d' ->
  leases d !! id = None /\ d' = set_leases (<[id := l]> (leases d)) d /\
  le_owner l <> "" /\ (le_acquired l < le_expires l)%Z.
Proof.
  unfold insert_lease_row, constraint. intros E. op_inv; bools;
    rewrite has_key_false in *; (split; [done|split; [done|split; [|done]]]);
    intros Heq; match goal with F : String.eqb _ _ = false |- _ => rewrite Heq in F; discriminate end.
Qed.
Lemma insert_lease_Ok a p lease now d d' :
  insert_lease a p lease now d = Ok d' ->
  leases d !! lr_id lease = None /\
  d' = set_leases (<[lr_id lease := {| le_owner := lr_owner_token lease; le_attempt := Some a;
         le_purpose := p; le_staging := None; le_acquired := now;
         le_expires := lr_expires_at_ns lease; le_released := None |}]> (leases d)) d /\
  (now < lr_expires_at_ns lease)%Z.
Proof.
  unfold insert_lease. intros E. apply bind_Ok in E as (e & [-> _]%timestamp_Ok & E).
  apply insert_lease_row_Ok in E as (? & -> & _ & ?). done.
Qed.
Lemma update_lease_Ok id e o t d d' n :
  update_lease id e o t d = Ok (d', n) ->
  (n = 0%nat /\ d' = d) \/
  (exists l, n = 1%nat /\ leases d !! id = Some l /\ le_owner l = o /\ le_released l = None /\
     (t < le_expires l)%Z /\ (le_expires l <= e)%Z /\
     d' = set_leases (<[id := extend_lease e l]> (leases d)) d).
Proof.
  unfold update_lease, constraint. intros E.
  destruct (leases d !! id) as [l|] eqn:Hl; [|injection E as <- <-; by left].
  destruct (String.eqb (le_owner l) o && _ && _) eqn:Hc; [|injection E as <- <-; by left].
  apply andb_true_iff in Hc as [Hc Ht]. apply andb_true_iff in Hc as [Ho Hr].
  apply String.eqb_eq in Ho. apply bind_Ok in E as ([] & E1%ensure_Ok & E).
  apply bind_Ok in E as ([] & _ & [= <- <-]). bools. right. exists l. auto 10.
Qed.
Lemma release_one_Ok id t d d' :
  release_one id t d = Ok d' ->
  d' = d \/ (exists l, leases d !! id = Some l /\ le_released l = None /\
     d' = set_leases (<[id := release_lease t l]> (leases d)) d).
Proof.
  unfold release_one, constraint. intros E.
  destruct (leases d !! id) as [l|] eqn:Hl; [|injection E as <-; by left].
  destruct (bool_decide (le_released l = None)) eqn:Hr; [|injection E as <-; by left].
  apply bind_Ok in E as ([] & _ & [= <-]). bools. right. eauto.
Qed.
Lemma release_leases_Ok id t d d' :
  release_leases id t d = Ok d' ->
  d' = set_leases ((fun l => if held_by id l then release_lease t l else l) <$> leases d) d.
Proof. unfold release_leases, constraint. intros E. by op_inv. Qed.
Lemma delete_claims_Ok id d d' :
  delete_claims id d = Ok d' ->
  d' = set_finalization_claims
         (filter (fun kv => cl_attempt kv.2 <> id) (finalization_claims d)) d.
Proof. unfold delete_claims, constraint. intros E. by op_inv. Qed.

Lemma leases_evolve_set d d' key l m :
  leases d !! key = Some l -> leases d' = <[key := m]> (leases d) -> lease_evolves l m ->
  leases_evolve d d'.
Proof.
  intros Hl E He k x Hx. rewrite E. destruct (decide (k = key)) as [->|Hne].
  - rewrite lookup_insert_eq. simplify_eq. eauto.
  - rewrite lookup_insert_ne by done. eauto using lease_evolves_refl.
Qed.

Section Claims.
Context `{ThirdParty}.

Lemma finish_db g o now details terminal checked d g' d1 d2 d' :
  transition g (InPhase Finalizing) (Outcome.state o) now details (Some terminal) d
    = Ok (g', d1) ->
  delete_claims (id_text g) d1 = Ok d2 -> release_leases (id_text g) checked d2 = Ok d' ->
  exists old e t,
    transition_effect g (InPhase Finalizing) (Outcome.state o) (Z.max now (oa_updated_at_ns g))
      (tp_failure_code terminal) (Some (tp_artifact_id terminal)) old e t d d1 /\
    attempts d' = attempts d1 /\
    finalization_claims d' =
      filter (fun kv => cl_attempt kv.2 <> id_text g) (finalization_claims d) /\
    leases d' = (fun l => if held_by (id_text g) l then release_lease checked l else l)
                  <$> leases d.
Proof.
  intros (old & e & t & Heff & _ & _)%transition_Ok ->%delete_claims_Ok ->%release_leases_Ok.
  exists old, e, t. simpl in Heff. split; [done|].
  by rewrite (te_db _ _ _ _ _ _ _ _ _ _ _ Heff).
Qed.

Lemma stmt_leases d d' : stmt d d' -> leases_evolve d d'.
Proof.
  destruct 1.
  - match goal with E1 : insert_attempt _ _ _ = _, E2 : insert_lease _ _ _ _ _ = _,
      E3 : append_transition _ _ _ _ _ _ _ = _ |- _ =>
      destruct (reserved_Ok _ _ _ _ _ _ _ _ _ _ E1 E2 E3)
        as (l & e & t & _ & _ & _ & _ & _ & _ & Hl & _ & _ & _ & _ & _ & _ & _ & _ & -> & _) end.
    by eapply leases_evolve_insert.
  - match goal with E : transition _ _ _ _ _ _ _ = _ |- _ =>
      apply transition_Ok in E as (old & e & t & Heff & _) end.
    rewrite (te_db _ _ _ _ _ _ _ _ _ _ _ Heff). by apply leases_evolve_same.
  - match goal with E1 : transition _ _ _ _ _ _ _ = _, E2 : delete_claims _ _ = _,
      E3 : release_leases _ _ _ = _ |- _ =>
      destruct (finish_db _ _ _ _ _ _ _ _ _ _ _ E1 E2 E3) as (_ & _ & _ & _ & _ & _ & Hl) end.
    intros key l Hkey. rewrite Hl, lookup_fmap, Hkey. eexists; split; [done|].
    destruct (held_by (id_text g) l) eqn:Hh; [|apply lease_evolves_refl].
    unfold held_by in Hh. bools. by apply release_lease_evolves.
  - unfold insert_event, constraint in *. op_inv. by apply leases_evolve_same.
  - match goal with E : insert_lease_row _ _ _ = _ |- _ =>
      apply insert_lease_row_Ok in E as (Hn & -> & _) end.
    by eapply leases_evolve_insert.
  - match goal with E : update_lease _ _ _ _ _ = _ |- _ =>
      apply update_lease_Ok in E as [[_ ->]|(l & _ & Hl & _ & Hr & _ & He & ->)] end.
    + by apply leases_evolve_same.
    + eapply leases_evolve_set; [done|done|]. repeat split; try done.
      rewrite Hr. by intros [? ?].
  - unfold insert_claim, constraint in *. op_inv. by apply leases_evolve_same.
  - match goal with E : release_one _ _ _ = _ |- _ =>
      apply release_one_Ok in E as [->|(l & Hl & Hr & ->)] end.
    + by apply leases_evolve_same.
    + eapply leases_evolve_set; [done|done|]. by apply release_lease_evolves.
  - unfold insert_artifact, constraint in *. op_inv. by apply leases_evolve_same.
  - unfold insert_attempt_artifact, constraint in *. op_inv. by apply leases_evolve_same.
  - unfold insert_leased_artifact, constraint in *. op_inv; by apply leases_evolve_same.
  - unfold insert_observation, constraint in *. op_inv. by apply leases_evolve_same.
  - unfold select_observation, constraint in *. op_inv; by apply leases_evolve_same.
  - unfold insert_decision, constraint in *. op_inv; by apply leases_evolve_same.
  - unfold insert_run, constraint in *. op_inv; by apply leases_evolve_same.
  - unfold insert_attempt_slot, constraint in *. op_inv; by apply leases_evolve_same.
  - unfold insert_observation_slot, constraint in *. op_inv; by apply leases_evolve_same.
  - unfold insert_membership, constraint in *. op_inv; by apply leases_evolve_same.
  - unfold insert_sequence, constraint in *. op_inv; by apply leases_evolve_same.
  - unfold insert_member, constraint in *. op_inv; by apply leases_evolve_same.
  - unfold insert_budget, constraint in *. op_inv; by apply leases_evolve_same.
  - unfold charge_budget, constraint in *. op_inv; by apply leases_evolve_same.
  - unfold insert_dispositions, constraint in *. op_inv; by apply leases_evolve_same.
Qed.

Lemma insert_claim_Ok slot c d d' :
  insert_claim slot c d = Ok d' ->
  d' = set_finalization_claims (<[slot := c]> (finalization_claims d)) d /\
  finalization_claims d !! slot = None /\
  (forall s x, finalization_claims d !! s = Some x -> cl_attempt x <> cl_attempt c) /\
  (exists a, attempts d !! cl_attempt c = Some a /\ att_slot a = slot /\
     att_state a = InPhase Finalizing) /\
  (forall k b, attempts d !! k = Some b -> att_slot b = slot -> att_state b <> Accepted) /\
  (exists l, leases d !! cl_lease c = Some l /\ le_attempt l = Some (cl_attempt c) /\
     le_purpose l = Store.Finalization /\ le_released l = None).
Proof.
  unfold insert_claim, constraint. intros E.
  apply bind_Ok in E as ([] & E1%ensure_Ok & E). apply bind_Ok in E as ([] & E2%ensure_Ok & E).
  apply bind_Ok in E as ([] & E3%ensure_Ok & E). apply bind_Ok in E as ([] & E4%ensure_Ok & E).
  apply bind_Ok in E as ([] & E5%ensure_Ok & [= <-]).
  apply negb_true_iff in E1, E2, E4. rewrite exists_row_false in E2. rewrite exists_row_false in E4.
  split; [done|]. split; [by apply has_key_false|]. split_and!.
  - intros s x Hx Heq. specialize (E2 s x Hx). by rewrite Heq, String.eqb_refl in E2.
  - destruct (attempts d !! cl_attempt c) as [a|]; [|done]. exists a.
    apply andb_true_iff in E3 as [Hs Hf]. apply String.eqb_eq in Hs. by bools.
  - intros k b Hk Hs Ha. specialize (E4 k b Hk).
    by rewrite Hs, Ha, String.eqb_refl, bool_decide_eq_true_2 in E4 by done.
  - destruct (leases d !! cl_lease c) as [l|]; [|done]. exists l. bools. auto.
Qed.

(** What is known of a new attempt: its slot is open, and its key is the
    identity of the slot and the retry. *)
Definition entitled (d : db) (id : string) (a : attempt_row) : Prop :=
  satisfied d (att_slot a) = false /\
  exists slot i, to_string slot = att_slot a /\ run_attempt_id slot (att_retry_index a) = Ok i /\
    to_string i = id.

(** Every statement but four leaves attempts and claims alone. *)
Lemma stmt_claims d d' :
  stmt d d' ->
  (exists id a purpose lease now details d1 d2,
     att_state a = Reserved /\ att_finished a = None /\ purpose = Reservation /\
     next_retry (max_retry d (att_slot a)) = Ok (att_retry_index a) /\
     is_ok (check_reservation d (att_slot a)) = true /\ entitled d id a /\
     insert_attempt id a d = Ok d1 /\ insert_lease id purpose lease now d1 = Ok d2 /\
     append_transition id None Reserved 0 (att_started a) details d2 = Ok d') \/
  (exists g from phase now details g',
     transition g from (InPhase phase) now details None d = Ok (g', d')) \/
  (exists g o now details terminal checked g' d1 d2,
     transition g (InPhase Finalizing) (Outcome.state o) now details (Some terminal) d
       = Ok (g', d1) /\
     delete_claims (id_text g) d1 = Ok d2 /\ release_leases (id_text g) checked d2 = Ok d') \/
  (exists slot c, insert_claim slot c d = Ok d') \/
  (attempts d' = attempts d /\ finalization_claims d' = finalization_claims d).
Proof.
  destruct 1; [left; match goal with E : check_reservation _ _ = Ok _ |- _ =>
      apply (f_equal is_ok) in E end; unfold entitled; eauto 25
      |right; left; eauto 20|do 2 right; left; eauto 20|..];
    try (do 3 right; left; eauto; fail);
    do 4 right; unfold insert_event, insert_lease_row, update_lease, release_one,
      insert_artifact, insert_attempt_artifact, insert_leased_artifact, insert_observation,
      select_observation, insert_decision, insert_run, insert_attempt_slot,
      insert_observation_slot, insert_membership, insert_sequence, insert_member,
      insert_budget, charge_budget, insert_dispositions in *; op_inv; split; reflexivity.
Qed.

Lemma claims_stmt d d' : stmt d d' -> history d -> claims_ok d -> claims_ok d'.
Proof.
  intros Hst Hh Hc. pose proof (stmt_leases _ _ Hst) as Hl.
  assert (forall slot c, finalization_claims d !! slot = Some c ->
    exists l, leases d' !! cl_lease c = Some l /\ le_attempt l = Some (cl_attempt c) /\
      le_purpose l = Store.Finalization) as Hlease.
  { intros slot c (l & Hkey & Hla & Hlp)%(co_lease _ Hc).
    destruct (Hl _ _ Hkey) as (l' & Hkey' & (_ & E1 & E2 & _)). exists l'. by rewrite E1, E2. }
  apply stmt_claims in Hst as
    [(id & a & purpose & lease & now & details & d1 & d2 & Hs & _ & _ & _ & _ & _ & E1 & E2 & E3)
    |[(g & from & phase & now & details & g' & E)
    |[(g & o & now & details & terminal & checked & g' & d1 & d2 & E1 & E2 & E3)
    |[(slot & c & E)|[Ea Ec]]]]].
  - destruct (reserved_Ok _ _ _ _ _ _ _ _ _ _ E1 E2 E3)
      as (l & e & t & Hnew & _ & _ & _ & _ & _ & _ & _ & _ & _ & _ & _ & _ & _ & _ & -> & _).
    constructor; simpl in *.
    + intros slot c Hcl. destruct (co_claim _ Hc slot c Hcl) as (b & Hb & ?).
      exists b. rewrite lookup_insert_ne; [done|congruence].
    + intros slot c k b Hcl. destruct (decide (k = id)) as [->|Hne];
        [rewrite lookup_insert_eq; intros [= <-] _; by rewrite Hs|].
      rewrite lookup_insert_ne by done. by apply (co_open _ Hc slot c).
    + intros k j x y. destruct (decide (k = id)) as [->|Hk], (decide (j = id)) as [->|Hj];
        rewrite ?lookup_insert_eq, ?lookup_insert_ne by done; try done.
      * intros [= <-] _ Hx. congruence.
      * intros _ [= <-] _ Hy. congruence.
      * apply (co_unique _ Hc).
    + done.
  - apply transition_Ok in E as (old & e & t & Heff & _).
    destruct (transition_effect_edge _ _ _ _ _ _ _ _ _ _ _ Hh Heff) as (Hfrom & Hedge & _).
    pose proof (te_row _ _ _ _ _ _ _ _ _ _ _ Heff) as Hrow.
    rewrite (te_db _ _ _ _ _ _ _ _ _ _ _ Heff) in *. constructor; simpl in *.
    + intros slot c Hcl. destruct (co_claim _ Hc slot c Hcl) as (b & Hb & Hbs & Hbf).
      exists b. rewrite lookup_insert_ne; [done|]. intros Heq. rewrite <-Heq in Hb. simplify_eq.
      rewrite Hbf in Hedge. by destruct phase.
    + intros slot c k b Hcl. destruct (decide (k = id_text g)) as [->|Hne];
        [rewrite lookup_insert_eq; by intros [= <-] _|].
      rewrite lookup_insert_ne by done. by apply (co_open _ Hc slot c).
    + intros k j x y.
      destruct (decide (k = id_text g)) as [->|Hk], (decide (j = id_text g)) as [->|Hj];
        rewrite ?lookup_insert_eq, ?lookup_insert_ne by done; try done.
      * by intros [= <-].
      * by intros _ [= <-].
      * apply (co_unique _ Hc).
    + done.
  - destruct (finish_db _ _ _ _ _ _ _ _ _ _ _ E1 E2 E3)
      as (old & e & t & Heff & Ha & Hcl & _).
    pose proof (te_row _ _ _ _ _ _ _ _ _ _ _ Heff) as Hrow.
    pose proof (te_claim _ _ _ _ _ _ _ _ _ _ _ Heff) as Hown.
    pose proof (te_accepted _ _ _ _ _ _ _ _ _ _ _ Heff) as Hacc.
    rewrite (te_db _ _ _ _ _ _ _ _ _ _ _ Heff) in Ha. simpl in Ha.
    assert (forall slot c, finalization_claims d' !! slot = Some c ->
      finalization_claims d !! slot = Some c /\ cl_attempt c <> id_text g) as Hkeep.
    { intros slot c. rewrite Hcl, map_lookup_filter_Some. done. }
    constructor.
    + intros slot c [Hold Hne]%Hkeep. destruct (co_claim _ Hc slot c Hold) as (b & Hb & ?).
      exists b. by rewrite Ha, lookup_insert_ne.
    + intros slot c k b [Hold Hne]%Hkeep. rewrite Ha.
      destruct (decide (k = id_text g)) as [->|Hk];
        [rewrite lookup_insert_eq; intros [= <-] Hslot Hst|
         rewrite lookup_insert_ne by done; by apply (co_open _ Hc slot c)].
      simpl in *. destruct (Hown Hst) as (c' & Hc' & Hc'g). rewrite Hslot in Hc'. congruence.
    + intros k j x y. rewrite Ha.
      destruct (decide (k = id_text g)) as [->|Hk], (decide (j = id_text g)) as [->|Hj];
        rewrite ?lookup_insert_eq, ?lookup_insert_ne by done; try done.
      * intros [= <-] Hy Hst Hya Hs. simpl in *. by destruct (Hacc Hst j y Hy Hj).
      * intros Hx [= <-] Hxa Hst Hs. simpl in *. by destruct (Hacc Hst k x Hx Hk).
      * apply (co_unique _ Hc).
    + intros slot c [Hold _]%Hkeep. by apply (Hlease slot).
  - destruct (insert_claim_Ok _ _ _ _ E) as (-> & Hnone & Hdiff & (a & Ha & Has & Haf) & Hopen &
      (l & Hkey & ? & ? & _)).
    constructor; simpl in *.
    + intros s x. destruct (decide (s = slot)) as [->|Hne].
      * rewrite lookup_insert_eq. intros [= <-]. eauto.
      * rewrite lookup_insert_ne by done. apply (co_claim _ Hc).
    + intros s x k b. destruct (decide (s = slot)) as [->|Hne].
      * rewrite lookup_insert_eq. intros [= <-]. apply Hopen.
      * rewrite lookup_insert_ne by done. by apply (co_open _ Hc s x).
    + apply (co_unique _ Hc).
    + intros s x. destruct (decide (s = slot)) as [->|Hne].
      * rewrite lookup_insert_eq. intros [= <-]. eauto.
      * rewrite lookup_insert_ne by done. by apply Hlease.
  - constructor.
    + intros slot c. rewrite Ea, Ec. apply (co_claim _ Hc).
    + intros slot c k b. rewrite Ea, Ec. by apply (co_open _ Hc slot c).
    + intros k j x y. rewrite Ea. apply (co_unique _ Hc).
    + intros slot c. rewrite Ec. apply Hlease.
Qed.

Lemma claims_stmts d d' : stmts d d' -> history d -> claims_ok d -> claims_ok d'.
Proof. induction 1; eauto using claims_stmt, history_stmt. Qed.

Lemma reachable_claims d : reachable d -> claims_ok d.
Proof.
  intros [v Hd]. eapply claims_stmts; [by apply steps_stmts|apply history_empty|].
  constructor; simpl; done.
Qed.

Lemma stmts_leases d d' : stmts d d' -> leases_evolve d d'.
Proof.
  induction 1; [by apply leases_evolve_same|].
  eapply leases_evolve_trans; [by apply stmt_leases|done].
Qed.

(** *** What a statement does to an attempt row *)
Definition row_evolves (a a' : attempt_row) : Prop :=
  att_slot a' = att_slot a /\ att_retry_index a' = att_retry_index a /\
  att_started a' = att_started a /\
  (a' = a \/ (is_terminal (att_state a) = false /\ (att_revision a < att_revision a')%Z /\
             (att_updated a <= att_updated a')%Z)).

Lemma row_evolves_refl a : row_evolves a a.
Proof. repeat split; auto. Qed.
Lemma row_evolves_trans a b c : row_evolves a b -> row_evolves b c -> row_evolves a c.
Proof.
  intros (Ha1 & Ha2 & Ha3 & Hab) (Hb1 & Hb2 & Hb3 & Hbc). repeat split; try congruence.
  destruct Hab as [->|(? & ? & ?)]; [done|]. right.
  destruct Hbc as [->|(? & ? & ?)]; [done|]. repeat split; [done|lia|lia].
Qed.

Lemma transition_keeps_row g from to at_ns failure artifact old e t d d' key a :
  transition_effect g from to at_ns failure artifact old e t d d' ->
  attempts d !! key = Some a ->
  exists a', attempts d' !! key = Some a' /\ row_evolves a a'.
Proof.
  intros Heff Hkey. rewrite (te_db _ _ _ _ _ _ _ _ _ _ _ Heff). simpl.
  destruct (decide (key = id_text g)) as [->|Hne].
  - rewrite (te_row _ _ _ _ _ _ _ _ _ _ _ Heff) in Hkey. injection Hkey as <-.
    rewrite lookup_insert_eq. eexists; split; [done|]. repeat split. right. simpl.
    rewrite (te_revision _ _ _ _ _ _ _ _ _ _ _ Heff), (te_live _ _ _ _ _ _ _ _ _ _ _ Heff).
    repeat split; [lia|apply (te_clock _ _ _ _ _ _ _ _ _ _ _ Heff)].
  - rewrite lookup_insert_ne by done. eauto using row_evolves_refl.
Qed.

Lemma stmt_rows d d' key a :
  stmt d d' -> attempts d !! key = Some a ->
  exists a', attempts d' !! key = Some a' /\ row_evolves a a'.
Proof.
  intros [(id & x & purpose & lease & now & details & d1 & d2 & Hs & _ & _ & _ & _ & _ & E1 & E2 & E3)
    |[(g & from & phase & now & details & g' & E)
    |[(g & o & now & details & terminal & checked & g' & d1 & d2 & E1 & E2 & E3)
    |[(slot & c & E)|[Ea Ec]]]]]%stmt_claims Hkey.
  - destruct (reserved_Ok _ _ _ _ _ _ _ _ _ _ E1 E2 E3)
      as (l & e & t & Hnew & _ & _ & _ & _ & _ & _ & _ & _ & _ & _ & _ & _ & _ & _ & -> & _).
    simpl. rewrite lookup_insert_ne by congruence. eauto using row_evolves_refl.
  - apply transition_Ok in E as (old & e & t & Heff & _). by eapply transition_keeps_row.
  - destruct (finish_db _ _ _ _ _ _ _ _ _ _ _ E1 E2 E3)
      as (old & e & t & Heff & -> & _). by eapply transition_keeps_row.
  - apply insert_claim_Ok in E as (-> & _). eauto using row_evolves_refl.
  - rewrite Ea. eauto using row_evolves_refl.
Qed.

Lemma stmts_rows d d' : stmts d d' -> forall key a, attempts d !! key = Some a ->
  exists a', attempts d' !! key = Some a' /\ row_evolves a a'.
Proof.
  induction 1 as [d|d d1 d2 H1 _ IH]; intros key a Hkey; [eauto using row_evolves_refl|].
  destruct (stmt_rows _ _ _ _ H1 Hkey) as (b & Hb & ?).
  destruct (IH key b Hb) as (c & Hc & ?). eauto using row_evolves_trans.
Qed.
End Claims.
