(* ===== verification/Scenario.v ===== *)
(** * Concrete runs of the store

    A one-shot slot taken from registration to acceptance, and the databases on
    the way; the witnesses of the store's theorems run on them. *)
From S2P Require Import Prelude Json Canonical Identity ThirdPartyModel Profile Records.
From S2P Require Import RunDocuments Store Attempts Fresh RunStore Publisher Recovery.
From S2P Require Import Coordination Statements.
From Stdlib Require Import Ascii.

#[local] Existing Instance model.

Definition from_ok {A} (d : A) (m : M A) : A := match m with Ok a => a | Err _ => d end.

Definition some_id (t : IdentityType) : RecordId t := from_digest (repeat "a"%char 32).
Definition identified `{IdentityRecord R} (r : R) : IdentifiedRecord (identity_type R) R :=
  {| id := match record_id r with Ok i => i | Err _ => some_id _ end; record := r |}.

Definition resolved : ResolvedWorkerRecord := {|
  rw_source_bundle := None; rw_environment := some_id _; rw_launch := some_id _ |}.
Definition run := identified {|
  ro_applicability := None; ro_logical_specification := some_id _;
  ro_problem_instance := some_id _; ro_implementation := resolved; ro_evaluator := resolved;
  ro_executor := some_id _; ro_wire_protocol_version := 1; ro_execution_semantics_version := 2 |}.
Definition slot := identified {|
  ra_logical_slot := some_id _; ra_specification := id run |}.
Definition observation_slot := identified {|
  rs_logical_slot := some_id _; rs_specification := id run |}.

Definition store0 : db := empty_store 3.
Definition registered : db :=
  from_ok store0 (register_execution (some_id _) run slot [observation_slot] OneShot store0).

Definition lease_request (key : string) (expires : Z) : LeaseRequest :=
  {| lr_id := key; lr_owner_token := "owner"; lr_expires_at_ns := expires |}.
Definition no_guard : OwnedAttempt := {|
  oa_id := some_id _; oa_slot := some_id _; oa_retry_index := 0; oa_revision := 0;
  oa_updated_at_ns := 0; oa_lease_id := ""; oa_owner_token := "" |}.

(** A reservation, and a second one for the same slot. *)
Definition reserved : OwnedAttempt * db :=
  from_ok (no_guard, registered)
    (reserve (id slot) FirstAttempt (lease_request "first" 100) 10 registered).
Definition competing : OwnedAttempt * db :=
  from_ok (no_guard, registered)
    (reserve (id slot) (Retry 1 1) (lease_request "second" 100) 11 reserved.2).

(** The first attempt runs through its phases. *)
Definition materializing : OwnedAttempt * db :=
  from_ok (no_guard, store0) (advance reserved.1 Materializing 12 competing.2).
Definition starting : OwnedAttempt * db :=
  from_ok (no_guard, store0) (advance materializing.1 Starting 13 materializing.2).
Definition preparing : OwnedAttempt * db :=
  from_ok (no_guard, store0) (advance starting.1 Preparing 14 starting.2).
Definition executing : OwnedAttempt * db :=
  from_ok (no_guard, store0) (advance preparing.1 Executing 15 preparing.2).
Definition validating : OwnedAttempt * db :=
  from_ok (no_guard, store0) (advance executing.1 Validating 16 executing.2).
Definition evaluating : OwnedAttempt * db :=
  from_ok (no_guard, store0) (advance validating.1 Evaluating 17 validating.2).
Definition claimed : Finalization * db :=
  from_ok ({| fin_attempt := no_guard; fin_disposition := SupersededClaim |}, store0)
    (begin_finalization evaluating.1 (lease_request "claim" 100) 18 evaluating.2).

(** It registers and selects its observation and is accepted. *)
Definition tree (key kind : string) : ArtifactRegistration := {|
  ar_id := key; ar_relative_path := "artifacts/" +:+ kind; ar_content_sha256 := repeat "c"%char 32;
  ar_manifest_sha256 := repeat "m"%char 32; ar_verified_at_ns := 18 |}.
Definition published : db :=
  from_ok store0 (import_artifact (tree "observation" "observation") ObservationArtifact claimed.2).
Definition observed := identified {|
  rb_profile := None; rb_slot := id observation_slot; rb_producing_attempt := oa_id reserved.1;
  rb_result := {| af_id := some_id _; af_path := "result"; af_sha256 := repeat "r"%char 32 |};
  rb_metrics := {| af_id := some_id _; af_path := "metrics"; af_sha256 := repeat "m"%char 32 |};
  rb_timing := {| ot_primary_time := TimedWallTime;
    ot_timed_wall_time := {| as_secs := 1; subsec_nanos := 5 |}; ot_implementation_time := None;
    ot_evaluation_time := {| as_secs := 0; subsec_nanos := 7 |}; ot_cpu_time := None;
    ot_peak_rss_bytes := None |};
  rb_completion := NotRequired;
  rb_provenance := {| pr_tool_version := "1"; pr_wire_protocol_version := 1;
    pr_execution_semantics_version := 2; pr_data := Null |} |}.
Definition selected : db :=
  from_ok store0 (register_observation (fin_attempt claimed.1) observed
    (tree "observation" "observation") true 19 published).
Definition accepted : TerminalAttempt * db :=
  from_ok ({| ta_id := some_id _; ta_outcome := Outcome.Superseded; ta_finished_at_ns := 0;
              ta_event_sequence := 0 |}, store0)
    (commit_finalization (fin_attempt claimed.1) Outcome.Accepted (tree "final" "attempt") [] 20
       selected).

(** The owner of the claim renews its leases; the terminal commit alone. *)
Definition renewed : db := from_ok store0 (renew (fin_attempt claimed.1) 200 19 claimed.2).
Definition terminal : TerminalAttempt * db :=
  from_ok (accepted.1, store0)
    (commit_terminal_in (fin_attempt claimed.1) Outcome.Accepted (tree "final" "attempt") [] 20 20
       selected).

Definition status (d : db) : list (Z * attempt_state * Z) :=
  ((fun kv => (att_retry_index kv.2, att_state kv.2, att_revision kv.2)) <$> map_to_list (attempts d)).

(** ** Every database on the way is reachable *)

Lemma from_ok_spec {A} (x : A) (m : M A) : is_ok m = true -> m = Ok (from_ok x m).
Proof. by destruct m. Qed.
Lemma from_ok_pair {A B} (x : A * B) (m : M (A * B)) :
  is_ok m = true -> m = Ok ((from_ok x m).1, (from_ok x m).2).
Proof. by destruct m as [[]|]. Qed.
Ltac runs := apply from_ok_pair; vm_compute; reflexivity.
Ltac runs_one := apply from_ok_spec; vm_compute; reflexivity.


Lemma registered_ok : register_execution (some_id _) run slot [observation_slot] OneShot store0 = Ok registered.
Proof. unfold registered. runs_one. Qed.
Lemma reserved_ok :
  reserve (id slot) FirstAttempt (lease_request "first" 100) 10 registered
  = Ok (reserved.1, reserved.2).
Proof. unfold reserved. runs. Qed.
Lemma competing_ok :
  reserve (id slot) (Retry 1 1) (lease_request "second" 100) 11 reserved.2
  = Ok (competing.1, competing.2).
Proof. unfold competing. runs. Qed.
Lemma materializing_ok :
  advance reserved.1 Materializing 12 competing.2 = Ok (materializing.1, materializing.2).
Proof. unfold materializing. runs. Qed.
Lemma starting_ok :
  advance materializing.1 Starting 13 materializing.2 = Ok (starting.1, starting.2).
Proof. unfold starting. runs. Qed.
Lemma preparing_ok : advance starting.1 Preparing 14 starting.2 = Ok (preparing.1, preparing.2).
Proof. unfold preparing. runs. Qed.
Lemma executing_ok : advance preparing.1 Executing 15 preparing.2 = Ok (executing.1, executing.2).
Proof. unfold executing. runs. Qed.
Lemma validating_ok :
  advance executing.1 Validating 16 executing.2 = Ok (validating.1, validating.2).
Proof. unfold validating. runs. Qed.
Lemma evaluating_ok :
  advance validating.1 Evaluating 17 validating.2 = Ok (evaluating.1, evaluating.2).
Proof. unfold evaluating. runs. Qed.
Lemma claimed_ok :
  begin_finalization evaluating.1 (lease_request "claim" 100) 18 evaluating.2
  = Ok (claimed.1, claimed.2).
Proof. unfold claimed. runs. Qed.
Lemma published_ok :
  import_artifact (tree "observation" "observation") ObservationArtifact claimed.2 = Ok published.
Proof. unfold published. runs_one. Qed.
Lemma selected_ok :
  register_observation (fin_attempt claimed.1) observed (tree "observation" "observation") true 19
    published = Ok selected.
Proof. unfold selected. runs_one. Qed.
Lemma accepted_ok :
  commit_finalization (fin_attempt claimed.1) Outcome.Accepted (tree "final" "attempt") [] 20
    selected = Ok (accepted.1, accepted.2).
Proof. unfold accepted. runs. Qed.

Lemma renewed_ok : renew (fin_attempt claimed.1) 200 19 claimed.2 = Ok renewed.
Proof. unfold renewed. runs_one. Qed.
Lemma terminal_ok :
  commit_terminal_in (fin_attempt claimed.1) Outcome.Accepted (tree "final" "attempt") [] 20 20
    selected = Ok (terminal.1, terminal.2).
Proof. unfold terminal. runs. Qed.

#[global] Opaque renewed terminal registered reserved competing materializing starting preparing executing
  validating evaluating claimed published selected accepted.

Lemma registered_reachable : reachable registered.
Proof.
  eapply reachable_step; [exists 3%Z; apply rtc_refl|].
  exact (do_register_execution _ _ _ _ _ _ _ registered_ok).
Qed.
Lemma competing_reachable : reachable competing.2.
Proof.
  eapply reachable_step; [|by eapply do_reserve, competing_ok].
  eapply reachable_step; [apply registered_reachable|by eapply do_reserve, reserved_ok].
Qed.
Lemma executing_reachable : reachable executing.2.
Proof.
  eapply reachable_step; [|by eapply do_advance, executing_ok].
  eapply reachable_step; [|by eapply do_advance, preparing_ok].
  eapply reachable_step; [|by eapply do_advance, starting_ok].
  eapply reachable_step; [|by eapply do_advance, materializing_ok].
  apply competing_reachable.
Qed.
Lemma evaluating_reachable : reachable evaluating.2.
Proof.
  eapply reachable_step; [|by eapply do_advance, evaluating_ok].
  eapply reachable_step; [|by eapply do_advance, validating_ok].
  apply executing_reachable.
Qed.
Lemma claimed_reachable : reachable claimed.2.
Proof.
  eapply reachable_step; [apply evaluating_reachable|by eapply do_begin_finalization, claimed_ok].
Qed.
Lemma selected_reachable : reachable selected.
Proof.
  eapply reachable_step; [|by eapply do_register_observation, selected_ok].
  eapply reachable_step; [|by eapply do_import_artifact, published_ok].
  apply claimed_reachable.
Qed.
Lemma claimed_accepted : rtc store_step claimed.2 accepted.2.
Proof.
  eapply rtc_r; [|by eapply do_commit_finalization, accepted_ok].
  eapply rtc_r; [|by eapply do_register_observation, selected_ok].
  eapply rtc_r; [|by eapply do_import_artifact, published_ok]. apply rtc_refl.
Qed.
Lemma accepted_reachable : reachable accepted.2.
Proof.
  eapply reachable_step; [|by eapply do_commit_finalization, accepted_ok].
  apply selected_reachable.
Qed.

(** ** Rows on the way *)

Definition first_key : string := to_string (oa_id reserved.1).
Definition slot_key : string := to_string (id slot).

Lemma lookup_shape {A} (m : gmap string A) key (P : A -> bool) :
  match m !! key with Some a => P a | None => false end = true ->
  exists a, m !! key = Some a /\ P a = true.
Proof. destruct (m !! key) as [a|]; [eauto|done]. Qed.

Lemma list_lookup_shape {A} (l : list A) i (P : A -> bool) :
  match l !! i with Some a => P a | None => false end = true ->
  exists a, l !! i = Some a /\ P a = true.
Proof. destruct (l !! i) as [a|]; [eauto|done]. Qed.
Lemma ok_exists {A} (m : M A) : is_ok m = true -> exists a, m = Ok a.
Proof. destruct m as [a|]; [eauto|done]. Qed.

Lemma ok_shape {A} (m : M A) (P : A -> bool) :
  match m with Ok a => P a | Err _ => false end = true -> exists a, m = Ok a /\ P a = true.
Proof. destruct m as [a|]; [eauto|done]. Qed.

Definition row_is (s : attempt_state) (r : Z) (a : attempt_row) : bool :=
  bool_decide (att_state a = s) && (att_revision a =? r)%Z && String.eqb (att_slot a) slot_key.
Lemma row_is_spec s r a :
  row_is s r a = true -> att_state a = s /\ att_revision a = r /\ att_slot a = slot_key.
Proof.
  unfold row_is. intros Hr. apply andb_true_iff in Hr as [Hr Hs]. apply String.eqb_eq in Hs.
  apply andb_true_iff in Hr as [Hst Hr]. bools. done.
Qed.
Lemma accepted_row : exists a, attempts accepted.2 !! first_key = Some a /\ row_is Accepted 8 a = true.
Proof. apply lookup_shape. vm_compute. reflexivity. Qed.
Lemma claimed_row :
  exists a, attempts claimed.2 !! first_key = Some a /\ row_is (InPhase Finalizing) 7 a = true.
Proof. apply lookup_shape. vm_compute. reflexivity. Qed.
Lemma claimed_claim :
  exists c, finalization_claims claimed.2 !! slot_key = Some c /\
    String.eqb (cl_attempt c) first_key = true.
Proof. apply lookup_shape. vm_compute. reflexivity. Qed.
