(* ===== verification/Lifecycle.v ===== *)
(** * The attempt lifecycle

    What the reservation API guarantees in every reachable store: complete
    histories, immutable terminal rows, fencing of stale guards, exclusive
    acceptance and contiguous retries. *)
From S2P Require Import Prelude Json Canonical Identity ThirdPartyModel Profile Records.
From S2P Require Import RunDocuments Store Attempts Fresh RunStore Publisher Recovery.
From S2P Require Import Coordination Statements History Claims Scenario.
From Stdlib Require Import Ascii.

Section Histories.
Context `{ThirdParty}.

(** Walking back from a transition to the reservation. *)
Lemma history_back d id r t :
  history d -> t ∈ attempt_transitions d -> tr_attempt t = id -> tr_revision t = Z.of_nat r ->
  exists ts : list transition_row,
    length ts = S r /\ last ts = Some t /\
    (exists t0, ts !! 0%nat = Some t0 /\ tr_to t0 = Reserved /\ tr_from t0 = None) /\
    (forall i u, ts !! i = Some u ->
       u ∈ attempt_transitions d /\ tr_attempt u = id /\ tr_revision u = Z.of_nat i) /\
    (forall i u v, ts !! i = Some u -> ts !! S i = Some v ->
       tr_from v = Some (tr_to u) /\ allowed_edge (tr_to u) (tr_to v) = true /\
       (tr_at u <= tr_at v)%Z).
Proof.
  intros Hh. revert t. induction r as [|r IH]; intros t Ht Hid Hr.
  - exists [t]. split; [done|]. split; [done|].
    destruct (hi_edge _ Hh t Ht) as [(_ & Hf & Hto)|(q & Hpos & _)]; [|lia].
    split; [by exists t|]. split.
    + intros [|i] u; simpl; [|done]. by intros [= <-].
    + by intros [|i] u v.
  - destruct (hi_edge _ Hh t Ht) as [(H0 & _)|(q & Hpos & Hq & Hqa & Hqr & Hf & Hall & Hat)];
      [lia|].
    destruct (IH q Hq ltac:(congruence) ltac:(lia))
      as (ts & Hlen & Hlast & (t0 & Ht0 & Hres) & Hin & Hstep).
    exists (ts ++ [t]). rewrite length_app, Hlen. split; [simpl; lia|].
    split; [by rewrite last_snoc|].
    split; [exists t0; split; [by apply lookup_app_l_Some|done]|].
    assert (ts !! r = Some q) as Hqlast.
    { rewrite last_lookup, Hlen in Hlast. done. }
    split.
    + intros i u Hu. apply lookup_app_Some in Hu as [Hu|[Hi Hu]]; [by apply Hin|].
      apply list_lookup_singleton_Some in Hu as [Hi0 <-]. repeat split; [done|done|lia].
    + intros i u v Hu Hv. apply lookup_app_Some in Hv as [Hv|[Hi Hv]].
      * rewrite lookup_app_l in Hu by (apply lookup_lt_Some in Hv; lia). by apply (Hstep i).
      * apply list_lookup_singleton_Some in Hv as [Hi0 <-].
        rewrite lookup_app_l in Hu by lia.
        assert (i = r) as -> by lia. rewrite Hqlast in Hu. injection Hu as <-. done.
Qed.

(** The transitions of an attempt, from its reservation to its row. *)
Lemma attempt_trace d id a :
  history d -> attempts d !! id = Some a ->
  exists ts : list transition_row,
    Z.of_nat (length ts) = (att_revision a + 1)%Z /\
    (forall u, u ∈ ts <-> u ∈ attempt_transitions d /\ tr_attempt u = id) /\
    (forall i u, ts !! i = Some u -> tr_revision u = Z.of_nat i /\
       exists e, events d !! Z.to_nat (tr_event u - 1) = Some e /\
         ev_attempt e = Some id /\ ev_at e = tr_at u) /\
    (exists t0, ts !! 0%nat = Some t0 /\ tr_to t0 = Reserved) /\
    (forall i u v, ts !! i = Some u -> ts !! S i = Some v ->
       tr_from v = Some (tr_to u) /\ allowed_edge (tr_to u) (tr_to v) = true /\
       (tr_at u <= tr_at v)%Z) /\
    (exists t, last ts = Some t /\ tr_to t = att_state a /\ tr_at t = att_updated a).
Proof.
  intros Hh Ha.
  destruct (hi_projection _ Hh _ _ Ha) as (t & Ht & Hta & Htr & Hts & Htt).
  destruct (hi_row _ Hh _ _ Ha) as (Hr0 & _).
  destruct (history_back d id (Z.to_nat (att_revision a)) t Hh Ht Hta ltac:(lia))
    as (ts & Hlen & Hlast & (t0 & Ht0 & Hres & _) & Hin & Hstep).
  exists ts. split; [rewrite Hlen; lia|].
  split; [|split; [|split; [by exists t0|split; [done|by exists t]]]].
  - intros u. split.
    + intros (i & Hi)%list_elem_of_lookup. destruct (Hin i u Hi) as (? & ? & _). done.
    + intros [Hu Hua]. destruct (hi_bound _ Hh u Hu) as (b & Hb & Hbr).
      rewrite Hua in Hb. simplify_eq.
      destruct (lookup_lt_is_Some_2 ts (Z.to_nat (tr_revision u)) ltac:(lia)) as [v Hv].
      destruct (Hin _ v Hv) as (Hvin & Hva & Hvr).
      assert (u = v) as -> by (eapply (hi_unique _ Hh); try done; [congruence|lia]).
      by eapply list_elem_of_lookup_2.
  - intros i u Hu. destruct (Hin i u Hu) as (Huin & Hua & Hur). split; [done|].
    destruct (hi_event _ Hh u Huin) as (e & ? & ? & ?). exists e. by rewrite <-Hua.
Qed.

(** C4: the history of an attempt is complete: in every reachable store the
    transitions recorded for an attempt are numbered 0 to its revision without
    gap or duplicate, start with the reservation, follow the edges of the
    lifecycle with non-decreasing times, end in the state and time its row
    projects, and each is backed by an event of that attempt and time. *)
Theorem attempt_history_complete d id a :
  reachable d -> attempts d !! id = Some a ->
  exists ts : list transition_row,
    Z.of_nat (length ts) = (att_revision a + 1)%Z /\
    (forall u, u ∈ ts <-> u ∈ attempt_transitions d /\ tr_attempt u = id) /\
    (forall i u, ts !! i = Some u -> tr_revision u = Z.of_nat i /\
       exists e, events d !! Z.to_nat (tr_event u - 1) = Some e /\
         ev_attempt e = Some id /\ ev_at e = tr_at u) /\
    (exists t0, ts !! 0%nat = Some t0 /\ tr_to t0 = Reserved) /\
    (forall i u v, ts !! i = Some u -> ts !! S i = Some v ->
       tr_from v = Some (tr_to u) /\ allowed_edge (tr_to u) (tr_to v) = true /\
       (tr_at u <= tr_at v)%Z) /\
    (exists t, last ts = Some t /\ tr_to t = att_state a /\ tr_at t = att_updated a).
Proof. intros Hd. apply attempt_trace. by apply reachable_history. Qed.

(** C5: terminal rows are immutable: whatever operations follow, by whatever
    guard and at whatever time, an attempt that is accepted, censored,
    superseded or failed keeps exactly the row it finished with. *)
Theorem terminal_immutable d d' id a :
  steps d d' -> attempts d !! id = Some a -> is_terminal (att_state a) = true ->
  attempts d' !! id = Some a.
Proof.
  intros Hs Ha Ht. apply steps_stmts in Hs.
  destruct (stmts_rows _ _ Hs id a Ha) as (a' & Ha' & _ & _ & _ & [->|(Hn & _)]);
    [done|congruence].
Qed.

(** ** Fencing *)

Lemma fence_Ok d g now s :
  fence d g now = Ok s ->
  exists a l, attempts d !! id_text g = Some a /\ leases d !! oa_lease_id g = Some l /\
    att_slot a = slot_text g /\ att_retry_index a = oa_retry_index g /\
    att_revision a = oa_revision g /\ att_finished a = None /\ att_state a = s /\
    le_attempt l = Some (id_text g) /\ le_owner l = oa_owner_token g /\
    le_purpose l = Reservation /\ le_released l = None /\
    (Z.max now (oa_updated_at_ns g) < le_expires l)%Z /\
    claim_lapsed d (id_text g) (oa_owner_token g) (Z.max now (oa_updated_at_ns g)) = false.
Proof.
  unfold fence. intros E.
  apply bind_Ok in E as (retry & [-> _]%timestamp_Ok & E).
  apply bind_Ok in E as (revision & [-> _]%timestamp_Ok & E).
  apply bind_Ok in E as (updated & [-> _]%timestamp_Ok & E).
  destruct (attempts d !! id_text g) as [a|]; [|done].
  destruct (leases d !! oa_lease_id g) as [l|]; [|done].
  match goal with E : (if ?b then _ else _) = _ |- _ => destruct b eqn:Hb; [|done] end.
  injection E as <-. bools.
  repeat match goal with F : String.eqb _ _ = true |- _ => apply String.eqb_eq in F end.
  exists a, l. auto 20.
Qed.

(** The operations that take a guard, each of which passes the fence. *)
Inductive writes (g : OwnedAttempt) (d : db) : Prop :=
  | w_advance phase now : is_ok (advance g phase now d) = true -> writes g d
  | w_renew expires now : is_ok (renew g expires now d) = true -> writes g d
  | w_begin lease now : is_ok (begin_finalization g lease now d) = true -> writes g d
  | w_commit o art refs now : is_ok (commit_finalization g o art refs now d) = true -> writes g d
  | w_time limit now : is_ok (reserve_fresh_time g limit now d) = true -> writes g d
  | w_record n now : is_ok (record_fresh_time g n now d) = true -> writes g d
  | w_observation o art sel now :
      is_ok (register_observation g o art sel now d) = true -> writes g d
  | w_stage path now : is_ok (stage g path now d) = true -> writes g d
  | w_artifact k art s now : is_ok (publish_artifact g k art s now d) = true -> writes g d
  | w_publish o art refs doc s finished now :
      is_ok (publish_finalization g o art refs doc s finished now d) = true -> writes g d.

Lemma is_ok_spec {E A} (m : result E A) : is_ok m = true <-> exists a, m = Ok a.
Proof. destruct m; simpl; split; intros Hx; try done; [by eexists|by destruct Hx]. Qed.

Lemma writes_fence g d : writes g d -> exists now s, fence d g now = Ok s.
Proof.
  destruct 1; match goal with E : is_ok _ = true |- _ => apply is_ok_spec in E as [? E] end;
    match goal with E : _ = Ok _ |- _ =>
      unfold advance, renew, begin_finalization, commit_finalization, commit_finalization_in,
        validate_finalization, reserve_fresh_time, record_fresh_time, register_observation,
        stage, publish_artifact, publish_finalization, check_stage in E end;
    op_inv; eauto.
Qed.

(** C3: a superseded guard cannot write: once the store holds a later
    revision of the attempt than a guard carries, no operation that takes the
    guard succeeds, in that store or in any store that follows it. *)
Theorem stale_guard_cannot_write d d' g a :
  steps d d' -> attempts d !! id_text g = Some a ->
  (oa_revision g < att_revision a)%Z -> ~ writes g d'.
Proof.
  intros Hs Ha Hr Hw. apply steps_stmts in Hs.
  destruct (stmts_rows _ _ Hs _ _ Ha) as (a' & Ha' & _ & _ & _ & Hev).
  apply writes_fence in Hw as (now & s & Hf).
  destruct (fence_Ok _ _ _ _ Hf) as (b & l & Hb & _ & _ & _ & Hrb & _).
  rewrite Ha' in Hb. simplify_eq. destruct Hev as [->|(_ & ? & _)]; lia.
Qed.

(** C2: at most one accepted attempt per slot, in every reachable store, with
    any number of owners and recovery passes racing. *)
Theorem one_accepted_per_slot d id j a b :
  reachable d -> attempts d !! id = Some a -> attempts d !! j = Some b ->
  att_slot a = att_slot b -> att_state a = Accepted -> att_state b = Accepted -> id = j.
Proof. intros Hd Ha Hb Hs Ha' Hb'. by eapply (co_unique _ (reachable_claims _ Hd)). Qed.

(** C6: a finalization claim is exclusive and unresolved: in every reachable
    store the claim of a slot belongs to an attempt of that slot that is still
    finalizing, is backed by a finalization lease of that attempt, and the slot
    has no accepted attempt. *)
Theorem claim_exclusive d slot c :
  reachable d -> finalization_claims d !! slot = Some c ->
  (exists a, attempts d !! cl_attempt c = Some a /\ att_slot a = slot /\
     att_state a = InPhase Finalizing) /\
  (exists l, leases d !! cl_lease c = Some l /\ le_attempt l = Some (cl_attempt c) /\
     le_purpose l = Store.Finalization) /\
  (forall id b, attempts d !! id = Some b -> att_slot b = slot -> att_state b <> Accepted).
Proof.
  intros Hd Hc. pose proof (reachable_claims _ Hd) as Hco. split_and!.
  - by apply (co_claim _ Hco).
  - by eapply (co_lease _ Hco).
  - intros id b. by apply (co_open _ Hco slot c).
Qed.
End Histories.

(** ** Witnesses *)

Lemma attempt_history_complete_witness :
  exists a (ts : list transition_row),
    attempts accepted.2 !! first_key = Some a /\ att_state a = Accepted /\ length ts = 9%nat /\
    exists t, last ts = Some t /\ tr_to t = Accepted.
Proof.
  destruct accepted_row as (a & Ha & (Hst & Hrev & Hslot)%row_is_spec).
  destruct (@attempt_history_complete model accepted.2 first_key a accepted_reachable Ha)
    as (ts & Hlen & _ & _ & _ & _ & (t & Hlast & Hto & _)).
  exists a, ts. split; [exact Ha|]. split; [exact Hst|]. split; [lia|].
  exists t. split; [exact Hlast|]. rewrite Hto. exact Hst.
Defined.

Lemma terminal_immutable_witness :
  exists a, attempts accepted.2 !! first_key = Some a /\ is_terminal (att_state a) = true /\
    forall d', rtc (@store_step model) accepted.2 d' -> attempts d' !! first_key = Some a.
Proof.
  destruct accepted_row as (a & Ha & (Hst & Hrev & Hslot)%row_is_spec).
  assert (is_terminal (att_state a) = true) as Ht
    by (rewrite Hst; reflexivity).
  exists a. split; [exact Ha|]. split; [exact Ht|]. intros d' Hs.
  exact (@terminal_immutable model accepted.2 d' first_key a Hs Ha Ht).
Defined.

(** The guard of the reservation is stale once the attempt is finalizing, and
    stays so when the attempt is accepted. *)
Lemma stale_guard_cannot_write_witness :
  is_Some (finalization_claims claimed.2 !! slot_key) /\
  ~ @writes model reserved.1 claimed.2 /\ ~ @writes model reserved.1 accepted.2.
Proof.
  destruct claimed_row as (a & Ha & (Hst & Hrev & Hslot)%row_is_spec).
  assert (oa_revision reserved.1 < att_revision a)%Z as Hlt.
  { replace (oa_revision reserved.1) with 0%Z by (vm_compute; reflexivity). lia. }
  assert (forall d', rtc (@store_step model) claimed.2 d' -> ~ @writes model reserved.1 d') as Hd.
  { intros d' Hs. exact (@stale_guard_cannot_write model claimed.2 d' reserved.1 a Hs Ha Hlt). }
  split; [|split; apply Hd].
  - destruct claimed_claim as (c & Hc & _). exists c. exact Hc.
  - apply rtc_refl.
  - exact claimed_accepted.
Defined.

Lemma one_accepted_per_slot_witness :
  exists a, attempts accepted.2 !! first_key = Some a /\ att_state a = Accepted /\
    forall j b, attempts accepted.2 !! j = Some b -> att_slot a = att_slot b ->
      att_state b = Accepted -> first_key = j.
Proof.
  destruct accepted_row as (a & Ha & (Hst & Hrev & Hslot)%row_is_spec).
  exists a. split; [exact Ha|]. split; [exact Hst|]. intros j b Hb Hs Hacc.
  exact (@one_accepted_per_slot model accepted.2 first_key j a b accepted_reachable
           Ha Hb Hs Hst Hacc).
Defined.

Lemma claim_exclusive_witness :
  exists c a, finalization_claims claimed.2 !! slot_key = Some c /\
    attempts claimed.2 !! cl_attempt c = Some a /\ att_state a = InPhase Finalizing.
Proof.
  destruct claimed_claim as (c & Hc & _).
  destruct (@claim_exclusive model claimed.2 slot_key c claimed_reachable Hc)
    as ((a & Ha & _ & Hs) & _ & _).
  exists c, a. split; [exact Hc|]. split; [exact Ha|exact Hs].
Defined.
