(* ===== verification/Ownership.v ===== *)
(** * Reservation, ownership and release

    How reservation allocates retries, how a guard hands over to its successor,
    what renewal and finalization do to leases and claims, and why recovery and
    a live owner exclude each other. *)
From S2P Require Import Prelude Json Canonical Identity ThirdPartyModel Profile Records.
From S2P Require Import RunDocuments Store Attempts Fresh RunStore Publisher Recovery.
From S2P Require Import Coordination Statements History Claims Scenario Lifecycle.
From Stdlib Require Import Ascii.

(** ** Retry indices *)

Lemma max_retry_list (l : list (string * attempt_row)) slot :
  let m := foldr (fun kv acc =>
    if String.eqb (att_slot kv.2) slot
    then Some (match acc with
               | Some m => Z.max (att_retry_index kv.2) m
               | None => att_retry_index kv.2
               end)
    else acc) None l in
  match m with
  | None => forall kv, kv ∈ l -> att_slot kv.2 <> slot
  | Some m =>
      (exists kv, kv ∈ l /\ att_slot kv.2 = slot /\ att_retry_index kv.2 = m) /\
      (forall kv, kv ∈ l -> att_slot kv.2 = slot -> (att_retry_index kv.2 <= m)%Z)
  end.
Proof.
  induction l as [|kv l IH]; simpl in *; [intros ? H; set_solver|].
  destruct (String.eqb_spec (att_slot kv.2) slot) as [Heq|Hne];
    destruct (foldr _ None l) as [m|].
  - destruct IH as ((x & Hx & Hxs & Hxr) & Hmax). split.
    + destruct (Z.max_spec (att_retry_index kv.2) m) as [[_ ->]|[_ ->]].
      * exists x. split; [set_solver|done].
      * exists kv. split; [set_solver|done].
    + intros y [->|Hy]%elem_of_cons Hys; [lia|]. specialize (Hmax y Hy Hys). lia.
  - split; [exists kv; split; [set_solver|done]|].
    intros y [->|Hy]%elem_of_cons Hys; [lia|]. by destruct (IH y Hy).
  - destruct IH as ((x & Hx & Hxs) & Hmax). split.
    + exists x. split; [set_solver|done].
    + intros y [->|Hy]%elem_of_cons Hys; [done|]. by apply Hmax.
  - intros y [->|Hy]%elem_of_cons; [done|]. by apply IH.
Qed.

Lemma max_retry_spec d slot :
  match max_retry d slot with
  | None => forall k a, attempts d !! k = Some a -> att_slot a <> slot
  | Some m =>
      (exists k a, attempts d !! k = Some a /\ att_slot a = slot /\ att_retry_index a = m) /\
      (forall k a, attempts d !! k = Some a -> att_slot a = slot -> (att_retry_index a <= m)%Z)
  end.
Proof.
  unfold max_retry. pose proof (max_retry_list (map_to_list (attempts d)) slot) as H.
  simpl in H. destruct (foldr _ _ _) as [m|].
  - destruct H as (([k a] & Hin & ?) & Hmax). split.
    + exists k, a. split; [by apply elem_of_map_to_list|done].
    + intros j b Hb. apply (Hmax (j, b)). by apply elem_of_map_to_list.
  - intros k a Ha. apply (H (k, a)). by apply elem_of_map_to_list.
Qed.

Record retries_ok (d : db) : Prop := {
  rt_below k a i : attempts d !! k = Some a -> (0 <= i <= att_retry_index a)%Z ->
    exists j b, attempts d !! j = Some b /\ att_slot b = att_slot a /\ att_retry_index b = i;
  rt_once k j a b : attempts d !! k = Some a -> attempts d !! j = Some b ->
    att_slot a = att_slot b -> att_retry_index a = att_retry_index b -> k = j;
}.

(** The rows of [d'] are those of [d] up to their progress. *)
Definition same_attempts (d d' : db) : Prop :=
  forall k, (fun a => (att_slot a, att_retry_index a)) <$> attempts d' !! k
          = (fun a => (att_slot a, att_retry_index a)) <$> attempts d !! k.

Lemma same_attempts_back d d' k a' : same_attempts d d' -> attempts d' !! k = Some a' ->
  exists a, attempts d !! k = Some a /\ att_slot a = att_slot a' /\
    att_retry_index a = att_retry_index a'.
Proof.
  intros Hs Ha'. specialize (Hs k). rewrite Ha' in Hs.
  destruct (attempts d !! k) as [a|]; simplify_eq/=. eauto.
Qed.
Lemma same_attempts_forth d d' k a : same_attempts d d' -> attempts d !! k = Some a ->
  exists a', attempts d' !! k = Some a' /\ att_slot a' = att_slot a /\
    att_retry_index a' = att_retry_index a.
Proof.
  intros Hs Ha. specialize (Hs k). rewrite Ha in Hs.
  destruct (attempts d' !! k) as [a'|]; simplify_eq/=. eauto.
Qed.

Lemma retries_same d d' : same_attempts d d' -> retries_ok d -> retries_ok d'.
Proof.
  intros Hs [Hb Ho]. pose proof (fun k a => same_attempts_back d d' k a Hs) as Hback.
  pose proof (fun k a => same_attempts_forth d d' k a Hs) as Hfwd.
  constructor.
  - intros k a i (b & Hbk & Hbs & Hbr)%Hback Hi. rewrite <-Hbr in Hi.
    destruct (Hb k b i Hbk Hi) as (j & c & (c' & Hc' & Hcs & Hcr)%Hfwd & ? & ?).
    exists j, c'. repeat split; congruence.
  - intros k j a b (x & Hx & ? & ?)%Hback (y & Hy & ? & ?)%Hback ? ?.
    apply (Ho k j x y); congruence.
Qed.

Lemma next_retry_Ok d slot n :
  (forall k a, attempts d !! k = Some a -> (0 <= att_retry_index a)%Z) ->
  next_retry (max_retry d slot) = Ok n -> (0 <= n <= i64_max)%Z /\
  (forall k a, attempts d !! k = Some a -> att_slot a = slot -> (att_retry_index a < n)%Z) /\
  (n = 0%Z \/ exists k a, attempts d !! k = Some a /\ att_slot a = slot /\
                att_retry_index a = (n - 1)%Z).
Proof.
  intros Hpos. pose proof (max_retry_spec d slot) as Hm. unfold next_retry.
  destruct (max_retry d slot) as [m|].
  - destruct (m + 1 <=? i64_max)%Z eqn:Hmax; [|done]. intros [= <-]. bools.
    destruct Hm as ((k & a & Hk & Hs & Hr) & Hle). specialize (Hpos k a Hk).
    split; [lia|]. split; [intros j b Hj Hbs; specialize (Hle j b Hj Hbs); lia|].
    right. exists k, a. repeat split; [done|done|lia].
  - intros [= <-]. split; [unfold i64_max; lia|]. split; [|by left].
    intros k a Hk Hs. by destruct (Hm k a Hk).
Qed.

Section Retries.
Context `{ThirdParty}.

Lemma effect_same g from to at_ns failure artifact old e t d d' :
  transition_effect g from to at_ns failure artifact old e t d d' -> same_attempts d d'.
Proof.
  intros Heff k. rewrite (te_db _ _ _ _ _ _ _ _ _ _ _ Heff). simpl.
  destruct (decide (k = id_text g)) as [->|Hne]; [|by rewrite lookup_insert_ne].
  by rewrite lookup_insert_eq, (te_row _ _ _ _ _ _ _ _ _ _ _ Heff).
Qed.

Lemma retries_stmt d d' : stmt d d' -> history d -> retries_ok d -> retries_ok d'.
Proof.
  intros [(id & a & purpose & lease & now & details & d1 & d2 & Hs & _ & _ & Hnext & _ & _ & E1 & E2 & E3)
    |[(g & from & phase & now & details & g' & E)
    |[(g & o & now & details & terminal & checked & g' & d1 & d2 & E1 & E2 & E3)
    |[(slot & c & E)|[Ea Ec]]]]]%stmt_claims Hh Hr.
  - destruct (reserved_Ok _ _ _ _ _ _ _ _ _ _ E1 E2 E3)
      as (l & e & t & Hnew & _ & _ & _ & _ & _ & _ & _ & _ & _ & _ & _ & _ & _ & _ & -> & _).
    destruct (next_retry_Ok d (att_slot a) _
      ltac:(intros k b Hb; apply (hi_row _ Hh _ _ Hb)) Hnext) as (Hpos & Hlt & Hprev).
    constructor; simpl.
    + intros k b i. destruct (decide (k = id)) as [->|Hne].
      * rewrite lookup_insert_eq. intros [= <-] Hi.
        destruct (decide (i = att_retry_index a)) as [->|Hia].
        { exists id, a. by rewrite lookup_insert_eq. }
        destruct Hprev as [?|(k & b & Hk & Hbs & Hbr)]; [lia|].
        destruct (rt_below _ Hr k b i Hk ltac:(lia)) as (j & c & Hj & Hcs & Hcr).
        exists j, c. assert (j <> id) by congruence. rewrite lookup_insert_ne by done. split_and!; congruence.
      * rewrite lookup_insert_ne by done. intros Hk Hi.
        destruct (rt_below _ Hr k b i Hk Hi) as (j & c & Hj & ?).
        exists j, c. assert (j <> id) by congruence. by rewrite lookup_insert_ne by done.
    + intros k j x y. destruct (decide (k = id)) as [->|Hk], (decide (j = id)) as [->|Hj];
        rewrite ?lookup_insert_eq, ?lookup_insert_ne by done; try done.
      * intros [= <-] Hy Hsl Hre. specialize (Hlt j y Hy (eq_sym Hsl)). lia.
      * intros Hx [= <-] Hsl Hre. specialize (Hlt k x Hx Hsl). lia.
      * apply (rt_once _ Hr).
  - apply transition_Ok in E as (old & e & t & Heff & _).
    eapply retries_same; [by eapply effect_same|done].
  - destruct (finish_db _ _ _ _ _ _ _ _ _ _ _ E1 E2 E3) as (old & e & t & Heff & Ha & _).
    eapply retries_same; [|done]. intros k. rewrite Ha. by apply (effect_same _ _ _ _ _ _ _ _ _ _ _ Heff).
  - apply insert_claim_Ok in E as (-> & _). by eapply (retries_same d).
  - apply (retries_same d); [|done]. intros k. by rewrite Ea.
Qed.

Lemma reachable_retries d : reachable d -> retries_ok d.
Proof.
  intros [v Hd]. apply steps_stmts in Hd.
  assert (retries_ok (empty_store v)) as H0 by (constructor; simpl; done).
  pose proof (history_empty v) as Hh. revert H0 Hh.
  induction Hd; eauto using retries_stmt, history_stmt.
Qed.

(** C8: the retries of a slot are numbered without gap or reuse: in every
    reachable store, below the index of any attempt every index from zero is
    held by exactly one attempt of the same slot. *)
Theorem retries_contiguous d id a i :
  reachable d -> attempts d !! id = Some a -> (0 <= i <= att_retry_index a)%Z ->
  exists! j, exists b, attempts d !! j = Some b /\ att_slot b = att_slot a /\
                       att_retry_index b = i.
Proof.
  intros Hd Ha Hi. pose proof (reachable_retries _ Hd) as Hr.
  destruct (rt_below _ Hr _ _ _ Ha Hi) as (j & b & Hj & Hs & Hri).
  exists j. split; [by exists b|]. intros k (c & Hk & Hcs & Hcr).
  apply (rt_once _ Hr j k b c Hj Hk); congruence.
Qed.

(** ** Reservation *)

Definition authorized (auth : RetryAuthorization) (index : Z) : Prop :=
  match auth with
  | FirstAttempt | Next false => index = 0%Z
  | Next true => (index <= MAX_SAFE_INTEGER)%Z
  | Retry next_index max_index =>
      (0 < index)%Z /\ next_index = index /\ (index <= max_index <= MAX_SAFE_INTEGER)%Z
  end.

Lemma authorize_spec auth n : is_ok (authorize auth n) = true <-> authorized auth n.
Proof.
  destruct auth as [|[]|next_index max_index]; simpl.
  - destruct (n =? 0)%Z eqn:E; simpl; bools; split; done || lia.
  - destruct (n <=? MAX_SAFE_INTEGER)%Z eqn:E; simpl; bools; split; done || lia.
  - destruct (n =? 0)%Z eqn:E; simpl; bools; split; done || lia.
  - destruct (_ && _) eqn:E; simpl.
    + split; [|done]. intros _. bools. lia.
    + split; [done|]. intros (? & -> & ?).
      rewrite (proj2 (Z.ltb_lt _ _)), Z.eqb_refl, !(proj2 (Z.leb_le _ _)) in E by lia. done.
Qed.

Lemma satisfied_spec d slot :
  satisfied d slot = true <->
  exists k a, attempts d !! k = Some a /\ att_slot a = slot /\ att_state a = Accepted.
Proof.
  unfold satisfied. rewrite exists_row_spec. split; intros (k & a & Hk & Hp); exists k, a.
  - apply andb_true_iff in Hp as [Hs Ha]. apply String.eqb_eq in Hs. by bools.
  - destruct Hp as [-> ->]. by rewrite String.eqb_refl, bool_decide_eq_true_2.
Qed.

Lemma reserve_Ok slot auth lease now d g d' :
  reserve slot auth lease now d = Ok (g, d') ->
  has_key (to_string slot) (attempt_slots d) = true /\ satisfied d (to_string slot) = false /\
  next_retry (max_retry d (to_string slot)) = Ok (oa_retry_index g) /\
  is_ok (authorize auth (oa_retry_index g)) = true /\ (now <= i64_max)%Z /\
  oa_slot g = slot /\ oa_revision g = 0%Z /\ oa_updated_at_ns g = now /\
  oa_lease_id g = lr_id lease /\ oa_owner_token g = lr_owner_token lease /\
  exists d1 d2 details a, a = {| att_slot := to_string slot; att_retry_index := oa_retry_index g;
       att_state := Reserved; att_revision := 0; att_started := now; att_updated := now;
       att_finished := None; att_failure_code := None; att_final_artifact := None |} /\
    insert_attempt (id_text g) a d = Ok d1 /\
    insert_lease (id_text g) Reservation lease now d1 = Ok d2 /\
    append_transition (id_text g) None Reserved 0 (att_started a) details d2 = Ok d'.
Proof.
  unfold reserve. intros E.
  apply bind_Ok in E as (n & [-> Hnow]%timestamp_Ok & E). apply bind_Ok in E as (u1 & _ & E).
  apply bind_Ok in E as (u2 & Hkey%ensure_Ok & E). apply bind_Ok in E as (u3 & Hsat%ensure_Ok & E).
  apply bind_Ok in E as (u4 & _ & E). apply bind_Ok in E as (next & Hnext & E).
  apply bind_Ok in E as (u5 & Hauth & E). apply bind_Ok in E as (id & _ & E).
  apply bind_Ok in E as (d1 & E1 & E). apply bind_Ok in E as (d2 & E2 & E).
  apply bind_Ok in E as (d3 & E3 & E). apply bind_Ok in E as (d4 & [-> _]%commit_Ok & [= <- <-]).
  apply negb_true_iff in Hsat. simpl.
  repeat (split; [first [done|by rewrite Hauth]|]). exists d1, d2. eauto 10.
Qed.

(** C7: a reservation allocates the next retry of an open slot: the slot is
    registered and has no accepted attempt, the index is one above every index
    the slot has used and all below it are used, the authorization covers
    exactly that index, and the only change to the attempts is the new row. *)
Theorem reserve_allocates_next slot auth lease now d g d' :
  reachable d -> reserve slot auth lease now d = Ok (g, d') ->
  is_Some (attempt_slots d !! to_string slot) /\
  (forall k a, attempts d !! k = Some a -> att_slot a = to_string slot ->
     att_state a <> Accepted /\ (att_retry_index a < oa_retry_index g)%Z) /\
  (forall i, (0 <= i < oa_retry_index g)%Z -> exists k a, attempts d !! k = Some a /\
     att_slot a = to_string slot /\ att_retry_index a = i) /\
  authorized auth (oa_retry_index g) /\
  attempts d !! id_text g = None /\
  attempts d' = <[id_text g := {| att_slot := to_string slot;
    att_retry_index := oa_retry_index g; att_state := Reserved; att_revision := 0;
    att_started := now; att_updated := now; att_finished := None; att_failure_code := None;
    att_final_artifact := None |}]> (attempts d).
Proof.
  intros Hd E. pose proof (reachable_history _ Hd) as Hh. pose proof (reachable_retries _ Hd) as Hr.
  destruct (reserve_Ok _ _ _ _ _ _ _ E) as (Hkey & Hsat & Hnext & Hauth & _ & _ & _ & _ & _ & _ &
    d1 & d2 & details & a & -> & E1 & E2 & E3).
  destruct (reserved_Ok _ _ _ _ _ _ _ _ _ _ E1 E2 E3)
    as (l & e & t & Hnew & _ & _ & _ & _ & _ & _ & _ & _ & _ & _ & _ & _ & _ & _ & -> & _).
  destruct (next_retry_Ok d (to_string slot) _
    ltac:(intros k b Hb; apply (hi_row _ Hh _ _ Hb)) Hnext) as (Hpos & Hlt & Hprev).
  split; [by apply has_key_spec|]. split.
  { intros k a Hk Hs. split; [|by eapply Hlt]. intros Ha.
    apply not_true_iff_false in Hsat. apply Hsat, satisfied_spec. eauto. }
  split.
  { intros i Hi. destruct Hprev as [?|(k & a & Hk & Hs & Hra)]; [lia|].
    destruct (rt_below _ Hr k a i Hk ltac:(lia)) as (j & b & Hj & Hbs & Hbr).
    exists j, b. repeat split; congruence. }
  split; [by apply authorize_spec|]. done.
Qed.
End Retries.

(** ** Witnesses *)

Definition second_key : string := to_string (oa_id competing.1).

Lemma competing_row : exists a, attempts competing.2 !! second_key = Some a /\
  ((att_retry_index a =? 1)%Z && String.eqb (att_slot a) slot_key = true).
Proof. apply lookup_shape. vm_compute. reflexivity. Qed.

Lemma retries_contiguous_witness :
  exists j b, attempts competing.2 !! j = Some b /\ att_slot b = slot_key /\
              att_retry_index b = 0%Z.
Proof.
  destruct competing_row as (a & Ha & [Hr Hs]%andb_true_iff).
  apply Z.eqb_eq in Hr. apply String.eqb_eq in Hs.
  assert (0 <= 0 <= att_retry_index a)%Z as Hi by lia.
  destruct (@retries_contiguous model competing.2 second_key a 0%Z competing_reachable Ha Hi)
    as (j & (b & Hb & Hbs & Hbr) & _).
  exists j, b. split; [exact Hb|]. split; [rewrite Hbs; exact Hs|exact Hbr].
Defined.

Lemma reserve_allocates_next_witness :
  authorized FirstAttempt (oa_retry_index reserved.1) /\
  attempts registered !! id_text reserved.1 = None /\
  is_Some (attempts reserved.2 !! id_text reserved.1).
Proof.
  destruct (@reserve_allocates_next model (id slot) FirstAttempt (lease_request "first" 100) 10
    registered reserved.1 reserved.2 registered_reachable reserved_ok)
    as (_ & _ & _ & Hauth & Hnew & Hrows).
  split; [exact Hauth|]. split; [exact Hnew|]. rewrite Hrows, lookup_insert_eq. eexists. reflexivity.
Defined.
