(* ===== verification/Guards.v ===== *)
(** * Ownership guards

    When exactly the fence admits a guard, and how reservation, transitions and
    renewal hand the right to write from one guard to the next. *)
From S2P Require Import Prelude Json Canonical Identity ThirdPartyModel Profile Records.
From S2P Require Import RunDocuments Store Attempts Fresh RunStore Publisher Recovery Coordination.
From S2P Require Import Statements History Claims Scenario Lifecycle Ownership.
From Stdlib Require Import Ascii.

(** The part of the fence that does not depend on time. *)
Record guards (d : db) (g : OwnedAttempt) (a : attempt_row) (l : lease_row) : Prop := {
  gd_row : attempts d !! id_text g = Some a;
  gd_slot : att_slot a = slot_text g;
  gd_retry : att_retry_index a = oa_retry_index g;
  gd_revision : att_revision a = oa_revision g;
  gd_unfinished : att_finished a = None;
  gd_lease : leases d !! oa_lease_id g = Some l;
  gd_attempt : le_attempt l = Some (id_text g);
  gd_owner : le_owner l = oa_owner_token g;
  gd_purpose : le_purpose l = Reservation;
  gd_live : le_released l = None;
  gd_range : (oa_retry_index g <= i64_max /\ oa_revision g <= i64_max /\
              oa_updated_at_ns g <= i64_max)%Z;
}.

Lemma timestamp_intro v : (v <= i64_max)%Z -> timestamp v = Ok v.
Proof. intros Hv. unfold timestamp. by rewrite (proj2 (Z.leb_le _ _)). Qed.

Lemma fence_spec d g a l t :
  guards d g a l ->
  fence d g t =
    if (Z.max t (oa_updated_at_ns g) <? le_expires l)%Z &&
       negb (claim_lapsed d (id_text g) (oa_owner_token g) (Z.max t (oa_updated_at_ns g)))
    then Ok (att_state a) else Err StaleAttempt.
Proof.
  intros [Ha Hs Hr Hv Hf Hl Hla Ho Hp Hlive (R1 & R2 & R3)]. unfold fence.
  rewrite !timestamp_intro by done. simpl. rewrite Ha, Hl, Hs, Hr, Hv, Ho.
  rewrite !String.eqb_refl, !Z.eqb_refl, !bool_decide_eq_true_2 by done. simpl.
  by destruct (_ <? _)%Z.
Qed.

Lemma fence_guards d g t s :
  fence d g t = Ok s ->
  exists a l, guards d g a l /\ att_state a = s /\
    (Z.max t (oa_updated_at_ns g) < le_expires l)%Z /\
    claim_lapsed d (id_text g) (oa_owner_token g) (Z.max t (oa_updated_at_ns g)) = false.
Proof.
  intros E. destruct (fence_Ok _ _ _ _ E)
    as (a & l & Ha & Hl & Hs & Hr & Hv & Hf & Hst & Hla & Ho & Hp & Hlive & Ht & Hc).
  exists a, l. split; [|done]. constructor; try done. unfold fence in E.
  apply bind_Ok in E as (? & [_ R1]%timestamp_Ok & E).
  apply bind_Ok in E as (? & [_ R2]%timestamp_Ok & E).
  by apply bind_Ok in E as (? & [_ R3]%timestamp_Ok & E).
Qed.

(** ** Renewal *)

(** The leases after the listed ones were extended. *)
Definition extended (rows : list (string * Z)) (expires : Z) (ls ls' : gmap string lease_row) : Prop :=
  forall key, ls' !! key =
    (if bool_decide (key ∈ rows.*1) then extend_lease expires else fun l => l) <$> ls !! key.

Lemma renew_one_Ok expires owner now d row d' :
  renew_one expires owner now d row = Ok d' ->
  exists l, leases d !! row.1 = Some l /\ le_owner l = owner /\ (row.2 <= expires)%Z /\
    d' = set_leases (<[row.1 := extend_lease expires l]> (leases d)) d.
Proof.
  unfold renew_one. destruct (expires <? row.2)%Z eqn:Hle; [done|]. intros E.
  apply bind_Ok in E as ([d1 n] & Hu & E). destruct (negb (n =? 1)%nat) eqn:Hn; [done|].
  injection E as <-. apply update_lease_Ok in Hu as [[-> _]|(l & -> & Hl & Ho & _ & _ & _ & ->)]; [done|].
  bools. exists l. auto.
Qed.

Lemma renew_fold expires owner now rows d d' :
  NoDup rows.*1 -> try_fold (renew_one expires owner now) d rows = Ok d' ->
  extended rows expires (leases d) (leases d') /\ d' = set_leases (leases d') d /\
  (forall row, row ∈ rows -> (row.2 <= expires)%Z /\
     exists l, leases d !! row.1 = Some l /\ le_owner l = owner).
Proof.
  revert d. induction rows as [|row rows IH]; simpl; intros d Hnd E.
  - injection E as <-. split; [|split; [by destruct d as [? ? []]|set_solver]].
    intros key. rewrite bool_decide_eq_false_2 by set_solver. by destruct (leases d !! key).
  - apply NoDup_cons in Hnd as [Hnotin Hnd]. apply bind_Ok in E as (d1 & E1 & E).
    destruct (renew_one_Ok _ _ _ _ _ _ E1) as (l & Hl & Ho & Hle & ->).
    destruct (IH _ Hnd E) as (Hext & Hd' & Hall). split; [|split].
    + intros key. rewrite Hext. simpl. destruct (decide (key = row.1)) as [->|Hne].
      * rewrite lookup_insert_eq, Hl, bool_decide_eq_false_2, bool_decide_eq_true_2; [done|set_solver|done].
      * rewrite lookup_insert_ne by done. f_equal.
        rewrite (bool_decide_ext (key ∈ rows.*1) (key ∈ row.1 :: rows.*1)); [done|set_solver].
    + by rewrite Hd'.
    + intros r [->|Hr]%elem_of_cons; [eauto|].
      destruct (Hall r Hr) as (? & m & Hm & Hmo). split; [done|].
      simpl in Hm. rewrite lookup_insert_ne in Hm; [eauto|].
      intros Heq. apply Hnotin. rewrite Heq. by apply list_elem_of_fmap_2.
Qed.

Definition renews (id : string) (now : Z) (l : lease_row) : bool :=
  held_by id l &&
  (bool_decide (le_purpose l = Reservation) || bool_decide (le_purpose l = Store.Finalization) ||
   (bool_decide (le_purpose l = Staging) && (now <? le_expires l)%Z)).

Lemma renewable_keys d id now :
  NoDup (renewable d id now).*1 /\
  (forall key, key ∈ (renewable d id now).*1 <->
     exists l, leases d !! key = Some l /\ renews id now l = true) /\
  (forall key l, leases d !! key = Some l -> renews id now l = true ->
     (key, le_expires l) ∈ renewable d id now).
Proof.
  unfold renewable. rewrite <-list_fmap_compose.
  assert (forall l key, (key, l) ∈ List.filter (fun kv => renews id now kv.2) (map_to_list (leases d)) <->
    leases d !! key = Some l /\ renews id now l = true) as Hin.
  { intros l key. rewrite list_elem_of_In, filter_In, <-list_elem_of_In, elem_of_map_to_list. done. }
  change (fun kv : string * lease_row => held_by id kv.2 && _)
    with (fun kv : string * lease_row => renews id now kv.2).
  split; [|split].
  - change (compose fst _) with (@fst string lease_row).
    apply NoDup_fst_filter, NoDup_fst_map_to_list.
  - intros key. change (compose fst _) with (@fst string lease_row).
    rewrite list_elem_of_fmap. split.
    + intros ([k l] & -> & Hk%Hin). exists l. exact Hk.
    + intros (l & Hk%Hin). exists (key, l). split; [reflexivity|exact Hk].
  - intros key l Hk Hr. apply (list_elem_of_fmap_2' _ _ (key, l)); [|done]. by apply Hin.
Qed.

(** Without a claim of the attempt, only the lease limits the guard. *)
Lemma no_claim_lapsed d id owner t :
  (forall slot c, finalization_claims d !! slot = Some c -> cl_attempt c <> id) ->
  claim_lapsed d id owner t = false.
Proof.
  intros Hn. unfold claim_lapsed. apply exists_row_false. intros slot c Hc.
  destruct (String.eqb_spec (cl_attempt c) id) as [Heq|]; [|done]. by destruct (Hn slot c Hc).
Qed.

Lemma fence_unclaimed d g a l t :
  guards d g a l ->
  (forall slot c, finalization_claims d !! slot = Some c -> cl_attempt c <> id_text g) ->
  fence d g t = if (Z.max t (oa_updated_at_ns g) <? le_expires l)%Z
                then Ok (att_state a) else Err StaleAttempt.
Proof.
  intros Hg Hn. rewrite (fence_spec _ _ _ _ _ Hg), no_claim_lapsed by done.
  by rewrite andb_true_r.
Qed.

Lemma fence_revision d g t a :
  attempts d !! id_text g = Some a -> att_revision a <> oa_revision g ->
  (exists s, fence d g t = Ok s) -> False.
Proof.
  intros Ha Hne [s (b & l & Hg & _)%fence_guards]. apply Hne.
  rewrite <-(gd_revision _ _ _ _ Hg). f_equal. pose proof (gd_row _ _ _ _ Hg). congruence.
Qed.

Section Guards.
Context `{ThirdParty}.

(** A reservation owns its attempt until its lease expires, and not a
    nanosecond longer: in the store it leaves, the fence admits its guard at
    exactly the times before the expiration it asked for. *)
Theorem reserve_owns slot auth lease now d g d' t :
  reachable d -> reserve slot auth lease now d = Ok (g, d') ->
  fence d' g t = if (Z.max t now <? lr_expires_at_ns lease)%Z
                 then Ok Reserved else Err StaleAttempt.
Proof.
  intros Hd E.
  destruct (reserve_Ok _ _ _ _ _ _ _ E) as (_ & _ & Hnext & _ & Hnow & Hslot & Hrev & Hupd &
    Hlease & Howner & d1 & d2 & details & a & Ha & E1 & E2 & E3).
  destruct (reserved_Ok _ _ _ _ _ _ _ _ _ _ E1 E2 E3)
    as (l & e & u & Hnew & _ & _ & _ & _ & _ & Hfresh & Hla & Hlp & Hlr & Hlo & _ & Hle & _ & _ &
        Hd' & _).
  assert (guards d' g a l) as Hg.
  { subst d' a. constructor; simpl; rewrite ?Hlease, ?lookup_insert_eq; try done.
    - unfold slot_text. by rewrite Hslot.
    - by rewrite Howner.
    - split_and!; [|rewrite Hrev; by vm_compute|by rewrite Hupd].
      by destruct (next_retry_Ok d (to_string slot) _ ltac:(intros k b Hb;
        apply (hi_row _ (reachable_history _ Hd) _ _ Hb)) Hnext) as ([_ ?] & _). }
  rewrite (fence_unclaimed _ _ _ _ _ Hg).
  - rewrite Hle, Hupd. by subst a.
  - subst d'. simpl. intros s c Hc Heq.
    destruct (co_claim _ (reachable_claims _ Hd) s c Hc) as (b & Hb & _). congruence.
Qed.

Lemma advance_Ok g phase now d g' d' :
  advance g phase now d = Ok (g', d') ->
  exists a l e t, guards d g a l /\
    fence d g now = Ok (att_state a) /\
    (now <= i64_max)%Z /\
    transition_effect g (att_state a) (InPhase phase) (Z.max now (oa_updated_at_ns g)) None None
      a e t d d' /\
    (oa_revision g + 1 <= MAX_SAFE_INTEGER)%Z /\
    g' = {| oa_id := oa_id g; oa_slot := oa_slot g; oa_retry_index := oa_retry_index g;
            oa_revision := oa_revision g + 1;
            oa_updated_at_ns := Z.max now (oa_updated_at_ns g);
            oa_lease_id := oa_lease_id g; oa_owner_token := oa_owner_token g |}.
Proof.
  unfold advance. intros E.
  apply bind_Ok in E as (n & [-> Hnow]%timestamp_Ok & E). apply bind_Ok in E as (s & Hf & E).
  apply bind_Ok in E as ([g1 d1] & Ht & E). apply bind_Ok in E as (d2 & [-> _]%commit_Ok & [= <- <-]).
  destruct (fence_guards _ _ _ _ Hf) as (a & l & Hg & <- & _).
  destruct (transition_Ok _ _ _ _ _ _ _ _ _ Ht) as (old & e & t & Heff & Hsafe & ->).
  pose proof (te_row _ _ _ _ _ _ _ _ _ _ _ Heff) as Hrow. rewrite (gd_row _ _ _ _ Hg) in Hrow.
  injection Hrow as <-. exists a, l, e, t. split_and!; try done.
Qed.

(** A transition hands the attempt from one guard to the next: [advance]
    succeeds only along an edge of the lifecycle, changes the row of its own
    attempt only, and from then on the fence admits the returned guard, in the
    new state, until the reservation lease expires, and the old guard never. *)
Theorem advance_hands_over g phase now d g' d' :
  reachable d -> advance g phase now d = Ok (g', d') ->
  exists a l, fence d g now = Ok (att_state a) /\ allowed_edge (att_state a) (InPhase phase) = true /\
    leases d !! oa_lease_id g = Some l /\
    attempts d' = <[id_text g := moved a (InPhase phase) (oa_revision g + 1)
                                   (Z.max now (oa_updated_at_ns g)) None None]> (attempts d) /\
    leases d' = leases d /\ finalization_claims d' = finalization_claims d /\
    oa_revision g' = (oa_revision g + 1)%Z /\
    (forall t, fence d' g' t = if (Z.max t (oa_updated_at_ns g') <? le_expires l)%Z
                               then Ok (InPhase phase) else Err StaleAttempt) /\
    (forall t s, fence d' g t <> Ok s).
Proof.
  intros Hd E.
  destruct (advance_Ok _ _ _ _ _ _ E) as (a & l & e & t & Hg & Hf & Hrange & Heff & Hsafe & ->).
  destruct (transition_effect_edge _ _ _ _ _ _ _ _ _ _ _ (reachable_history _ Hd) Heff)
    as (_ & Hedge & _).
  pose proof (te_db _ _ _ _ _ _ _ _ _ _ _ Heff) as Hd'.
  set (g' := Build_OwnedAttempt _ _ _ _ _ _ _).
  set (a' := moved a (InPhase phase) (oa_revision g + 1) (Z.max now (oa_updated_at_ns g)) None None).
  assert (attempts d' !! id_text g = Some a') as Ha'
    by (rewrite Hd'; simpl; by rewrite lookup_insert_eq).
  assert (guards d' g' a' l) as Hg'.
  { destruct Hg. constructor; try done; rewrite ?Hd'; simpl; try done.
    unfold MAX_SAFE_INTEGER, i64_max in *. lia. }
  exists a, l. split; [done|]. split; [done|]. split; [apply Hg|].
  split; [by rewrite Hd'|]. split; [by rewrite Hd'|]. split; [by rewrite Hd'|]. split; [done|].
  split.
  - intros u. apply (fence_unclaimed _ _ _ _ u Hg'). intros s c. rewrite Hd'. simpl. intros Hc Heq.
    destruct (co_claim _ (reachable_claims _ Hd) s c Hc) as (b & Hb & _ & Hfin).
    rewrite Heq in Hb. change (id_text g') with (id_text g) in Hb.
    rewrite (gd_row _ _ _ _ Hg) in Hb. injection Hb as <-. rewrite Hfin in Hedge. by destruct phase.
  - intros u s Hs. eapply (fence_revision d' g u a' Ha'); [simpl; lia|eauto].
Qed.

(** Renewal extends ownership to exactly the new expiration: [renew]
    changes no table but the leases, gives precisely the live reservation and
    finalization leases of the attempt and its unexpired stages the new
    expiration, which no lease of them exceeded and which all belong to the
    guard's owner, and from then on the fence admits the guard until then. *)
Theorem renew_extends g expires now d d' :
  reachable d -> renew g expires now d = Ok d' ->
  let t0 := Z.max now (oa_updated_at_ns g) in
  d' = set_leases (leases d') d /\
  (forall key, leases d' !! key =
     (fun l => if renews (id_text g) t0 l then extend_lease expires l else l) <$> leases d !! key) /\
  (forall key l, leases d !! key = Some l -> renews (id_text g) t0 l = true ->
     le_owner l = oa_owner_token g /\ (le_expires l <= expires)%Z) /\
  exists s, fence d g now = Ok s /\
    forall t, fence d' g t = if (Z.max t (oa_updated_at_ns g) <? expires)%Z
                             then Ok s else Err StaleAttempt.
Proof.
  intros Hd E t0. unfold renew in E.
  apply bind_Ok in E as (n & [-> _]%timestamp_Ok & E).
  apply bind_Ok in E as (x & [-> _]%timestamp_Ok & E).
  destruct (expires <=? now)%Z; [done|]. apply bind_Ok in E as (s & Hf & E).
  apply bind_Ok in E as (u & [-> _]%timestamp_Ok & E).
  apply bind_Ok in E as (d1 & E & [Heq _]%commit_Ok). subst d1.
  destruct (renewable_keys d (id_text g) t0) as (Hnd & Hin & Hall).
  destruct (renew_fold _ _ _ _ _ _ Hnd E) as (Hext & Hd' & Hrows).
  assert (forall key, leases d' !! key =
     (fun l => if renews (id_text g) t0 l then extend_lease expires l else l) <$> leases d !! key)
    as Hleases.
  { intros key. rewrite Hext. destruct (leases d !! key) as [l|] eqn:Hl; simpl; [|done].
    destruct (renews (id_text g) t0 l) eqn:Hr.
    - rewrite bool_decide_eq_true_2; [done|]. apply Hin. eauto.
    - rewrite bool_decide_eq_false_2; [done|]. intros (m & Hm & Hmr)%Hin. congruence. }
  split; [done|]. split; [done|]. split.
  { intros key l Hl Hr. destruct (Hrows _ (Hall key l Hl Hr)) as (Hle & m & Hm & Ho).
    simpl in *. by simplify_eq. }
  exists s. split; [done|].
  destruct (fence_guards _ _ _ _ Hf) as (a & l & Hg & <- & Ht & Hlapsed).
  assert (guards d' g a (extend_lease expires l)) as Hg'.
  { pose proof Hg as [? ? ? ? ? Hl Hla Ho Hp Hlive ?]. constructor; try done;
      [by rewrite Hd'|]. rewrite Hleases, Hl. simpl. unfold renews, held_by.
    by rewrite Hla, Hp, Hlive, !bool_decide_eq_true_2 by done. }
  intros t. rewrite (fence_spec _ _ _ _ t Hg'). simpl.
  destruct (_ <? expires)%Z eqn:Hexp; [|done]. simpl.
  replace (claim_lapsed d' _ _ _) with false; [done|]. symmetry.
  unfold claim_lapsed in *. rewrite Hd'. simpl. rewrite exists_row_false in *.
  intros slot c Hc. specialize (Hlapsed slot c Hc).
  destruct (String.eqb_spec (cl_attempt c) (id_text g)) as [Heq|]; [|done]. simpl in *.
  destruct (co_lease _ (reachable_claims _ Hd) slot c Hc) as (f & Hf' & Hfa & Hfp).
  rewrite Hleases, Hf'. rewrite Hf' in Hlapsed. simpl. bools. unfold renews, held_by.
  rewrite Hfa, Heq, Hfp. rewrite !(bool_decide_eq_true_2 (_ = _)) by done. simpl.
  destruct (le_released f) as [r|] eqn:Hfr; [exfalso; eauto|]. simpl.
  rewrite Hfr.
  match goal with F : String.eqb _ _ = true |- _ => rewrite F end. simpl.
  rewrite Z.leb_gt. bools. done.
Qed.
End Guards.

(** ** Witnesses *)

Lemma reserve_owns_witness :
  fence reserved.2 reserved.1 99 = Ok Reserved /\ fence reserved.2 reserved.1 100 = Err StaleAttempt.
Proof.
  split.
  - exact (@reserve_owns model (id slot) FirstAttempt (lease_request "first" 100) 10 registered
      reserved.1 reserved.2 99 registered_reachable reserved_ok).
  - exact (@reserve_owns model (id slot) FirstAttempt (lease_request "first" 100) 10 registered
      reserved.1 reserved.2 100 registered_reachable reserved_ok).
Defined.

Lemma advance_hands_over_witness :
  leases materializing.2 = leases competing.2 /\
  (exists l, leases competing.2 !! oa_lease_id reserved.1 = Some l) /\
  fence materializing.2 reserved.1 13 <> Ok Reserved.
Proof.
  destruct (@advance_hands_over model reserved.1 Materializing 12 competing.2 materializing.1
    materializing.2 competing_reachable materializing_ok)
    as (a & l & _ & _ & Hl & _ & Hleases & _ & _ & _ & Hstale).
  split; [exact Hleases|]. split; [exists l; exact Hl|]. exact (Hstale 13%Z Reserved).
Defined.

Lemma renew_extends_witness :
  exists s, fence claimed.2 (fin_attempt claimed.1) 19 = Ok s /\
    fence renewed (fin_attempt claimed.1) 199 = Ok s /\
    fence renewed (fin_attempt claimed.1) 200 = Err StaleAttempt.
Proof.
  destruct (@renew_extends model (fin_attempt claimed.1) 200 19 claimed.2 renewed
    claimed_reachable renewed_ok) as (_ & _ & _ & s & Hs & Hf).
  exists s. split; [exact Hs|].
  assert (oa_updated_at_ns (fin_attempt claimed.1) = 18%Z) as Ht by (vm_compute; reflexivity).
  split; rewrite Hf, Ht; reflexivity.
Defined.
