(* ===== verification/Finalization.v ===== *)
(** * Finalization

    Who gets the success claim, what a terminal commit leaves behind, and what
    an accepted attempt has to have produced. *)
From S2P Require Import Prelude Json Canonical Identity ThirdPartyModel Profile Records.
From S2P Require Import RunDocuments Store Attempts Fresh RunStore Publisher Recovery Coordination.
From S2P Require Import Statements History Claims Scenario Lifecycle Ownership Guards.
From Stdlib Require Import Ascii.

(** A slot whose claim can be taken: nobody holds it and nobody was accepted. *)
Definition open_slot (d : db) (slot : string) : Prop :=
  finalization_claims d !! slot = None /\
  forall k b, attempts d !! k = Some b -> att_slot b = slot -> att_state b <> Accepted.

Lemma satisfied_false d slot :
  satisfied d slot = false <->
  forall k b, attempts d !! k = Some b -> att_slot b = slot -> att_state b <> Accepted.
Proof.
  rewrite <-not_true_iff_false, satisfied_spec. split.
  - intros Hn k b Hk Hs Ha. apply Hn. eauto.
  - intros Hn (k & b & Hk & Hs & Ha). by apply (Hn k b).
Qed.

Lemma open_slot_spec d slot :
  has_key slot (finalization_claims d) || satisfied d slot = false <-> open_slot d slot.
Proof. by rewrite orb_false_iff, has_key_false, satisfied_false. Qed.

(** A claim just granted lapses with its own lease. *)
Lemma single_claim_lapsed d slot c id owner f t (claims : gmap string claim_row) :
  finalization_claims d = <[slot := c]> claims ->
  (forall s x, claims !! s = Some x -> cl_attempt x <> id) ->
  cl_attempt c = id -> leases d !! cl_lease c = Some f -> le_owner f = owner ->
  le_released f = None -> claim_lapsed d id owner t = (le_expires f <=? t)%Z.
Proof.
  intros Hc Hno Hid Hf Ho Hr. unfold claim_lapsed. rewrite Hc.
  destruct (le_expires f <=? t)%Z eqn:Ht.
  - apply exists_row_spec. exists slot, c. rewrite lookup_insert_eq. split; [done|].
    by rewrite Hid, String.eqb_refl, Hf, Ht, orb_true_r.
  - apply exists_row_false. intros s x. destruct (decide (s = slot)) as [->|Hne].
    + rewrite lookup_insert_eq. intros [= <-].
      by rewrite Hid, String.eqb_refl, Hf, Ho, Hr, Ht, String.eqb_refl, bool_decide_eq_false_2
        by (by intros [? ?]).
    + rewrite lookup_insert_ne by done. intros Hx.
      destruct (String.eqb_spec (cl_attempt x) id) as [Heq|]; [|done]. by destruct (Hno s x Hx).
Qed.

Lemma ltb_min a b c : (a <? Z.min b c)%Z = (a <? b)%Z && (a <? c)%Z.
Proof.
  destruct (Z.ltb_spec a b), (Z.ltb_spec a c), (Z.ltb_spec a (Z.min b c)); simpl; done || lia.
Qed.

Section Finalizations.
Context `{ThirdParty}.

Lemma begin_finalization_Ok g lease now d f d' :
  begin_finalization g lease now d = Ok (f, d') ->
  let t0 := Z.max now (oa_updated_at_ns g) in
  lr_owner_token lease = oa_owner_token g /\
  exists a l e t d1, guards d g a l /\
    transition_effect g (att_state a) (InPhase Finalizing) t0 None None a e t d d1 /\
    (oa_revision g + 1 <= MAX_SAFE_INTEGER)%Z /\ (t0 <= i64_max)%Z /\
    fin_attempt f = {| oa_id := oa_id g; oa_slot := oa_slot g; oa_retry_index := oa_retry_index g;
            oa_revision := oa_revision g + 1; oa_updated_at_ns := t0;
            oa_lease_id := oa_lease_id g; oa_owner_token := oa_owner_token g |} /\
    fin_disposition f = (if has_key (slot_text g) (finalization_claims d) ||
                            satisfied d (slot_text g) then SupersededClaim else Claimed) /\
    match fin_disposition f with
    | Claimed => exists d2, insert_lease (id_text g) Store.Finalization lease t0 d1 = Ok d2 /\
        insert_claim (slot_text g) {| cl_attempt := id_text g; cl_lease := lr_id lease |} d2 = Ok d'
    | SupersededClaim => d' = d1
    end.
Proof.
  unfold begin_finalization. intros E.
  apply bind_Ok in E as (n & [-> Hn]%timestamp_Ok & E).
  apply bind_Ok in E as (u & [-> Hu]%timestamp_Ok & E). apply bind_Ok in E as ([] & _ & E).
  apply bind_Ok in E as ([] & Ho%ensure_Ok%String.eqb_eq & E). apply bind_Ok in E as (s & Hf & E).
  apply bind_Ok in E as ([g1 d1] & Ht & E). apply bind_Ok in E as (d2 & Hclaim & E).
  apply bind_Ok in E as (d3 & [-> _]%commit_Ok & [= <- <-]).
  destruct (fence_guards _ _ _ _ Hf) as (a & l & Hg & <- & _).
  destruct (transition_Ok _ _ _ _ _ _ _ _ _ Ht) as (old & e & t & Heff & Hsafe & ->).
  pose proof (te_row _ _ _ _ _ _ _ _ _ _ _ Heff) as Hrow. rewrite (gd_row _ _ _ _ Hg) in Hrow.
  injection Hrow as <-. rewrite <-Z.max_assoc, Z.max_id in *.
  split; [done|]. exists a, l, e, t, d1. simpl.
  split; [done|]. split; [done|]. split; [done|]. split; [lia|]. split; [done|]. split; [done|].
  destruct (_ || _); simpl in *; [by injection Hclaim as ->|].
  apply bind_Ok in Hclaim as (d3 & Hl & Hc). eauto.
Qed.

(** C9: the success claim is decided once and for all when an attempt enters
    finalizing: it is granted exactly when the slot is open, the grant records
    the claim under a lease of the guard's owner, a refusal leaves claims and
    leases alone, and the fence admits the returned guard until the first of the
    leases that now back it expires. *)
Theorem begin_finalization_decides g lease now d f d' :
  reachable d -> begin_finalization g lease now d = Ok (f, d') ->
  let t0 := Z.max now (oa_updated_at_ns g) in
  (fin_disposition f = Claimed <-> open_slot d (slot_text g)) /\
  exists a l, guards d g a l /\
    attempts d' = <[id_text g := moved a (InPhase Finalizing) (oa_revision g + 1) t0 None None]>
                    (attempts d) /\
    match fin_disposition f with
    | Claimed =>
        finalization_claims d' = <[slot_text g := {| cl_attempt := id_text g;
                                     cl_lease := lr_id lease |}]> (finalization_claims d) /\
        (forall t, fence d' (fin_attempt f) t =
           if (Z.max t t0 <? Z.min (le_expires l) (lr_expires_at_ns lease))%Z
           then Ok (InPhase Finalizing) else Err StaleAttempt)
    | SupersededClaim =>
        finalization_claims d' = finalization_claims d /\ leases d' = leases d /\
        (forall t, fence d' (fin_attempt f) t =
           if (Z.max t t0 <? le_expires l)%Z then Ok (InPhase Finalizing) else Err StaleAttempt)
    end.
Proof.
  intros Hd E t0.
  destruct (begin_finalization_Ok _ _ _ _ _ _ E)
    as (Ho & a & l & e & t & d1 & Hg & Heff & Hsafe & Hmax & Hfin & Hdisp & Hclaim).
  fold t0 in Heff, Hmax, Hfin, Hclaim. split.
  { rewrite Hdisp, <-open_slot_spec. by destruct (_ || _). }
  exists a, l. split; [done|].
  pose proof (te_db _ _ _ _ _ _ _ _ _ _ _ Heff) as Hd1.
  destruct (transition_effect_edge _ _ _ _ _ _ _ _ _ _ _ (reachable_history _ Hd) Heff)
    as (_ & Hedge & _).
  assert (forall slot c, finalization_claims d !! slot = Some c -> cl_attempt c <> id_text g) as Hno.
  { intros s c Hc Heq. destruct (co_claim _ (reachable_claims _ Hd) s c Hc) as (b & Hb & _ & Hfb).
    rewrite Heq, (gd_row _ _ _ _ Hg) in Hb. injection Hb as <-. by rewrite Hfb in Hedge. }
  set (a' := moved a (InPhase Finalizing) (oa_revision g + 1) t0 None None) in *.
  assert (forall x, attempts x = attempts d1 -> leases x !! oa_lease_id g = Some l ->
    guards x (fin_attempt f) a' l) as Hguard.
  { intros x Hx Hl. rewrite Hfin. destruct Hg. constructor; try done; simpl; [|].
    - rewrite Hx, Hd1. simpl. by rewrite lookup_insert_eq.
    - unfold MAX_SAFE_INTEGER, i64_max in *. lia. }
  destruct (fin_disposition f).
  - destruct Hclaim as (d2 & Hl & Hc). apply insert_lease_Ok in Hl as (Hnew & -> & _).
    apply insert_claim_Ok in Hc as (-> & _). subst d1. simpl in *.
    split; [done|]. split; [done|]. intros u.
    assert (lr_id lease <> oa_lease_id g) as Hne.
    { intros Heq. rewrite Heq, (gd_lease _ _ _ _ Hg) in Hnew. done. }
    match goal with |- fence ?x _ _ = _ => rewrite (fence_spec x (fin_attempt f) a' l) end;
      [|apply Hguard; [done|]; simpl; rewrite lookup_insert_ne; [apply Hg|done]].
    rewrite Hfin. simpl. set (T := Z.max u t0).
    match goal with |- context [claim_lapsed ?x _ _ _] =>
      rewrite (single_claim_lapsed x (slot_text g)
        {| cl_attempt := id_text g; cl_lease := lr_id lease |} _ _
        {| le_owner := lr_owner_token lease; le_attempt := Some (id_text g);
           le_purpose := Store.Finalization; le_staging := None; le_acquired := t0;
           le_expires := lr_expires_at_ns lease; le_released := None |} T
        (finalization_claims d)) end; simpl; try done; [|by rewrite lookup_insert_eq].
    rewrite Z.leb_antisym, negb_involutive, <-ltb_min. done.
  - subst d' d1. simpl in *. split; [done|]. split; [done|]. split; [done|]. intros u.
    match goal with |- fence ?x _ _ = _ => rewrite (fence_unclaimed x (fin_attempt f) a' l) end.
    + by rewrite Hfin.
    + apply Hguard; [done|apply Hg].
    + rewrite Hfin. exact Hno.
Qed.

(** ** Terminal commit *)

Lemma try_fold_exec {A} (f : db -> A -> M db) :
  (forall d x d', f d x = Ok d' -> exec d' = exec d) ->
  forall l d d', try_fold f d l = Ok d' -> exec d' = exec d.
Proof.
  intros Hf l. induction l as [|x l IH]; simpl; intros d d' E; [by injection E as ->|].
  apply bind_Ok in E as (d1 & E1 & E). rewrite (IH _ _ E). by eapply Hf.
Qed.
Lemma select_observation_exec slot r d d' : select_observation slot r d = Ok d' -> exec d' = exec d.
Proof. unfold select_observation. intros E. by op_inv. Qed.
Lemma select_produced_exec id t d d' : select_produced id t d = Ok d' -> exec d' = exec d.
Proof. apply try_fold_exec. intros. by eapply select_observation_exec. Qed.
Lemma insert_attempt_artifact_exec a r i d d' :
  insert_attempt_artifact a r i d = Ok d' -> exec d' = exec d.
Proof. unfold insert_attempt_artifact. intros E. by op_inv. Qed.
Lemma insert_artifact_exec k r d d' : insert_artifact k r d = Ok d' -> exec d' = exec d.
Proof. unfold insert_artifact. intros E. by op_inv. Qed.
Lemma finish_exec g o d d' : finish g o d = Ok d' -> exec d' = exec d.
Proof. unfold finish, insert_dispositions. intros E. by op_inv. Qed.

Lemma commit_terminal_Ok g o art refs now checked d r d' :
  commit_terminal_in g o art refs now checked d = Ok (r, d') ->
  let t0 := Z.max now (oa_updated_at_ns g) in
  exists d0 details d1 d2 row,
    exec d0 = exec d /\
    transition g (InPhase Finalizing) (Outcome.state o) t0 details
      (Some {| tp_artifact_id := ar_id art; tp_failure_code := Outcome.failure_code o |}) d0
      = Ok ({| oa_id := oa_id g; oa_slot := oa_slot g; oa_retry_index := oa_retry_index g;
               oa_revision := oa_revision g + 1; oa_updated_at_ns := t0;
               oa_lease_id := oa_lease_id g; oa_owner_token := oa_owner_token g |}, d1) /\
    find_transition (id_text g) (oa_revision g + 1) d1 = Some row /\
    delete_claims (id_text g) d1 = Ok d2 /\
    release_leases (id_text g) (Z.max checked t0) d2 = Ok d' /\
    r = {| ta_id := oa_id g; ta_outcome := o; ta_finished_at_ns := t0;
           ta_event_sequence := tr_event row |}.
Proof.
  unfold commit_terminal_in. intros E.
  apply bind_Ok in E as (da & Ea & E). apply bind_Ok in E as (n & [-> _]%timestamp_Ok & E).
  apply bind_Ok in E as (u & [-> _]%timestamp_Ok & E).
  apply bind_Ok in E as (c & [-> _]%timestamp_Ok & E). apply bind_Ok in E as (v & _ & E).
  apply bind_Ok in E as ([] & _ & E). apply bind_Ok in E as (db & Eb & E).
  apply bind_Ok in E as (details & _ & E). apply bind_Ok in E as (dc & Ec & E).
  apply bind_Ok in E as (dd & Ed & E). apply bind_Ok in E as (d0 & E0 & E).
  apply bind_Ok in E as ([g' d1] & E1 & E). apply bind_Ok in E as (rev & [-> _]%timestamp_Ok & E).
  apply bind_Ok in E as (row & Hrow & E). apply bind_Ok in E as (d2 & E2 & E).
  apply bind_Ok in E as (d3 & E3 & [= <- <-]).
  destruct (transition_Ok _ _ _ _ _ _ _ _ _ E1) as (_ & _ & _ & _ & _ & ->).
  rewrite <-Z.max_assoc, Z.max_id in *. simpl in *.
  destruct (find_transition _ _ d1) as [x|] eqn:Hx; [|done]. injection Hrow as ->.
  exists d0, details, d1, d2, row. split; [|done].
  apply (try_fold_exec _ (fun _ _ _ => insert_attempt_artifact_exec _ _ _ _ _)) in E0.
  rewrite E0, (insert_attempt_artifact_exec _ _ _ _ _ Ed), (insert_artifact_exec _ _ _ _ Ec),
    (finish_exec _ _ _ _ Eb).
  destruct (Outcome.is_accepted o); [|by injection Ea as ->].
  apply bind_Ok in Ea as (s & _ & Ea). destruct (is_profile_kind _); [|by injection Ea as ->].
  apply bind_Ok in Ea as (? & _ & Ea). by eapply select_produced_exec.
Qed.

(** C10: a terminal commit is complete: it puts the attempt in the state of its
    outcome at the next revision with finish time, failure code and artifact
    recorded, touches no other attempt, drops its claim, releases every lease it
    held, and its receipt points at the event of that time that records the
    finish. *)
Theorem commit_terminal_complete g o art refs now checked d r d' :
  reachable d -> commit_terminal_in g o art refs now checked d = Ok (r, d') ->
  exists a, attempts d !! id_text g = Some a /\ att_state a = InPhase Finalizing /\
    attempts d' = <[id_text g := moved a (Outcome.state o) (oa_revision g + 1)
      (Z.max now (oa_updated_at_ns g)) (Outcome.failure_code o) (Some (ar_id art))]> (attempts d) /\
    (forall slot c, finalization_claims d' !! slot = Some c <->
       finalization_claims d !! slot = Some c /\ cl_attempt c <> id_text g) /\
    (forall key l, leases d' !! key = Some l -> le_attempt l = Some (id_text g) ->
       is_Some (le_released l)) /\
    (o = Outcome.Accepted -> exists c, finalization_claims d !! att_slot a = Some c /\
       cl_attempt c = id_text g) /\
    ta_finished_at_ns r = Z.max now (oa_updated_at_ns g) /\
    exists e, events d' !! Z.to_nat (ta_event_sequence r - 1) = Some e /\
      ev_attempt e = Some (id_text g) /\ ev_kind e = "attempt_finished" /\
      ev_at e = ta_finished_at_ns r.
Proof.
  intros Hd E.
  destruct (commit_terminal_Ok _ _ _ _ _ _ _ _ _ E)
    as (d0 & details & d1 & d2 & row & Hexec & E1 & Hrow & E2 & E3 & ->).
  apply transition_Ok in E1 as (a & e & t & Heff & _ & _). simpl in Heff.
  rewrite <-Z.max_assoc, Z.max_id in Heff.
  assert (attempts d0 = attempts d /\ events d0 = events d /\ leases d0 = leases d /\
    attempt_transitions d0 = attempt_transitions d /\
    finalization_claims d0 = finalization_claims d) as (Ha & He & Hl & Ht & Hc)
    by (unfold attempts, events, leases, attempt_transitions, finalization_claims; by rewrite Hexec).
  assert (history d0) as Hh
    by (eapply history_same; [|apply (reachable_history _ Hd)]; by constructor; rewrite ?He).
  destruct (transition_effect_edge _ _ _ _ _ _ _ _ _ _ _ Hh Heff) as (Hstate & _).
  pose proof (te_row _ _ _ _ _ _ _ _ _ _ _ Heff) as Hrow'.
  pose proof (te_claim _ _ _ _ _ _ _ _ _ _ _ Heff) as Hclaim.
  pose proof (te_event _ _ _ _ _ _ _ _ _ _ _ Heff) as (Hea & Het & Hek).
  pose proof (te_transition _ _ _ _ _ _ _ _ _ _ _ Heff) as (Hta & Htr & _ & _ & _ & Hte).
  pose proof (ins_new _ _ (te_inserted _ _ _ _ _ _ _ _ _ _ _ Heff)) as Hnew.
  pose proof (te_revision _ _ _ _ _ _ _ _ _ _ _ Heff) as Hrev.
  pose proof (hi_row _ Hh _ _ Hrow') as (Hpos & _).
  pose proof (te_db _ _ _ _ _ _ _ _ _ _ _ Heff) as Hd1.
  apply delete_claims_Ok in E2 as ->. apply release_leases_Ok in E3 as ->.
  assert (row = t) as ->.
  { apply find_transition_Some in Hrow as (Hin & Hra & Hrr). rewrite Hd1 in Hin. simpl in Hin.
    apply elem_of_app in Hin as [Hin|Hin]; [|by apply list_elem_of_singleton in Hin].
    exfalso. eapply (find_transition_None _ _ _ row Hnew); simpl; [done|congruence|congruence]. }
  rewrite <-Ha, <-Hc. exists a. subst d1. simpl. split; [done|]. split; [done|]. split; [done|].
  split; [intros slot c; by rewrite map_lookup_filter_Some|]. split.
  { intros key l. rewrite lookup_fmap, fmap_Some. intros (m & Hm & ->) Hid.
    unfold held_by in *. destruct (le_released m) eqn:Hr.
    - rewrite (bool_decide_eq_false_2 (Some _ = None)), andb_false_r by done. by rewrite Hr.
    - rewrite (bool_decide_eq_true_2 (None = None)), andb_true_r in * by done.
      case_bool_decide; [by eexists|done]. }
  split; [by intros ->; apply Hclaim|]. split; [done|].
  exists e. rewrite Hte. split; [|split; [done|split; [|done]]].
  - replace (Z.to_nat _) with (length (events d0)) by lia.
    by rewrite lookup_app_r, Nat.sub_diag by lia.
  - rewrite Hek. unfold event_kind. destruct (Z.eqb_spec (oa_revision g + 1) 0); [lia|].
    by destruct o.
Qed.
End Finalizations.

(** ** Witnesses *)

Lemma begin_finalization_decides_witness :
  open_slot evaluating.2 (slot_text evaluating.1) /\
  (exists c, finalization_claims claimed.2 !! slot_text evaluating.1 = Some c).
Proof.
  destruct (@begin_finalization_decides model evaluating.1 (lease_request "claim" 100) 18
    evaluating.2 claimed.1 claimed.2 evaluating_reachable claimed_ok)
    as ([Hopen _] & a & l & _ & _ & Hclaim).
  assert (fin_disposition claimed.1 = Claimed) as Hdisp by (vm_compute; reflexivity).
  split; [exact (Hopen Hdisp)|]. rewrite Hdisp in Hclaim. destruct Hclaim as [Hclaims _].
  rewrite Hclaims, lookup_insert_eq. eexists. reflexivity.
Defined.

Lemma commit_terminal_complete_witness :
  ta_finished_at_ns terminal.1 = 20%Z /\
  exists e, events terminal.2 !! Z.to_nat (ta_event_sequence terminal.1 - 1) = Some e /\
    ev_kind e = "attempt_finished".
Proof.
  destruct (@commit_terminal_complete model (fin_attempt claimed.1) Outcome.Accepted
    (tree "final" "attempt") [] 20 20 selected terminal.1 terminal.2 selected_reachable terminal_ok)
    as (a & _ & _ & _ & _ & _ & _ & Hfin & e & He & _ & Hk & _).
  assert (oa_updated_at_ns (fin_attempt claimed.1) = 18%Z) as Ht by (vm_compute; reflexivity).
  split; [rewrite Hfin, Ht; reflexivity|]. exists e. split; [exact He|exact Hk].
Defined.
