(* ===== verification/Exclusion.v ===== *)
(** * Recovery and owners exclude each other

    An attempt has one reservation lease in its life; as long as it and the
    lease of the attempt's claim are live, no pass of recovery touches the
    attempt. *)
From S2P Require Import Prelude Json Canonical Identity ThirdPartyModel Profile Records.
From S2P Require Import RunDocuments Store Attempts Fresh RunStore Publisher Recovery Coordination.
From S2P Require Import Statements History Claims Scenario Lifecycle Ownership Guards.
From Stdlib Require Import Ascii.

Record leases_ok (d : db) : Prop := {
  lo_attempt k l id : leases d !! k = Some l -> le_attempt l = Some id ->
    is_Some (attempts d !! id);
  lo_unique j k l m id : leases d !! j = Some l -> leases d !! k = Some m ->
    le_purpose l = Reservation -> le_purpose m = Reservation ->
    le_attempt l = Some id -> le_attempt m = Some id -> j = k;
  lo_staging k l p : leases d !! k = Some l -> le_staging l = Some p -> le_purpose l = Staging;
  lo_path j k l m p : leases d !! j = Some l -> leases d !! k = Some m ->
    le_staging l = Some p -> le_staging m = Some p -> j = k;
}.

(** The leases of [d'] are those of [d], evolved. *)
Definition leases_old (d d' : db) : Prop :=
  forall key l', leases d' !! key = Some l' ->
    exists l, leases d !! key = Some l /\ lease_evolves l l'.

Lemma leases_old_same d d' : leases d' = leases d -> leases_old d d'.
Proof. intros E key l Hl. rewrite E in Hl. eauto using lease_evolves_refl. Qed.
Lemma leases_old_set d d' key l m :
  leases d !! key = Some l -> leases d' = <[key := m]> (leases d) -> lease_evolves l m ->
  leases_old d d'.
Proof.
  intros Hl E He k x Hx. rewrite E in Hx. destruct (decide (k = key)) as [->|Hne].
  - rewrite lookup_insert_eq in Hx. simplify_eq. eauto.
  - rewrite lookup_insert_ne in Hx by done. eauto using lease_evolves_refl.
Qed.

(** A new lease is held by an existing attempt, only an attempt that did not
    exist before gets a reservation lease, and only a staging lease has a path,
    which is new. *)
Record lease_entitled (d d' : db) (l : lease_row) : Prop := {
  en_attempt id : le_attempt l = Some id -> is_Some (attempts d' !! id);
  en_new id : le_attempt l = Some id -> le_purpose l = Reservation -> attempts d !! id = None;
  en_staging p : le_staging l = Some p -> le_purpose l = Staging /\
    forall k m, leases d !! k = Some m -> le_staging m <> Some p;
}.

Lemma leases_insert_ok d d' key l :
  (forall k, is_Some (attempts d !! k) -> is_Some (attempts d' !! k)) ->
  leases d' = <[key := l]> (leases d) -> lease_entitled d d' l -> leases_ok d -> leases_ok d'.
Proof.
  intros Hmono E [Hatt Hnew Hpath] [Ha Hu Hs Hp]. constructor.
  - intros k m i. rewrite E. destruct (decide (k = key)) as [->|Hne].
    + rewrite lookup_insert_eq. intros [= <-]. apply Hatt.
    + rewrite lookup_insert_ne by done. eauto.
  - assert (forall k m i, leases d !! k = Some m -> le_purpose l = Reservation ->
      le_attempt l = Some i -> le_attempt m = Some i -> False) as Hno.
    { intros k m i Hm Hpl Hli Hmi. destruct (Ha _ _ _ Hm Hmi) as [x Hx].
      by rewrite (Hnew _ Hli Hpl) in Hx. }
    intros j k x y i. rewrite E.
    destruct (decide (j = key)) as [->|Hj], (decide (k = key)) as [->|Hk];
      rewrite ?lookup_insert_eq, ?lookup_insert_ne by done; try done.
    + intros [= <-] Hy Hpl _ Hl Hm. exfalso. eauto.
    + intros Hx [= <-] _ Hpl Hl Hm. exfalso. eauto.
    + eauto.
  - intros k m p. rewrite E. destruct (decide (k = key)) as [->|Hne].
    + rewrite lookup_insert_eq. intros [= <-] Hl. by destruct (Hpath _ Hl).
    + rewrite lookup_insert_ne by done. eauto.
  - intros j k x y p. rewrite E.
    destruct (decide (j = key)) as [->|Hj], (decide (k = key)) as [->|Hk];
      rewrite ?lookup_insert_eq, ?lookup_insert_ne by done; try done.
    + intros [= <-] Hy Hl Hm. destruct (Hpath _ Hl) as [_ Hno]. by destruct (Hno _ _ Hy).
    + intros Hx [= <-] Hl Hm. destruct (Hpath _ Hm) as [_ Hno]. by destruct (Hno _ _ Hx).
    + eauto.
Qed.

Lemma leases_old_ok d d' :
  (forall k, is_Some (attempts d !! k) -> is_Some (attempts d' !! k)) ->
  leases_old d d' -> leases_ok d -> leases_ok d'.
Proof.
  intros Hmono Hold [Ha Hu Hs Hp]. constructor.
  - intros k l' id (l & Hl & _ & Ea & _)%Hold Hid. rewrite Ea in Hid. eauto.
  - intros j k x y id (l & Hl & _ & El & Pl & _)%Hold (m & Hm & _ & Em & Pm & _)%Hold ? ? ? ?.
    apply (Hu j k l m id); congruence.
  - intros k x p (l & Hl & _ & _ & Pl & Sl & _)%Hold Hx. rewrite Pl. apply (Hs k l p); congruence.
  - intros j k x y p (l & Hl & _ & _ & _ & Sl & _)%Hold (m & Hm & _ & _ & _ & Sm & _)%Hold ? ?.
    apply (Hp j k l m p); congruence.
Qed.

Lemma insert_lease_row_attempt key l d d' id :
  insert_lease_row key l d = Ok d' -> le_attempt l = Some id -> is_Some (attempts d !! id).
Proof.
  unfold insert_lease_row, constraint. intros E Hid. op_inv; bools; rewrite ?Hid in *;
    try (by apply has_key_spec); done.
Qed.

Lemma insert_lease_row_entitled key l d d' :
  insert_lease_row key l d = Ok d' -> le_purpose l <> Reservation -> lease_entitled d d' l.
Proof.
  intros E Hp. constructor; [intros i Hi| |intros p Hi].
  - apply insert_lease_row_Ok in E as Hd. destruct Hd as (_ & -> & _).
    exact (insert_lease_row_attempt _ _ _ _ _ E Hi).
  - done.
  - unfold insert_lease_row, constraint in E. rewrite Hi in E. op_inv; bools. split; [done|].
    intros k m Hm Hmp. match goal with Hn : exists_row _ _ = false |- _ =>
      pose proof (proj1 (exists_row_false _ _) Hn _ _ Hm) as Hb end.
    simpl in Hb. by bools.
Qed.

Section Exclusion.
Context `{ThirdParty}.

Lemma stmt_leases_cases d d' :
  stmt d d' ->
  (exists key l, leases d' = <[key := l]> (leases d) /\ lease_entitled d d' l) \/ leases_old d d'.
Proof.
  destruct 1; try (right; unfold insert_event, insert_claim, insert_artifact,
    insert_attempt_artifact, insert_leased_artifact, insert_observation, select_observation,
    insert_decision, insert_run, insert_attempt_slot, insert_observation_slot, insert_membership,
    insert_sequence, insert_member, insert_budget, charge_budget, insert_dispositions,
    constraint in *; op_inv; apply leases_old_same; reflexivity).
  - left. match goal with E1 : insert_attempt _ _ _ = _, E2 : insert_lease _ _ _ _ _ = _,
      E3 : append_transition _ _ _ _ _ _ _ = _ |- _ =>
      destruct (reserved_Ok _ _ _ _ _ _ _ _ _ _ E1 E2 E3)
        as (l & e & t & Hnew & _ & _ & _ & _ & _ & _ & Hla & _ & _ & _ & _ & _ & Hstage & _ & -> & _) end.
    eexists _, l. split; [reflexivity|]. constructor.
    + intros k Hi. rewrite Hla in Hi. injection Hi as <-. simpl. by rewrite lookup_insert_eq.
    + intros k Hi _. rewrite Hla in Hi. by injection Hi as <-.
    + intros p Hi. congruence.
  - right. match goal with E : transition _ _ _ _ _ _ _ = _ |- _ =>
      apply transition_Ok in E as (old & e & t & Heff & _) end.
    rewrite (te_db _ _ _ _ _ _ _ _ _ _ _ Heff). by apply leases_old_same.
  - right. match goal with E1 : transition _ _ _ _ _ _ _ = _, E2 : delete_claims _ _ = _,
      E3 : release_leases _ _ _ = _ |- _ =>
      destruct (finish_db _ _ _ _ _ _ _ _ _ _ _ E1 E2 E3) as (_ & _ & _ & _ & _ & _ & Hl) end.
    intros key l. rewrite Hl, lookup_fmap, fmap_Some. intros (m & Hm & ->). exists m.
    split; [done|]. destruct (held_by (id_text g) m) eqn:Hh; [|apply lease_evolves_refl].
    unfold held_by in Hh. bools. by apply release_lease_evolves.
  - left. match goal with E : insert_lease_row _ _ _ = _ |- _ =>
      pose proof (insert_lease_row_entitled _ _ _ _ E) as Hent;
      apply insert_lease_row_Ok in E as (_ & -> & _) end.
    eexists _, l. split; [reflexivity|]. by apply Hent.
  - right. match goal with E : update_lease _ _ _ _ _ = _ |- _ =>
      apply update_lease_Ok in E as [[_ ->]|(l & _ & Hl & _ & Hr & _ & He & ->)] end.
    + by apply leases_old_same.
    + eapply leases_old_set; [done|done|]. repeat split; try done. rewrite Hr. by intros [? ?].
  - right. match goal with E : release_one _ _ _ = _ |- _ =>
      apply release_one_Ok in E as [->|(l & Hl & Hr & ->)] end.
    + by apply leases_old_same.
    + eapply leases_old_set; [done|done|]. by apply release_lease_evolves.
Qed.

Lemma leases_stmt d d' : stmt d d' -> leases_ok d -> leases_ok d'.
Proof.
  intros Hst Hok.
  assert (forall k, is_Some (attempts d !! k) -> is_Some (attempts d' !! k)) as Hmono.
  { intros k [a Ha]. destruct (stmt_rows _ _ _ _ Hst Ha) as (a' & Ha' & _). by exists a'. }
  destruct (stmt_leases_cases _ _ Hst) as [(key & l & E & Hent)|Hold].
  - by eapply leases_insert_ok.
  - by eapply leases_old_ok.
Qed.

Lemma reachable_leases d : reachable d -> leases_ok d.
Proof.
  intros [v Hd]. apply steps_stmts in Hd.
  assert (leases_ok (empty_store v)) as H0 by (constructor; simpl; done).
  revert H0. induction Hd; eauto using leases_stmt.
Qed.

(** ** What recovery sees *)

Lemma reservation_lease_Some d id k l :
  reservation_lease d id = Some (k, l) ->
  leases d !! k = Some l /\ le_attempt l = Some id /\ le_purpose l = Reservation.
Proof.
  unfold reservation_lease. intros [Hin Hp]%find_some. simpl in Hp. bools.
  split; [|done]. apply elem_of_map_to_list. by apply list_elem_of_In.
Qed.
Lemma reservation_lease_unique d id k l :
  leases_ok d -> leases d !! k = Some l -> le_attempt l = Some id -> le_purpose l = Reservation ->
  reservation_lease d id = Some (k, l).
Proof.
  intros Hok Hl Ha Hp. destruct (reservation_lease d id) as [[j m]|] eqn:Hr.
  - apply reservation_lease_Some in Hr as (Hm & Hma & Hmp).
    assert (j = k) as -> by (by eapply (lo_unique _ Hok)). congruence.
  - exfalso. unfold reservation_lease in Hr.
    assert (In (k, l) (map_to_list (leases d))) as Hin
      by (by apply list_elem_of_In, elem_of_map_to_list).
    apply (find_none _ _ Hr) in Hin. simpl in Hin. by rewrite !bool_decide_eq_true_2 in Hin.
Qed.

Lemma claim_live d id owner t t' :
  claim_lapsed d id owner t = false -> (t' <= t)%Z -> claim_expired d id t' = false.
Proof.
  unfold claim_lapsed, claim_expired. rewrite !exists_row_false. intros Hl Ht slot c Hc.
  specialize (Hl slot c Hc). destruct (String.eqb _ _); [|done]. simpl in *.
  destruct (leases d !! cl_lease c) as [f|]; [|done]. bools. apply orb_false_iff. split.
  - by apply bool_decide_eq_false.
  - apply Z.leb_gt. lia.
Qed.

Lemma owned_not_expired d g t s t' a :
  reachable d -> fence d g t = Ok s -> attempts d !! id_text g = Some a ->
  (Z.max t' (att_updated a) <= Z.max t (oa_updated_at_ns g))%Z ->
  expired_attempt d (id_text g) t' = Ok None.
Proof.
  intros Hd (b & l & Hg & _ & Ht & Hlapsed)%fence_guards Ha Hle.
  pose proof (gd_row _ _ _ _ Hg) as Hb. rewrite Ha in Hb. injection Hb as <-.
  unfold expired_attempt. rewrite Ha.
  rewrite (reservation_lease_unique _ _ _ _ (reachable_leases _ Hd) (gd_lease _ _ _ _ Hg)
    (gd_attempt _ _ _ _ Hg) (gd_purpose _ _ _ _ Hg)). simpl.
  rewrite (claim_live _ _ _ _ _ Hlapsed Hle), (gd_unfinished _ _ _ _ Hg), (gd_live _ _ _ _ Hg).
  rewrite (bool_decide_eq_false_2 (is_Some None)) by (by intros [? ?]).
  rewrite (proj2 (Z.leb_gt _ _)) by lia. by rewrite andb_false_r.
Qed.

(** C11: recovery and a live owner exclude each other. While the fence admits a
    guard (whose time is not before its row's) at [t], a pass of recovery that
    reads its clocks at or before [t] neither takes the attempt over, nor commits
    a published outcome for it, nor fails it as interrupted. *)
Theorem recovery_respects_owner d g t s :
  reachable d -> fence d g t = Ok s ->
  (forall a, attempts d !! id_text g = Some a -> (att_updated a <= oa_updated_at_ns g)%Z) ->
  (forall clock now r d', (Z.max clock now <= t)%Z ->
     recover_finalizing (id_text g) clock now d = Ok (r, d') -> r = None /\ d' = d) /\
  (forall attempt document artifact evidence clock r, id_text attempt = id_text g ->
     (clock <= t)%Z -> recover_import attempt document artifact evidence clock d <> Ok r) /\
  (forall attempt o refs document finished artifact clock r, id_text attempt = id_text g ->
     (Z.max clock finished <= t)%Z ->
     fail_interrupted attempt o refs document finished artifact clock d <> Ok r).
Proof.
  intros Hd Hf Hclock.
  assert (forall t', (t' <= t)%Z -> expired_attempt d (id_text g) t' = Ok None) as Hn.
  { intros t' Ht'. destruct (fence_guards _ _ _ _ Hf) as (a & l & Hg & _).
    pose proof (gd_row _ _ _ _ Hg) as Ha. specialize (Hclock _ Ha).
    eapply owned_not_expired; [done|done|done|lia]. }
  assert (forall attempt t', id_text attempt = id_text g -> (t' <= t)%Z ->
    require_expired d attempt t' = Err StaleAttempt) as Hreq.
  { intros attempt t' Hid Ht'. unfold require_expired. by rewrite Hid, Hn. }
  split; [|split].
  - intros clock now r d' Hle E. unfold recover_finalizing in E.
    apply bind_Ok in E as (checked & [-> _]%timestamp_Ok & E).
    rewrite Hn in E by done. simpl in E. by injection E as <- <-.
  - intros attempt document artifact evidence clock r Hid Hle E. unfold recover_import in E.
    apply bind_Ok in E as (checked & [-> _]%timestamp_Ok & E). by rewrite Hreq in E.
  - intros attempt o refs document finished artifact clock r Hid Hle E.
    unfold fail_interrupted in E.
    apply bind_Ok in E as (checked & [-> _]%timestamp_Ok & E). by rewrite Hreq in E.
Qed.
End Exclusion.

(** ** Witnesses *)

(** The clock reaches 50 while the claim's leases run to 100. *)
Lemma recovery_respects_owner_witness :
  forallb (fun kv => (att_updated kv.2 <=? 18)%Z) (map_to_list (attempts claimed.2)) = true /\
  (exists s, fence claimed.2 (fin_attempt claimed.1) 50 = Ok s) /\
  ~ (exists g d', @recover_finalizing model (id_text (fin_attempt claimed.1)) 50 40 claimed.2
                  = Ok (Some g, d')).
Proof.
  assert (fence claimed.2 (fin_attempt claimed.1) 50 = Ok (InPhase Finalizing)) as Hf
    by (vm_compute; reflexivity).
  assert (forallb (fun kv => (att_updated kv.2 <=? 18)%Z) (map_to_list (attempts claimed.2)) = true)
    as Hall by (vm_compute; reflexivity).
  assert (oa_updated_at_ns (fin_attempt claimed.1) = 18%Z) as Ht by (vm_compute; reflexivity).
  split; [exact Hall|]. split; [exists (InPhase Finalizing); exact Hf|]. intros (g & d' & E).
  destruct (@recovery_respects_owner model claimed.2 (fin_attempt claimed.1) 50 (InPhase Finalizing)
    claimed_reachable Hf) as (Hnone & _ & _).
  - intros a Ha. rewrite Ht. apply Z.leb_le.
    exact (proj1 (forallb_forall _ _) Hall (_, a) (proj1 (list_elem_of_In _ _)
      (proj2 (elem_of_map_to_list _ _ _) Ha))).
  - assert (Z.max 50 40 <= 50)%Z as Hle by lia.
    destruct (Hnone 50%Z 40%Z (Some g) d' Hle E) as [Habs _]. discriminate Habs.
Defined.
