(* ===== verification/Takeover.v ===== *)
(** * Recovery makes progress

    The transactions that only need their preconditions to succeed: a transition
    of a live attempt along an allowed edge, and the take-over of an attempt
    whose owner let its lease expire and whose stages are not locked. *)
From S2P Require Import Prelude Json Canonical Identity ThirdPartyModel Profile Records.
From S2P Require Import RunDocuments Store Attempts Fresh RunStore Publisher Recovery Coordination.
From S2P Require Import Statements History Claims Scenario Lifecycle Ownership Guards Exclusion.
From Stdlib Require Import Ascii.

(** ** Commits and transitions go through *)
Section Progress.
Context `{ThirdPartyLaws}.

Lemma find_transition_history d t : history d -> t ∈ attempt_transitions d ->
  find_transition (tr_attempt t) (tr_revision t) d = Some t.
Proof.
  intros Hh Ht. destruct (find_transition _ _ d) as [u|] eqn:E.
  - apply find_transition_Some in E as (Hu & Ha & Hr). f_equal. by apply (hi_unique _ Hh).
  - exfalso. by eapply (find_transition_None _ _ _ t E).
Qed.

Lemma commit_history d : history d -> commit d = Ok d.
Proof.
  intros Hh. unfold commit, constraint, ensure.
  assert (exists_row (fun id a => negb (projection_ok d id a)) (attempts d) = false) as ->; [|done].
  rewrite exists_row_false. intros id a Ha.
  destruct (hi_projection _ Hh _ _ Ha) as (t & Ht & Hid & Hr & Hto & Hat).
  unfold projection_ok. rewrite <-Hid, <-Hr, (find_transition_history _ _ Hh Ht), Hto, Hat.
  by rewrite bool_decide_eq_true_2, Z.eqb_refl.
Qed.

Lemma canonical_id v : in_domain v = true -> value_wf v -> canonical v = Ok v.
Proof.
  intros Hd Hw. unfold canonical, try_from. rewrite normalize_value_canonical by done. simpl.
  unfold to_canonical_bytes. by destruct (to_vec_total v Hd Hw) as [b ->].
Qed.

Lemma timestamp_ok n : (n <= i64_max)%Z -> timestamp n = Ok n.
Proof. intros Hn. unfold timestamp. by rewrite (proj2 (Z.leb_le _ _) Hn). Qed.

(** The number of the next event is new. *)
Lemma next_event d : history d -> existsb (fun u => (tr_event u =?
  Z.of_nat (S (length (events d))))%Z) (attempt_transitions d) = false.
Proof.
  intros Hh. apply not_true_iff_false. rewrite existsb_exists. intros (u & Hu & Heq%Z.eqb_eq).
  apply list_elem_of_In in Hu. destruct (hi_event _ Hh u Hu) as (e & He & _).
  apply lookup_lt_Some in He. lia.
Qed.

(** The transition row and its event are accepted. *)
Lemma append_proceeds d id a phase rev now details fields payload : history d ->
  attempts d !! id = Some a -> att_revision a = rev ->
  allowed_edge (att_state a) (InPhase phase) = true -> as_object details = Some fields ->
  canonical (transition_payload fields (Some (att_state a)) (InPhase phase) (rev + 1)) = Ok payload ->
  (0 <= now)%Z -> (rev + 1 <= i64_max)%Z ->
  exists d1, append_transition id (Some (att_state a)) (InPhase phase) (rev + 1) now details d = Ok d1 /\
    attempts d1 = attempts d /\ finalization_claims d1 = finalization_claims d.
Proof.
  intros Hh Ha Hrev Hedge Hfields Hpay Hnow Hmax.
  pose proof (hi_row _ Hh _ _ Ha) as (Hr0 & _).
  destruct (hi_projection _ Hh _ _ Ha) as (q & Hq & Hqa & Hqr & Hqto & _).
  assert (find_transition id (rev + 1) d = None) as Hnew.
  { destruct (find_transition _ _ d) as [u|] eqn:E; [|done].
    apply find_transition_Some in E as (Hu & Hua & Hur).
    destruct (hi_bound _ Hh u Hu) as (b & Hb & Hle). rewrite Hua, Ha in Hb. injection Hb as <-. lia. }
  pose proof (find_transition_history _ _ Hh Hq) as Hprev. rewrite Hqa, Hqr, Hrev in Hprev.
  unfold append_transition. rewrite Hfields. simpl. rewrite Hpay. simpl.
  unfold insert_event, has_key, constraint. simpl. rewrite Ha, (proj2 (Z.leb_le _ _) Hnow). simpl.
  assert (String.eqb (event_kind (rev + 1) (InPhase phase)) "" = false) as ->
    by (unfold event_kind; by repeat case_match). simpl.
  rewrite timestamp_ok by done. simpl. unfold checked_pred.
  rewrite (proj2 (Z.leb_le 1 _)) by lia. simpl. rewrite timestamp_ok by lia. simpl.
  unfold insert_transition, constraint. simpl. unfold has_key.
  change (attempts (set_events _ d)) with (attempts d). rewrite Ha. simpl.
  change (find_transition id ?n (set_events ?e d)) with (find_transition id n d).
  rewrite Hnew. simpl. rewrite (proj2 (Z.leb_le _ _) Hnow), (proj2 (Z.ltb_lt 0 _)) by lia. simpl.
  rewrite Z.eqb_refl, Hedge. simpl. replace (rev + 1 - 1)%Z with rev by lia. rewrite Hprev. simpl.
  rewrite bool_decide_eq_true_2 by congruence. simpl.
  change (attempt_transitions (set_events _ d)) with (attempt_transitions d).
  rewrite (next_event d Hh). simpl.
  replace (Z.to_nat _) with (length (events d)) by lia.
  rewrite list_lookup_middle by done. simpl. rewrite bool_decide_eq_true_2, Z.eqb_refl by done. simpl.
  by eexists.
Qed.

Lemma transition_proceeds d g a phase now details fields payload : history d ->
  attempts d !! id_text g = Some a -> att_revision a = oa_revision g ->
  is_terminal (att_state a) = false -> allowed_edge (att_state a) (InPhase phase) = true ->
  as_object details = Some fields ->
  canonical (transition_payload fields (Some (att_state a)) (InPhase phase) (oa_revision g + 1))
    = Ok payload ->
  (0 <= Z.max now (oa_updated_at_ns g))%Z ->
  (att_updated a <= Z.max now (oa_updated_at_ns g))%Z -> (oa_updated_at_ns g <= i64_max)%Z ->
  (oa_revision g + 1 <= MAX_SAFE_INTEGER)%Z ->
  exists g' d', transition g (att_state a) (InPhase phase) now details None d = Ok (g', d').
Proof.
  intros Hh Ha Hrev Hlive Hedge Hfields Hpay Hpos Hclock Hmax Hsafe.
  pose proof (hi_row _ Hh _ _ Ha) as (Hr0 & _ & Hsu & _ & _).
  assert (MAX_SAFE_INTEGER < i64_max)%Z as Hi64 by (vm_compute; done).
  assert (i64_max < u64_max)%Z as Hu64 by (vm_compute; done).
  destruct (append_proceeds d (id_text g) a phase (oa_revision g) (Z.max now (oa_updated_at_ns g)) details
    fields payload) as (d1 & Happ & Hd1 & _); try done; [lia|].
  unfold transition, next_revision, checked_add_u64.
  rewrite (proj2 (Z.leb_le _ u64_max)) by lia. simpl.
  rewrite (proj2 (Z.leb_le _ MAX_SAFE_INTEGER)) by lia. simpl.
  rewrite (timestamp_ok (oa_updated_at_ns g)) by lia. simpl. rewrite Happ. simpl.
  rewrite !timestamp_ok by lia. simpl. unfold update_attempt. rewrite Hd1, Ha, Hrev, Z.eqb_refl. simpl.
  unfold constraint. rewrite Hlive, Z.eqb_refl, (proj2 (Z.leb_le (att_updated a) _)) by lia. simpl.
  rewrite (proj2 (Z.leb_le (att_started a) _)) by lia. simpl. by do 2 eexists.
Qed.
End Progress.

(** ** Every attempt keeps the identity and the lease of its reservation *)

Record takeover_ok `{ThirdParty} (d : db) : Prop := {
  to_lease id a : attempts d !! id = Some a ->
    exists k l, leases d !! k = Some l /\ le_attempt l = Some id /\ le_purpose l = Reservation;
  to_identity id a : attempts d !! id = Some a ->
    exists slot i, to_string slot = att_slot a /\
      run_attempt_id slot (att_retry_index a) = Ok i /\ to_string i = id;
}.

Section Takeover.
Context `{ThirdParty}.

(** A row is new, with its identity and its lease, or evolved from one. *)
Lemma stmt_new_row d d' id a' : stmt d d' -> attempts d' !! id = Some a' ->
  (exists a, attempts d !! id = Some a /\ att_slot a' = att_slot a /\
     att_retry_index a' = att_retry_index a) \/
  (exists slot i k l, to_string slot = att_slot a' /\
     run_attempt_id slot (att_retry_index a') = Ok i /\ to_string i = id /\
     leases d' !! k = Some l /\ le_attempt l = Some id /\ le_purpose l = Reservation).
Proof.
  intros [(key & a & purpose & lease & now & details & d1 & d2 & Hs & _ & Hp & Hnext & _ & [_ Hid] & E1 & E2 & E3)
    |[(g & from & phase & now & details & g' & E)
    |[(g & o & now & details & terminal & checked & g' & d1 & d2 & E1 & E2 & E3)
    |[(key & c & E)|[Ea Ec]]]]]%stmt_claims Ha'.
  - destruct (reserved_Ok _ _ _ _ _ _ _ _ _ _ E1 E2 E3)
      as (l & e & t & Hnew & _ & _ & _ & _ & _ & _ & Hla & Hlp & _ & _ & _ & _ & _ & _ & -> & _).
    simpl in Ha'. destruct (decide (id = key)) as [->|Hne];
      [rewrite lookup_insert_eq in Ha'; injection Ha' as <-|rewrite lookup_insert_ne in Ha' by done; eauto].
    right. destruct Hid as (slot & i & ? & ? & ?). exists slot, i, (lr_id lease), l. simpl.
    rewrite lookup_insert_eq. split_and!; try done. congruence.
  - apply transition_Ok in E as (old & e & t & Heff & _). left.
    destruct (same_attempts_back d d' id a' (effect_same _ _ _ _ _ _ _ _ _ _ _ Heff) Ha')
      as (a & ? & ? & ?). eauto.
  - destruct (finish_db _ _ _ _ _ _ _ _ _ _ _ E1 E2 E3) as (old & e & t & Heff & Ha & _). left.
    rewrite Ha in Ha'. destruct (same_attempts_back d d1 id a' (effect_same _ _ _ _ _ _ _ _ _ _ _ Heff) Ha')
      as (a & ? & ? & ?). eauto.
  - apply insert_claim_Ok in E as (-> & _). eauto.
  - rewrite Ea in Ha'. eauto.
Qed.

Lemma takeover_stmt d d' : stmt d d' -> takeover_ok d -> takeover_ok d'.
Proof.
  intros Hst [Hl Hi]. pose proof (stmt_leases _ _ Hst) as Hev. constructor; intros id a' Ha';
    destruct (stmt_new_row _ _ _ _ Hst Ha') as [(a & Ha & Hs & Hr)|(slot & i & k & l & ? & ? & ? & ? & ? & ?)];
    eauto 10.
  - destruct (Hl _ _ Ha) as (k & l & Hk & Hla & Hlp). destruct (Hev _ _ Hk) as (m & Hm & _ & E1 & E2 & _).
    exists k, m. rewrite E1, E2. done.
  - destruct (Hi _ _ Ha) as (slot & i & ? & ? & ?). exists slot, i. by rewrite Hs, Hr.
Qed.

Lemma reachable_takeover d : reachable d -> takeover_ok d.
Proof.
  intros [v Hd]. apply steps_stmts in Hd.
  assert (takeover_ok (empty_store v)) as H0 by (constructor; simpl; done).
  revert H0. induction Hd; eauto using takeover_stmt.
Qed.
End Takeover.

(** ** The attempts a pass skips *)

(** A publisher holds the lock of a stage of the attempt [key]. *)
Definition stage_locked (look : string -> stage_status) (d : db) (key : string) : Prop :=
  exists k l p, leases d !! k = Some l /\ le_attempt l = Some key /\ le_staging l = Some p /\
    look p = Locked.

Lemma staging_row_Some d p k l :
  leases_ok d -> staging_row d p = Some (k, l) <-> leases d !! k = Some l /\ le_staging l = Some p.
Proof.
  intros Hok. assert (forall j m, staging_row d p = Some (j, m) ->
    leases d !! j = Some m /\ le_staging m = Some p) as Hfind.
  { unfold staging_row. intros j m [Hin Hp%bool_decide_eq_true]%find_some. split; [|done].
    apply elem_of_map_to_list. by apply list_elem_of_In. }
  split; [apply Hfind|]. intros [Hl Hp]. destruct (staging_row d p) as [[j m]|] eqn:E.
  - destruct (Hfind _ _ eq_refl) as [Hm Hmp].
    assert (j = k) as -> by (eapply (lo_path _ Hok); eauto). congruence.
  - exfalso. assert (In (k, l) (map_to_list (leases d))) as Hin
      by (by apply list_elem_of_In, elem_of_map_to_list).
    pose proof (find_none _ _ E _ Hin) as Hn. simpl in Hn. by rewrite Hp, bool_decide_eq_true_2 in Hn.
Qed.

Lemma leased_stages_elem d p : leases_ok d ->
  p ∈ leased_stages d <-> exists k l, leases d !! k = Some l /\ le_staging l = Some p.
Proof.
  intros Hok. unfold leased_stages. rewrite list_elem_of_omap. split.
  - intros ([k l] & Hin%elem_of_map_to_list & Hp). simpl in Hp. case_bool_decide; [eauto|done].
  - intros (k & l & Hl & Hp). exists (k, l). split; [by apply elem_of_map_to_list|].
    simpl. by rewrite bool_decide_eq_true_2 by (by eapply (lo_staging _ Hok)).
Qed.

Lemma lock_paths_busy look d paths stages stuck busy r key :
  lock_paths look d paths (stages, stuck, busy) = Ok r ->
  key ∈ r.2 <-> key ∈ busy \/ exists p kv, p ∈ paths /\ look p = Locked /\
    staging_row d p = Some kv /\ le_attempt kv.2 = Some key.
Proof.
  revert stages stuck busy. induction paths as [|p paths IH]; intros stages stuck busy; simpl.
  - intros [= <-]. simpl. set_solver.
  - intros (acc & Hacc & E)%bind_Ok. destruct acc as [[s1 b1] busy1].
    rewrite (IH _ _ _ E). clear IH E. unfold lock_stage in Hacc.
    assert (key ∈ busy1 <-> key ∈ busy \/ exists kv, look p = Locked /\
      staging_row d p = Some kv /\ le_attempt kv.2 = Some key) as ->.
    { destruct (look p); simplify_eq/=; try (split; [by left|intros [?|(? & ? & _)]; done]).
      destruct (staging_row d p) as [[k l]|]; simpl.
      - destruct (le_attempt l) as [i|] eqn:Hi; simpl.
        + rewrite elem_of_app, list_elem_of_singleton. split.
          * intros [?| ->]; [by left|right]. by exists (k, l).
          * intros [?|(kv & _ & [= <-] & Hk)]; [by left|right]. simpl in Hk. congruence.
        + split; [by left|]. intros [?|(kv & _ & [= <-] & Hk)]; [done|]. simpl in Hk. congruence.
      - split; [by left|]. by intros [?|(kv & _ & ? & _)]. }
    setoid_rewrite elem_of_cons. split.
    + intros [[?|(kv & ?)]|(q & kv & ?)]; [by left|right; exists p, kv; tauto|right; exists q, kv; tauto].
    + intros [?|(q & kv & Hq & Hkv)]; [by left; left|].
      destruct Hq as [->|Hq]; [left; right; by exists kv|right; by exists q, kv].
Qed.

(** The busy attempts are those with a locked stage. *)
Lemma lock_stages_busy entries look d stages stuck busy key :
  leases_ok d -> lock_stages entries look d = Ok (stages, stuck, busy) ->
  key ∈ busy <-> stage_locked look d key.
Proof.
  intros Hok. unfold lock_stages. destruct (List.find _ _) as [p|]; [done|].
  intros E. rewrite (lock_paths_busy _ _ _ _ _ _ _ key E). split.
  - intros [Hn|(p & [k l] & _ & Hp & (Hl & Hs)%staging_row_Some & Ha)]; [by apply elem_of_nil in Hn| |done].
    by exists k, l, p.
  - intros (k & l & p & Hl & Ha & Hs & Hp). right. exists p, (k, l). split_and!; try done.
    + unfold sorted_strings. rewrite (merge_sort_Permutation string_le _), elem_of_remove_dups,
        elem_of_app. right. apply leased_stages_elem; eauto.
    + by apply staging_row_Some.
Qed.

Section Liveness.
Context `{ThirdPartyLaws}.

Lemma recovery_payload from rev : (0 <= rev <= MAX_SAFE_INTEGER)%Z ->
  is_terminal from = false ->
  exists payload, canonical (transition_payload [("recovery", Bool true)] (Some from)
    (InPhase Finalizing) rev) = Ok payload.
Proof.
  intros Hrev Hlive. eexists. apply canonical_id.
  - unfold in_domain. simpl. rewrite (proj2 (Z.leb_le _ _)), (proj2 (Z.leb_le rev _)) by lia. done.
  - simpl. split; [|done]. repeat constructor.
Qed.

(** The guard recovery builds for an attempt and its reservation lease. *)
Definition taken_over (i : RecordId AttemptType) (slot : RecordId ResolvedAttemptSlotType)
    (a : attempt_row) (lease : string) (l : lease_row) : OwnedAttempt := {|
  oa_id := i; oa_slot := slot; oa_retry_index := att_retry_index a; oa_revision := att_revision a;
  oa_updated_at_ns := att_updated a; oa_lease_id := lease; oa_owner_token := le_owner l |}.

Lemma expired_Ok d a i slot lease l t : leases_ok d -> attempts d !! to_string i = Some a ->
  att_finished a = None -> from_str ResolvedAttemptSlotType (att_slot a) = Ok slot ->
  run_attempt_id slot (att_retry_index a) = Ok i -> leases d !! lease = Some l ->
  le_attempt l = Some (to_string i) -> le_purpose l = Reservation ->
  (le_expires l <= Z.max t (att_updated a))%Z ->
  expired_attempt d (to_string i) t = Ok (Some (taken_over i slot a lease l, att_state a)).
Proof.
  intros Hl Ha Hfin Hslot Hid Hk Hla Hlp Hexp. unfold expired_attempt.
  rewrite Ha, (reservation_lease_unique _ _ _ _ Hl Hk Hla Hlp), Hfin. simpl.
  rewrite (proj2 (Z.leb_le _ _) Hexp), orb_true_r. simpl.
  rewrite Hslot. simpl. rewrite Hid. simpl. unfold require, ensure. by rewrite String.eqb_refl.
Qed.

Lemma live_edge s : is_terminal s = false -> s <> InPhase Finalizing ->
  allowed_edge s (InPhase Finalizing) = true.
Proof. by destruct s as [|[]| | | |]. Qed.

(** A guard for the current revision with the lease of the attempt. *)
Lemma require_expired_Ok d a i slot lease l t g : leases_ok d -> attempts d !! to_string i = Some a ->
  att_finished a = None -> att_state a = InPhase Finalizing ->
  from_str ResolvedAttemptSlotType (att_slot a) = Ok slot ->
  run_attempt_id slot (att_retry_index a) = Ok i -> leases d !! lease = Some l ->
  le_attempt l = Some (to_string i) -> le_purpose l = Reservation ->
  (le_expires l <= Z.max t (att_updated a))%Z ->
  oa_id g = i -> oa_revision g = att_revision a -> oa_lease_id g = lease ->
  oa_owner_token g = le_owner l -> require_expired d g t = Ok tt.
Proof.
  intros Hl Ha Hfin Hst Hslot Hid Hk Hla Hlp Hexp Hgi Hgr Hgl Hgo. unfold require_expired, id_text.
  rewrite Hgi, (expired_Ok d a i slot lease l) by done. simpl.
  by rewrite Hgr, Hgl, Hgo, Hst, Z.eqb_refl, !String.eqb_refl.
Qed.

(** The take-over of an attempt the pass does not skip. *)
Lemma finalizing_taken_over d key a slot clock now :
  reachable d -> attempts d !! key = Some a -> att_finished a = None ->
  from_str ResolvedAttemptSlotType (att_slot a) = Ok slot ->
  (forall k l, leases d !! k = Some l -> le_attempt l = Some key -> le_purpose l = Reservation ->
     le_expires l <= Z.max (Z.max clock now) (att_updated a))%Z ->
  (0 <= now <= i64_max)%Z -> (clock <= i64_max)%Z -> (att_updated a <= i64_max)%Z ->
  (att_revision a < MAX_SAFE_INTEGER)%Z ->
  exists g d' a', recover_finalizing key clock now d = Ok (Some g, d') /\
    attempts d' !! key = Some a' /\ att_state a' = InPhase Finalizing /\
    att_slot a' = att_slot a /\ id_text g = key /\ oa_revision g = att_revision a' /\
    (forall t, (Z.max clock now <= t)%Z -> require_expired d' g t = Ok tt).
Proof.
  intros Hd Ha Hfin Hslot Hexp Hnow Hclock Hupd Hrev.
  pose proof (reachable_history _ Hd) as Hh. pose proof (reachable_leases _ Hd) as Hl.
  destruct (to_lease _ (reachable_takeover _ Hd) _ _ Ha) as (lease & l & Hk & Hla & Hlp).
  destruct (to_identity _ (reachable_takeover _ Hd) _ _ Ha) as (slot' & i & Hs & Hi & <-).
  apply from_str_inv in Hslot as Hinv. destruct Hinv as [Hs' _]. rewrite <-Hs in Hs'.
  apply to_string_inj in Hs' as ->. specialize (Hexp _ _ Hk Hla Hlp).
  pose proof (hi_row _ Hh _ _ Ha) as (Hr0 & _ & _ & Hterm & _).
  assert (is_terminal (att_state a) = false) as Hlive.
  { destruct (is_terminal (att_state a)); [|done]. destruct Hterm as [Hf _]. congruence. }
  unfold recover_finalizing. rewrite timestamp_ok by lia. simpl.
  rewrite (expired_Ok d a i slot lease l) by done. simpl.
  destruct (decide (att_state a = InPhase Finalizing)) as [Hst|Hst].
  - rewrite bool_decide_eq_true_2 by done. simpl. rewrite commit_history by done. simpl.
    exists (taken_over i slot a lease l), d, a. split_and!; try done. intros t Ht.
    eapply require_expired_Ok; try done. lia.
  - rewrite bool_decide_eq_false_2 by done.
    destruct (recovery_payload (att_state a) (att_revision a + 1)) as [payload Hpay]; [lia|done|].
    destruct (transition_proceeds d (taken_over i slot a lease l) a Finalizing (Z.max clock now)
      (object [("recovery", Bool true)]) [("recovery", Bool true)] payload) as (g' & d' & E); try done;
      try (simpl; lia); [by apply live_edge|].
    rewrite E. simpl.
    assert (stmt d d') as Hstmt by (by eapply st_transition).
    rewrite (commit_history d') by (by eapply history_stmt). simpl.
    apply transition_Ok in E as (old & e & t & Heff & _ & ->). simpl in *.
    pose proof (te_row _ _ _ _ _ _ _ _ _ _ _ Heff) as Hold. unfold id_text in Hold. simpl in Hold.
    rewrite Ha in Hold. injection Hold as <-.
    pose proof (te_db _ _ _ _ _ _ _ _ _ _ _ Heff) as Hdb. unfold id_text in Hdb. simpl in Hdb.
    assert (attempts d' !! to_string i = Some (moved a (InPhase Finalizing) (att_revision a + 1)
      (Z.max (Z.max clock now) (att_updated a)) None None)) as Ha'
      by (rewrite Hdb; simpl; by rewrite lookup_insert_eq).
    eexists _, d', _. split; [reflexivity|]. split; [exact Ha'|]. split_and!; try done.
    intros t' Ht'. eapply (require_expired_Ok d' _ i slot lease l); try done;
      [by eapply leases_stmt|by rewrite Hdb|]. simpl. lia.
Qed.

(** C15: recovery takes over an abandoned attempt unless one of its stages is
    locked. A pass locks the stages of the store [d0] it starts from and looks at
    an attempt [a] that is not finished in the store [d], reading its two clocks.
    If a publisher still holds the kernel lock of a stage of the attempt, the
    attempt is left as it is, whatever has expired. Otherwise, once its reservation
    lease has expired, the first transaction succeeds: the attempt is left in
    finalizing with the guard recovery returns, and that guard keeps passing the
    check of the import and interruption transactions. The take-over needs the row
    to be one the pass can process: its slot is the text of an identity, the clocks
    and its last update fit the 64-bit integers of SQLite, and its next revision is
    a canonical integer. *)
Theorem recovery_takes_over d0 entries look stages stuck busy d key a clock now :
  reachable d0 -> lock_stages entries look d0 = Ok (stages, stuck, busy) ->
  reachable d -> attempts d !! key = Some a -> att_finished a = None ->
  (stage_locked look d0 key -> recover_attempt busy key clock now d = Ok (None, d)) /\
  (~ stage_locked look d0 key ->
   is_ok (from_str ResolvedAttemptSlotType (att_slot a)) = true ->
   (forall k l, leases d !! k = Some l -> le_attempt l = Some key -> le_purpose l = Reservation ->
      le_expires l <= Z.max (Z.max clock now) (att_updated a))%Z ->
   (0 <= now <= i64_max)%Z -> (clock <= i64_max)%Z -> (att_updated a <= i64_max)%Z ->
   (att_revision a < MAX_SAFE_INTEGER)%Z ->
   exists g d' a', recover_attempt busy key clock now d = Ok (Some g, d') /\
     attempts d' !! key = Some a' /\ att_state a' = InPhase Finalizing /\
     att_slot a' = att_slot a /\ id_text g = key /\ oa_revision g = att_revision a' /\
     (forall t, (Z.max clock now <= t)%Z -> require_expired d' g t = Ok tt)).
Proof.
  intros Hd0 Hlock Hd Ha Hfin. unfold recover_attempt.
  pose proof (lock_stages_busy _ _ _ _ _ _ key (reachable_leases _ Hd0) Hlock) as Hbusy.
  split; [intros Hl; by rewrite bool_decide_eq_true_2 by tauto|].
  intros Hl Hslot Hexp Hnow Hclock Hupd Hrev. rewrite bool_decide_eq_false_2 by tauto.
  destruct (from_str ResolvedAttemptSlotType (att_slot a)) as [slot|] eqn:Hs; [|done].
  by eapply finalizing_taken_over.
Qed.
End Liveness.

(** The owner of the first attempt stops while it executes; its lease ends
    at 100. The directory holds a stage without a lease, which is not locked. *)
Definition abandoned (d : db) : bool :=
  match attempts d !! first_key with
  | Some a => bool_decide (att_finished a = None) && (att_updated a <=? 15)%Z &&
      (att_revision a <=? 10)%Z && is_ok (from_str ResolvedAttemptSlotType (att_slot a))
  | None => false
  end && forallb (fun kv => (le_expires kv.2 <=? 100)%Z) (map_to_list (leases d)).
Lemma executing_abandoned : abandoned executing.2 = true.
Proof. vm_compute. reflexivity. Qed.
Lemma executing_stages : lock_stages [".staging-orphan"; "objects"] (fun _ => Unlocked) executing.2 =
  Ok ([{| sg_relative_path := "artifacts/.staging-orphan"; sg_lease_id := None |}], [], []).
Proof. vm_compute. reflexivity. Qed.

Lemma recovery_takes_over_witness :
  exists g d' a', @recover_attempt model [] first_key 150 150 executing.2 = Ok (Some g, d') /\
    attempts d' !! first_key = Some a' /\ att_state a' = InPhase Finalizing.
Proof.
  pose proof executing_abandoned as Hab. unfold abandoned in Hab.
  apply andb_true_iff in Hab as [Hab Hall].
  destruct (attempts executing.2 !! first_key) as [a|] eqn:Ha; [|discriminate Hab].
  apply andb_true_iff in Hab as [Hab Hslot]. apply andb_true_iff in Hab as [Hab Hrev%Z.leb_le].
  apply andb_true_iff in Hab as [Hfin%bool_decide_eq_true Hupd%Z.leb_le].
  assert (MAX_SAFE_INTEGER = 9007199254740991)%Z as Hm by (vm_compute; reflexivity).
  assert (i64_max = 9223372036854775807)%Z as Hi by (vm_compute; reflexivity).
  destruct (@recovery_takes_over model model_laws executing.2 _ _ _ _ _ executing.2 first_key a 150 150
    executing_reachable executing_stages executing_reachable Ha Hfin) as [_ Htake].
  destruct Htake as (g & d' & a' & E & Ha' & Hst & _); [| | |lia..|].
  - intros (k & l & p & _ & _ & _ & Hp). discriminate Hp.
  - exact Hslot.
  - intros k l Hl _ _. rewrite forallb_forall in Hall.
    specialize (Hall (k, l) (proj1 (list_elem_of_In _ _) (proj2 (elem_of_map_to_list _ _ _) Hl))).
    apply Z.leb_le in Hall. simpl in Hall. lia.
  - exists g, d', a'. split; [exact E|]. split; [exact Ha'|exact Hst].
Defined.
