(* ===== verification/StreamScenario.v ===== *)
(** * A streamed run of the store

    One streaming slot with two checkpoints, from registration to acceptance,
    written as one fallible program over the operations of the store. *)
From S2P Require Import Prelude Json Canonical Identity ThirdPartyModel Profile Records.
From S2P Require Import RunDocuments Store Attempts Fresh RunStore Publisher Recovery Coordination.
From S2P Require Import Statements Scenario.
From Stdlib Require Import Ascii.

(** The operations in order, over any identities, checkpoints, trees and store. *)
Section Program.
Context `{ThirdParty}.
Context (candidate : RecordId LogicalCandidateType) (run : IdentifiedRecord ResolvedSpecificationType ResolvedOneShotSpecificationRecord)
  (slot : IdentifiedRecord ResolvedAttemptSlotType ResolvedAttemptSlotRecord)
  (one two : IdentifiedRecord ResolvedObservationSlotType ResolvedObservationSlotRecord)
  (first second : OwnedAttempt -> IdentifiedRecord ObservationType RunObservationRecord)
  (tree1 tree2 final : ArtifactRegistration) (owner claim : LeaseRequest).

Definition streamed_with (d : db) : M (OwnedAttempt * db * db) :=
  d ← register_streaming candidate run slot [one; two] d;
  '(g, d) ← reserve (id slot) FirstAttempt owner 10 d;
  '(g, d) ← advance g Materializing 11 d;
  '(g, d) ← advance g Starting 12 d;
  '(g, d) ← advance g Preparing 13 d;
  '(e, d) ← advance g Executing 14 d;
  d ← import_artifact tree1 ObservationArtifact d;
  d ← import_artifact tree2 ObservationArtifact d;
  d ← register_observation e (first e) tree1 false 15 d;
  let before := d in
  d ← register_observation e (second e) tree2 false 16 d;
  '(g, d) ← advance e Validating 17 d;
  '(f, d) ← begin_finalization g claim 18 d;
  '(_, d) ← commit_finalization (fin_attempt f) Outcome.Accepted final [] 20 d;
  Ok (e, before, d).

(** A registered operation leads from a reachable store to the next. *)
Ltac reached :=
  match goal with
  | E : reserve _ _ _ _ ?d = Ok (_, ?d') |- reachable ?d' =>
      apply (reachable_step d); [|by eapply do_reserve]
  | E : advance _ _ _ ?d = Ok (_, ?d') |- reachable ?d' =>
      apply (reachable_step d); [|by eapply do_advance]
  | E : import_artifact _ _ ?d = Ok ?d' |- reachable ?d' =>
      apply (reachable_step d); [|by eapply do_import_artifact]
  | E : register_observation _ _ _ _ _ ?d = Ok ?d' |- reachable ?d' =>
      apply (reachable_step d); [|by eapply do_register_observation]
  | E : begin_finalization _ _ _ ?d = Ok (_, ?d') |- reachable ?d' =>
      apply (reachable_step d); [|by eapply do_begin_finalization]
  | E : commit_finalization _ _ _ _ _ ?d = Ok (_, ?d') |- reachable ?d' =>
      apply (reachable_step d); [|by eapply do_commit_finalization]
  | E : register_execution _ _ _ _ _ ?d = Ok ?d' |- reachable ?d' =>
      apply (reachable_step d); [|by eapply do_register_execution]
  end.

Lemma streamed_reachable d r :
  reachable d -> streamed_with d = Ok r -> reachable r.1.2 /\ reachable r.2.
Proof.
  unfold streamed_with. intros Hd E.
  repeat (let F := fresh "F" in let p := fresh "p" in apply bind_Ok in E as (p & F & E);
          try match type of p with (_ * _)%type => destruct p end).
  injection E as <-. unfold register_streaming in F.
  match type of F with (if ?b then _ else _) = _ => destruct b; [discriminate F|] end.
  split; simpl; repeat reached; done.
Qed.
End Program.

#[local] Existing Instance model.

Definition other_id (t : IdentityType) : RecordId t := from_digest (repeat "b"%char 32).
Definition second_slot := identified {|
  rs_logical_slot := other_id _; rs_specification := id run |}.

Definition checkpoint (g : OwnedAttempt) (s : RecordId ResolvedObservationSlotType) (sequence : Z)
    (terminal : bool) := identified {|
  rb_profile := Some (StreamingObservation {|
    so_checkpoint_sequence := sequence; so_check_index := sequence + 1;
    so_work := [("iterations", sequence)]; so_terminal := terminal; so_thresholds := [];
    so_active_time_ns := 10; so_elapsed_wall_time_ns := 12; so_evaluation_time_ns := 2;
    so_decision := if terminal then "stop" else "continue";
    so_stop_reason := if terminal then Some StopFixedCount else None |});
  rb_slot := s; rb_producing_attempt := oa_id g;
  rb_result := {| af_id := some_id _; af_path := "result"; af_sha256 := repeat "r"%char 32 |};
  rb_metrics := {| af_id := some_id _; af_path := "metrics"; af_sha256 := repeat "m"%char 32 |};
  rb_timing := rb_timing (record observed); rb_completion := NotRequired;
  rb_provenance := rb_provenance (record observed) |}.

Definition stream : OwnedAttempt * db * db :=
  from_ok (no_guard, store0, store0)
    (streamed_with (some_id _) run slot observation_slot second_slot
       (fun g => checkpoint g (id observation_slot) 0 false)
       (fun g => checkpoint g (id second_slot) 1 true)
       (tree "one" "one") (tree "two" "two") (tree "final" "attempt")
       (lease_request "first" 100) (lease_request "claim" 100) store0).

Lemma stream_reachable : reachable stream.1.2 /\ reachable stream.2.
Proof.
  eapply streamed_reachable; [exists 3%Z; apply rtc_refl|].
  apply from_ok_spec. vm_compute. reflexivity.
Qed.
#[global] Opaque stream.

(** ** Rows of the finished store *)

Definition produced_key (sequence : Z) : string :=
  to_string (id (checkpoint stream.1.1 (id (if (sequence =? 0)%Z then observation_slot
    else second_slot)) sequence (negb (sequence =? 0)%Z))).
Definition stream_key : string := to_string (oa_id stream.1.1).
Definition second_key : string := to_string (id second_slot).

Lemma stream_row : exists a, attempts stream.2 !! stream_key = Some a /\
  bool_decide (att_state a = Accepted) && String.eqb (att_slot a) slot_key = true.
Proof. apply lookup_shape. vm_compute. reflexivity. Qed.
Lemma stream_slot : exists s, attempt_slots stream.2 !! slot_key = Some s /\
  bool_decide (as_kind s = Stream) = true.
Proof. apply lookup_shape. vm_compute. reflexivity. Qed.
Lemma stream_member : exists m, attempt_observation_slots stream.2 !! second_key = Some m /\
  String.eqb (mem_attempt_slot m) slot_key = true.
Proof. apply lookup_shape. vm_compute. reflexivity. Qed.
Lemma stream_selection : exists s, selected_observations stream.2 !! second_key = Some s /\
  String.eqb (sel_observation s) (produced_key 1) = true.
Proof. apply lookup_shape. vm_compute. reflexivity. Qed.

(** The second checkpoint, from the store before it. *)
Lemma stream_second : exists d', register_observation stream.1.1
  (checkpoint stream.1.1 (id second_slot) 1 true) (tree "two" "two") false 16 stream.1.2 = Ok d'.
Proof. apply ok_exists. vm_compute. reflexivity. Qed.
