(* ===== verification/Checkpoints.v ===== *)
(** * Streamed checkpoints

    The checkpoints an attempt commits through [register_observation] while it
    runs: what one commit does, and that the event log holds them numbered
    from zero, in order and without gaps. *)
From S2P Require Import Prelude Json Canonical Identity ThirdPartyModel Profile Records.
From S2P Require Import RunDocuments Store Attempts Fresh RunStore Publisher Recovery Coordination.
From S2P Require Import Statements History Claims Scenario Lifecycle StreamScenario.

(** The checkpoint events of an attempt, in the order of their commits. *)
Definition is_checkpoint (id : string) (e : event_row) : bool :=
  bool_decide (ev_attempt e = Some id) && String.eqb (ev_kind e) "stream_checkpoint".
Definition checkpoints (d : db) (id : string) : list event_row :=
  List.filter (is_checkpoint id) (events d).

Section Checkpoints.
Context `{ThirdParty}.

(** The event records checkpoint number [n] of some observation. *)
Definition records (e : event_row) (n : Z) : Prop :=
  exists (o : RecordId ObservationType) p,
    canonical (object [("observation_id", id_value o);
      ("checkpoint", profile_observation_value (StreamingObservation p))]) = Ok (ev_payload e) /\
    so_checkpoint_sequence p = n.
Definition numbered (d : db) : Prop :=
  forall id i e, checkpoints d id !! i = Some e -> records e (Z.of_nat i).

Lemma event_kind_checkpoint revision to : event_kind revision to <> "stream_checkpoint".
Proof. unfold event_kind. by repeat case_match. Qed.

(** A statement appends no checkpoint, or the next one of one attempt. *)
Lemma stmt_checkpoints d d' :
  stmt d d' ->
  (forall id, checkpoints d' id = checkpoints d id) \/
  exists id e, checkpoints d' id = checkpoints d id ++ [e] /\
    records e (Z.of_nat (length (checkpoints d id))) /\
    forall other, other <> id -> checkpoints d' other = checkpoints d other.
Proof.
  assert (forall d e, ev_kind e <> "stream_checkpoint" -> forall id,
    List.filter (is_checkpoint id) (events d ++ [e]) = checkpoints d id) as Hother.
  { intros d0 e He id. rewrite List.filter_app. simpl. unfold is_checkpoint at 2.
    rewrite (proj2 (String.eqb_neq _ _) He), andb_false_r. apply app_nil_r. }
  destruct 1; try (left; intros k; unfold insert_lease_row, update_lease, insert_claim,
    release_one, insert_artifact, insert_attempt_artifact, insert_leased_artifact,
    insert_observation, select_observation, insert_decision, insert_run, insert_attempt_slot,
    insert_observation_slot, insert_membership, insert_sequence, insert_member, insert_budget,
    charge_budget, insert_dispositions in *; op_inv; reflexivity).
  - left. match goal with E1 : insert_attempt _ _ _ = _, E2 : insert_lease _ _ _ _ _ = _,
      E3 : append_transition _ _ _ _ _ _ _ = _ |- _ =>
      destruct (reserved_Ok _ _ _ _ _ _ _ _ _ _ E1 E2 E3) as (l & e & t & Hr) end.
    decompose [and] Hr. subst. intros k. apply Hother. congruence.
  - left. match goal with E : transition _ _ _ _ _ _ _ = _ |- _ =>
      apply transition_Ok in E as (old & e & t & Heff & _) end.
    rewrite (te_db _ _ _ _ _ _ _ _ _ _ _ Heff). intros k. apply Hother.
    destruct (te_event _ _ _ _ _ _ _ _ _ _ _ Heff) as (_ & _ & ->). apply event_kind_checkpoint.
  - left. match goal with E1 : transition _ _ _ _ _ _ _ = _, E2 : delete_claims _ _ = _,
      E3 : release_leases _ _ _ = _ |- _ =>
      apply transition_Ok in E1 as (old & e & t & Heff & _); apply delete_claims_Ok in E2 as ->;
      apply release_leases_Ok in E3 as -> end.
    rewrite (te_db _ _ _ _ _ _ _ _ _ _ _ Heff). intros k. apply Hother.
    destruct (te_event _ _ _ _ _ _ _ _ _ _ _ Heff) as (_ & _ & ->). apply event_kind_checkpoint.
  - right. unfold insert_event in *. op_inv. do 2 eexists. unfold checkpoints at 1. simpl.
    rewrite List.filter_app. simpl. unfold is_checkpoint at 2. simpl.
    rewrite bool_decide_eq_true_2 by done. simpl. split; [reflexivity|]. split.
    + exists observation, p. split; [done|]. symmetry. done.
    + intros k Hk. unfold checkpoints. simpl. rewrite List.filter_app. simpl. unfold is_checkpoint at 2.
      simpl. rewrite bool_decide_eq_false_2 by congruence. apply app_nil_r.
Qed.

Lemma numbered_stmt d d' : stmt d d' -> numbered d -> numbered d'.
Proof.
  intros [Heq|(id & e & Hid & He & Hne)]%stmt_checkpoints Hn k i x Hx; [rewrite Heq in Hx; by apply (Hn k)|].
  destruct (decide (k = id)) as [->|Hk]; [|rewrite Hne in Hx by done; by apply (Hn k)].
  rewrite Hid in Hx. apply lookup_app_Some in Hx as [Hx|[Hlen Hx]]; [by apply (Hn id)|].
  apply list_lookup_singleton_Some in Hx as [Hi <-].
  by replace i with (length (checkpoints d id)) by lia.
Qed.

(** C13: checkpoints are numbered without gaps. In every reachable store, the
    [i]-th checkpoint event in the log of an attempt records a streaming
    observation whose checkpoint sequence is [i]: none is lost, repeated or out
    of order, whatever other attempts commit in between. *)
Theorem checkpoints_numbered d id i e :
  reachable d -> checkpoints d id !! i = Some e -> records e (Z.of_nat i).
Proof.
  intros [v Hd]. apply steps_stmts in Hd. revert id i e. change (numbered d).
  assert (numbered (empty_store v)) as H0 by done. revert H0.
  induction Hd; eauto using numbered_stmt.
Qed.

(** C14: a checkpoint is committed alone and in sequence. A streaming observation
    is registered only for a streaming slot, without selection, by the owner of
    the attempt, and only when its sequence number is the number of checkpoints
    committed so far; the commit adds its row and its checkpoint, and leaves the
    attempts, the plan, the leases and the selections as they are. *)
Theorem checkpoint_commits d g o art select now d' p :
  register_observation g o art select now d = Ok d' ->
  rb_profile (record o) = Some (StreamingObservation p) ->
  select = false /\ is_ok (fence d g now) = true /\
  rb_producing_attempt (record o) = oa_id g /\
  (exists s, attempt_slots d !! slot_text g = Some s /\ as_kind s = Stream) /\
  so_checkpoint_sequence p = checkpoint_events d (id_text g) /\
  (exists row, observations d !! to_string (id o) = None /\ ob_attempt row = id_text g /\
     ob_slot row = to_string (rb_slot (record o)) /\
     observations d' = <[to_string (id o) := row]> (observations d)) /\
  (exists e, records e (so_checkpoint_sequence p) /\
     checkpoints d' (id_text g) = checkpoints d (id_text g) ++ [e]) /\
  selected_observations d' = selected_observations d /\ plan d' = plan d /\
  attempts d' = attempts d /\ leases d' = leases d /\
  finalization_claims d' = finalization_claims d.
Proof.
  unfold register_observation. intros E Hp. rewrite Hp in E.
  apply bind_Ok in E as (bad & _ & E). apply bind_Ok in E as ([] & _ & E).
  apply bind_Ok in E as ([] & Hprod%ensure_Ok & E). apply bind_Ok in E as (doc & _ & E).
  apply bind_Ok in E as (b & _ & E). apply bind_Ok in E as (t & Ht & E).
  apply timestamp_Ok in Ht as [-> _].
  apply bind_Ok in E as (st & Hfence & E). apply bind_Ok in E as (d1 & E1 & E).
  apply bind_Ok in E as (d2 & E2 & E). apply bind_Ok in E as (d3 & E3 & E).
  apply commit_Ok in E as [-> _].
  apply bind_Ok in E3 as (s & Hs & E3). apply bind_Ok in E3 as ([] & Hseq%ensure_Ok & E3).
  rewrite !andb_true_iff, bool_decide_eq_true, negb_true_iff, Z.eqb_eq in Hseq.
  destruct Hseq as [[Hkind ->] Hseq]. injection E2 as <-.
  apply insert_observation_Ok in E1 as (-> & Hnew & _).
  apply bind_Ok in E3 as (payload & Hpay & E3). apply bind_Ok in E3 as ([d4 n] & E4 & [= ->]).
  unfold insert_event in E4. op_inv. simpl in *. rewrite Hfence.
  split_and!; try done; [by bools|exists s; split; [eassumption|done]|eexists; split_and!; [exact Hnew| | |reflexivity]; reflexivity|].
  eexists. split; cycle 1.
  - unfold checkpoints. simpl. rewrite List.filter_app. simpl. unfold is_checkpoint at 2. simpl.
    rewrite bool_decide_eq_true_2 by done. reflexivity.
  - exists (id o), p. split; [exact Hpay|done].
Qed.
End Checkpoints.

Lemma stream_checkpoints : exists e, checkpoints stream.2 stream_key !! 1%nat = Some e /\
  String.eqb (ev_kind e) "stream_checkpoint" = true.
Proof. apply list_lookup_shape. vm_compute. reflexivity. Qed.

Lemma checkpoints_numbered_witness :
  exists e, checkpoints stream.2 stream_key !! 1%nat = Some e /\ @records model e 1.
Proof.
  destruct stream_checkpoints as (e & He & _). exists e. split; [exact He|].
  exact (@checkpoints_numbered model stream.2 stream_key 1 e (proj2 stream_reachable) He).
Defined.

Lemma checkpoint_commits_witness :
  exists d', @register_observation model stream.1.1
      (checkpoint stream.1.1 (id second_slot) 1 true) (tree "two" "two") false 16 stream.1.2 = Ok d' /\
    exists e, @records model e 1 /\
      checkpoints d' stream_key = checkpoints stream.1.2 stream_key ++ [e].
Proof.
  destruct stream_second as (d' & E). exists d'. split; [exact E|].
  destruct (@checkpoint_commits model _ _ _ _ _ _ _ _ E eq_refl) as (_ & _ & _ & _ & _ & _ & He & _).
  exact He.
Defined.
