(* ===== verification/Evidence.v ===== *)
(** * Observations and selections

    Which attempt produced what is selected for a slot: the foreign keys of the
    evidence tables as invariants, and the rule that the trajectory of an
    accepted profile attempt is never mixed with another attempt's. *)
From S2P Require Import Prelude Json Canonical Identity ThirdPartyModel Profile Records.
From S2P Require Import RunDocuments Store Attempts Fresh RunStore Publisher Recovery Coordination.
From S2P Require Import Statements History Claims Scenario Lifecycle StreamScenario.
From Stdlib Require Import Ascii.

(** The members of [slot] whose selection some other attempt than [id] produced. *)
Definition unmixed (d : db) (slot id : string) : Prop :=
  forall os m s o, attempt_observation_slots d !! os = Some m -> mem_attempt_slot m = slot ->
    selected_observations d !! os = Some s -> observations d !! sel_observation s = Some o ->
    ob_attempt o = id.

Record evidence_ok (d : db) : Prop := {
  ei_produced k o : observations d !! k = Some o ->
    (exists a, attempts d !! ob_attempt o = Some a /\ att_slot a = ob_attempt_slot o) /\
    (exists m, attempt_observation_slots d !! ob_slot o = Some m /\
               mem_attempt_slot m = ob_attempt_slot o);
  ei_selected os s : selected_observations d !! os = Some s ->
    exists o, observations d !! sel_observation s = Some o /\ ob_slot o = os /\ ob_valid o = true;
  ei_member os m : attempt_observation_slots d !! os = Some m ->
    is_Some (attempt_slots d !! mem_attempt_slot m);
  ei_accepted id a s : attempts d !! id = Some a -> att_state a = Accepted ->
    attempt_slots d !! att_slot a = Some s -> is_profile_kind (as_kind s) = true ->
    unmixed d (att_slot a) id;
  ei_slot id a : attempts d !! id = Some a -> is_Some (attempt_slots d !! att_slot a);
}.

(** What a statement does to the tables the invariant reads. *)
Record evidence_effect (d d' : db) : Prop := {
  ee_slots k s : attempt_slots d !! k = Some s -> attempt_slots d' !! k = Some s;
  ee_members os m : attempt_observation_slots d !! os = Some m ->
    attempt_observation_slots d' !! os = Some m;
  ee_new_member os m : attempt_observation_slots d' !! os = Some m ->
    attempt_observation_slots d !! os = Some m \/
    (attempt_observation_slots d !! os = None /\ is_Some (attempt_slots d !! mem_attempt_slot m));
  ee_observations k o : observations d !! k = Some o -> observations d' !! k = Some o;
  ee_new_observation k o : observations d' !! k = Some o -> observations d !! k = Some o \/
    ((exists a, attempts d !! ob_attempt o = Some a /\ att_slot a = ob_attempt_slot o) /\
     (exists m, attempt_observation_slots d !! ob_slot o = Some m /\
                mem_attempt_slot m = ob_attempt_slot o) /\ observations d !! k = None);
  ee_new_selection os s : selected_observations d' !! os = Some s ->
    selected_observations d !! os = Some s \/
    (exists o claimed, observations d !! sel_observation s = Some o /\ ob_slot o = os /\
       ob_valid o = true /\ claims_slot d (ob_attempt o) claimed);
}.

Section Evidence.
Context `{ThirdParty}.

Lemma stmt_evidence d d' : stmt d d' -> evidence_effect d d'.
Proof.
  destruct 1.
  all: try (unfold insert_attempt, insert_lease, insert_lease_row, transition, append_transition,
    insert_event, insert_transition, update_attempt, delete_claims, release_leases, update_lease,
    insert_claim, release_one, insert_artifact, insert_attempt_artifact, insert_leased_artifact,
    insert_decision, insert_run, insert_observation_slot, insert_sequence, insert_member,
    insert_budget, charge_budget, insert_dispositions in *; op_inv; constructor; simpl; by auto).
  - destruct (insert_observation_Ok _ _ _ _ ltac:(eassumption)) as (-> & Hn & Ha & Hm).
    constructor; simpl; auto.
    + intros k x Hx. rewrite lookup_insert_ne by congruence. done.
    + intros k x. destruct (decide (k = id)) as [->|Hne];
        [rewrite lookup_insert_eq; intros [= <-]; eauto|rewrite lookup_insert_ne by done; auto].
  - match goal with E : select_observation _ _ _ = _ |- _ => unfold select_observation, constraint in E end.
    op_inv; [by constructor; auto|]. constructor; simpl; auto.
    intros os x. destruct (decide (os = slot)) as [->|Hne];
      [rewrite lookup_insert_eq; intros [= <-]|rewrite lookup_insert_ne by done; auto].
    right. exists o, claimed.
    match goal with Ho : observations _ !! _ = Some o |- _ => rewrite Ho in * end.
    bools. by rewrite <-String.eqb_eq.
  - unfold insert_attempt_slot, constraint in *. op_inv; [by constructor; auto|].
    constructor; simpl; auto. intros k x Hx. rewrite lookup_insert_ne; [done|].
    intros ->. unfold has_key in *. by rewrite Hx in *.
  - unfold insert_membership, constraint in *. op_inv; [by constructor; auto|].
    match goal with F : has_key o _ = false |- _ => apply has_key_false in F end.
    constructor; simpl; auto.
    + intros k x Hx. rewrite lookup_insert_ne by congruence. done.
    + intros k x. destruct (decide (k = o)) as [->|Hne];
        [rewrite lookup_insert_eq; intros [= <-]|rewrite lookup_insert_ne by done; auto].
      right. split; [done|]. by destruct (attempt_slots d !! mem_attempt_slot r).
Qed.

(** What a statement does to the attempts. *)
Lemma stmt_attempts d d' :
  stmt d d' ->
  (exists id a, attempts d !! id = None /\ attempts d' = <[id := a]> (attempts d) /\
     att_state a = Reserved /\ is_Some (attempt_slots d !! att_slot a)) \/
  (exists g old phase at_ns, attempts d !! id_text g = Some old /\
     attempts d' = <[id_text g := moved old (InPhase phase) (oa_revision g + 1) at_ns None None]>
                     (attempts d)) \/
  (exists g old o at_ns failure artifact, attempts d !! id_text g = Some old /\
     attempts d' = <[id_text g := moved old (Outcome.state o) (oa_revision g + 1) at_ns failure
                       artifact]> (attempts d) /\
     plan d' = plan d /\ evidence d' = evidence d /\
     (o = Outcome.Accepted -> claims_slot d (id_text g) (slot_text g) /\
        own_selections d (id_text g) (slot_text g))) \/
  attempts d' = attempts d.
Proof.
  destruct 1; try (do 3 right; unfold insert_event, insert_lease_row, update_lease, insert_claim,
    release_one, insert_artifact, insert_attempt_artifact, insert_leased_artifact,
    insert_observation, select_observation, insert_decision, insert_run, insert_attempt_slot,
    insert_observation_slot, insert_membership, insert_sequence, insert_member, insert_budget,
    charge_budget, insert_dispositions in *; op_inv; reflexivity).
  - left. match goal with E1 : insert_attempt _ _ _ = _, E2 : insert_lease _ _ _ _ _ = _,
      E3 : append_transition _ _ _ _ _ _ _ = _ |- _ =>
      destruct (reserved_Ok _ _ _ _ _ _ _ _ _ _ E1 E2 E3)
        as (l & e & t & Hnew & Hkey & _ & _ & _ & _ & _ & _ & _ & _ & _ & _ & _ & _ & _ & -> & _) end.
    exists id, a. simpl. split; [done|]. split; [done|]. split; [done|]. by apply has_key_spec.
  - right; left. match goal with E : transition _ _ _ _ _ _ _ = _ |- _ =>
      apply transition_Ok in E as (old & e & t & Heff & _) end. simpl in Heff.
    pose proof (te_row _ _ _ _ _ _ _ _ _ _ _ Heff). exists g, old, phase. eexists.
    split; [done|]. by rewrite (te_db _ _ _ _ _ _ _ _ _ _ _ Heff).
  - do 2 right; left. match goal with E1 : transition _ _ _ _ _ _ _ = _, E2 : delete_claims _ _ = _,
      E3 : release_leases _ _ _ = _ |- _ =>
      apply transition_Ok in E1 as (old & e & t & Heff & _); apply delete_claims_Ok in E2 as ->;
      apply release_leases_Ok in E3 as -> end. simpl in Heff.
    pose proof (te_row _ _ _ _ _ _ _ _ _ _ _ Heff). exists g, old, o. do 3 eexists.
    split; [done|]. rewrite (te_db _ _ _ _ _ _ _ _ _ _ _ Heff). by split_and!.
Qed.

Lemma evidence_row d d' :
  stmt d d' -> forall id a', attempts d' !! id = Some a' ->
  is_Some (attempt_slots d !! att_slot a') \/
  exists a, attempts d !! id = Some a /\ att_slot a = att_slot a'.
Proof.
  intros [(k & b & _ & E & _ & Hs)|[(g & old & phase & at_ns & Hold & E)
    |[(g & old & o & at_ns & failure & artifact & Hold & E & _)|E]]]%stmt_attempts id a';
    rewrite E; [destruct (decide (id = k)) as [->|Hne]|destruct (decide (id = id_text g)) as [->|Hne]
    |destruct (decide (id = id_text g)) as [->|Hne]|];
    rewrite ?lookup_insert_eq, ?lookup_insert_ne by done; try (intros [= <-]); eauto.
Qed.

(** An attempt that is accepted after the statement was so before, or is the
    finishing attempt, whose selections are its own. *)
Lemma evidence_accepted d d' :
  stmt d d' -> claims_ok d -> forall id a', attempts d' !! id = Some a' -> att_state a' = Accepted ->
  (exists a, attempts d !! id = Some a /\ att_state a = Accepted /\ att_slot a = att_slot a') \/
  (own_selections d id (att_slot a') /\ plan d' = plan d /\ evidence d' = evidence d).
Proof.
  intros [(k & b & _ & E & Hb & _)|[(g & old & phase & at_ns & Hold & E)
    |[(g & old & o & at_ns & failure & artifact & Hold & E & Hp & He & Hacc)|E]]]%stmt_attempts Hc id a';
    rewrite E; [destruct (decide (id = k)) as [->|Hne]|destruct (decide (id = id_text g)) as [->|Hne]
    |destruct (decide (id = id_text g)) as [->|Hne]|];
    rewrite ?lookup_insert_eq, ?lookup_insert_ne by done; try (intros [= <-]); eauto.
  - intros. congruence.
  - done.
  - intros Ha. simpl in *. right. assert (o = Outcome.Accepted) as -> by (by destruct o).
    destruct (Hacc eq_refl) as [(c & Hk & Hid) Hown].
    destruct (co_claim _ Hc _ _ Hk) as (a & Ha' & Hs & _). rewrite Hid, Hold in Ha'.
    injection Ha' as <-. by rewrite Hs.
Qed.

Lemma evidence_stmt d d' :
  stmt d d' -> claims_ok d -> evidence_ok d -> evidence_ok d'.
Proof.
  intros Hst Hc Hev. pose proof (stmt_evidence _ _ Hst) as He. constructor.
  - intros k o Ho. destruct (ee_new_observation _ _ He _ _ Ho) as [Hold|(Ha & Hm & _)];
      [destruct (ei_produced _ Hev _ _ Hold) as [Ha Hm]|];
      (destruct Ha as (a & Ha & Hs); destruct Hm as (m & Hm & Hms);
       destruct (stmt_rows _ _ _ _ Hst Ha) as (a' & Ha' & Hs' & _);
       split; [exists a'; split; [done|congruence]|exists m; split; [by apply (ee_members _ _ He)|done]]).
  - intros os s Hs. destruct (ee_new_selection _ _ He _ _ Hs) as [Hold|(o & claimed & Ho & Hos & Hv & _)].
    + destruct (ei_selected _ Hev _ _ Hold) as (o & Ho & ?). exists o.
      split; [by apply (ee_observations _ _ He)|done].
    + exists o. split; [by apply (ee_observations _ _ He)|done].
  - intros os m Hm. destruct (ee_new_member _ _ He _ _ Hm) as [Hold|[_ Hs]];
      [apply (ei_member _ Hev) in Hold as Hs|]; destruct Hs as [s Hs]; exists s; by apply (ee_slots _ _ He).
  - intros id a s Ha Hacc Hs Hk.
    destruct (evidence_accepted _ _ Hst Hc _ _ Ha Hacc) as [(b & Hb & Hbacc & Hbs)|(Hown & Hp & Hevd)].
    + rewrite <-Hbs in *.
      assert (attempt_slots d !! att_slot b = Some s) as Hs0.
      { destruct (ei_slot _ Hev _ _ Hb) as [s0 Hs0]. pose proof (ee_slots _ _ He _ _ Hs0). congruence. }
      intros os m t o Hm Hms Ht Ho.
      destruct (ee_new_member _ _ He _ _ Hm) as [Hm0|[Hm0 _]].
      * destruct (ee_new_selection _ _ He _ _ Ht) as [Ht0|(p & claimed & Hp & Hps & _ & (c & Hcl & Hcid))].
        -- destruct (ei_selected _ Hev _ _ Ht0) as (p & Hp & _).
           pose proof (ee_observations _ _ He _ _ Hp) as Hp'. rewrite Ho in Hp'. injection Hp' as <-.
           by eapply (ei_accepted _ Hev id b s Hb Hbacc Hs0 Hk).
        -- exfalso. destruct (ei_produced _ Hev _ _ Hp) as [(q & Hq & Hqs) (m' & Hm' & Hms')].
           rewrite Hps, Hm0 in Hm'. injection Hm' as <-.
           destruct (co_claim _ Hc _ _ Hcl) as (r & Hr & Hrs & _). rewrite Hcid, Hq in Hr.
           injection Hr as <-. eapply (co_open _ Hc _ _ id b Hcl Hb); [congruence|done].
      * exfalso. destruct (ee_new_selection _ _ He _ _ Ht) as [Ht0|(p & claimed & Hp & Hps & _ & _)].
        -- destruct (ei_selected _ Hev _ _ Ht0) as (p & Hp & Hps & _).
           destruct (ei_produced _ Hev _ _ Hp) as [_ (m' & Hm' & _)]. congruence.
        -- destruct (ei_produced _ Hev _ _ Hp) as [_ (m' & Hm' & _)]. congruence.
    + assert (attempt_slots d !! att_slot a = Some s) as Hs0
        by (unfold attempt_slots in *; by rewrite <-Hp).
      pose proof (proj1 (selection_conflicts_false _ _ _) (Hown s Hs0 Hk)) as Hno.
      unfold unmixed, attempt_observation_slots, selected_observations, observations in *.
      by rewrite Hp, Hevd.
  - intros id a Ha. destruct (evidence_row _ _ Hst _ _ Ha) as [[s Hs]|(b & Hb & Hbs)].
    + exists s. by apply (ee_slots _ _ He).
    + destruct (ei_slot _ Hev _ _ Hb) as [s Hs]. exists s. rewrite <-Hbs. by apply (ee_slots _ _ He).
Qed.

Lemma reachable_evidence d : reachable d -> evidence_ok d.
Proof.
  intros [v Hd]. apply steps_stmts in Hd.
  assert (evidence_ok (empty_store v)) as H0 by (constructor; simpl; done).
  assert (claims_ok (empty_store v)) as Hc by (constructor; simpl; done).
  pose proof (history_empty v) as Hh. revert H0 Hc Hh.
  induction Hd; eauto using evidence_stmt, claims_stmt, history_stmt.
Qed.

(** C12: trajectories are never mixed. In every reachable store, whatever was
    selected for a member of the slot of an accepted buffered, streamed or fresh
    attempt was produced by that attempt for that member, and is valid; with any
    number of retries and recovery passes before and after the acceptance. *)
Theorem trajectory_single_producer d id a s os m sel :
  reachable d -> attempts d !! id = Some a -> att_state a = Accepted ->
  attempt_slots d !! att_slot a = Some s -> is_profile_kind (as_kind s) = true ->
  attempt_observation_slots d !! os = Some m -> mem_attempt_slot m = att_slot a ->
  selected_observations d !! os = Some sel ->
  exists o, observations d !! sel_observation sel = Some o /\ ob_attempt o = id /\
            ob_slot o = os /\ ob_attempt_slot o = att_slot a /\ ob_valid o = true.
Proof.
  intros Hd Ha Hacc Hs Hk Hm Hms Hsel. pose proof (reachable_evidence _ Hd) as Hev.
  destruct (ei_selected _ Hev _ _ Hsel) as (o & Ho & Hos & Hv). exists o.
  assert (ob_attempt o = id) as Hid by (by eapply (ei_accepted _ Hev id a s)).
  destruct (ei_produced _ Hev _ _ Ho) as [(b & Hb & Hbs) _]. rewrite Hid, Ha in Hb.
  injection Hb as <-. done.
Qed.
End Evidence.


Lemma trajectory_single_producer_witness :
  exists s o, selected_observations stream.2 !! second_key = Some s /\
    observations stream.2 !! sel_observation s = Some o /\ ob_attempt o = stream_key.
Proof.
  destruct stream_row as (a & Ha & (Hst & Hslot)%andb_true_iff).
  apply bool_decide_eq_true in Hst. apply String.eqb_eq in Hslot.
  destruct stream_slot as (s & Hs & Hk%bool_decide_eq_true).
  destruct stream_member as (m & Hm & Hms%String.eqb_eq).
  destruct stream_selection as (sel & Hsel & _).
  assert (attempt_slots stream.2 !! att_slot a = Some s) as Hs' by (rewrite Hslot; exact Hs).
  assert (is_profile_kind (as_kind s) = true) as Hp by (rewrite Hk; reflexivity).
  assert (mem_attempt_slot m = att_slot a) as Hm' by (rewrite Hms, Hslot; reflexivity).
  destruct (@trajectory_single_producer model stream.2 stream_key a s second_key m sel
    (proj2 stream_reachable) Ha Hst Hs' Hp Hm Hm' Hsel) as (o & Ho & Hid & _).
  exists sel, o. split; [exact Hsel|]. split; [exact Ho|exact Hid].
Defined.
