(* ===== verification/FreshBudget.v ===== *)
(** * The durable budget of a fresh sequence

    Executions of one repetition share an active-time budget.  The tables of
    [Fresh.v] keep two promises however reservations, charges, transitions,
    registrations and crashes are interleaved: at most one execution of a
    sequence is open, and the time accounted to the sequence never exceeds its
    policy's bound. *)
From S2P Require Import Prelude Json Canonical Identity ThirdPartyModel Profile Records.
From S2P Require Import RunDocuments Store Attempts Fresh RunStore Publisher Recovery Coordination.
From S2P Require Import Statements History Claims Scenario.
From Stdlib Require Import Ascii.

(** ** Sums over rows *)

Definition sum_list {A} (f : string -> A -> Z) (l : list (string * A)) : Z :=
  foldr (fun kv acc => (f kv.1 kv.2 + acc)%Z) 0%Z l.
Lemma sum_list_perm {A} (f : string -> A -> Z) l k : l ≡ₚ k -> sum_list f l = sum_list f k.
Proof. induction 1; simpl; lia. Qed.
Lemma sum_rows_insert {A} (f : string -> A -> Z) (m : gmap string A) k x :
  m !! k = None -> sum_rows f (<[k := x]> m) = (f k x + sum_rows f m)%Z.
Proof. intros Hk. exact (sum_list_perm f _ _ (map_to_list_insert m k x Hk)). Qed.
Lemma sum_rows_le {A} (f g : string -> A -> Z) (m : gmap string A) :
  (forall k x, m !! k = Some x -> f k x <= g k x)%Z -> (sum_rows f m <= sum_rows g m)%Z.
Proof.
  intros Hle. unfold sum_rows.
  assert (forall kv, kv ∈ map_to_list m -> f kv.1 kv.2 <= g kv.1 kv.2)%Z as Hl
    by (intros [k x] Hin; apply Hle; by apply elem_of_map_to_list).
  induction (map_to_list m) as [|kv l IH]; simpl; [lia|].
  pose proof (Hl kv ltac:(set_solver)). specialize (IH ltac:(set_solver)). lia.
Qed.
Lemma sum_rows_ext {A} (f g : string -> A -> Z) (m : gmap string A) :
  (forall k x, m !! k = Some x -> f k x = g k x) -> sum_rows f m = sum_rows g m.
Proof. intros Heq. apply Z.le_antisymm; apply sum_rows_le; intros k x Hk; by rewrite Heq. Qed.
Lemma sum_rows_update {A} (f : string -> A -> Z) (m : gmap string A) k x y :
  m !! k = Some x -> sum_rows f (<[k := y]> m) = (f k y - f k x + sum_rows f m)%Z.
Proof.
  intros Hk. rewrite <-(insert_id m k x Hk) at 2. rewrite <-!(insert_delete_eq m).
  rewrite !sum_rows_insert by apply lookup_delete_eq. lia.
Qed.
Lemma sum_rows_nonneg {A} (f : string -> A -> Z) (m : gmap string A) :
  (forall k x, m !! k = Some x -> 0 <= f k x)%Z -> (0 <= sum_rows f m)%Z.
Proof.
  intros Hf. transitivity (sum_rows (fun _ _ => 0%Z) m); [|by apply sum_rows_le].
  unfold sum_rows. induction (map_to_list m); simpl; lia.
Qed.

(** ** The invariant *)

Record fresh_ok (d : db) : Prop := {
  fi_slot id a : attempts d !! id = Some a -> is_Some (attempt_slots d !! att_slot a);
  fi_member slot m : fresh_members d !! slot = Some m ->
    supported d = true /\ is_Some (fresh_sequences d !! (fm_run m, fm_measurement m)) /\
    exists s, attempt_slots d !! slot = Some s /\ as_kind s = FreshObservation;
  fi_attempt id a s : attempts d !! id = Some a -> supported d = true ->
    attempt_slots d !! att_slot a = Some s -> as_kind s = FreshObservation ->
    is_Some (fresh_members d !! att_slot a);
  fi_budget id b : fresh_budget d !! id = Some b -> is_Some (attempts d !! id) /\
    (0 < bu_reserved b)%Z /\
    forall c, bu_charged b = Some c -> (0 <= c <= bu_reserved b)%Z;
  fi_open run index i a j b : attempts d !! i = Some a -> attempts d !! j = Some b ->
    attempt_in_sequence d run index a = true -> attempt_in_sequence d run index b = true ->
    att_finished a = None -> att_finished b = None -> i = j;
  fi_limit run index p limit : fresh_sequences d !! (run, index) = Some p ->
    Policy.active_time_ns p = Ok limit -> (used_time d run index <= limit)%Z;
}.

Lemma active_time_positive p limit : Policy.active_time_ns p = Ok limit ->
  (0 < limit <= MAX_SAFE_INTEGER)%Z.
Proof.
  unfold Policy.active_time_ns. destruct (Duration.positive_nanoseconds _) eqn:E; [|done].
  simpl. intros [= <-]. by eapply Duration.positive_nanoseconds_range.
Qed.

Lemma used_time_nonneg d run index : fresh_ok d -> (0 <= used_time d run index)%Z.
Proof.
  intros Hd. apply sum_rows_nonneg. intros id b Hb.
  destruct (fi_budget _ Hd _ _ Hb) as (_ & Hr & Hc).
  destruct (attempts d !! id) as [a|]; [|done]. destruct (attempt_in_sequence _ _ _ _); [|done].
  unfold charge. destruct (att_finished a); [|lia]. destruct (bu_charged b) as [c|]; simpl; [|lia].
  specialize (Hc c eq_refl). lia.
Qed.

(** What an attempt is charged never grows when it finishes or reports its
    time. *)
Lemma charge_finished a a' b : (forall c, bu_charged b = Some c -> (0 <= c <= bu_reserved b)%Z) ->
  (is_Some (att_finished a) -> is_Some (att_finished a')) -> (charge a' b <= charge a b)%Z.
Proof.
  intros Hc Hf. unfold charge. destruct (att_finished a) as [t|].
  - destruct (Hf ltac:(by eexists)) as [t' ->]. lia.
  - destruct (att_finished a'); [|lia]. destruct (bu_charged b) as [c|]; simpl; [|lia].
    specialize (Hc c eq_refl). lia.
Qed.

(** ** Preservation *)
Section Fresh.
Context `{ThirdParty}.

(** Statements on other tables; plan slots are only added. *)
Lemma fresh_frame d d' : fresh_ok d -> attempts d' = attempts d ->
  user_version d' = user_version d -> fresh_members d' = fresh_members d ->
  fresh_sequences d' = fresh_sequences d -> fresh_budget d' = fresh_budget d ->
  (forall k s, attempt_slots d !! k = Some s -> attempt_slots d' !! k = Some s) -> fresh_ok d'.
Proof.
  intros Hd Ha Hv Hm Hs Hb Hk.
  assert (forall run index a, attempt_in_sequence d' run index a = attempt_in_sequence d run index a)
    as Hin by (intros; unfold attempt_in_sequence; by rewrite Hm).
  assert (forall run index, used_time d' run index = used_time d run index) as Hu.
  { intros. unfold used_time, sum_budget. rewrite Hb. apply sum_rows_ext. intros k x _.
    rewrite Ha. destruct (attempts d !! k); [by rewrite Hin|done]. }
  assert (supported d' = supported d) as Hsup by (unfold supported; by rewrite Hv).
  constructor; intros *; rewrite ?Ha, ?Hm, ?Hs, ?Hb, ?Hu, ?Hsup.
  - intros [s Hx]%(fi_slot _ Hd). eauto.
  - intros (? & ? & s & Hx & ?)%(fi_member _ Hd). eauto 6.
  - intros Hx Hsup' Hslot Hkind. destruct (fi_slot _ Hd _ _ Hx) as [s0 Hs0].
    pose proof (Hk _ _ Hs0). assert (s0 = s) as -> by congruence. by eapply (fi_attempt _ Hd).
  - apply (fi_budget _ Hd).
  - rewrite !Hin. apply (fi_open _ Hd).
  - apply (fi_limit _ Hd).
Qed.

(** A row that keeps its slot and only finishes. *)
Lemma fresh_moved d d' id old new : fresh_ok d -> attempts d !! id = Some old ->
  attempts d' = <[id := new]> (attempts d) -> att_slot new = att_slot old ->
  (is_Some (att_finished old) -> is_Some (att_finished new)) -> plan d' = plan d ->
  user_version d' = user_version d -> fresh_members d' = fresh_members d ->
  fresh_sequences d' = fresh_sequences d -> fresh_budget d' = fresh_budget d -> fresh_ok d'.
Proof.
  intros Hd Hold Ha Hslot Hfin Hp Hv Hm Hs Hb.
  assert (forall run index a b, att_slot a = att_slot b ->
    attempt_in_sequence d' run index a = attempt_in_sequence d run index b) as Hin
    by (intros ? ? ? ? Heq; unfold attempt_in_sequence; by rewrite Hm, Heq).
  assert (supported d' = supported d) as Hsup by (unfold supported; by rewrite Hv).
  assert (forall i a, attempts d' !! i = Some a -> exists b, attempts d !! i = Some b /\
    att_slot a = att_slot b /\ (att_finished a = None -> att_finished b = None)) as Hrow.
  { intros i a. rewrite Ha. destruct (decide (i = id)) as [->|Hne];
      [rewrite lookup_insert_eq; intros [= <-]|rewrite lookup_insert_ne by done; eauto].
    exists old. split; [done|]. split; [done|]. intros Hn. destruct (att_finished old); [|done].
    destruct (Hfin ltac:(by eexists)). congruence. }
  constructor; intros *; rewrite ?Hm, ?Hs, ?Hb, ?Hsup; unfold attempt_slots; rewrite ?Hp.
  - intros (b & Hx & -> & _)%Hrow. by apply (fi_slot _ Hd _ _ Hx).
  - apply (fi_member _ Hd).
  - intros (b & Hx & -> & _)%Hrow. by apply (fi_attempt _ Hd _ _ _ Hx).
  - intros (Hx & ?)%(fi_budget _ Hd). split; [|done]. rewrite Ha.
    destruct (decide (id0 = id)) as [->|Hne]; [by rewrite lookup_insert_eq|by rewrite lookup_insert_ne].
  - intros (x & Hx & Hxs & Hxf)%Hrow (y & Hy & Hys & Hyf)%Hrow.
    rewrite (Hin _ _ _ _ Hxs), (Hin _ _ _ _ Hys). intros ? ? ? ?. by eapply (fi_open _ Hd); eauto.
  - intros Hseq Hlim. etransitivity; [|by eapply (fi_limit _ Hd)].
    unfold used_time, sum_budget. rewrite Hb. apply sum_rows_le. intros k b Hk.
    destruct (fi_budget _ Hd _ _ Hk) as (_ & _ & Hc). rewrite Ha.
    destruct (decide (k = id)) as [->|Hne];
      [rewrite lookup_insert_eq, Hold, (Hin _ _ _ old) by done|rewrite lookup_insert_ne by done].
    + destruct (attempt_in_sequence _ _ _ _); [by apply charge_finished|done].
    + destruct (attempts d !! k) as [a|]; [|done]. by rewrite (Hin _ _ a a).
Qed.

(** A reservation: its slot is in no sequence, or the sequence has no open
    attempt. *)
Lemma fresh_reserved d d' id a u : fresh_ok d -> check_reservation d (att_slot a) = Ok u ->
  attempts d !! id = None -> is_Some (attempt_slots d !! att_slot a) ->
  attempts d' = <[id := a]> (attempts d) -> plan d' = plan d ->
  user_version d' = user_version d -> Store.fresh d' = Store.fresh d -> fresh_ok d'.
Proof.
  intros Hd Hcheck Hnew Hslot Ha Hp Hv Hf.
  assert (fresh_members d' = fresh_members d) as Hm by (unfold fresh_members; by rewrite Hf).
  assert (fresh_sequences d' = fresh_sequences d) as Hs by (unfold fresh_sequences; by rewrite Hf).
  assert (fresh_budget d' = fresh_budget d) as Hb by (unfold fresh_budget; by rewrite Hf).
  assert (supported d' = supported d) as Hsup by (unfold supported; by rewrite Hv).
  assert (forall run index b, attempt_in_sequence d' run index b = attempt_in_sequence d run index b)
    as Hin by (intros; unfold attempt_in_sequence; by rewrite Hm).
  assert (forall run index, attempt_in_sequence d run index a = true ->
    sequence_active d run index = false) as Hidle.
  { intros run index Hrun. unfold attempt_in_sequence in Hrun.
    destruct (fresh_members d !! att_slot a) as [m|] eqn:Hmem; [|done].
    destruct (fi_member _ Hd _ _ Hmem) as (Hsupp & _).
    unfold check_reservation, membership in Hcheck. rewrite Hsupp, Hmem in Hcheck. simpl in Hcheck.
    destruct (has_key _ _); [done|].
    apply bind_Ok in Hcheck as (i & [-> _]%timestamp_Ok & Hcheck).
    unfold in_sequence in Hrun. apply andb_true_iff in Hrun as [<-%String.eqb_eq <-%Z.eqb_eq].
    by destruct (sequence_active d _ _). }
  constructor; intros *; rewrite ?Hm, ?Hs, ?Hb, ?Hsup, ?Ha; unfold attempt_slots; rewrite ?Hp.
  - destruct (decide (id0 = id)) as [->|Hne]; [rewrite lookup_insert_eq; by intros [= <-]|].
    rewrite lookup_insert_ne by done. apply (fi_slot _ Hd).
  - apply (fi_member _ Hd).
  - destruct (decide (id0 = id)) as [->|Hne]; [rewrite lookup_insert_eq; intros [= <-]|].
    + intros Hsupp Hx Hk. unfold check_reservation, membership in Hcheck.
      destruct (fresh_members d !! att_slot a) as [m|]; [by eexists|].
      rewrite Hsupp in Hcheck. simpl in Hcheck. unfold attempt_slots in Hcheck.
      rewrite Hx in Hcheck. simpl in Hcheck. by rewrite Hk in Hcheck.
    + rewrite lookup_insert_ne by done. apply (fi_attempt _ Hd).
  - intros (Hx & ?)%(fi_budget _ Hd). split; [|done]. rewrite lookup_insert_ne; [done|].
    intros ->. rewrite Hnew in Hx. by destruct Hx.
  - rewrite !Hin. destruct (decide (i = id)) as [->|Hi], (decide (j = id)) as [->|Hj];
      rewrite ?lookup_insert_eq, ?lookup_insert_ne by done; try done.
    + intros [= <-] Hj' Hina Hinb _ Hfin. specialize (Hidle _ _ Hina).
      unfold sequence_active in Hidle. rewrite exists_row_false in Hidle.
      specialize (Hidle _ _ Hj'). by rewrite Hinb, Hfin in Hidle.
    + intros Hi' [= <-] Hina Hinb Hfin _. specialize (Hidle _ _ Hinb).
      unfold sequence_active in Hidle. rewrite exists_row_false in Hidle.
      specialize (Hidle _ _ Hi'). by rewrite Hina, Hfin in Hidle.
    + apply (fi_open _ Hd).
  - intros Hseq Hlim. etransitivity; [|by eapply (fi_limit _ Hd)].
    unfold used_time, sum_budget. rewrite Hb. apply Z.eq_le_incl, sum_rows_ext. intros k x Hx.
    destruct (fi_budget _ Hd _ _ Hx) as [[y Hy] _]. rewrite Ha, lookup_insert_ne by congruence.
    rewrite Hy. by rewrite Hin.
Qed.

(** A member of a sequence is registered before its slot has any attempt. *)
Lemma fresh_new_member d slot m s : fresh_ok d -> supported d = true ->
  attempt_slots d !! slot = Some s -> as_kind s = FreshObservation ->
  fresh_members d !! slot = None -> is_Some (fresh_sequences d !! (fm_run m, fm_measurement m)) ->
  fresh_ok (set_fresh_members (<[slot := m]> (fresh_members d)) d).
Proof.
  intros Hd Hsup Hslot Hk Hnew Hseq.
  assert (forall id a, attempts d !! id = Some a -> att_slot a <> slot) as Hno.
  { intros id a Ha <-. destruct (fi_attempt _ Hd _ _ _ Ha Hsup Hslot Hk). congruence. }
  set (d' := set_fresh_members _ d).
  assert (forall id a run index, attempts d !! id = Some a ->
    attempt_in_sequence d' run index a = attempt_in_sequence d run index a) as Hin.
  { intros id a run index Ha. unfold attempt_in_sequence. simpl.
    rewrite lookup_insert_ne; [done|]. intros E. by apply (Hno _ _ Ha). }
  constructor.
  - apply (fi_slot _ Hd).
  - intros k x. simpl. destruct (decide (k = slot)) as [->|Hne];
      [rewrite lookup_insert_eq; intros [= <-]; eauto|rewrite lookup_insert_ne by done].
    apply (fi_member _ Hd).
  - simpl. intros id a x Ha. rewrite lookup_insert_ne; [by eapply (fi_attempt _ Hd)|].
    intros E. by apply (Hno _ _ Ha).
  - apply (fi_budget _ Hd).
  - intros run index i a j b Hi Hj. rewrite (Hin _ _ _ _ Hi), (Hin _ _ _ _ Hj).
    by apply (fi_open _ Hd).
  - intros run index p limit Hp Hlim. etransitivity; [|by eapply (fi_limit _ Hd)].
    apply Z.eq_le_incl, sum_rows_ext. intros k b _.
    change (attempts d') with (attempts d).
    destruct (attempts d !! k) as [a|] eqn:Ha; [|done]. by rewrite (Hin _ _ _ _ Ha).
Qed.

(** A sequence starts without members. *)
Lemma fresh_new_sequence d run index p : fresh_ok d -> fresh_sequences d !! (run, index) = None ->
  fresh_ok (set_fresh_sequences (<[(run, index) := p]> (fresh_sequences d)) d).
Proof.
  intros Hd Hnew. constructor; try apply Hd.
  - intros slot m Hm. simpl in *. destruct (fi_member _ Hd _ _ Hm) as (? & [q Hq] & ?).
    split; [done|]. split; [|done]. rewrite lookup_insert_ne; [by eexists|]. intros E.
    rewrite E in Hnew. congruence.
  - intros run0 index0 q limit. simpl. destruct (decide ((run0, index0) = (run, index))) as [[= -> ->]|Hne];
      [rewrite lookup_insert_eq|rewrite lookup_insert_ne by congruence; apply (fi_limit _ Hd)].
    intros [= <-] Hlim%active_time_positive. transitivity 0%Z; [|lia].
    unfold used_time, sum_budget. etransitivity; [apply (sum_rows_le _ (fun _ _ => 0%Z))|].
    + intros k b _. destruct (attempts _ !! k) as [a|]; [|lia].
      destruct (attempt_in_sequence _ _ _ a) eqn:Ha; [|lia]. exfalso.
      unfold attempt_in_sequence in Ha. simpl in Ha.
      destruct (fresh_members d !! att_slot a) as [m|] eqn:Hm; [|done].
      apply andb_true_iff in Ha as [<-%String.eqb_eq <-%Z.eqb_eq].
      destruct (fi_member _ Hd _ _ Hm) as (_ & [q Hq] & _). congruence.
    + unfold sum_rows. induction (map_to_list _); simpl; lia.
Qed.

(** Time is reserved within what the bound leaves, and a charge stays within
    its reservation. *)
Lemma fresh_reserve_time d id n a run index limit used : fresh_ok d ->
  attempts d !! id = Some a -> att_finished a = None ->
  membership d (att_slot a) = Some (run, index) -> allowance d run index = Ok (limit, used) ->
  (0 < n <= saturating_sub limit used)%Z -> fresh_budget d !! id = None ->
  fresh_ok (set_fresh_budget (<[id := {| bu_reserved := n; bu_charged := None |}]> (fresh_budget d)) d).
Proof.
  intros Hd Ha Hfin Hmem Hall Hn Hnew. set (d' := set_fresh_budget _ d).
  assert (exists p, fresh_sequences d !! (run, index) = Some p /\
    Policy.active_time_ns p = Ok limit /\ used = used_time d run index) as (p & Hp & Hlim & ->).
  { unfold allowance in Hall. apply bind_Ok in Hall as (i & [-> _]%timestamp_Ok & Hall).
    apply bind_Ok in Hall as (p & Hp & Hall). apply bind_Ok in Hall as (l & Hl & Hall).
    apply bind_Ok in Hall as (u & Hu & [= -> ->]). exists p.
    split; [by destruct (fresh_sequences d !! _); simplify_eq/=|].
    split; [by destruct (Policy.active_time_ns p); simplify_eq/=|].
    unfold unsigned in Hu. by destruct (_ && _); simplify_eq. }
  assert (attempt_in_sequence d run index a = true) as Hina.
  { unfold membership in Hmem. destruct (negb _); [done|]. unfold attempt_in_sequence.
    destruct (fresh_members d !! att_slot a) as [m|]; [|done]. simpl in Hmem. injection Hmem as <- <-.
    unfold in_sequence. by rewrite String.eqb_refl, Z.eqb_refl. }
  constructor; try apply Hd.
  - intros k b. simpl. destruct (decide (k = id)) as [->|Hne];
      [rewrite lookup_insert_eq; intros [= <-]|rewrite lookup_insert_ne by done; apply (fi_budget _ Hd)].
    split; [by eexists|]. split; [simpl; lia|done].
  - intros run0 index0 q limit0 Hq Hlim0. change (fresh_sequences d') with (fresh_sequences d) in Hq.
    pose proof (fi_limit _ Hd _ _ _ _ Hq Hlim0).
    pose proof (used_time_nonneg d run index Hd).
    unfold used_time, sum_budget. change (fresh_budget d')
      with (<[id := {| bu_reserved := n; bu_charged := None |}]> (fresh_budget d)).
    rewrite sum_rows_insert by done.
    change (attempts d') with (attempts d). rewrite Ha.
    change (attempt_in_sequence d' run0 index0 a) with (attempt_in_sequence d run0 index0 a).
    match goal with |- context [sum_rows ?f (fresh_budget d)] =>
      change (sum_rows f (fresh_budget d)) with (used_time d run0 index0) end.
    destruct (attempt_in_sequence d run0 index0 a) eqn:Hin0; [|lia].
    assert (run0 = run /\ index0 = index) as [-> ->].
    { unfold attempt_in_sequence in Hina, Hin0. destruct (fresh_members d !! att_slot a) as [m|]; [|done].
      apply andb_true_iff in Hina as [<-%String.eqb_eq <-%Z.eqb_eq].
      by apply andb_true_iff in Hin0 as [<-%String.eqb_eq <-%Z.eqb_eq]. }
    assert (limit0 = limit) as -> by congruence. unfold charge. rewrite Hfin. simpl.
    unfold saturating_sub in Hn. lia.
Qed.

Lemma fresh_charge d id b c : fresh_ok d -> fresh_budget d !! id = Some b ->
  (0 <= c <= bu_reserved b)%Z -> bu_charged b = None ->
  fresh_ok (set_fresh_budget
    (<[id := {| bu_reserved := bu_reserved b; bu_charged := Some c |}]> (fresh_budget d)) d).
Proof.
  intros Hd Hb Hc Hnone. constructor; try apply Hd.
  - intros k x. simpl. destruct (decide (k = id)) as [->|Hne];
      [rewrite lookup_insert_eq; intros [= <-]|rewrite lookup_insert_ne by done; apply (fi_budget _ Hd)].
    destruct (fi_budget _ Hd _ _ Hb) as (? & ? & _). split; [done|]. split; [done|].
    by intros ? [= <-].
  - intros run index p limit Hp Hlim. pose proof (fi_limit _ Hd _ _ _ _ Hp Hlim).
    unfold used_time, sum_budget.
    match goal with |- (sum_rows ?f ?m <= _)%Z => change m with (<[id :=
      {| bu_reserved := bu_reserved b; bu_charged := Some c |}]> (fresh_budget d)) end.
    rewrite (sum_rows_update _ _ _ b) by done.
    match goal with |- context [sum_rows ?f (fresh_budget d)] =>
      change (sum_rows f (fresh_budget d)) with (used_time d run index) end.
    match goal with |- (?x - ?y + _ <= _)%Z => assert (x <= y)%Z; [|lia] end.
    destruct (attempts _ !! id) as [a|]; [|lia].
    destruct (attempt_in_sequence _ _ _ _); [|lia]. unfold charge. rewrite Hnone. simpl.
    destruct (att_finished a); lia.
Qed.

(** A transition moves a live row, which is not finished. *)
Lemma fresh_transition g from to at_ns failure artifact old e t d d1 d' : fresh_ok d -> history d ->
  transition_effect g from to at_ns failure artifact old e t d d1 ->
  attempts d' = attempts d1 -> plan d' = plan d1 -> user_version d' = user_version d1 ->
  Store.fresh d' = Store.fresh d1 -> fresh_ok d'.
Proof.
  intros Hd Hh Heff Ha Hp Hv Hf. pose proof (te_row _ _ _ _ _ _ _ _ _ _ _ Heff) as Hold.
  assert (att_finished old = None) as Hlive.
  { destruct (hi_row _ Hh _ _ Hold) as (_ & _ & _ & Hfin & _).
    rewrite (te_live _ _ _ _ _ _ _ _ _ _ _ Heff) in Hfin. by destruct Hfin. }
  rewrite (te_db _ _ _ _ _ _ _ _ _ _ _ Heff) in Ha, Hp, Hv, Hf.
  eapply (fresh_moved d d' _ old _ Hd Hold Ha); try done; unfold fresh_members, fresh_sequences,
    fresh_budget; try (by rewrite Hf). rewrite Hlive. by intros [? ?].
Qed.

Lemma fresh_stmt d d' : stmt d d' -> history d -> fresh_ok d -> fresh_ok d'.
Proof.
  intros Hst Hh Hd. pose proof (stmt_version _ _ Hst) as Hv. destruct Hst.
  all: try (unfold insert_event, insert_lease_row, update_lease, insert_claim,
    release_one, insert_artifact, insert_attempt_artifact, insert_leased_artifact,
    insert_observation, select_observation, insert_decision, insert_run,
    insert_observation_slot, insert_membership, insert_dispositions in *; op_inv;
    by (apply (fresh_frame _ _ Hd); try reflexivity; auto)).
  - match goal with E1 : insert_attempt _ _ _ = _, E2 : insert_lease _ _ _ _ _ = _,
      E3 : append_transition _ _ _ _ _ _ _ = _ |- _ =>
      destruct (reserved_Ok _ _ _ _ _ _ _ _ _ _ E1 E2 E3)
        as (l & e & t & Hnew & Hkey & _ & _ & _ & _ & _ & _ & _ & _ & _ & _ & _ & _ & _ & -> & _) end.
    eapply (fresh_reserved d _ id a); try done. by apply has_key_spec.
  - match goal with E : transition _ _ _ _ _ _ _ = _ |- _ =>
      apply transition_Ok in E as (old & e & t & Heff & _) end.
    by eapply fresh_transition.
  - match goal with E1 : transition _ _ _ _ _ _ _ = _, E2 : delete_claims _ _ = _,
      E3 : release_leases _ _ _ = _ |- _ =>
      apply transition_Ok in E1 as (old & e & t & Heff & _); apply delete_claims_Ok in E2 as ->;
      apply release_leases_Ok in E3 as -> end.
    by eapply fresh_transition.
  - unfold insert_attempt_slot, constraint in *. op_inv; try done. apply (fresh_frame _ _ Hd); try done.
    intros k s Hs. simpl. rewrite lookup_insert_ne; [done|]. intros ->.
    unfold has_key in *. by rewrite Hs in *.
  - unfold insert_sequence, constraint in *. op_inv; try done. by apply fresh_new_sequence.
  - unfold insert_member, constraint in *. op_inv; try done.
    match goal with F : has_key slot _ || _ = false |- _ => apply orb_false_iff in F as [Hn _] end.
    bools. eapply fresh_new_member; try done. by apply has_key_false.
  - unfold insert_budget, constraint in *. op_inv. bools. eapply fresh_reserve_time; try done. by apply has_key_false.
  - unfold charge_budget, constraint in *. op_inv; [|done]. bools. apply fresh_charge; done || lia.
Qed.

Lemma fresh_empty v : fresh_ok (empty_store v).
Proof. constructor; simpl; done. Qed.
Lemma reachable_fresh d : reachable d -> fresh_ok d.
Proof.
  intros [v Hd]. apply steps_stmts in Hd. pose proof (fresh_empty v) as Hf.
  pose proof (history_empty v) as Hh. revert Hf Hh.
  induction Hd; eauto using fresh_stmt, history_stmt.
Qed.

(** C16: the budget of a fresh sequence is never overdrawn. In every reachable
    store, the time accounted to a sequence (reservations of its open attempts,
    and what its finished attempts were charged) stays within its policy's bound;
    so its allowance is always answered. *)
Theorem fresh_budget_never_overdrawn d run index p limit :
  reachable d -> fresh_sequences d !! (run, index) = Some p ->
  Policy.active_time_ns p = Ok limit -> (index <= i64_max)%Z ->
  (0 <= used_time d run index <= limit)%Z /\
  allowance d run index = Ok (limit, used_time d run index).
Proof.
  intros Hd%reachable_fresh Hp Hlim Hi. pose proof (used_time_nonneg d run index Hd) as H0.
  pose proof (fi_limit _ Hd _ _ _ _ Hp Hlim) as H1. split; [done|].
  apply active_time_positive in Hlim as Hmax.
  unfold allowance, timestamp. rewrite (proj2 (Z.leb_le _ _) Hi). simpl. rewrite Hp. simpl.
  rewrite Hlim. simpl. unfold unsigned.
  assert (MAX_SAFE_INTEGER <= i64_max)%Z by (vm_compute; done).
  rewrite (proj2 (Z.leb_le 0 _)), (proj2 (Z.leb_le _ i64_max)) by lia. done.
Qed.

(** C17: the executions of a fresh sequence never overlap. In every reachable
    store, two attempts whose slots belong to one sequence and that are both not
    finished are the same attempt. *)
Theorem fresh_sequence_exclusive d run index i a j b :
  reachable d -> attempts d !! i = Some a -> attempts d !! j = Some b ->
  attempt_in_sequence d run index a = true -> attempt_in_sequence d run index b = true ->
  att_finished a = None -> att_finished b = None -> i = j.
Proof. intros Hd%reachable_fresh. apply (fi_open _ Hd). Qed.
End Fresh.

(** ** A sequence of two points

    Both points registered, the first reserved with all of the bound and running. *)
Section Program.
Context `{ThirdParty}.
Context (candidate : RecordId LogicalCandidateType)
  (run : IdentifiedRecord ResolvedSpecificationType ResolvedOneShotSpecificationRecord)
  (first second : IdentifiedRecord ResolvedAttemptSlotType ResolvedAttemptSlotRecord)
  (one two : IdentifiedRecord ResolvedObservationSlotType ResolvedObservationSlotRecord)
  (policy : ProfilePolicy) (control : Z -> FreshControl) (owner : LeaseRequest).

Definition sequenced_with (d : db) : M (OwnedAttempt * db) :=
  let d := (register_fresh candidate run first one 0 (control 0%Z) policy d).1 in
  let d := (register_fresh candidate run second two 0 (control 1%Z) policy d).1 in
  '(g, d) ← reserve (id first) FirstAttempt owner 10 d;
  '(n, d) ← reserve_fresh_time g None 11 d;
  '(g, d) ← advance g Materializing 12 d;
  Ok (g, d).

Lemma sequenced_reachable d r : reachable d -> sequenced_with d = Ok r -> reachable r.2.
Proof.
  unfold sequenced_with. intros Hd E. set (d1 := (register_fresh _ _ _ _ _ _ _ d).1) in E.
  set (d2 := (register_fresh _ _ _ _ _ _ _ d1).1) in E.
  assert (reachable d2) as H2.
  { eapply reachable_step; [|apply do_register_fresh]. eapply reachable_step; [exact Hd|].
    apply do_register_fresh. }
  clearbody d2. apply bind_Ok in E as ([g d3] & E3 & E). apply bind_Ok in E as ([n d4] & E4 & E).
  apply bind_Ok in E as ([g' d5] & E5 & [= <-]). simpl.
  eapply reachable_step; [|by eapply do_advance]. eapply reachable_step; [|by eapply do_reserve_fresh_time].
  eapply reachable_step; [exact H2|by eapply do_reserve].
Qed.
End Program.

#[local] Existing Instance model.

Definition minute_policy : ProfilePolicy := {|
  metric := None; direction := None; threshold := None; record_thresholds := [];
  max_observations := 2; max_checkpoint_bytes := 0; max_trace_points := 0; max_buffer_bytes := 0;
  terminal_reserve_bytes := 0; max_active_time := "1min" |}.
Definition other_id (t : IdentityType) : RecordId t := from_digest (repeat "b"%char 32).
Definition second_point := identified {|
  ra_logical_slot := other_id _; ra_specification := id run |}.
Definition second_observation := identified {|
  rs_logical_slot := other_id _; rs_specification := id run |}.
Definition run_key : string := to_string (id run).

(** The run succeeds, and its store has the policy and the open attempt. *)
Definition sequenced_shape (r : OwnedAttempt * db) : bool :=
  match fresh_sequences r.2 !! (run_key, 0%Z) with
  | Some p => String.eqb (max_active_time p) "1min"
  | None => false
  end &&
  match attempts r.2 !! to_string (oa_id r.1) with
  | Some a => attempt_in_sequence r.2 run_key 0 a && bool_decide (att_finished a = None)
  | None => false
  end && (used_time r.2 run_key 0 =? 60000000000)%Z.
Lemma sequenced_ok : exists r, sequenced_with (some_id _) run slot second_point observation_slot
    second_observation minute_policy
    (fun i => {| schedule_index := i; observation_control := object [("budget", json_u64 i)] |})
    (lease_request "first" 100) store0 = Ok r /\ sequenced_shape r = true.
Proof. apply ok_shape. vm_compute. reflexivity. Qed.
Lemma sequenced_store : exists r p a, reachable r.2 /\ fresh_sequences r.2 !! (run_key, 0%Z) = Some p /\
  Policy.active_time_ns p = Ok 60000000000%Z /\ used_time r.2 run_key 0 = 60000000000%Z /\
  attempts r.2 !! to_string (oa_id r.1) = Some a /\
  attempt_in_sequence r.2 run_key 0 a = true /\ att_finished a = None.
Proof.
  destruct sequenced_ok as (r & E & Hs). apply sequenced_reachable in E; [|exists 3%Z; apply rtc_refl].
  unfold sequenced_shape in Hs. exists r.
  destruct (fresh_sequences r.2 !! (run_key, 0%Z)) as [p|]; [|done].
  apply andb_true_iff in Hs as [[Hp Ha]%andb_true_iff Hu%Z.eqb_eq].
  destruct (attempts r.2 !! to_string (oa_id r.1)) as [a|]; [|done].
  apply andb_true_iff in Ha as [Hin Hf%bool_decide_eq_true]. exists p, a.
  split; [exact E|]. split; [done|]. split; [|done].
  unfold Policy.active_time_ns. apply String.eqb_eq in Hp as ->. vm_compute. reflexivity.
Qed.

Lemma fresh_budget_never_overdrawn_witness :
  exists d limit, @reachable model d /\ allowance d run_key 0 = Ok (limit, used_time d run_key 0) /\
    (0 < used_time d run_key 0 <= limit)%Z.
Proof.
  destruct sequenced_store as (r & p & a & Hr & Hp & Hlim & Hu & _).
  destruct (@fresh_budget_never_overdrawn model r.2 run_key 0 p 60000000000 Hr Hp Hlim ltac:(vm_compute; done))
    as [[_ Hle] Hall].
  exists r.2, 60000000000%Z. split; [exact Hr|]. split; [exact Hall|].
  split; [rewrite Hu; vm_compute; reflexivity|exact Hle].
Defined.

Lemma fresh_sequence_exclusive_witness :
  exists d i a, @reachable model d /\ attempts d !! i = Some a /\ att_finished a = None /\
    forall j b, attempts d !! j = Some b -> attempt_in_sequence d run_key 0 b = true ->
      att_finished b = None -> i = j.
Proof.
  destruct sequenced_store as (r & p & a & Hr & _ & _ & _ & Ha & Hin & Hf).
  exists r.2, (to_string (oa_id r.1)), a. split; [exact Hr|]. split; [exact Ha|]. split; [exact Hf|].
  intros j b Hb Hinb Hfb.
  exact (@fresh_sequence_exclusive model r.2 run_key 0 _ a j b Hr Ha Hb Hin Hinb Hf Hfb).
Defined.
