(* ===== verification/SlotSpec.v ===== *)
(** * What the store promises of one slot

    An abstract object per attempt slot: which attempt was given which retry
    index, whether it is live, won or lost, and which attempt holds the claim.
    The operations of the store are labelled with what they do to a slot, and
    what they do there is what the object does on the label. *)
From S2P Require Import Prelude Json Canonical Identity ThirdPartyModel Profile Records.
From S2P Require Import RunDocuments Store Attempts Fresh RunStore Publisher Recovery.
From S2P Require Import Coordination Statements History Claims Scenario Lifecycle Ownership Guards Finalization.
From stdpp Require Import relations.

(** ** The specification *)

Inductive standing := Live | HasWon | HasLost.
#[export] Instance standing_eq_dec : EqDecision standing.
Proof. solve_decision. Defined.

Record slot_view := {
  (** By attempt: its retry index and its standing. *)
  sv_retries : gmap string (Z * standing);
  sv_claim : option string;
}.
Inductive slot_event := Retried (id : string) | Claims (id : string) | Wins (id : string) | Loses (id : string).

Definition vacant : slot_view := {| sv_retries := ∅; sv_claim := None |}.
Definition decided (v : slot_view) : bool := exists_row (fun _ r => bool_decide (r.2 = HasWon)) (sv_retries v).
Definition next_retry_of (v : slot_view) : Z := Z.of_nat (size (sv_retries v)).

(** A retry gets the next index while the slot is undecided; a live attempt of an
    undecided slot may take a claim that nobody holds; only the attempt that
    holds the claim wins, and the claim ends with it; any live attempt may lose,
    and gives back the claim if it holds it. *)
Definition slot_do (v : slot_view) (e : slot_event) : option slot_view :=
  match e with
  | Retried id =>
      if decided v || has_key id (sv_retries v) then None
      else Some {| sv_retries := <[id := (next_retry_of v, Live)]> (sv_retries v); sv_claim := sv_claim v |}
  | Claims id =>
      match sv_retries v !! id, sv_claim v with
      | Some (_, Live), None =>
          if decided v then None else Some {| sv_retries := sv_retries v; sv_claim := Some id |}
      | _, _ => None
      end
  | Wins id =>
      match sv_retries v !! id with
      | Some (n, Live) =>
          if bool_decide (sv_claim v = Some id) && negb (decided v)
          then Some {| sv_retries := <[id := (n, HasWon)]> (sv_retries v); sv_claim := None |}
          else None
      | _ => None
      end
  | Loses id =>
      match sv_retries v !! id with
      | Some (n, Live) =>
          Some {| sv_retries := <[id := (n, HasLost)]> (sv_retries v);
                  sv_claim := if bool_decide (sv_claim v = Some id) then None else sv_claim v |}
      | _ => None
      end
  end.
Fixpoint slot_run (v : slot_view) (es : list slot_event) : option slot_view :=
  match es with [] => Some v | e :: es => slot_do v e ≫= fun v => slot_run v es end.

Lemma slot_run_app v es es' : slot_run v (es ++ es') = slot_run v es ≫= fun v => slot_run v es'.
Proof.
  revert v. induction es as [|e es IH]; intros v; [done|]. cbn. destruct (slot_do v e); [apply IH|done].
Qed.

(** *** What the object keeps *)

(** The retries of a slot are numbered from zero without gaps. *)
Definition numbered (v : slot_view) : Prop :=
  (forall id n s, sv_retries v !! id = Some (n, s) -> (0 <= n < next_retry_of v)%Z) /\
  (forall n, (0 <= n < next_retry_of v)%Z -> exists id s, sv_retries v !! id = Some (n, s)).

Lemma numbered_vacant : numbered vacant.
Proof. split; [done|]. intros n. unfold next_retry_of. cbn [vacant sv_retries]. rewrite map_size_empty. lia. Qed.

Lemma numbered_stands v c id n s s' :
  numbered v -> sv_retries v !! id = Some (n, s) ->
  numbered {| sv_retries := <[id := (n, s')]> (sv_retries v); sv_claim := c |}.
Proof.
  intros [H1 H2] Hid. unfold numbered, next_retry_of in *. cbn [sv_retries] in *.
  rewrite map_size_insert, Hid. split.
  - intros j m t. destruct (decide (j = id)) as [->|Hne].
    + rewrite lookup_insert_eq. intros [= <- <-]. by eapply H1.
    + rewrite lookup_insert_ne by done. apply H1.
  - intros m (j & t & Hj)%H2. destruct (decide (j = id)) as [->|Hne].
    + rewrite Hid in Hj. injection Hj as -> ->. exists id, s'. by rewrite lookup_insert_eq.
    + exists j, t. by rewrite lookup_insert_ne.
Qed.

Lemma numbered_do v e v' : numbered v -> slot_do v e = Some v' -> numbered v'.
Proof.
  intros Hv. destruct e as [id|id|id|id]; cbn [slot_do].
  - destruct (decided v || _) eqn:E; [done|]. intros [= <-]. apply orb_false_iff in E as [_ Hnew%has_key_false].
    destruct Hv as [H1 H2]. unfold numbered, next_retry_of in *. cbn [sv_retries] in *.
    rewrite map_size_insert, Hnew. split.
    + intros j m t. destruct (decide (j = id)) as [->|Hne]; [rewrite lookup_insert_eq; intros [= <- <-]; lia|].
      rewrite lookup_insert_ne by done. intros Hj%H1. lia.
    + intros m Hm. destruct (decide (m = Z.of_nat (size (sv_retries v)))) as [->|Hne].
      * exists id, Live. by rewrite lookup_insert_eq.
      * destruct (H2 m) as (j & t & Hj); [lia|]. exists j, t. rewrite lookup_insert_ne; [done|congruence].
  - destruct (sv_retries v !! id) as [[n []]|], (sv_claim v); try done. destruct (decided v); [done|].
    by intros [= <-].
  - destruct (sv_retries v !! id) as [[n []]|] eqn:Hid; try done. destruct (_ && _); [|done].
    intros [= <-]. by eapply numbered_stands.
  - destruct (sv_retries v !! id) as [[n []]|] eqn:Hid; try done. intros [= <-]. by eapply numbered_stands.
Qed.
Lemma numbered_run es : forall v v', numbered v -> slot_run v es = Some v' -> numbered v'.
Proof.
  induction es as [|e es IH]; intros v v' Hv H; [by injection H as <-|].
  cbn in H. destruct (slot_do v e) as [w|] eqn:E; [|done]. by eapply IH, H; eapply numbered_do.
Qed.

(** Once an attempt has won, attempts can only lose. *)
Lemma decided_spec v : decided v = true <-> exists id n, sv_retries v !! id = Some (n, HasWon).
Proof.
  unfold decided. rewrite exists_row_spec. split.
  - intros (id & [n s] & Hid & Hs). apply bool_decide_eq_true in Hs. cbn in Hs. subst. by exists id, n.
  - intros (id & n & Hid). exists id, (n, HasWon). by rewrite bool_decide_eq_true_2.
Qed.
Lemma slot_decided v e v' : decided v = true -> slot_do v e = Some v' -> decided v' = true /\ exists id, e = Loses id.
Proof.
  intros Hd. destruct e as [id|id|id|id]; cbn [slot_do]; rewrite ?Hd; cbn; try done.
  - by destruct (sv_retries v !! id) as [[? []]|], (sv_claim v).
  - rewrite andb_false_r. by destruct (sv_retries v !! id) as [[? []]|].
  - destruct (sv_retries v !! id) as [[n []]|] eqn:Hid; try done. intros [= <-]. split; [|by exists id].
    apply decided_spec in Hd as (j & m & Hj). apply decided_spec. exists j, m. cbn.
    rewrite lookup_insert_ne; [done|congruence].
Qed.

(** ** The view of a store *)

Definition standing_of (s : attempt_state) : standing :=
  match s with Accepted => HasWon | Failed | Superseded | Censored => HasLost | _ => Live end.
Definition standings (d : db) : gmap string (string * (Z * standing)) :=
  (fun a => (att_slot a, (att_retry_index a, standing_of (att_state a)))) <$> attempts d.
Definition view (d : db) (slot : string) : slot_view := {|
  sv_retries := snd <$> filter (fun kv => kv.2.1 = slot) (standings d);
  sv_claim := cl_attempt <$> finalization_claims d !! slot |}.

Lemma view_retry d slot id n s :
  sv_retries (view d slot) !! id = Some (n, s) <->
  exists a, attempts d !! id = Some a /\ att_slot a = slot /\ att_retry_index a = n /\ standing_of (att_state a) = s.
Proof.
  cbn [view sv_retries]. rewrite lookup_fmap, fmap_Some. split.
  - intros ([t r] & Hf & Hr). apply map_lookup_filter_Some in Hf as [Hs Ht]. cbn in *. subst.
    unfold standings in Hs. rewrite lookup_fmap, fmap_Some in Hs. destruct Hs as (a & Ha & [= -> -> ->]). by exists a.
  - intros (a & Ha & <- & <- & <-). exists (att_slot a, (att_retry_index a, standing_of (att_state a))).
    split; [|done]. apply map_lookup_filter_Some. split; [|done]. unfold standings. by rewrite lookup_fmap, Ha.
Qed.
Lemma view_absent d slot id : attempts d !! id = None -> sv_retries (view d slot) !! id = None.
Proof.
  intros Hn. destruct (sv_retries _ !! id) as [[n s]|] eqn:E; [|done]. apply view_retry in E as (a & Ha & _). congruence.
Qed.

(** An attempt written with its slot changes the view of that slot only. *)
Lemma view_inserted d d' id a slot :
  attempts d' = <[id := a]> (attempts d) ->
  (forall b, attempts d !! id = Some b -> att_slot b = att_slot a) ->
  sv_retries (view d' slot) =
    if decide (slot = att_slot a) then <[id := (att_retry_index a, standing_of (att_state a))]> (sv_retries (view d slot))
    else sv_retries (view d slot).
Proof.
  intros Ha Hold. apply map_eq. intros j. apply option_eq. intros [n s]. rewrite view_retry, Ha.
  destruct (decide (slot = att_slot a)) as [->|Hne]; destruct (decide (j = id)) as [->|Hj];
    rewrite ?lookup_insert_eq, ?lookup_insert_ne, ?view_retry by done; try reflexivity.
  - split; [by intros (b & [= <-] & _ & <- & <-)|]. intros [= <- <-]. by exists a.
  - split; [intros (b & [= <-] & Hs & _); by destruct Hne|]. intros (b & Hb & Hs & _). specialize (Hold b Hb). congruence.
Qed.

(** *** Transactions that no slot notices *)

Definition quiet (d d' : db) : Prop := standings d' = standings d /\ finalization_claims d' = finalization_claims d.
Lemma quiet_refl d : quiet d d.
Proof. done. Qed.
Lemma quiet_trans d d1 d2 : quiet d d1 -> quiet d1 d2 -> quiet d d2.
Proof. intros [A B] [C D]. split; congruence. Qed.
Lemma quiet_view d d' slot : quiet d d' -> view d' slot = view d slot.
Proof. intros [A B]. unfold view. by rewrite A, B. Qed.
Lemma quiet_exec d d' : attempts d' = attempts d -> finalization_claims d' = finalization_claims d -> quiet d d'.
Proof. intros A B. split; [unfold standings; by rewrite A|done]. Qed.
Lemma quiet_fold {A} (f : db -> A -> M db) :
  (forall d x d', f d x = Ok d' -> quiet d d') -> forall l d d', try_fold f d l = Ok d' -> quiet d d'.
Proof.
  intros Hf l. induction l as [|x l IH]; intros d d' E; [by injection E as ->|].
  cbn in E. apply bind_Ok in E as (d1 & E1 & E). eapply quiet_trans; eauto.
Qed.

Create HintDb quiet.
Ltac quiet_statement f := intros; unfold f in *; op_inv; by apply quiet_exec.
Section Statements.
Context `{ThirdParty}.
Lemma commit_quiet d d' : commit d = Ok d' -> quiet d d'.
Proof. by intros [-> _]%commit_Ok. Qed.
Lemma insert_lease_row_quiet k l d d' : insert_lease_row k l d = Ok d' -> quiet d d'.
Proof. quiet_statement insert_lease_row. Qed.
Lemma insert_lease_quiet a p l n d d' : insert_lease a p l n d = Ok d' -> quiet d d'.
Proof. unfold insert_lease. intros E. apply bind_Ok in E as (e & _ & E). by eapply insert_lease_row_quiet. Qed.
Lemma update_lease_quiet k e o t d d' n : update_lease k e o t d = Ok (d', n) -> quiet d d'.
Proof. quiet_statement update_lease. Qed.
Lemma release_one_quiet k t d d' : release_one k t d = Ok d' -> quiet d d'.
Proof. quiet_statement release_one. Qed.
Lemma insert_event_quiet e d d' n : insert_event e d = Ok (d', n) -> quiet d d'.
Proof. quiet_statement insert_event. Qed.
Lemma insert_artifact_quiet k r d d' : insert_artifact k r d = Ok d' -> quiet d d'.
Proof. quiet_statement insert_artifact. Qed.
Lemma insert_attempt_artifact_quiet a r i d d' : insert_attempt_artifact a r i d = Ok d' -> quiet d d'.
Proof. quiet_statement insert_attempt_artifact. Qed.
Lemma insert_leased_artifact_quiet l a d d' : insert_leased_artifact l a d = Ok d' -> quiet d d'.
Proof. quiet_statement insert_leased_artifact. Qed.
Lemma insert_observation_quiet i o d d' : insert_observation i o d = Ok d' -> quiet d d'.
Proof. quiet_statement insert_observation. Qed.
Lemma select_observation_quiet s r d d' : select_observation s r d = Ok d' -> quiet d d'.
Proof. quiet_statement select_observation. Qed.
Lemma insert_decision_quiet i r d d' : insert_decision i r d = Ok d' -> quiet d d'.
Proof. quiet_statement insert_decision. Qed.
Lemma insert_run_quiet i r d d' : insert_run i r d = Ok d' -> quiet d d'.
Proof. quiet_statement insert_run. Qed.
Lemma insert_attempt_slot_quiet i r d d' : insert_attempt_slot i r d = Ok d' -> quiet d d'.
Proof. quiet_statement insert_attempt_slot. Qed.
Lemma insert_observation_slot_quiet i r d d' : insert_observation_slot i r d = Ok d' -> quiet d d'.
Proof. quiet_statement insert_observation_slot. Qed.
Lemma insert_membership_quiet i r d d' : insert_membership i r d = Ok d' -> quiet d d'.
Proof. quiet_statement insert_membership. Qed.
Lemma insert_sequence_quiet r i p d d' : insert_sequence r i p d = Ok d' -> quiet d d'.
Proof. quiet_statement insert_sequence. Qed.
Lemma insert_member_quiet s m d d' : insert_member s m d = Ok d' -> quiet d d'.
Proof. quiet_statement insert_member. Qed.
Lemma insert_budget_quiet a n d d' : insert_budget a n d = Ok d' -> quiet d d'.
Proof. quiet_statement insert_budget. Qed.
Lemma charge_budget_quiet a n d d' : charge_budget a n d = Ok d' -> quiet d d'.
Proof. quiet_statement charge_budget. Qed.

(** A live attempt stays live. *)
Lemma effect_quiet g from phase at_ns old e t d d' :
  transition_effect g from (InPhase phase) at_ns None None old e t d d' -> quiet d d'.
Proof.
  intros Heff. rewrite (te_db _ _ _ _ _ _ _ _ _ _ _ Heff).
  split; [|done]. unfold standings. cbn. rewrite fmap_insert. apply insert_id.
  rewrite lookup_fmap, (te_row _ _ _ _ _ _ _ _ _ _ _ Heff). cbn.
  pose proof (te_live _ _ _ _ _ _ _ _ _ _ _ Heff). by destruct (att_state old).
Qed.
Lemma transition_quiet a from phase now details d g d' :
  transition a from (InPhase phase) now details None d = Ok (g, d') -> quiet d d'.
Proof. intros (old & e & t & Heff & _)%transition_Ok. by eapply effect_quiet. Qed.
End Statements.
#[export] Hint Resolve commit_quiet insert_lease_row_quiet insert_lease_quiet update_lease_quiet
  release_one_quiet insert_event_quiet insert_artifact_quiet insert_attempt_artifact_quiet
  insert_leased_artifact_quiet insert_observation_quiet select_observation_quiet insert_decision_quiet
  insert_run_quiet insert_attempt_slot_quiet insert_observation_slot_quiet insert_membership_quiet
  insert_sequence_quiet insert_member_quiet insert_budget_quiet charge_budget_quiet transition_quiet : quiet.
Ltac chain_quiet :=
  repeat (eapply quiet_trans; [solve [eauto 2 with quiet nocore]|]); apply quiet_refl.

Section Operations.
Context `{ThirdParty}.

Lemma advance_quiet g phase now d g' d' : advance g phase now d = Ok (g', d') -> quiet d d'.
Proof. unfold advance. intros E. op_inv. chain_quiet. Qed.
Lemma renew_quiet g e now d d' : renew g e now d = Ok d' -> quiet d d'.
Proof.
  unfold renew. intros E. op_inv. eapply quiet_trans; [|by eapply commit_quiet].
  eapply quiet_fold; [|eassumption]. intros ? ? ?. unfold renew_one. intros F. op_inv. chain_quiet.
Qed.
Lemma reserve_fresh_time_quiet g limit now d n d' : reserve_fresh_time g limit now d = Ok (n, d') -> quiet d d'.
Proof. unfold reserve_fresh_time. intros E. op_inv; chain_quiet. Qed.
Lemma record_fresh_time_quiet g n now d d' : record_fresh_time g n now d = Ok d' -> quiet d d'.
Proof. unfold record_fresh_time. intros E. op_inv. chain_quiet. Qed.
Lemma register_applicability_quiet r d d' : register_applicability r d = Ok d' -> quiet d d'.
Proof. unfold register_applicability. intros E. op_inv. chain_quiet. Qed.
Lemma run_decision_quiet c r d k d' : run_decision c r d = Ok (k, d') -> quiet d d'.
Proof. unfold run_decision. intros E. op_inv; chain_quiet. Qed.
Lemma extras_quiet run a l d d' : try_fold (register_extra run a) d l = Ok d' -> quiet d d'.
Proof. apply quiet_fold. intros ? ? ?. unfold register_extra. intros E. op_inv. chain_quiet. Qed.
Hint Resolve run_decision_quiet extras_quiet : quiet.
Lemma register_execution_quiet c r a o k d d' : register_execution c r a o k d = Ok d' -> quiet d d'.
Proof. unfold register_execution. intros E. destruct o; [done|]. op_inv; chain_quiet. Qed.
Lemma register_point_quiet r a i c p d d' : register_point r a i c p d = Ok d' -> quiet d d'.
Proof. unfold register_point. intros E. op_inv; chain_quiet. Qed.
Hint Resolve register_execution_quiet register_point_quiet : quiet.
Lemma register_fresh_quiet c r a o i ctl p d : quiet d (register_fresh c r a o i ctl p d).1.
Proof.
  unfold register_fresh. destruct (negb _); [apply quiet_refl|].
  destruct (register_execution _ _ _ _ _ _) as [d1|] eqn:E1; [|apply quiet_refl].
  destruct (register_point _ _ _ _ _ _) as [d2|] eqn:E2; cbn; chain_quiet.
Qed.
Lemma register_observation_quiet g o art sel now d d' :
  register_observation g o art sel now d = Ok d' -> quiet d d'.
Proof. unfold register_observation. intros E. op_inv; chain_quiet. Qed.
Lemma stage_quiet g p now d s d' : stage g p now d = Ok (s, d') -> quiet d d'.
Proof. unfold stage. intros E. op_inv; chain_quiet. Qed.
Lemma register_artifact_quiet art k d d' : register_artifact art k d = Ok d' -> quiet d d'.
Proof. unfold register_artifact. intros E. op_inv; chain_quiet. Qed.
Lemma release_stage_quiet s now d d' : release_stage s now d = Ok d' -> quiet d d'.
Proof. unfold release_stage. intros E. op_inv. chain_quiet. Qed.
Hint Resolve register_artifact_quiet release_stage_quiet : quiet.
Lemma publish_artifact_quiet g k art s now d r d' : publish_artifact g k art s now d = Ok (r, d') -> quiet d d'.
Proof. unfold publish_artifact. intros E. op_inv. chain_quiet. Qed.
Lemma recover_finalizing_quiet key clock now d g d' : recover_finalizing key clock now d = Ok (g, d') -> quiet d d'.
Proof. unfold recover_finalizing. intros E. op_inv; chain_quiet. Qed.
Lemma import_artifact_quiet art k d d' : import_artifact art k d = Ok d' -> quiet d d'.
Proof. unfold import_artifact. intros E. op_inv. chain_quiet. Qed.
Lemma recover_stage_quiet l clock now d d' : recover_stage l clock now d = Ok d' -> quiet d d'.
Proof. unfold recover_stage, release_recovered. intros E. op_inv; chain_quiet. Qed.

(** ** What each operation does to a slot *)

Definition outcome_event (o : Outcome.TerminalOutcome) (id : string) : slot_event :=
  if Outcome.is_accepted o then Wins id else Loses id.
Definition claim_event (f : Finalization) (g : OwnedAttempt) : option (string * slot_event) :=
  if bool_decide (fin_disposition f = Claimed) then Some (slot_text g, Claims (id_text g)) else None.
(** The slot of an attempt is that of its row. *)
Definition end_event (d : db) (g : OwnedAttempt) (o : Outcome.TerminalOutcome) : option (string * slot_event) :=
  a ← attempts d !! id_text g; Some (att_slot a, outcome_event o (id_text g)).

(** [store_step] with its labels: [reserve] hands out a retry, a granted
    [begin_finalization] takes the claim, the four operations that finish an
    attempt make it win or lose by its outcome, and no other operation is noticed. *)
Inductive labelled_step : db -> option (string * slot_event) -> db -> Prop :=
  | do_retry slot auth lease now d g d' : reserve slot auth lease now d = Ok (g, d') ->
      labelled_step d (Some (to_string slot, Retried (id_text g))) d'
  | do_claim g lease now d f d' : begin_finalization g lease now d = Ok (f, d') ->
      labelled_step d (claim_event f g) d'
  | do_commit g o art refs now d t d' : commit_finalization g o art refs now d = Ok (t, d') ->
      labelled_step d (end_event d g o) d'
  | do_publish g o art refs doc s finished now d t d' :
      publish_finalization g o art refs doc s finished now d = Ok (t, d') ->
      labelled_step d (end_event d g o) d'
  | do_import g doc art evidence clock d0 now0 d t d' : validate_orphan d0 g doc now0 = Ok evidence ->
      recover_import g doc art evidence clock d = Ok (t, d') ->
      labelled_step d (end_event d g (ev_outcome evidence)) d'
  | do_interrupt g o refs doc finished art clock d0 clock0 earliest d t d' :
      interrupted_document d0 g clock0 earliest = Ok (finished, o, refs, doc) ->
      fail_interrupted g o refs doc finished art clock d = Ok (t, d') ->
      labelled_step d (end_event d g o) d'
  | do_advance_quietly g phase now d g' d' : advance g phase now d = Ok (g', d') -> labelled_step d None d'
  | do_renew_quietly g expires now d d' : renew g expires now d = Ok d' -> labelled_step d None d'
  | do_reserve_time g limit now d n d' : reserve_fresh_time g limit now d = Ok (n, d') -> labelled_step d None d'
  | do_record_time g n now d d' : record_fresh_time g n now d = Ok d' -> labelled_step d None d'
  | do_applicability r d d' : register_applicability r d = Ok d' -> labelled_step d None d'
  | do_execution c r a o k d d' : register_execution c r a o k d = Ok d' -> labelled_step d None d'
  | do_fresh c r a o i ctl p d : labelled_step d None (register_fresh c r a o i ctl p d).1
  | do_observation g o art sel now d d' : register_observation g o art sel now d = Ok d' -> labelled_step d None d'
  | do_staging g path now d s d' : stage g path now d = Ok (s, d') -> labelled_step d None d'
  | do_artifact g k art s now d r d' : publish_artifact g k art s now d = Ok (r, d') -> labelled_step d None d'
  | do_take_over key clock now d g d' : recover_finalizing key clock now d = Ok (g, d') -> labelled_step d None d'
  | do_register art k d d' : import_artifact art k d = Ok d' -> labelled_step d None d'
  | do_release l clock now d d' : recover_stage l clock now d = Ok d' -> labelled_step d None d'.

(** The labels leave nothing out and add nothing. *)
Lemma labelled_step_iff d d' : store_step d d' <-> exists l, labelled_step d l d'.
Proof.
  split.
  - destruct 1; eexists;
    [eapply do_retry | eapply do_advance_quietly | eapply do_renew_quietly | eapply do_claim | eapply
    do_commit | eapply do_reserve_time | eapply do_record_time | eapply do_applicability | eapply
    do_execution | eapply do_fresh | eapply do_observation | eapply do_staging | eapply do_artifact | eapply
    do_publish | eapply do_take_over | eapply do_import | eapply do_interrupt | eapply do_register | eapply
    do_release]; eassumption.
  - intros [l Hl]. destruct Hl;
    [eapply do_reserve | eapply do_begin_finalization | eapply do_commit_finalization | eapply
    do_publish_finalization | eapply do_recover_import | eapply do_fail_interrupted | eapply do_advance |
    eapply do_renew | eapply do_reserve_fresh_time | eapply do_record_fresh_time | eapply
    do_register_applicability | eapply do_register_execution | eapply do_register_fresh | eapply
    do_register_observation | eapply do_stage | eapply do_publish_artifact | eapply do_recover_finalizing |
    eapply do_import_artifact | eapply do_recover_stage]; eassumption.
Qed.

(** ** The simulation *)

(** The slot of the label does what the label says; no other slot changes. *)
Definition simulated (d : db) (l : option (string * slot_event)) (d' : db) : Prop :=
  forall slot, match l with
  | Some (s, e) => if decide (slot = s) then slot_do (view d slot) e = Some (view d' slot)
                   else view d' slot = view d slot
  | None => view d' slot = view d slot
  end.

Lemma decided_satisfied d slot : decided (view d slot) = satisfied d slot.
Proof.
  apply eq_true_iff_eq. rewrite decided_spec. unfold satisfied. rewrite exists_row_spec. split.
  - intros (id & n & (a & Ha & Hs & _ & Hw)%view_retry). exists id, a. split; [done|].
    rewrite Hs, String.eqb_refl. by destruct (att_state a).
  - intros (id & a & Ha & [Hs%String.eqb_eq Hw%bool_decide_eq_true]%andb_true_iff).
    exists id, (att_retry_index a). apply view_retry. exists a. by rewrite Hw.
Qed.

Lemma next_retry_view d slot n :
  numbered (view d slot) -> next_retry (max_retry d slot) = Ok n -> n = next_retry_of (view d slot).
Proof.
  intros [Hlt Hall] Hn. pose proof (max_retry_spec d slot) as Hm. unfold next_retry in Hn.
  destruct (max_retry d slot) as [m|].
  - destruct (_ <=? i64_max)%Z; [|done]. injection Hn as <-. destruct Hm as [(k & a & Ha & Hs & Hr) Hmax].
    assert (sv_retries (view d slot) !! k = Some (m, standing_of (att_state a))) as Hk by (apply view_retry; by exists a).
    apply Hlt in Hk. destruct (Hall (next_retry_of (view d slot) - 1)%Z) as (j & s & Hj); [lia|].
    apply view_retry in Hj as (b & Hb & Hbs & Hbr & _). specialize (Hmax j b Hb Hbs). lia.
  - injection Hn as <-. destruct (Z.eq_dec (next_retry_of (view d slot)) 0%Z) as [->|Hne]; [done|].
    destruct (Hall 0%Z) as (j & s & Hj); [unfold next_retry_of in *; lia|].
    apply view_retry in Hj as (b & Hb & Hbs & _). by destruct (Hm j b Hb).
Qed.

Lemma simulated_quiet d d' : quiet d d' -> simulated d None d'.
Proof. intros Hq slot. by apply quiet_view. Qed.
Lemma simulated_after d d0 l d' : quiet d d0 -> simulated d0 l d' -> simulated d l d'.
Proof. intros Hq Hs slot. specialize (Hs slot). destruct l as [[s e]|]; rewrite !(quiet_view d d0) in Hs by done; exact Hs. Qed.

Lemma simulated_reserve slot auth lease now d g d' :
  numbered (view d (to_string slot)) -> reserve slot auth lease now d = Ok (g, d') ->
  simulated d (Some (to_string slot, Retried (id_text g))) d'.
Proof.
  intros Hnum E. unfold reserve in E. apply bind_Ok in E as (now' & _ & E).
  apply bind_Ok in E as (u & _ & E). apply bind_Ok in E as ([] & _ & E).
  apply bind_Ok in E as ([] & Hsat%ensure_Ok%negb_true_iff & E).
  apply bind_Ok in E as (v & _ & E). apply bind_Ok in E as (next & Hnext & E).
  apply bind_Ok in E as ([] & _ & E). apply bind_Ok in E as (i & _ & E).
  apply bind_Ok in E as (d1 & E1 & E). apply bind_Ok in E as (d2 & E2 & E).
  apply bind_Ok in E as (d3 & E3 & E). apply bind_Ok in E as (d4 & [-> _]%commit_Ok & [= <- <-]).
  destruct (reserved_Ok _ _ _ _ _ _ _ _ _ _ E1 E2 E3)
    as (l & e & t & Hnew & _ & _ & _ & _ & _ & _ & _ & _ & _ & _ & _ & _ & _ & _ & Hd' & _).
  set (a := Build_attempt_row _ _ _ _ _ _ _ _ _) in *.
  assert (attempts d3 = <[to_string i := a]> (attempts d)) as Ha by (by rewrite Hd').
  assert (finalization_claims d3 = finalization_claims d) as Hc by (by rewrite Hd').
  intros s. pose proof (view_inserted d d3 (to_string i) a s Ha) as Hv. cbn [att_slot a] in Hv.
  specialize (Hv ltac:(intros b; by rewrite Hnew)).
  destruct (decide (s = to_string slot)) as [->|Hne].
  - cbn [slot_do]. rewrite decided_satisfied, Hsat.
    unfold has_key. cbn [id_text oa_id]. rewrite view_absent by done. cbn [orb]. f_equal.
    rewrite <-(next_retry_view _ _ _ Hnum Hnext). unfold view at 3. rewrite Hc. f_equal. symmetry. exact Hv.
  - unfold view. rewrite Hc. f_equal. exact Hv.
Qed.

Lemma simulated_claim slot c d d' a :
  attempts d !! cl_attempt c = Some a -> att_slot a = slot -> standing_of (att_state a) = Live ->
  satisfied d slot = false -> insert_claim slot c d = Ok d' ->
  simulated d (Some (slot, Claims (cl_attempt c))) d'.
Proof.
  intros Ha Hs Hl Hsat (-> & Hnone & _)%insert_claim_Ok s. destruct (decide (s = slot)) as [->|Hne].
  - cbn [slot_do]. assert (sv_retries (view d slot) !! cl_attempt c = Some (att_retry_index a, Live)) as ->
      by (apply view_retry; by exists a).
    cbn [view sv_claim]. rewrite Hnone. cbn [fmap option_fmap option_map]. rewrite decided_satisfied, Hsat.
    f_equal. unfold view. cbn. by rewrite lookup_insert_eq.
  - unfold view. cbn. by rewrite lookup_insert_ne.
Qed.

Lemma simulated_begin g lease now d f d' :
  begin_finalization g lease now d = Ok (f, d') -> simulated d (claim_event f g) d'.
Proof.
  intros (_ & a & l & e & t & d1 & Hg & Heff & _ & _ & _ & Hdisp & Hd')%begin_finalization_Ok.
  pose proof (effect_quiet _ _ _ _ _ _ _ _ _ Heff) as Hq. unfold claim_event.
  destruct (fin_disposition f); [|subst; by apply simulated_quiet].
  destruct (_ || _) eqn:Hopen; [done|]. apply orb_false_iff in Hopen as [_ Hsat].
  destruct Hd' as (d2 & Hlease & Hclaim). cbn.
  pose proof (insert_lease_quiet _ _ _ _ _ _ Hlease) as Hq2.
  assert (quiet d d2) as Hq3 by (by eapply quiet_trans). apply (simulated_after d d2); [done|].
  rewrite <-decided_satisfied, <-(quiet_view d d2), decided_satisfied in Hsat by done.
  destruct (insert_claim_Ok _ _ _ _ Hclaim) as (_ & _ & _ & (b & Hb & Hbs & Hbf) & _).
  apply (simulated_claim _ _ _ _ b Hb Hbs) in Hclaim; [done|by rewrite Hbf|done].
Qed.

(** A claim names an attempt of its slot, so dropping the claims of an attempt
    changes its own slot only. *)
Lemma claim_dropped d d' id a slot : claims_ok d -> attempts d !! id = Some a ->
  finalization_claims d' = filter (fun kv => cl_attempt kv.2 <> id) (finalization_claims d) ->
  sv_claim (view d' slot) =
    if decide (slot = att_slot a) then (if bool_decide (sv_claim (view d slot) = Some id) then None else sv_claim (view d slot))
    else sv_claim (view d slot).
Proof.
  intros Hc Ha Hcl. cbn [view sv_claim]. rewrite Hcl, map_lookup_filter.
  destruct (finalization_claims d !! slot) as [c|] eqn:E; cbn; [|by destruct (decide _)].
  destruct (decide (cl_attempt c = id)) as [Hid|Hid].
  - destruct (co_claim _ Hc _ _ E) as (b & Hb & Hbs & _). rewrite Hid, Ha in Hb. injection Hb as <-.
    rewrite decide_True by done. rewrite bool_decide_eq_true_2 by congruence.
    by repeat case_guard || destruct (decide _).
  - rewrite bool_decide_eq_false_2 by congruence.
    destruct (decide (slot = att_slot a)); by repeat case_guard || destruct (decide _).
Qed.

Lemma simulated_end g o art refs now checked d r d' :
  claims_ok d -> commit_terminal_in g o art refs now checked d = Ok (r, d') ->
  simulated d (end_event d g o) d'.
Proof.
  intros Hc (d0 & details & d1 & d2 & row & Hexec & E1 & _ & E2 & E3 & _)%commit_terminal_Ok slot.
  destruct (finish_db _ _ _ _ _ _ _ _ _ _ _ E1 E2 E3) as (old & e & t & Heff & Ha & Hcl & _).
  assert (attempts d0 = attempts d) as Hat by (unfold attempts; by rewrite Hexec).
  assert (finalization_claims d0 = finalization_claims d) as Hcs by (unfold finalization_claims; by rewrite Hexec).
  pose proof (te_row _ _ _ _ _ _ _ _ _ _ _ Heff) as Hold. rewrite Hat in Hold. rewrite Hcs in Hcl.
  rewrite (te_db _ _ _ _ _ _ _ _ _ _ _ Heff) in Ha. cbn in Ha. rewrite Hat in Ha.
  pose proof (te_live _ _ _ _ _ _ _ _ _ _ _ Heff) as Hlive.
  set (a := moved _ _ _ _ _ _) in *.
  pose proof (view_inserted d d' (id_text g) a slot Ha ltac:(intros b; rewrite Hold; by intros [= <-])) as Hv.
  pose proof (claim_dropped d d' (id_text g) old slot Hc Hold Hcl) as Hv'. cbn [moved a att_slot] in Hv.
  unfold end_event. rewrite Hold. cbn [mbind option_bind].
  destruct (decide (slot = att_slot old)) as [->|Hne].
  2: { unfold view in *. cbn in *. congruence. }
  assert (sv_retries (view d (att_slot old)) !! id_text g = Some (att_retry_index old, Live)) as Hr.
  { apply view_retry. exists old. split; [done|]. split; [done|]. split; [done|]. by destruct (att_state old). }
  assert (view d' (att_slot old) = {| sv_retries := sv_retries (view d' (att_slot old));
    sv_claim := sv_claim (view d' (att_slot old)) |}) as -> by done.
  rewrite Hv, Hv'. unfold outcome_event. destruct (Outcome.is_accepted o) eqn:Ho; cbn [slot_do]; rewrite Hr.
  - destruct o; try done. destruct (te_claim _ _ _ _ _ _ _ _ _ _ _ Heff eq_refl) as (c & Hclaim & Hid).
    rewrite Hcs in Hclaim. cbn [view sv_claim]. rewrite Hclaim. cbn [fmap option_fmap option_map].
    rewrite bool_decide_eq_true_2 by congruence. rewrite decided_satisfied.
    assert (satisfied d (att_slot old) = false) as ->; [|done].
    apply satisfied_false. intros k b Hb Hs. by apply (co_open _ Hc _ _ _ _ Hclaim Hb Hs).
  - by destruct o.
Qed.

Lemma simulated_commit g o art refs now checked d0 d r d' :
  claims_ok d -> commit_finalization_in g o art refs now checked d = Ok (r, d0) -> commit d0 = Ok d' ->
  simulated d (end_event d g o) d'.
Proof.
  intros Hc E [-> _]%commit_Ok. unfold commit_finalization_in in E. op_inv. by eapply simulated_end.
Qed.

(** Every labelled operation does at its slot what its label says. *)
Lemma labelled_simulated d l d' :
  claims_ok d -> (forall slot, numbered (view d slot)) -> labelled_step d l d' -> simulated d l d'.
Proof.
  intros Hc Hnum Hl. destruct Hl; try (apply simulated_quiet; eauto using advance_quiet, renew_quiet,
    reserve_fresh_time_quiet, record_fresh_time_quiet, register_applicability_quiet, register_execution_quiet,
    register_fresh_quiet, register_observation_quiet, stage_quiet, publish_artifact_quiet,
    recover_finalizing_quiet, import_artifact_quiet, recover_stage_quiet; fail).
  - by eapply simulated_reserve.
  - by eapply simulated_begin.
  - unfold commit_finalization in *. op_inv. by eapply simulated_commit.
  - unfold publish_finalization in *. op_inv. by eapply simulated_commit.
  - unfold recover_import in *. op_inv. match goal with F : commit _ = Ok _ |- _ => apply commit_Ok in F as [-> _] end.
    by eapply simulated_end.
  - unfold fail_interrupted in *. op_inv. match goal with F : commit _ = Ok _ |- _ => apply commit_Ok in F as [-> _] end.
    by eapply simulated_end.
Qed.

(** *** Traces *)

Inductive trace : db -> list (string * slot_event) -> db -> Prop :=
  | trace_start d : trace d [] d
  | trace_step d es d1 l d2 : trace d es d1 -> labelled_step d1 l d2 ->
      trace d (es ++ match l with Some e => [e] | None => [] end) d2.
(** What a trace does to one slot. *)
Definition events_at (slot : string) (es : list (string * slot_event)) : list slot_event :=
  omap (fun e => if decide (e.1 = slot) then Some e.2 else None) es.

Lemma events_at_app slot es es' : events_at slot (es ++ es') = events_at slot es ++ events_at slot es'.
Proof. apply omap_app. Qed.
Lemma trace_steps d es d' : trace d es d' -> rtc store_step d d'.
Proof.
  induction 1 as [|d es d1 l d2 _ IH Hl]; [apply rtc_refl|]. eapply rtc_r; [exact IH|].
  apply labelled_step_iff. by exists l.
Qed.
Lemma steps_trace d d' : rtc store_step d d' -> exists es, trace d es d'.
Proof.
  intros Hs. pattern d'. eapply rtc_ind_r; [exists []; constructor| |exact Hs].
  intros d1 d2 _ [l Hl]%labelled_step_iff [es Hes]. eexists. by eapply trace_step.
Qed.
Lemma view_empty version slot : view (empty_store version) slot = vacant.
Proof. reflexivity. Qed.

Lemma trace_refines version es d slot :
  trace (empty_store version) es d -> slot_run vacant (events_at slot es) = Some (view d slot).
Proof.
  intros Ht. remember (empty_store version) as d0 eqn:E. revert slot.
  induction Ht as [d|d es d1 l d2 Ht IH Hl]; intros slot; [subst; by rewrite view_empty|]. specialize (IH E).
  assert (reachable d1) as Hr by (exists version; subst; by eapply trace_steps).
  assert (simulated d1 l d2) as Hsim.
  { apply labelled_simulated; [by apply reachable_claims| |done]. intros s. eapply numbered_run, IH. apply numbered_vacant. }
  specialize (Hsim slot). rewrite events_at_app, slot_run_app, IH. cbn [mbind option_bind].
  destruct l as [[s e]|]; cbn; [|by rewrite Hsim].
  destruct (decide (s = slot)) as [->|Hne]; cbn [slot_run].
  - rewrite decide_True in Hsim by done. rewrite Hsim. done.
  - rewrite decide_False in Hsim by done. by rewrite Hsim.
Qed.

(** C1: the store refines its specification.  Label every operation with what it
    does to a slot: a reservation hands out a retry, a finalization that is
    granted takes the claim, the operations that finish an attempt make it win or
    lose by its outcome, and all others do nothing.  Whatever operations of
    whatever owners and recovery passes lead from a new store to a store, they
    are the labels of a trace; on any trace and any slot, the slot object accepts
    the events of that slot one by one, and ends as the attempts and the claim
    that the store records for it.  The object refuses a retry that is not
    numbered next, a claim while another one stands or by an attempt that has
    ended, a win without holding the claim, and any retry, claim or win once the
    slot is decided. *)
Theorem store_refines_slots version d :
  (rtc store_step (empty_store version) d <-> exists es, trace (empty_store version) es d) /\
  (forall es slot, trace (empty_store version) es d ->
     slot_run vacant (events_at slot es) = Some (view d slot)).
Proof.
  split; [split; [apply steps_trace|by intros (es & ?%trace_steps)]|]. intros es slot. by apply trace_refines.
Qed.
End Operations.

(** ** The slot of the one-shot run

    Two retries; the first one takes the claim and wins. *)

Definition sample_events : list (string * slot_event) := [
  (slot_key, Retried first_key); (slot_key, Retried second_key); (slot_key, Claims first_key); (slot_key, Wins first_key)].

Lemma trace_quiet `{ThirdParty} d es d1 d2 : labelled_step d1 None d2 -> trace d es d1 -> trace d es d2.
Proof. intros Hl Ht. rewrite <-(app_nil_r es). by apply (trace_step d es d1 None d2). Qed.
Lemma trace_event `{ThirdParty} d es d1 l e d2 :
  labelled_step d1 l d2 -> l = Some e -> trace d es d1 -> trace d (es ++ [e]) d2.
Proof. intros Hl -> Ht. by apply (trace_step d es d1 (Some e) d2). Qed.
Lemma sample_claim : claim_event claimed.1 evaluating.1 = Some (slot_key, Claims first_key).
Proof. vm_compute. reflexivity. Qed.
Lemma sample_win : end_event selected (fin_attempt claimed.1) Outcome.Accepted = Some (slot_key, Wins first_key).
Proof. vm_compute. reflexivity. Qed.
Lemma sample_trace : @trace model (empty_store 3) sample_events accepted.2.
Proof.
  eapply (trace_event _ [_; _; _]); [by eapply do_commit, accepted_ok|exact sample_win|].
  eapply trace_quiet; [by eapply do_observation, selected_ok|].
  eapply trace_quiet; [by eapply do_register, published_ok|].
  eapply (trace_event _ [_; _]); [by eapply do_claim, claimed_ok|exact sample_claim|].
  eapply trace_quiet; [by eapply do_advance_quietly, evaluating_ok|].
  eapply trace_quiet; [by eapply do_advance_quietly, validating_ok|].
  eapply trace_quiet; [by eapply do_advance_quietly, executing_ok|].
  eapply trace_quiet; [by eapply do_advance_quietly, preparing_ok|].
  eapply trace_quiet; [by eapply do_advance_quietly, starting_ok|].
  eapply trace_quiet; [by eapply do_advance_quietly, materializing_ok|].
  eapply (trace_event _ [_]); [by eapply do_retry, competing_ok|reflexivity|].
  eapply (trace_event _ []); [by eapply do_retry, reserved_ok|reflexivity|].
  eapply trace_quiet; [by eapply do_execution, registered_ok|]. constructor.
Qed.

Lemma store_refines_slots_witness :
  @trace model (empty_store 3) sample_events accepted.2 /\
  slot_run vacant (events_at slot_key sample_events) = Some (view accepted.2 slot_key).
Proof.
  split; [exact sample_trace|].
  exact (proj2 (@store_refines_slots model 3 accepted.2) sample_events slot_key sample_trace).
Defined.
