(* ===== verification/Manifest.v ===== *)
(** * Manifests (src/core/manifest.rs, problem_contract.rs, profile.rs, schema.rs)

    The parsed benchmark manifest that planning works on: definitions, policies
    and experiments with their parameter axes, the problem contracts, and the
    catalog of compiled schemas.  The positions of authored text ([source_map])
    are not modelled.  A [BTreeMap] is the list of its entries in key order
    ([map_wf] of [Json.v]). *)
From S2P Require Import Prelude Json Canonical Identity Profile Records.
From Stdlib Require Import Ascii Floats.SpecFloat.

Abbreviation Name := string (only parsing).
Abbreviation BTreeMap V := (list (string * V)) (only parsing).

(** ** Code that may panic

    [Index], [expect] and [unwrap] end the process when their operand is
    absent: a model of code that uses them returns [Panicked] there, and the
    code's own errors as [Returned]. *)
Inductive failure (E : Type) :=
  | Returned (e : E)
  | Panicked.
Arguments Returned {E} e.
Arguments Panicked {E}.

Definition lift {E A} (m : result E A) : result (failure E) A := map_err Returned m.
(** [option.expect(..)] and [map[key]]. *)
Definition expect {E A} (o : option A) : result (failure E) A := ok_or o Panicked.
(** The error of a callee converted by [?]. *)
Definition lift_err {E F A} (f : E -> F) (m : result (failure E) A) : result (failure F) A :=
  map_err (fun e => match e with Returned e => Returned (f e) | Panicked => Panicked end) m.

Definition no_panic {E A} (m : result (failure E) A) : Prop := m <> Err Panicked.

Lemma no_panic_lift {E A} (m : result E A) : no_panic (lift m).
Proof. by destruct m. Qed.
Lemma no_panic_lift_err {E F A} (f : E -> F) (m : result (failure E) A) :
  no_panic m -> no_panic (lift_err f m).
Proof. destruct m as [a|[e|]]; done. Qed.
Lemma no_panic_bind {E A B} (m : result (failure E) A) (k : A -> result (failure E) B) :
  no_panic m -> (forall a, m = Ok a -> no_panic (k a)) -> no_panic (m ≫= k).
Proof. destruct m as [a|e]; simpl; [auto|]. intros H _ [= ->]. by apply H. Qed.
Lemma no_panic_fmap {E A B} (f : A -> B) (m : result (failure E) A) :
  no_panic m -> no_panic (f <$> m).
Proof. destruct m as [a|e]; [done|]. intros H [= ->]. by apply H. Qed.
Lemma no_panic_mapM {E A B} (f : A -> result (failure E) B) l :
  Forall (fun x => no_panic (f x)) l -> no_panic (mapM f l).
Proof.
  induction 1 as [|x l Hx _ IH]; simpl; [done|].
  apply no_panic_bind; [done|]. intros y _. by apply no_panic_bind.
Qed.
Lemma no_panic_try_fold {E A B} (f : A -> B -> result (failure E) A) a l :
  Forall (fun x => forall a, no_panic (f a x)) l -> no_panic (try_fold f a l).
Proof.
  intros H. revert a. induction H as [|x l Hx _ IH]; intros a; simpl; [done|].
  apply no_panic_bind; auto.
Qed.
Lemma no_panic_for_each {E A} (f : A -> result (failure E) unit) l :
  Forall (fun x => no_panic (f x)) l -> no_panic (for_each f l).
Proof. intros H. apply no_panic_try_fold. by eapply Forall_impl. Qed.
Lemma no_panic_Ok {E A} (a : A) : no_panic (Ok (E := failure E) a).
Proof. done. Qed.
Lemma no_panic_Returned {E A} (e : E) : no_panic (Err (Returned e) : result _ A).
Proof. done. Qed.
Lemma no_panic_expect {E A} (o : option A) : is_Some o -> no_panic (expect (E := E) o).
Proof. by intros [a ->]. Qed.

Create HintDb panics.
#[export] Hint Resolve no_panic_lift no_panic_lift_err no_panic_fmap no_panic_mapM
  no_panic_for_each no_panic_Ok no_panic_Returned no_panic_expect : panics.

(** ** Schemas *)

Record SchemaDeclaration := { sd_path : string; sd_document : option value }.
#[export] Instance schema_declaration_eq_dec : EqDecision SchemaDeclaration.
Proof. solve_decision. Defined.

(** [SchemaDeclaration::declaration_value]. *)
Definition declaration_value (s : SchemaDeclaration) : value :=
  default (Str (sd_path s)) (sd_document s).

Record SchemaViolation := {
  instance_path : string;
  violated_schema_path : string;
  message : string;
  value_path : string;
}.
Inductive SchemaValidationError :=
  | UnknownSchema (path : string)
  | InvalidInstance (path : string) (violations : list SchemaViolation).

(** The derived [Ord] of [SchemaViolation]: fields in declaration order. *)
Definition violation_fields (v : SchemaViolation) : list string :=
  [instance_path v; violated_schema_path v; message v; value_path v].
Fixpoint strings_le (a b : list string) : bool :=
  match a, b with
  | [], _ => true
  | _ :: _, [] => false
  | x :: a', y :: b' =>
      match String.compare x y with Lt => true | Gt => false | Eq => strings_le a' b' end
  end.
Definition violation_le (v w : SchemaViolation) : Prop :=
  strings_le (violation_fields v) (violation_fields w) = true.
#[export] Instance violation_le_dec : RelDecision violation_le.
Proof. intros v w. unfold violation_le. apply _. Defined.

(** [Validator] is the compiled schema of the jsonschema crate: the violations
    [iter_errors] reports for an instance, in its order. *)
Record SchemaCatalog := {
  validators : BTreeMap (value -> list SchemaViolation);
  normalized : BTreeMap value;
}.

Module Catalog.
Definition validate (c : SchemaCatalog) (schema_path : string) (instance : value)
  : result SchemaValidationError unit :=
  validator ← ok_or (map_get schema_path (validators c)) (UnknownSchema schema_path);
  let violations := merge_sort violation_le (validator instance) in
  match violations with
  | [] => Ok tt
  | _ :: _ => Err (InvalidInstance schema_path violations)
  end.

(** [Option::is_some_and] over two lookups of the normalized documents. *)
Definition matches (c : SchemaCatalog) (left right : SchemaDeclaration) : bool :=
  bool_decide (left = right) ||
  ((bool_decide (is_Some (sd_document left)) || bool_decide (is_Some (sd_document right))) &&
   match map_get (sd_path left) (normalized c) with
   | Some document => bool_decide (map_get (sd_path right) (normalized c) = Some document)
   | None => false
   end).

Definition REPOSITORY_SCHEMA_BASE_URI : string := "metewand://repository/".

(** [u8::is_ascii_alphanumeric]. *)
Definition is_alphanumeric (c : ascii) : bool :=
  let n := nat_of_ascii c in
  ((48 <=? n) && (n <=? 57) || (65 <=? n) && (n <=? 90) || (97 <=? n) && (n <=? 122))%nat.
(** One digit of [{:X}]. *)
Definition hex_upper (n : nat) : ascii :=
  ascii_of_nat (if (n <? 10)%nat then 48 + n else 55 + n).
(** The loop of [repository_uri] over the bytes of the path. *)
Fixpoint percent_encoded (path : bytes) : bytes :=
  match path with
  | [] => []
  | byte :: path' =>
      (if is_alphanumeric byte || bool_decide (byte ∈ bytes_of "-._~/") then [byte]
       else ["%"%char; hex_upper (nat_of_ascii byte / 16); hex_upper (nat_of_ascii byte mod 16)])
      ++ percent_encoded path'
  end.
Definition repository_uri (path : string) : string :=
  REPOSITORY_SCHEMA_BASE_URI +:+ string_of (percent_encoded (bytes_of path)).

(** [str::split_once('#')]. *)
Fixpoint split_once (c : ascii) (s : string) : option (string * string) :=
  match s with
  | EmptyString => None
  | String d s' =>
      if Ascii.eqb c d then Some (EmptyString, s')
      else (fun p => (String d p.1, p.2)) <$> split_once c s'
  end.
(** [Value::get] with a string key. *)
Definition get (k : string) (v : value) : option value := as_object v ≫= map_get k.

Section References.
(** [Value::pointer] of serde_json: the JSON pointer lookup. *)
Context (pointer : value -> string -> option value).

Definition resource_named (uri : string) (entry : string * value) : bool :=
  String.eqb (repository_uri entry.1) uri ||
  bool_decide ((get "$id" entry.2 ≫= as_str) = Some uri).

(** The nested [resolve]; the loop runs at most [fuel] times and fails on a
    longer chain of references. *)
Fixpoint resolve (fuel : nat) (c : SchemaCatalog) (node root : value)
  : option (value * value) :=
  match fuel with
  | O => None
  | S fuel =>
      match get "$ref" node ≫= as_str with
      | None => Some (node, root)
      | Some reference =>
          let '(uri, fragment) := default (reference, EmptyString) (split_once "#" reference) in
          root ← (if negb (String.eqb uri "") then
                    snd <$> List.find (resource_named uri) (normalized c)
                  else Some root);
          node ← (if String.eqb fragment "" then Some root else pointer root fragment);
          resolve fuel c node root
      end
  end.

Definition has_numeric_property (c : SchemaCatalog) (path name : string) : bool :=
  match
    root ← map_get path (normalized c);
    '(object, root) ← resolve 64 c root root;
    property ← get "properties" object ≫= get name;
    '(property, _) ← resolve 64 c property root;
    get "type" property ≫= as_str
  with
  | Some t => String.eqb t "number" || String.eqb t "integer"
  | None => false
  end.
End References.
End Catalog.

(** ** Workers and environments *)

Module Worker.
Record InterpretedWorker := {
  runner : InterpretedRunner;
  entrypoint : string;
  interpreted_args : list string;
  interpreted_sources : list string;
  interpreted_environment : Name;
  interpreted_transport : option ProtocolTransport;
}.
Record CommandWorker := {
  program : string;
  command_args : list string;
  command_sources : option (list string);
  command_environment : Name;
  command_transport : option ProtocolTransport;
}.
Inductive WorkerDefinition :=
  | Interpreted (w : InterpretedWorker)
  | Command (w : CommandWorker).

(** [worker_environment] of planning.rs. *)
Definition environment (w : WorkerDefinition) : Name :=
  match w with
  | Interpreted w => interpreted_environment w
  | Command w => command_environment w
  end.
(** The assignment [*environment = ...]. *)
Definition set_environment (name : Name) (w : WorkerDefinition) : WorkerDefinition :=
  match w with
  | Interpreted w => Interpreted {| runner := runner w; entrypoint := entrypoint w;
      interpreted_args := interpreted_args w; interpreted_sources := interpreted_sources w;
      interpreted_environment := name; interpreted_transport := interpreted_transport w |}
  | Command w => Command {| program := program w; command_args := command_args w;
      command_sources := command_sources w; command_environment := name;
      command_transport := command_transport w |}
  end.
End Worker.

(** [EnvironmentDefinition]. *)
Inductive EnvironmentDefinition :=
  | LocalEnvironment (environment_variables : BTreeMap string)
  | UvEnvironment (project lockfile : string) (groups extras : list Name)
  | RenvEnvironment (project lockfile : string)
  | NixEnvironment (flake installable system : string) (output_kind : NixOutputKind) (output : string)
  | OciEnvironment (image : string).

(** ** Parameters *)

Inductive ParameterAxis :=
  | AxisValue (v : value)
  | AxisGrid (values : list value).
Abbreviation ParameterAxes := (BTreeMap ParameterAxis) (only parsing).
Abbreviation NamedParameterAxes := (BTreeMap (BTreeMap ParameterAxis)) (only parsing).

(** ** Definitions *)

Record RemoteSource := { source_url : string; source_sha256 : string }.
Record GeneratedDatasetDefinition := {
  gd_parameter_schema : option SchemaDeclaration;
  gd_parameter_defaults : option value;
  gd_parameter_grids : ParameterAxes;
  gd_output_schema : SchemaDeclaration;
  gd_source : option RemoteSource;
  gd_worker : Worker.WorkerDefinition;
}.
Inductive DatasetDefinition :=
  | FixedDataset (output_schema : SchemaDeclaration) (sources : list string)
  | GeneratedDataset (d : GeneratedDatasetDefinition).

Record ProblemPreparationDefinition := {
  ppd_worker : Worker.WorkerDefinition;
  ppd_output_schema : SchemaDeclaration;
}.
Record ImplementationDefinition := {
  id_worker : Worker.WorkerDefinition;
  id_problem_contracts : list Name;
  id_parameter_schema : option SchemaDeclaration;
  id_parameter_defaults : option value;
  id_parameter_grids : ParameterAxes;
  id_capabilities : list ImplementationCapability;
}.

(** ** Experiments and policies *)

Record ExperimentCase := {
  case_name : Name;
  case_dataset_parameters : NamedParameterAxes;
  case_problem_parameters : ParameterAxes;
  case_implementation_parameters : NamedParameterAxes;
}.
Record ExperimentDefinition := {
  experiment_name : Name;
  experiment_problem : Name;
  experiment_datasets : list Name;
  experiment_implementations : list Name;
  experiment_execution_policy : Name;
  experiment_observation_policy : Name;
  implementation_repetitions : Z;
  measurement_repetitions : Z;
  experiment_seed : Z;
  dataset_parameters : NamedParameterAxes;
  problem_parameters : ParameterAxes;
  implementation_parameters : NamedParameterAxes;
  cases : list ExperimentCase;
}.

Module Execution.
Record ExecutionPolicyDefinition := {
  version : Z;
  cpus : option Z;
  threads : option Z;
  memory : option string;
  network : option bool;
  worker_reuse : option bool;
  warmup_runs : option Z;
  timeout : option string;
  timing_scope : option TimingScope;
  primary_time : option PrimaryTime;
  run_order : option RunOrder;
  max_concurrency : option Z;
  enforcement : option Enforcement;
}.
Definition resolved_network (p : ExecutionPolicyDefinition) : bool := default false (network p).
Definition resolved_worker_reuse (p : ExecutionPolicyDefinition) : bool :=
  default false (worker_reuse p).
Definition resolved_warmup_runs (p : ExecutionPolicyDefinition) : Z := default 0%Z (warmup_runs p).
Definition resolved_timing_scope (p : ExecutionPolicyDefinition) : TimingScope :=
  default PrepareAndExecute (timing_scope p).
Definition resolved_primary_time (p : ExecutionPolicyDefinition) : PrimaryTime :=
  default TimedWallTime (primary_time p).
Definition resolved_run_order (p : ExecutionPolicyDefinition) : RunOrder :=
  default Sequential (run_order p).
Definition resolved_max_concurrency (p : ExecutionPolicyDefinition) : Z :=
  default 1%Z (max_concurrency p).
Definition resolved_enforcement (p : ExecutionPolicyDefinition) : Enforcement :=
  default BestEffort (enforcement p).
(** [serde_json::from_value(json!({}))]: every optional field is absent. *)
Definition built_in : ExecutionPolicyDefinition := {|
  version := 1; cpus := None; threads := None; memory := None; network := None;
  worker_reuse := None; warmup_runs := None; timeout := None; timing_scope := None;
  primary_time := None; run_order := None; max_concurrency := None; enforcement := None |}.
End Execution.

Record BufferedBinding := {
  instrumented_scope : string;
  instrumentation_schema : SchemaDeclaration;
  instrumentation : value;
  buffered_schedule : CheckSchedule;
}.
Record FreshBinding := { control_schema : SchemaDeclaration; fresh_schedule : ControlSchedule }.
(** The single-valued [delivery] and [measurement_basis] tags are left out. *)
Inductive ProfileBinding :=
  | BufferedProfileBinding (b : BufferedBinding)
  | FreshProfileBinding (b : FreshBinding)
  | StreamingProfileBinding (check_schedule : CheckSchedule).
Record ProfileDefinition := {
  profile_policy : ProfilePolicy;
  profile_implementations : BTreeMap ProfileBinding;
}.
Record ObservationPolicyDefinition := {
  observation_version : Z;
  observation_policy_kind : ObservationKind;
  observation_profile : option ProfileDefinition;
}.

(** [ProfileBinding::schema]. *)
Definition binding_schema (b : ProfileBinding) : option SchemaDeclaration :=
  match b with
  | BufferedProfileBinding b => Some (instrumentation_schema b)
  | FreshProfileBinding b => Some (control_schema b)
  | StreamingProfileBinding _ => None
  end.

(** ** Problem contracts *)

Record MetricAgreement := { atol : spec_float; rtol : spec_float }.
Record InstrumentedScope := {
  clock_origin : string;
  included_work : string;
  excluded_preparation : string;
  metric_agreement : BTreeMap MetricAgreement;
}.
(** Inline scientific data or a repository path. *)
Inductive ReferenceInput :=
  | ReferencePath (path : string)
  | ReferenceInline (v : value).
Inductive ExpectedVerdict := ExpectInvalid | ExpectReached | ExpectNotReached | ExpectNotRequired.
Record MetricTolerance := { absolute : spec_float; relative : spec_float }.
Record ReferenceCase := {
  case_dataset : option ReferenceInput;
  case_result : ReferenceInput;
  case_expected_metrics : ReferenceInput;
  case_metric_tolerance : option MetricTolerance;
  case_expected_verdict : option ExpectedVerdict;
}.
(** A contract without its source map; [ProblemSemantics] is its canonical value. *)
Record ProblemContract := {
  contract_version : Z;
  contract_name : Name;
  contract_family : Name;
  contract_parameter_schema : SchemaDeclaration;
  contract_parameter_defaults : option value;
  contract_parameter_grids : ParameterAxes;
  compact_parameters : bool;
  contract_dataset_schemas : list SchemaDeclaration;
  contract_result_schema : SchemaDeclaration;
  contract_metric_schema : SchemaDeclaration;
  contract_semantics_schema : option SchemaDeclaration;
  allowed_timing_scopes : list TimingScope;
  instrumented_scopes : BTreeMap InstrumentedScope;
  supported_budgets : list ScientificBudget;
  contract_semantics : value;
  reference_cases : list ReferenceCase;
}.
Inductive ContractDeclaration :=
  | ContractReference (path : string)
  | ContractInline (contract : ProblemContract).

Record ProblemDefinition := {
  pdf_contract : ContractDeclaration;
  pdf_parameter_defaults : option value;
  pdf_evaluator : Worker.WorkerDefinition;
  pdf_preparation : option ProblemPreparationDefinition;
}.
(** [ContractDeclaration::reference_path]. *)
Definition reference_path (c : ContractDeclaration) : option string :=
  match c with ContractReference path => Some path | ContractInline _ => None end.

(** [ProblemDefinition::resolved_parameter_defaults]. *)
Definition resolved_parameter_defaults (p : ProblemDefinition) (c : ProblemContract) : option value :=
  match pdf_parameter_defaults p with Some v => Some v | None => contract_parameter_defaults c end.

(** ** The manifest *)

Record WorkerTimeouts := {
  hello : Z; materialize : Z; prepare : Z; execute : Z; reset : Z; evaluate : Z; shutdown : Z;
}.
Definition default_timeouts : WorkerTimeouts := {|
  hello := 10000000000; materialize := 10000000000; prepare := 10000000000;
  execute := 10000000000; reset := 10000000000; evaluate := 10000000000;
  shutdown := 10000000000 |}.

Inductive TimeoutError :=
  | UnknownPhase (phase : string)
  | PhaseDuration (e : Duration.DurationError).

(** One round of the loop of [WorkerTimeouts::deserialize]; the phase is
    checked before its duration is read. *)
Definition set_timeout (t : WorkerTimeouts) (entry : string * string)
  : result TimeoutError WorkerTimeouts :=
  let set (update : Z -> WorkerTimeouts) :=
    update <$> map_err PhaseDuration (Duration.positive_nanoseconds entry.2) in
  let '(Build_WorkerTimeouts h m p e r v s) := t in
  let phase := entry.1 in
  if String.eqb phase "hello" then set (fun n => Build_WorkerTimeouts n m p e r v s)
  else if String.eqb phase "materialize" then set (fun n => Build_WorkerTimeouts h n p e r v s)
  else if String.eqb phase "prepare" then set (fun n => Build_WorkerTimeouts h m n e r v s)
  else if String.eqb phase "execute" then set (fun n => Build_WorkerTimeouts h m p n r v s)
  else if String.eqb phase "reset" then set (fun n => Build_WorkerTimeouts h m p e n v s)
  else if String.eqb phase "evaluate" then set (fun n => Build_WorkerTimeouts h m p e r n s)
  else if String.eqb phase "shutdown" then set (fun n => Build_WorkerTimeouts h m p e r v n)
  else Err (UnknownPhase phase).
Definition deserialize_timeouts (entries : BTreeMap string) : result TimeoutError WorkerTimeouts :=
  try_fold set_timeout default_timeouts entries.

Record Manifest := {
  manifest_version : Z;
  manifest_name : Name;
  default_experiment : option Name;
  worker_timeouts : WorkerTimeouts;
  datasets : BTreeMap DatasetDefinition;
  problems : BTreeMap ProblemDefinition;
  implementations : BTreeMap ImplementationDefinition;
  environments : BTreeMap EnvironmentDefinition;
  experiments : list ExperimentDefinition;
  execution_policies : BTreeMap Execution.ExecutionPolicyDefinition;
  observation_policies : BTreeMap ObservationPolicyDefinition;
}.
