(* ===== verification/Bindings.v ===== *)
(** * Profile bindings (src/core/profile.rs)

    The validation the manifest parser applies to the delivery binding of each
    implementation, and the declaration documents that enter the identity of a
    profile.  [Serialize] is the document it produces. *)
From S2P Require Import Prelude Json Canonical Identity Profile Records.
From S2P Require Import RecordIdentity Manifest.
From Stdlib Require Import Floats.SpecFloat.

Inductive BindingError :=
  | MaxCheckpointBytes
  | BindingPolicy (e : PolicyError)
  | BindingSchedule (e : ScheduleError)
  | BufferedBindingFields
  | FreshCount
  | BindingControls (e : ControlError).

Module Binding.
(** [ProfileBinding::validate]. *)
Definition validate (b : ProfileBinding) (policy : ProfilePolicy) : result BindingError unit :=
  match b with
  | StreamingProfileBinding check_schedule =>
      _ ← ensure (negb ((max_checkpoint_bytes policy =? 0)%Z
                        || (MAX_SAFE_INTEGER <? max_checkpoint_bytes policy)%Z))
            MaxCheckpointBytes;
      map_err BindingSchedule (Check.validate check_schedule)
  | BufferedProfileBinding b =>
      _ ← map_err BindingPolicy (Policy.validate_buffered policy);
      _ ← map_err BindingSchedule (Check.validate (buffered_schedule b));
      ensure (negb (String.eqb (instrumented_scope b) "") && Control.is_object (instrumentation b))
        BufferedBindingFields
  | FreshProfileBinding b =>
      let count := Control.len (fresh_schedule b) in
      _ ← ensure (negb ((count =? 0)%Z || (max_observations policy <? count)%Z
            || (bool_decide (metric policy = None)
                && negb (count =? max_observations policy)%Z)))
            FreshCount;
      (fun _ => tt) <$> map_err BindingControls
        (Control.expand (fresh_schedule b) (max_observations policy))
  end.
End Binding.

(** ** Documents *)

(** [Serialize for CheckSchedule], untagged. *)
Definition check_schedule_value (s : CheckSchedule) : value :=
  match s with
  | Periodic every start => object [("every", json_u64 every); ("start", json_u64 start)]
  | Explicit indices => object [("indices", Array (map json_u64 indices))]
  end.

(** [Serialize for ControlSchedule], tagged with [kind]. *)
Definition control_schedule_value (s : ControlSchedule) : value :=
  match s with
  | ExplicitControls controls => object [("kind", Str "explicit"); ("controls", Array controls)]
  | Linear field start step count prefix =>
      object ([("kind", Str "linear"); ("field", Str field); ("start", json_f64 start);
               ("step", json_f64 step); ("count", json_u64 count)]
              ++ field_if "prefix" Array (nonempty prefix))
  | Geometric field start ratio count prefix =>
      object ([("kind", Str "geometric"); ("field", Str field); ("start", json_f64 start);
               ("ratio", json_f64 ratio); ("count", json_u64 count)]
              ++ field_if "prefix" Array (nonempty prefix))
  end.

(** [ProfileBinding::declaration_value]. *)
Definition binding_declaration_value (b : ProfileBinding) : value :=
  match b with
  | StreamingProfileBinding check_schedule => object [
      ("delivery", Str "streaming_profile");
      ("measurement-basis", Str "executor_observed");
      ("check-schedule", check_schedule_value check_schedule)]
  | BufferedProfileBinding b => object [
      ("delivery", Str "buffered_profile");
      ("measurement-basis", Str "instrumented");
      ("instrumented-scope", Str (instrumented_scope b));
      ("instrumentation-schema", declaration_value (instrumentation_schema b));
      ("instrumentation", instrumentation b);
      ("check-schedule", check_schedule_value (buffered_schedule b))]
  | FreshProfileBinding b => object [
      ("delivery", Str "fresh_sequence");
      ("control-schema", declaration_value (control_schema b));
      ("schedule", control_schedule_value (fresh_schedule b))]
  end.

(** [ProfileDefinition::declaration_value]. *)
Definition profile_declaration_value (p : ProfileDefinition) : value :=
  Object (map_insert "implementations"
    (object ((fun kv => (kv.1, binding_declaration_value kv.2)) <$> profile_implementations p))
    (map_collect (policy_fields (profile_policy p)))).
