(* ===== verification/Parameters.v ===== *)
(** * Parameter ownership and resolution (src/core/parameters.rs)

    Which experiment may set the parameters of which definition, and how
    literal defaults and supplied parameters merge into the validated
    configuration of a candidate. *)
From S2P Require Import Prelude Json Canonical Identity Profile Records.
From S2P Require Import Manifest.

Inductive ParameterNamespace := DatasetNamespace | ImplementationNamespace.

Record ParameterNamespaceLocation := {
  location_experiment : Name;
  location_case : option Name;
}.

Inductive ParameterNamespaceError :=
  | DefaultsWithoutSchema (namespace : ParameterNamespace) (definition : Name)
  | UnselectedDefinition (location : ParameterNamespaceLocation)
      (namespace : ParameterNamespace) (definition : Name)
  | UndefinedDefinition (location : ParameterNamespaceLocation)
      (namespace : ParameterNamespace) (definition : Name)
  | DefinitionHasNoParameterSchema (location : ParameterNamespaceLocation)
      (namespace : ParameterNamespace) (definition : Name).

Definition is_some {A} (o : option A) : bool :=
  match o with Some _ => true | None => false end.

(** [axes.keys()] checked in order. *)
Definition validate_named_parameter_axes (manifest : Manifest)
    (experiment : ExperimentDefinition) (case : option Name)
    (namespace : ParameterNamespace) (axes : NamedParameterAxes)
  : result ParameterNamespaceError unit :=
  let selected := match namespace with
    | DatasetNamespace => experiment_datasets experiment
    | ImplementationNamespace => experiment_implementations experiment
    end in
  let location := {| location_experiment := experiment_name experiment;
    location_case := case |} in
  for_each (fun definition =>
    _ ← ensure (bool_decide (definition ∈ selected))
          (UnselectedDefinition location namespace definition);
    has_parameter_schema ← match namespace with
      | DatasetNamespace =>
          dataset ← ok_or (map_get definition (datasets manifest))
            (UndefinedDefinition location namespace definition);
          Ok match dataset with
            | GeneratedDataset definition => is_some (gd_parameter_schema definition)
            | FixedDataset _ _ => false
            end
      | ImplementationNamespace =>
          implementation ← ok_or (map_get definition (implementations manifest))
            (UndefinedDefinition location namespace definition);
          Ok (is_some (id_parameter_schema implementation))
      end;
    ensure has_parameter_schema
      (DefinitionHasNoParameterSchema location namespace definition))
  axes.*1.

Definition validate_parameter_namespaces (manifest : Manifest)
  : result ParameterNamespaceError unit :=
  _ ← for_each (fun '(name, definition) =>
        match definition with
        | GeneratedDataset definition =>
            ensure (negb (is_some (gd_parameter_defaults definition)
                          && negb (is_some (gd_parameter_schema definition))))
              (DefaultsWithoutSchema DatasetNamespace name)
        | FixedDataset _ _ => Ok tt
        end) (datasets manifest);
  _ ← for_each (fun '(name, definition) =>
        ensure (negb (is_some (id_parameter_defaults definition)
                      && negb (is_some (id_parameter_schema definition))))
          (DefaultsWithoutSchema ImplementationNamespace name)) (implementations manifest);
  for_each (fun experiment =>
    _ ← validate_named_parameter_axes manifest experiment None DatasetNamespace
          (dataset_parameters experiment);
    _ ← validate_named_parameter_axes manifest experiment None ImplementationNamespace
          (implementation_parameters experiment);
    for_each (fun case =>
      _ ← validate_named_parameter_axes manifest experiment (Some (case_name case))
            DatasetNamespace (case_dataset_parameters case);
      validate_named_parameter_axes manifest experiment (Some (case_name case))
        ImplementationNamespace (case_implementation_parameters case))
    (cases experiment)) (experiments manifest).

(** ** Merging *)

(** One step of the loop of [merge_objects]: what the key is bound to after a
    supplied value, given what it was bound to before. *)
Fixpoint merge_entry (target : option value) (supplied : value) : value :=
  match target, supplied with
  | Some (Object target), Object supplied =>
      Object (fold_left (fun target kv =>
        map_insert kv.1 (merge_entry (map_get kv.1 target) kv.2) target) supplied target)
  | _, _ => supplied
  end.

Definition merge_objects (target supplied : list (string * value)) : list (string * value) :=
  fold_left (fun target kv =>
    map_insert kv.1 (merge_entry (map_get kv.1 target) kv.2) target) supplied target.

Inductive ParameterResolutionError :=
  | DefaultsMustBeObject
  | ParametersMustBeObject
  | ResolutionCanonicalJson (e : CanonicalJsonError)
  | Validation (e : SchemaValidationError).

Definition resolve_parameters (schemas : SchemaCatalog) (schema_path : string)
    (parameter_defaults : option value) (supplied_parameters : value)
  : result ParameterResolutionError value :=
  supplied ← ok_or (as_object supplied_parameters) ParametersMustBeObject;
  defaults ← match parameter_defaults with
    | Some defaults => ok_or (as_object defaults) DefaultsMustBeObject
    | None => Ok []
    end;
  resolved ← map_err (fun v => ResolutionCanonicalJson (InvalidValue v))
    (try_from (Object (merge_objects defaults supplied)));
  _ ← map_err Validation (Catalog.validate schemas schema_path resolved);
  Ok resolved.

(** ** What merging does to each key *)

Lemma merge_entry_object target supplied :
  merge_entry (Some (Object target)) (Object supplied) = Object (merge_objects target supplied).
Proof. done. Qed.

Lemma merge_objects_app target l k :
  merge_objects target (l ++ k) = merge_objects (merge_objects target l) k.
Proof. unfold merge_objects. by rewrite fold_left_app. Qed.

Lemma merge_objects_wf target supplied : map_wf target -> map_wf (merge_objects target supplied).
Proof.
  revert target. induction supplied as [|[k v] l IH]; intros target Hw; [done|].
  cbn. apply IH. auto with json.
Qed.

(** The objects have distinct keys, so the order in which the loop visits the
    supplied entries does not matter: each key is merged once. *)
Lemma map_get_merge_objects k target supplied :
  NoDup supplied.*1 ->
  map_get k (merge_objects target supplied) =
    match map_get k supplied with
    | Some v => Some (merge_entry (map_get k target) v)
    | None => map_get k target
    end.
Proof.
  revert target. induction supplied as [|[j v] l IH]; intros target Hnd; [done|].
  apply NoDup_cons in Hnd as [Hj Hnd]. cbn [merge_objects fold_left fst snd] in *.
  fold (merge_objects (map_insert j (merge_entry (map_get j target) v) target) l).
  rewrite IH by done. cbn [map_get]. destruct (String.eqb_spec k j) as [->|Hne].
  - rewrite (proj2 (map_get_None j l)) by done. by rewrite map_get_insert_eq.
  - by rewrite map_get_insert_ne.
Qed.

(** What a successful resolution returned. *)
Lemma resolve_parameters_Ok schemas path defaults supplied r :
  resolve_parameters schemas path defaults supplied = Ok r ->
  exists s d,
    supplied = Object s /\
    (defaults = Some (Object d) \/ defaults = None /\ d = []) /\
    try_from (Object (merge_objects d s)) = Ok r /\
    Catalog.validate schemas path r = Ok tt.
Proof.
  unfold resolve_parameters.
  destruct supplied as [| | | | |s], defaults as [[| | | | |d]|]; intros H; simpl in H;
    try discriminate; ok_inv;
    repeat match goal with u : unit |- _ => destruct u end.
  - exists s, d. repeat split; auto.
  - exists s, []. repeat split; auto.
Qed.
