(* ===== verification/Compatibility.v ===== *)
(** * Cross-definition validation (src/core/compatibility.rs)

    [validate_compatibility] follows every name a manifest mentions and checks
    that the definitions it selects fit together.  The planner indexes maps by
    those names afterwards: a manifest that validates has them all. *)
From S2P Require Import Prelude Json Canonical Identity Profile Records.
From S2P Require Import Manifest.
From Stdlib Require Import Floats.SpecFloat.

#[export] Instance timing_scope_eq_dec : EqDecision TimingScope.
Proof. solve_decision. Defined.
#[export] Instance scientific_budget_eq_dec : EqDecision ScientificBudget.
Proof. solve_decision. Defined.
#[export] Instance implementation_capability_eq_dec : EqDecision ImplementationCapability.
Proof. solve_decision. Defined.

(** The messages of [InvalidProfile]. *)
Inductive ProfileProblem :=
  | MissingBinding (implementation : Name)
  | TargetMetric (metric : string)
  | InvalidControls (e : ControlError)
  | ControlSchema (e : SchemaValidationError)
  | UnauthorizedScope (scope : string)
  | ScopeDescriptions
  | AgreementMetric (metric : string)
  | InstrumentationSchema (e : SchemaValidationError).

(** [MissingTimingChoice] is never constructed by the code. *)
Inductive ManifestCompatibilityError :=
  | InvalidProfile (problem : ProfileProblem)
  | CompetingProblemParameterDefaults (problem : Name)
  | MissingProblemContract (problem : Name) (contract_path : string)
  | UndefinedProblemDeclaration (implementation problem : Name)
  | UndefinedProblem (experiment problem : Name)
  | DatasetFreeProblemHasDatasets (experiment problem : Name)
  | DatasetRequired (experiment problem : Name)
  | UndefinedDataset (experiment dataset : Name)
  | IncompatibleDatasetSchema (experiment dataset problem : Name) (output_schema : string)
  | UndefinedExecutionPolicy (experiment execution_policy : Name)
  | WarmupsRequireWorkerReuse (execution_policy : Name) (warmup_runs : Z)
  | ColdEndToEndRequiresFreshWorker (execution_policy : Name)
  | UnsupportedTimingScope (experiment problem execution_policy : Name) (timing_scope : TimingScope)
  | UndefinedObservationPolicy (experiment observation_policy : Name)
  | UnsupportedScientificBudget (experiment problem observation_policy : Name)
      (scientific_budget : ScientificBudget)
  | UndefinedImplementation (experiment implementation : Name)
  | UnsupportedProblem (experiment implementation problem : Name)
  | UnsupportedObservationKind (experiment implementation observation_policy : Name)
      (observation_kind : ObservationKind).

Definition required_capability (kind : ObservationKind) : ImplementationCapability :=
  match kind with
  | ObserveOneShot => CapOneShot
  | ObserveProfile => CapBufferedProfile
  end.
Definition required_scientific_budget (kind : ObservationKind) : ScientificBudget :=
  match kind with ObserveOneShot | ObserveProfile => NoBudget end.

Definition output_schema (d : DatasetDefinition) : SchemaDeclaration :=
  match d with
  | FixedDataset output_schema _ => output_schema
  | GeneratedDataset d => gd_output_schema d
  end.

(** [schema_declaration == schema_declaration]: the derived equality. *)
Definition validate_dataset_selection (manifest : Manifest) (experiment : ExperimentDefinition)
    (contract : ProblemContract) (schemas : option SchemaCatalog)
  : result ManifestCompatibilityError unit :=
  match contract_dataset_schemas contract with
  | [] =>
      ensure (bool_decide (experiment_datasets experiment = []))
        (DatasetFreeProblemHasDatasets (experiment_name experiment) (experiment_problem experiment))
  | accepted_schemas =>
      _ ← ensure (negb (bool_decide (experiment_datasets experiment = [])))
            (DatasetRequired (experiment_name experiment) (experiment_problem experiment));
      for_each (fun dataset =>
        definition ← ok_or (map_get dataset (datasets manifest))
          (UndefinedDataset (experiment_name experiment) dataset);
        ensure (existsb (fun accepted =>
            bool_decide (accepted = output_schema definition) ||
            match schemas with
            | Some schemas => Catalog.matches schemas accepted (output_schema definition)
            | None => false
            end) accepted_schemas)
          (IncompatibleDatasetSchema (experiment_name experiment) dataset
             (experiment_problem experiment) (sd_path (output_schema definition))))
      (experiment_datasets experiment)
  end.

Section Validation.
Context (pointer : value -> string -> option value).

(** [t.atol < 0.0]. *)
Definition invalid_tolerance (t : MetricAgreement) : bool :=
  negb (is_finite (atol t)) || negb (is_finite (rtol t)) ||
  SFltb (atol t) (S754_zero false) || SFltb (rtol t) (S754_zero false).

(** The binding checks of one implementation under a profile policy. *)
Definition validate_profile (contract : ProblemContract) (profile : ProfileDefinition)
    (schemas : option SchemaCatalog) (implementation : Name)
  : result ManifestCompatibilityError unit :=
  let invalid {A} (m : result ProfileProblem A) := map_err InvalidProfile m in
  binding ← invalid (ok_or (map_get implementation (profile_implementations profile))
    (MissingBinding implementation));
  _ ← match schemas, metric (profile_policy profile) with
      | Some schemas, Some metric =>
          invalid (ensure (Catalog.has_numeric_property pointer schemas
                     (sd_path (contract_metric_schema contract)) metric)
                  (TargetMetric metric))
      | _, _ => Ok tt
      end;
  match binding with
  | StreamingProfileBinding _ => Ok tt
  | FreshProfileBinding binding =>
      match schemas with
      | Some schemas =>
          controls ← invalid (map_err InvalidControls
            (Control.expand (fresh_schedule binding) (max_observations (profile_policy profile))));
          for_each (fun control => invalid (map_err ControlSchema
            (Catalog.validate schemas (sd_path (control_schema binding)) control))) controls
      | None => Ok tt
      end
  | BufferedProfileBinding binding =>
      scope ← invalid (ok_or
        (map_get (instrumented_scope binding) (instrumented_scopes contract))
        (UnauthorizedScope (instrumented_scope binding)));
      _ ← invalid (ensure (negb (String.eqb (clock_origin scope) ""
              || String.eqb (included_work scope) ""
              || String.eqb (excluded_preparation scope) ""
              || existsb (fun entry => invalid_tolerance entry.2) (metric_agreement scope)))
            ScopeDescriptions);
      match schemas with
      | Some schemas =>
          _ ← for_each (fun metric =>
                invalid (ensure (Catalog.has_numeric_property pointer schemas
                           (sd_path (contract_metric_schema contract)) metric)
                        (AgreementMetric metric))) (metric_agreement scope).*1;
          invalid (map_err InstrumentationSchema
            (Catalog.validate schemas (sd_path (instrumentation_schema binding))
               (instrumentation binding)))
      | None => Ok tt
      end
  end.

(** The capability an implementation needs under the selected policy. *)
Definition capability_for (policy : ObservationPolicyDefinition) (implementation : Name)
  : ImplementationCapability :=
  match observation_profile policy ≫= fun p => map_get implementation (profile_implementations p) with
  | Some (StreamingProfileBinding _) => CapStreamingProfile
  | Some (FreshProfileBinding _) => CapFreshSequence
  | _ => required_capability (observation_policy_kind policy)
  end.

Definition validate_execution_policy (name : Name) (policy : Execution.ExecutionPolicyDefinition)
  : result ManifestCompatibilityError unit :=
  let worker_reuse := Execution.resolved_worker_reuse policy in
  let warmup_runs := Execution.resolved_warmup_runs policy in
  _ ← ensure (negb ((0 <? warmup_runs)%Z && negb worker_reuse))
        (WarmupsRequireWorkerReuse name warmup_runs);
  ensure (negb (bool_decide (Execution.resolved_timing_scope policy = ColdEndToEnd)
                && (worker_reuse || negb (warmup_runs =? 0)%Z)))
    (ColdEndToEndRequiresFreshWorker name).

Definition validate_implementation (manifest : Manifest) (experiment : ExperimentDefinition)
    (contract : ProblemContract) (observation_policy : ObservationPolicyDefinition)
    (schemas : option SchemaCatalog) (implementation : Name)
  : result ManifestCompatibilityError unit :=
  definition ← ok_or (map_get implementation (implementations manifest))
    (UndefinedImplementation (experiment_name experiment) implementation);
  _ ← ensure (bool_decide (experiment_problem experiment ∈ id_problem_contracts definition))
        (UnsupportedProblem (experiment_name experiment) implementation
           (experiment_problem experiment));
  _ ← match observation_profile observation_policy with
      | Some profile => validate_profile contract profile schemas implementation
      | None => Ok tt
      end;
  ensure (bool_decide (capability_for observation_policy implementation
                       ∈ id_capabilities definition))
    (UnsupportedObservationKind (experiment_name experiment) implementation
       (experiment_observation_policy experiment) (observation_policy_kind observation_policy)).

Definition validate_experiment (manifest : Manifest) (contracts : BTreeMap ProblemContract)
    (schemas : option SchemaCatalog) (experiment : ExperimentDefinition)
  : result (failure ManifestCompatibilityError) unit :=
  let name := experiment_name experiment in
  let problem := experiment_problem experiment in
  _ ← lift (ensure (contains_key problem (problems manifest)) (UndefinedProblem name problem));
  contract ← expect (map_get problem contracts);
  _ ← lift (validate_dataset_selection manifest experiment contract schemas);
  execution_policy ← lift (ok_or
    (map_get (experiment_execution_policy experiment) (execution_policies manifest))
    (UndefinedExecutionPolicy name (experiment_execution_policy experiment)));
  let timing_scope := Execution.resolved_timing_scope execution_policy in
  _ ← lift (ensure (bool_decide (timing_scope ∈ allowed_timing_scopes contract))
        (UnsupportedTimingScope name problem (experiment_execution_policy experiment) timing_scope));
  observation_policy ← lift (ok_or
    (map_get (experiment_observation_policy experiment) (observation_policies manifest))
    (UndefinedObservationPolicy name (experiment_observation_policy experiment)));
  let scientific_budget := required_scientific_budget (observation_policy_kind observation_policy) in
  _ ← lift (ensure (bool_decide (scientific_budget ∈ supported_budgets contract))
        (UnsupportedScientificBudget name problem (experiment_observation_policy experiment)
           scientific_budget));
  lift (for_each (validate_implementation manifest experiment contract observation_policy schemas)
    (experiment_implementations experiment)).

Definition validate_compatibility (manifest : Manifest) (contracts : BTreeMap ProblemContract)
    (schemas : option SchemaCatalog) : result (failure ManifestCompatibilityError) unit :=
  _ ← for_each (fun '(problem, definition) =>
        _ ← lift (ensure (contains_key problem contracts)
              (MissingProblemContract problem (default "<inline>" (reference_path (pdf_contract definition)))));
        match pdf_parameter_defaults definition with
        | Some _ =>
            contract ← expect (map_get problem contracts);
            lift (ensure (negb (compact_parameters contract))
              (CompetingProblemParameterDefaults problem))
        | None => Ok tt
        end) (problems manifest);
  _ ← lift (for_each (fun '(implementation, definition) =>
        for_each (fun problem =>
          ensure (contains_key problem (problems manifest))
            (UndefinedProblemDeclaration implementation problem))
        (id_problem_contracts definition)) (implementations manifest));
  _ ← lift (for_each (fun '(name, policy) => validate_execution_policy name policy)
        (execution_policies manifest));
  for_each (validate_experiment manifest contracts schemas) (experiments manifest).

Definition validate_manifest_compatibility (manifest : Manifest)
    (contracts : BTreeMap ProblemContract) :=
  validate_compatibility manifest contracts None.
Definition validate_manifest_compatibility_with_schemas (manifest : Manifest)
    (contracts : BTreeMap ProblemContract) (schemas : SchemaCatalog) :=
  validate_compatibility manifest contracts (Some schemas).
End Validation.

(** ** What a validated manifest has *)

(** Every name the experiment selects is defined. *)
Record experiment_resolved (manifest : Manifest) (contracts : BTreeMap ProblemContract)
    (experiment : ExperimentDefinition) : Prop := {
  resolved_problem : is_Some (map_get (experiment_problem experiment) (problems manifest));
  resolved_contract : is_Some (map_get (experiment_problem experiment) contracts);
  resolved_datasets : Forall (fun dataset => is_Some (map_get dataset (datasets manifest)))
    (experiment_datasets experiment);
  resolved_execution_policy :
    is_Some (map_get (experiment_execution_policy experiment) (execution_policies manifest));
  resolved_implementations :
    Forall (fun implementation => is_Some (map_get implementation (implementations manifest)))
      (experiment_implementations experiment);
  resolved_observation_policy : exists policy,
    map_get (experiment_observation_policy experiment) (observation_policies manifest)
      = Some policy /\
    forall profile, observation_profile policy = Some profile ->
      Forall (fun implementation => is_Some (map_get implementation (profile_implementations profile)))
        (experiment_implementations experiment);
}.

Lemma lift_Ok {E A} (m : result E A) a : lift m = Ok a -> m = Ok a.
Proof. apply map_err_Ok. Qed.
Lemma expect_Ok {E A} (o : option A) a : expect (E := E) o = Ok a <-> o = Some a.
Proof. destruct o; simpl; naive_solver. Qed.
Lemma ok_or_Ok {E A} (o : option A) (e : E) a : ok_or o e = Ok a <-> o = Some a.
Proof. destruct o; simpl; naive_solver. Qed.
Lemma contains_key_is_Some {V} k (m : BTreeMap V) : contains_key k m = true <-> is_Some (map_get k m).
Proof. unfold contains_key. destruct (map_get k m); split; naive_solver. Qed.
Lemma result_unit_Ok {E} (m : result E unit) u : m = Ok u -> m = Ok tt.
Proof. by destruct u. Qed.

Section ValidationLemmas.
Context (pointer : value -> string -> option value).
Context (manifest : Manifest) (contracts : BTreeMap ProblemContract).
Context (schemas : option SchemaCatalog).

Lemma dataset_selection_defined experiment contract :
  validate_dataset_selection manifest experiment contract schemas = Ok tt ->
  Forall (fun dataset => is_Some (map_get dataset (datasets manifest)))
    (experiment_datasets experiment).
Proof.
  unfold validate_dataset_selection. destruct (contract_dataset_schemas contract) as [|a l].
  - intros H%ensure_Ok. bools. by rewrite H.
  - intros H. apply bind_Ok in H as ([] & _ & H). apply for_each_Ok in H.
    eapply Forall_impl; [exact H|]. simpl. intros dataset Hd.
    apply bind_Ok in Hd as (d & Hd & _). apply ok_or_Ok in Hd. eauto.
Qed.

Lemma validate_implementation_defined experiment contract policy implementation :
  validate_implementation pointer manifest experiment contract policy schemas implementation
    = Ok tt ->
  is_Some (map_get implementation (implementations manifest)) /\
  forall profile, observation_profile policy = Some profile ->
    is_Some (map_get implementation (profile_implementations profile)).
Proof.
  unfold validate_implementation. intros H.
  apply bind_Ok in H as (definition & Hd%ok_or_Ok & H). apply bind_Ok in H as (u & _ & H).
  apply bind_Ok in H as (u' & Hp & _). split; [eauto|].
  intros profile E. rewrite E in Hp. unfold validate_profile in Hp.
  apply bind_Ok in Hp as (b & Hb%map_err_Ok & _). apply ok_or_Ok in Hb. eauto.
Qed.

Lemma validate_experiment_resolved experiment u :
  validate_experiment pointer manifest contracts schemas experiment = Ok u ->
  experiment_resolved manifest contracts experiment.
Proof.
  unfold validate_experiment. intros H.
  apply bind_Ok in H as (? & Hp%lift_Ok%ensure_Ok & H).
  apply bind_Ok in H as (contract & Hc%expect_Ok & H).
  apply bind_Ok in H as (? & Hd%lift_Ok%result_unit_Ok & H).
  apply bind_Ok in H as (policy & He%lift_Ok%ok_or_Ok & H).
  apply bind_Ok in H as (? & _ & H).
  apply bind_Ok in H as (observation & Ho%lift_Ok%ok_or_Ok & H).
  apply bind_Ok in H as (? & _ & H).
  apply lift_Ok, result_unit_Ok, for_each_Ok in H.
  assert (Forall (fun i => is_Some (map_get i (implementations manifest)) /\
    forall profile, observation_profile observation = Some profile ->
      is_Some (map_get i (profile_implementations profile)))
    (experiment_implementations experiment)) as Hi.
  { eapply Forall_impl; [exact H|]. intros i. apply validate_implementation_defined. }
  constructor; eauto.
  - by apply contains_key_is_Some.
  - exact (dataset_selection_defined _ _ Hd).
  - eapply Forall_impl; [exact Hi|]. by intros i [? _].
  - exists observation. split; [done|]. intros profile Hprofile.
    eapply Forall_impl; [exact Hi|]. intros i [_ Hb]. eauto.
Qed.

Lemma problems_have_contracts :
  for_each (fun '(problem, definition) =>
        _ ← lift (ensure (contains_key problem contracts)
              (MissingProblemContract problem (default "<inline>" (reference_path (pdf_contract definition)))));
        match pdf_parameter_defaults definition with
        | Some _ =>
            contract ← expect (map_get problem contracts);
            lift (ensure (negb (compact_parameters contract))
              (CompetingProblemParameterDefaults problem))
        | None => Ok tt
        end) (problems manifest) = Ok tt ->
  forall problem, is_Some (map_get problem (problems manifest)) ->
    is_Some (map_get problem contracts).
Proof.
  intros H problem [d Hd%map_get_elem]. apply for_each_Ok in H. rewrite Forall_forall in H.
  specialize (H _ Hd). simpl in H. apply bind_Ok in H as (? & H%lift_Ok%ensure_Ok & _).
  by apply contains_key_is_Some.
Qed.

(** The indexing and [expect] calls of the validation itself never panic. *)
Lemma validate_compatibility_no_panic :
  no_panic (validate_compatibility pointer manifest contracts schemas).
Proof.
  unfold validate_compatibility. apply no_panic_bind.
  - apply no_panic_for_each, Forall_forall. intros [problem d] _.
    apply no_panic_bind; [auto with panics|]. intros ? H%lift_Ok%ensure_Ok.
    apply contains_key_is_Some in H. destruct (pdf_parameter_defaults d); [|done].
    apply no_panic_bind; auto with panics.
  - intros u Hp%result_unit_Ok. pose proof (problems_have_contracts Hp) as Hc.
    apply no_panic_bind; [auto with panics|]. intros _ _.
    apply no_panic_bind; [auto with panics|]. intros _ _.
    apply no_panic_for_each, Forall_forall. intros experiment _.
    unfold validate_experiment. apply no_panic_bind; [auto with panics|].
    intros ? Hk%lift_Ok%ensure_Ok. apply contains_key_is_Some in Hk.
    apply no_panic_bind; [auto with panics|]. intros contract _.
    repeat (apply no_panic_bind; [solve [auto with panics]|]; intros ? _). auto with panics.
Qed.

Lemma validate_compatibility_resolved u :
  validate_compatibility pointer manifest contracts schemas = Ok u ->
  Forall (experiment_resolved manifest contracts) (experiments manifest).
Proof.
  unfold validate_compatibility. intros H.
  apply bind_Ok in H as (? & _ & H). apply bind_Ok in H as (? & _ & H).
  apply bind_Ok in H as (? & _ & H). apply result_unit_Ok, for_each_Ok in H.
  eapply Forall_impl; [exact H|]. intros experiment. apply validate_experiment_resolved.
Qed.
End ValidationLemmas.
