(* ===== verification/Contracts.v ===== *)
(** * Problem contracts (src/core/problem_contract.rs)

    The declaration document of an inline contract, the validation of a contract
    against the schema catalog and the tolerance of reference metrics. *)
From S2P Require Import Prelude Json Canonical Identity Profile Records Manifest Compatibility.
From Stdlib Require Import Floats.SpecFloat.

(** ** Documents *)

Definition reference_input_value (r : ReferenceInput) : value :=
  match r with ReferencePath path => Str path | ReferenceInline v => v end.
Definition verdict_str (v : ExpectedVerdict) : string :=
  match v with
  | ExpectInvalid => "invalid" | ExpectReached => "reached"
  | ExpectNotReached => "not_reached" | ExpectNotRequired => "not_required"
  end.
(** [json!(tolerance)]. *)
Definition tolerance_value (t : MetricTolerance) : value :=
  object [("absolute", json_f64 (absolute t)); ("relative", json_f64 (relative t))].
Definition reference_case_value (c : ReferenceCase) : value :=
  Object (insert_some "metric_tolerance" tolerance_value (case_metric_tolerance c)
    (insert_some "expected_verdict" (fun v => Str (verdict_str v)) (case_expected_verdict c)
      (map_collect [
        ("dataset", optional reference_input_value (case_dataset c));
        ("result", reference_input_value (case_result c));
        ("expected_metrics", reference_input_value (case_expected_metrics c))]))).
(** [Serialize for InstrumentedScope]. *)
Definition agreement_value (a : MetricAgreement) : value :=
  object [("atol", json_f64 (atol a)); ("rtol", json_f64 (rtol a))].
Definition scope_value (s : InstrumentedScope) : value := object [
  ("clock-origin", Str (clock_origin s));
  ("included-work", Str (included_work s));
  ("excluded-preparation", Str (excluded_preparation s));
  ("metric-agreement", object ((fun kv => (kv.1, agreement_value kv.2)) <$> metric_agreement s))].
Definition budget_name (b : ScientificBudget) : string := match b with NoBudget => "none" end.

(** [ProblemContract::declaration_value]. *)
Definition contract_declaration_value (c : ProblemContract) : value :=
  Object (insert_some "instrumented_scopes"
    (fun scopes => object ((fun kv => (kv.1, scope_value kv.2)) <$> scopes))
    (nonempty (instrumented_scopes c))
    (map_collect [
      ("version", json_u64 (contract_version c));
      ("name", Str (contract_name c));
      ("family", Str (contract_family c));
      ("parameter_schema", declaration_value (contract_parameter_schema c));
      ("dataset_schemas", Array (map declaration_value (contract_dataset_schemas c)));
      ("result_schema", declaration_value (contract_result_schema c));
      ("metric_schema", declaration_value (contract_metric_schema c));
      ("semantics_schema", optional declaration_value (contract_semantics_schema c));
      ("allowed_timing_scopes", strings (map timing_scope (allowed_timing_scopes c)));
      ("supported_budgets", strings (map budget_name (supported_budgets c)));
      ("semantics", contract_semantics c);
      ("reference_cases", Array (map reference_case_value (reference_cases c)))])).
(** [ContractDeclaration::declaration_value]. *)
Definition contract_value (c : ContractDeclaration) : value :=
  match c with
  | ContractReference path => Str path
  | ContractInline contract => contract_declaration_value contract
  end.

(** ** Validation *)

Inductive ProblemSchemaRole :=
  | ParameterRole | DatasetRole | ResultRole | MetricRole | SemanticsRole.
(** [Parse] belongs to the YAML decoder. *)
Inductive ProblemContractError :=
  | MissingSchema (contract : string) (role : ProblemSchemaRole) (schema : string)
  | InvalidSemantics (contract : string) (source : SchemaValidationError).

Definition require_schema (path : string) (role : ProblemSchemaRole) (schema : SchemaDeclaration)
    (schemas : SchemaCatalog) : result ProblemContractError unit :=
  ensure (contains_key (sd_path schema) (validators schemas)) (MissingSchema path role (sd_path schema)).
Definition validate_schema_references (path : string) (c : ProblemContract) (schemas : SchemaCatalog)
  : result ProblemContractError unit :=
  _ ← require_schema path ParameterRole (contract_parameter_schema c) schemas;
  _ ← for_each (fun s => require_schema path DatasetRole s schemas) (contract_dataset_schemas c);
  _ ← require_schema path ResultRole (contract_result_schema c) schemas;
  _ ← require_schema path MetricRole (contract_metric_schema c) schemas;
  match contract_semantics_schema c with
  | Some s => require_schema path SemanticsRole s schemas
  | None => Ok tt
  end.
Definition validate_problem_contract (path : string) (c : ProblemContract) (schemas : SchemaCatalog)
  : result ProblemContractError unit :=
  _ ← validate_schema_references path c schemas;
  match contract_semantics_schema c with
  | Some s => map_err (InvalidSemantics path) (Catalog.validate schemas (sd_path s) (contract_semantics c))
  | None => Ok tt
  end.
(** [ProblemContract::schemas]. *)
Definition contract_schemas (c : ProblemContract) : list SchemaDeclaration :=
  [contract_parameter_schema c; contract_result_schema c; contract_metric_schema c]
  ++ match contract_semantics_schema c with Some s => [s] | None => [] end
  ++ contract_dataset_schemas c.

(** ** Reference cases *)

(** [MetricTolerance::matches]. *)
Definition f64_sub := SFsub 53 1024.
Definition f64_add := SFadd 53 1024.
Definition f64_mul := SFmul 53 1024.
Definition f64_matches (t : MetricTolerance) (a b : spec_float) : bool :=
  SFeqb a b ||
  is_finite (SFabs (f64_sub a b)) &&
  SFleb (SFabs (f64_sub a b)) (f64_add (absolute t) (f64_mul (relative t) (SFabs b))).
Fixpoint tolerance_matches (t : MetricTolerance) (actual expected : value) {struct actual} : bool :=
  match actual, expected with
  | Number a, Number b => f64_matches t (as_f64 a) (as_f64 b)
  | Array a, Array b =>
      (length a =? length b)%nat &&
      (fix go (a b : list value) : bool :=
         match a, b with
         | x :: a', y :: b' => tolerance_matches t x y && go a' b'
         | _, _ => true
         end) a b
  | Object a, Object b =>
      (length a =? length b)%nat &&
      (fix go (a : list (string * value)) : bool :=
         match a with
         | (k, x) :: a' =>
             match map_get k b with Some y => tolerance_matches t x y | None => false end && go a'
         | [] => true
         end) a
  | _, _ => bool_decide (actual = expected)
  end.

(** [ReferenceCase::resolved_verdict], with the one-shot completion rules. *)
Definition resolved_verdict (c : ReferenceCase) (semantics : value) : ExpectedVerdict :=
  match case_expected_verdict c with
  | Some v => v
  | None =>
      match as_object (index semantics "one_shot_completion") with
      | Some (_ :: _) => ExpectReached
      | _ => ExpectNotRequired
      end
  end.

Lemma seq_Ok {E} (m k : result E unit) : (_ ← m; k) = Ok tt <-> m = Ok tt /\ k = Ok tt.
Proof. destruct m as [[]|e]; cbn; naive_solver. Qed.
Lemma require_schema_Ok path role s schemas :
  require_schema path role s schemas = Ok tt <-> contains_key (sd_path s) (validators schemas) = true.
Proof. unfold require_schema, ensure. by destruct (contains_key _ _). Qed.
Lemma for_each_iff {E A} (f : A -> result E unit) (P : A -> Prop) l :
  (forall x, f x = Ok tt <-> P x) -> for_each f l = Ok tt <-> Forall P l.
Proof. intros H. rewrite for_each_Ok, !Forall_forall. naive_solver. Qed.

(** A validated contract names only schemas of the catalog, and its semantics
    satisfy their schema. *)
Lemma validate_problem_contract_spec path c schemas :
  validate_problem_contract path c schemas = Ok tt <->
  Forall (fun s => contains_key (sd_path s) (validators schemas) = true) (contract_schemas c) /\
  forall s, contract_semantics_schema c = Some s ->
    Catalog.validate schemas (sd_path s) (contract_semantics c) = Ok tt.
Proof.
  unfold validate_problem_contract, validate_schema_references, contract_schemas.
  rewrite !seq_Ok, !require_schema_Ok, !Forall_app, !Forall_cons, Forall_nil.
  rewrite (for_each_iff _ (fun s => contains_key (sd_path s) (validators schemas) = true))
    by (intros s; apply require_schema_Ok).
  destruct (contract_semantics_schema c) as [s|]; [rewrite require_schema_Ok, Forall_singleton|rewrite Forall_nil].
  - assert (map_err (InvalidSemantics path) (Catalog.validate schemas (sd_path s) (contract_semantics c)) = Ok tt
      <-> Catalog.validate schemas (sd_path s) (contract_semantics c) = Ok tt) as ->
      by (by destruct (Catalog.validate _ _ _) as [[]|]).
    naive_solver.
  - naive_solver.
Qed.
