(* ===== verification/Authoring.v ===== *)
(** * What the author may leave out (src/core/manifest.rs)

    Decoding ends by filling in omitted names: a worker without an environment
    gets the only local one, an experiment without policies the built-in ones,
    and an implementation without problem contracts the only problem.  The
    empty name stands for an omitted one while decoding. *)
From S2P Require Import Prelude Json Canonical Identity Profile Records.
From S2P Require Import Manifest.

Inductive AuthoringError :=
  | UndeclaredDefault (name : Name)
  | ProblemContractsRequired
  | AmbiguousEnvironment.

Definition is_local (e : EnvironmentDefinition) : bool :=
  match e with LocalEnvironment _ => true | _ => false end.

(** [values_mut()] with a state: the loop body updates each value and threads
    the environments. *)
Section Thread.
Context {S A : Type} (f : S -> A -> result AuthoringError (S * A)).
Fixpoint thread (s : S) (m : BTreeMap A) : result AuthoringError (S * BTreeMap A) :=
  match m with
  | [] => Ok (s, [])
  | (name, a) :: m =>
      '(s, a) ← f s a;
      '(s, m) ← thread s m;
      Ok (s, (name, a) :: m)
  end.
End Thread.

Abbreviation Environments := (BTreeMap EnvironmentDefinition) (only parsing).

(** The body of the worker loop of [resolve_local_environments]. *)
Definition resolve_worker (environments : Environments) (worker : Worker.WorkerDefinition)
  : result AuthoringError (Environments * Worker.WorkerDefinition) :=
  if negb (String.eqb (Worker.environment worker) "") then Ok (environments, worker)
  else
    let environments := match environments with
      | [] => [("local", LocalEnvironment [])]
      | _ => environments
      end in
    match List.filter (fun entry => is_local entry.2) environments with
    | [(name, _)] => Ok (environments, Worker.set_environment name worker)
    | _ => Err AmbiguousEnvironment
    end.

Definition resolve_dataset_worker (environments : Environments) (d : DatasetDefinition)
  : result AuthoringError (Environments * DatasetDefinition) :=
  match d with
  | FixedDataset _ _ => Ok (environments, d)
  | GeneratedDataset g =>
      '(environments, worker) ← resolve_worker environments (gd_worker g);
      Ok (environments, GeneratedDataset {|
        gd_parameter_schema := gd_parameter_schema g;
        gd_parameter_defaults := gd_parameter_defaults g;
        gd_parameter_grids := gd_parameter_grids g; gd_output_schema := gd_output_schema g;
        gd_source := gd_source g; gd_worker := worker |})
  end.
Definition resolve_problem_workers (environments : Environments) (p : ProblemDefinition)
  : result AuthoringError (Environments * ProblemDefinition) :=
  '(environments, evaluator) ← resolve_worker environments (pdf_evaluator p);
  '(environments, preparation) ← match pdf_preparation p with
    | None => Ok (environments, None)
    | Some preparation =>
        '(environments, worker) ← resolve_worker environments (ppd_worker preparation);
        Ok (environments, Some {| ppd_worker := worker;
          ppd_output_schema := ppd_output_schema preparation |})
    end;
  Ok (environments, {| pdf_contract := pdf_contract p;
    pdf_parameter_defaults := pdf_parameter_defaults p;
    pdf_evaluator := evaluator; pdf_preparation := preparation |}).
Definition resolve_implementation_worker (environments : Environments) (i : ImplementationDefinition)
  : result AuthoringError (Environments * ImplementationDefinition) :=
  '(environments, worker) ← resolve_worker environments (id_worker i);
  Ok (environments, {| id_worker := worker; id_problem_contracts := id_problem_contracts i;
    id_parameter_schema := id_parameter_schema i; id_parameter_defaults := id_parameter_defaults i;
    id_parameter_grids := id_parameter_grids i; id_capabilities := id_capabilities i |}).

Definition resolve_local_environments (m : Manifest) : result AuthoringError Manifest :=
  '(environments, datasets) ← thread resolve_dataset_worker (environments m) (datasets m);
  '(environments, problems) ← thread resolve_problem_workers environments (problems m);
  '(environments, implementations) ←
    thread resolve_implementation_worker environments (implementations m);
  Ok {| manifest_version := manifest_version m; manifest_name := manifest_name m;
        default_experiment := default_experiment m; worker_timeouts := worker_timeouts m;
        datasets := datasets; problems := problems; implementations := implementations;
        environments := environments; experiments := experiments m;
        execution_policies := execution_policies m;
        observation_policies := observation_policies m |}.

(** [entry(name).or_insert(value)]. *)
Definition or_insert {V} (name : Name) (v : V) (m : BTreeMap V) : BTreeMap V :=
  if contains_key name m then m else map_insert name v m.

Definition final_policy : ObservationPolicyDefinition :=
  {| observation_version := 1; observation_policy_kind := ObserveOneShot;
     observation_profile := None |}.

Definition with_policies (e : ExperimentDefinition) (execution observation : Name)
  : ExperimentDefinition := {|
  experiment_name := experiment_name e; experiment_problem := experiment_problem e;
  experiment_datasets := experiment_datasets e;
  experiment_implementations := experiment_implementations e;
  experiment_execution_policy := execution; experiment_observation_policy := observation;
  implementation_repetitions := implementation_repetitions e;
  measurement_repetitions := measurement_repetitions e; experiment_seed := experiment_seed e;
  dataset_parameters := dataset_parameters e; problem_parameters := problem_parameters e;
  implementation_parameters := implementation_parameters e; cases := cases e |}.

(** The two policy tables the experiment loop inserts into. *)
Definition Policies : Type :=
  BTreeMap Execution.ExecutionPolicyDefinition * BTreeMap ObservationPolicyDefinition.

(** The body of the experiment loop of [resolve_authoring_defaults]. *)
Definition resolve_policies (tables : Policies) (e : ExperimentDefinition)
  : Policies * ExperimentDefinition :=
  let '(execution, observation) := tables in
  let '(execution, execution_name) :=
    if String.eqb (experiment_execution_policy e) ""
    then (or_insert "@local" Execution.built_in execution, "@local"%string)
    else (execution, experiment_execution_policy e) in
  let '(observation, observation_name) :=
    if String.eqb (experiment_observation_policy e) ""
    then (or_insert "@final" final_policy observation, "@final"%string)
    else (observation, experiment_observation_policy e) in
  ((execution, observation), with_policies e execution_name observation_name).

Fixpoint resolve_experiments (tables : Policies) (l : list ExperimentDefinition)
  : Policies * list ExperimentDefinition :=
  match l with
  | [] => (tables, [])
  | e :: l =>
      let '(tables, e) := resolve_policies tables e in
      let '(tables, l) := resolve_experiments tables l in
      (tables, e :: l)
  end.

(** The body of the implementation loop. *)
Definition resolve_contracts (problems : BTreeMap ProblemDefinition) (i : ImplementationDefinition)
  : result AuthoringError ImplementationDefinition :=
  match id_problem_contracts i with
  | [] =>
      match problems with
      | [(problem, _)] => Ok {| id_worker := id_worker i; id_problem_contracts := [problem];
          id_parameter_schema := id_parameter_schema i;
          id_parameter_defaults := id_parameter_defaults i;
          id_parameter_grids := id_parameter_grids i; id_capabilities := id_capabilities i |}
      | _ => Err ProblemContractsRequired
      end
  | _ => Ok i
  end.

Definition resolve_authoring_defaults (m : Manifest) : result AuthoringError Manifest :=
  _ ← match default_experiment m with
      | Some name => ensure (existsb (fun e => String.eqb (experiment_name e) name) (experiments m))
          (UndeclaredDefault name)
      | None => Ok tt
      end;
  let '((execution, observation), experiments) :=
    resolve_experiments (execution_policies m, observation_policies m) (experiments m) in
  implementations ← mapM (fun '(name, i) => pair name <$> resolve_contracts (problems m) i)
    (implementations m);
  Ok {| manifest_version := manifest_version m; manifest_name := manifest_name m;
        default_experiment := default_experiment m; worker_timeouts := worker_timeouts m;
        datasets := datasets m; problems := problems m; implementations := implementations;
        environments := environments m; experiments := experiments;
        execution_policies := execution; observation_policies := observation |}.

(** The end of [Manifest::deserialize]. *)
Definition complete (m : Manifest) : result AuthoringError Manifest :=
  m ← resolve_local_environments m;
  resolve_authoring_defaults m.

(** ** Nothing stays omitted *)

Definition named (w : Worker.WorkerDefinition) : Prop := Worker.environment w <> EmptyString.

Lemma resolve_worker_named environments worker environments' worker' :
  Forall (fun entry => entry.1 <> EmptyString) environments ->
  resolve_worker environments worker = Ok (environments', worker') ->
  named worker' /\ Forall (fun entry => entry.1 <> EmptyString) environments'.
Proof.
  unfold resolve_worker, named. intros Hn H.
  destruct (String.eqb_spec (Worker.environment worker) EmptyString) as [E|E]; simpl in H;
    [|by injection H as <- <-].
  set (envs := match environments with [] => _ | _ => environments end) in *.
  assert (Forall (fun entry => entry.1 <> EmptyString) envs) as Hn'.
  { unfold envs. destruct environments; [by repeat constructor|done]. }
  destruct (List.filter _ envs) as [|[name d] [|]] eqn:Ef; try done. injection H as <- <-.
  split; [|done]. rewrite Forall_forall in Hn'.
  assert ((name, d) ∈ envs) as Hin.
  { apply list_elem_of_In. eapply (proj1 (List.filter_In _ _ _)). rewrite Ef. by left. }
  specialize (Hn' _ Hin). by destruct worker.
Qed.

Lemma resolve_policies_present tables e tables' e' :
  resolve_policies tables e = (tables', e') ->
  experiment_execution_policy e' <> EmptyString /\
  experiment_observation_policy e' <> EmptyString /\
  (experiment_execution_policy e = EmptyString ->
     is_Some (map_get (experiment_execution_policy e') tables'.1)) /\
  (experiment_observation_policy e = EmptyString ->
     is_Some (map_get (experiment_observation_policy e') tables'.2)).
Proof.
  assert (forall V (name : Name) (v : V) m, is_Some (map_get name (or_insert name v m))) as Hin.
  { intros V name v m. unfold or_insert, contains_key. destruct (map_get name m) eqn:E.
    - rewrite E. eauto.
    - rewrite map_get_insert_eq. eauto. }
  unfold resolve_policies. destruct tables as [execution observation].
  destruct (String.eqb_spec (experiment_execution_policy e) EmptyString);
    destruct (String.eqb_spec (experiment_observation_policy e) EmptyString);
    intros [= <- <-]; simpl; repeat split; auto; done.
Qed.
