(* ===== verification/SampleManifest.v ===== *)
(** * A concrete manifest

    One problem, one generated dataset with a parameter grid, and two
    implementations, under a one-shot policy or a bounded profile: the concrete
    input of the witnesses about planning. *)
From S2P Require Import Prelude Json Canonical Identity Profile Records.
From S2P Require Import Manifest.
From Stdlib Require Import Floats.SpecFloat.

Definition schema_at (path : string) : SchemaDeclaration :=
  {| sd_path := path; sd_document := None |}.

(** Every schema accepts every instance. *)
Definition sample_schemas : SchemaCatalog := {|
  validators := [("dataset.json", fun _ => []); ("implementation.json", fun _ => []);
                 ("problem.json", fun _ => [])];
  normalized := [] |}.

Definition sample_worker : Worker.WorkerDefinition :=
  Worker.Command {| Worker.program := "run"; Worker.command_args := [];
    Worker.command_sources := None; Worker.command_environment := "local";
    Worker.command_transport := None |}.

Definition sample_dataset : DatasetDefinition := GeneratedDataset {|
  gd_parameter_schema := Some (schema_at "dataset.json");
  gd_parameter_defaults := None;
  gd_parameter_grids := [("rows", AxisGrid [json_u64 10; json_u64 20])];
  gd_output_schema := schema_at "matrix.json";
  gd_source := None;
  gd_worker := sample_worker |}.

Definition sample_problem : ProblemDefinition := {|
  pdf_contract := ContractReference "contract.yaml"; pdf_parameter_defaults := None;
  pdf_evaluator := sample_worker; pdf_preparation := None |}.

Definition sample_implementation (schema : option SchemaDeclaration) : ImplementationDefinition := {|
  id_worker := sample_worker; id_problem_contracts := ["fit"];
  id_parameter_schema := schema; id_parameter_defaults := None; id_parameter_grids := [];
  id_capabilities := [CapOneShot; CapFreshSequence] |}.

Definition sample_case (name : Name) (tol : Z) : ExperimentCase := {|
  case_name := name; case_dataset_parameters := []; case_problem_parameters := [];
  case_implementation_parameters := [("slow", [("tol", AxisValue (json_u64 tol))])] |}.

Definition sample_experiment (observation : Name) (cases : list ExperimentCase)
  : ExperimentDefinition := {|
  experiment_name := "main"; experiment_problem := "fit"; experiment_datasets := ["data"];
  experiment_implementations := ["slow"]; experiment_execution_policy := "@local";
  experiment_observation_policy := observation; implementation_repetitions := 2;
  measurement_repetitions := 3; experiment_seed := 7; dataset_parameters := [];
  problem_parameters := []; implementation_parameters := []; cases := cases |}.

Definition sample_contract : ProblemContract := {|
  contract_version := 1; contract_name := "fit"; contract_family := "regression";
  contract_parameter_schema := schema_at "problem.json"; contract_parameter_defaults := None;
  contract_parameter_grids := []; compact_parameters := false;
  contract_dataset_schemas := [schema_at "matrix.json"];
  contract_result_schema := schema_at "result.json";
  contract_metric_schema := schema_at "metric.json"; contract_semantics_schema := None;
  allowed_timing_scopes := [PrepareAndExecute]; instrumented_scopes := [];
  supported_budgets := [NoBudget]; contract_semantics := Object []; reference_cases := [] |}.

Definition sample_policy : ProfilePolicy := {|
  metric := None; direction := None; threshold := None; record_thresholds := [];
  max_observations := 2; max_checkpoint_bytes := 0; max_trace_points := 0;
  max_buffer_bytes := 0; terminal_reserve_bytes := 0; max_active_time := "1 min" |}.
Definition sample_binding : ProfileBinding := FreshProfileBinding {|
  control_schema := schema_at "problem.json";
  fresh_schedule := ExplicitControls
    [Object [("steps", json_u64 1)]; Object [("steps", json_u64 5)]] |}.
Definition sample_profile : ProfileDefinition := {|
  profile_policy := sample_policy; profile_implementations := [("slow", sample_binding)] |}.

Definition sample_manifest (experiments : list ExperimentDefinition) : Manifest := {|
  manifest_version := 1; manifest_name := "bench"; default_experiment := None;
  worker_timeouts := default_timeouts;
  datasets := [("data", sample_dataset)];
  problems := [("fit", sample_problem)];
  implementations := [("slow", sample_implementation (Some (schema_at "implementation.json")))];
  environments := [("local", LocalEnvironment [])];
  experiments := experiments;
  execution_policies := [("@local", Execution.built_in)];
  observation_policies := [
    ("@final", {| observation_version := 1; observation_policy_kind := ObserveOneShot;
                  observation_profile := None |});
    ("sequence", {| observation_version := 1; observation_policy_kind := ObserveProfile;
                    observation_profile := Some sample_profile |})] |}.
