(* ===== verification/JsonEquality.v ===== *)
(** * Values with one canonical form

    [same v w]: the programmatic entry of canonical.rs gives both values the same
    normal form.  This file reads an equality of two rendered documents field by
    field, whatever optional fields they have. *)
From S2P Require Import Prelude Json Canonical Identity Records.
From Stdlib Require Import Floats.SpecFloat.

Definition same (v w : value) : Prop :=
  exists n, normalize_value v = Ok n /\ normalize_value w = Ok n.
Definition same_f64 (f g : spec_float) : Prop := same (json_f64 f) (json_f64 g).
(** Maps with the same keys and related values. *)
Definition same_map {V} (R : V -> V -> Prop) (m n : list (string * V)) : Prop :=
  Forall2 (fun a b => a.1 = b.1 /\ R a.2 b.2) (map_collect m) (map_collect n).

#[export] Instance same_symmetric : Symmetric same.
Proof. intros v w (n & ? & ?). by exists n. Qed.
#[export] Instance same_transitive : Transitive same.
Proof. intros v w x (n & ? & ?) (k & ? & ?). exists n. split; congruence. Qed.

(** ** Leaves *)

Lemma same_Str a b : same (Str a) (Str b) -> a = b.
Proof. intros (n & [= <-] & [= ->]). done. Qed.
Lemma same_Bool a b : same (Bool a) (Bool b) -> a = b.
Proof. intros (n & [= <-] & [= ->]). done. Qed.
Lemma normalize_u64 z v : normalize_value (json_u64 z) = Ok v -> v = json_u64 z.
Proof.
  unfold json_u64. cbn [normalize_value]. unfold normalize_number.
  destruct (as_i64 (PosInt z)); [destruct (negb _)|cbn [as_u64]; destruct (_ <? _)%Z]; by intros [= <-].
Qed.
Lemma same_u64 a b : same (json_u64 a) (json_u64 b) -> a = b.
Proof. intros (n & Ha%normalize_u64 & Hb%normalize_u64). subst n. by injection Hb as ->. Qed.
Lemma same_Array l k : same (Array l) (Array k) -> Forall2 same l k.
Proof.
  intros (n & (l' & Hl & ->)%normalize_array_Ok & (k' & Hk & [= ->])%normalize_array_Ok).
  clear -Hl Hk. revert k Hk. induction Hl as [|x y l n Hx _ IH]; intros k Hk; inversion Hk; subst; constructor.
  - by exists y.
  - by apply IH.
Qed.
Lemma same_Str_u64 a z : ~ same (Str a) (json_u64 z).
Proof. by intros (n & [= <-] & H%normalize_u64). Qed.
Lemma same_Str_Null a : ~ same (Str a) Null.
Proof. by intros (n & [= <-] & [=]). Qed.
Lemma same_u64_Null z : ~ same (json_u64 z) Null.
Proof. by intros (n & H%normalize_u64 & [= <-]). Qed.
Lemma same_Array_Null l : ~ same (Array l) Null.
Proof. by intros (n & (l' & _ & ->)%normalize_array_Ok & [=]). Qed.
Lemma same_Object_Null m : ~ same (Object m) Null.
Proof. by intros (n & (l' & _ & ->)%normalize_object_Ok & [=]). Qed.
Lemma same_Object_Str m s : ~ same (Object m) (Str s).
Proof. by intros (n & (l' & _ & ->)%normalize_object_Ok & [=]). Qed.

Lemma same_optional {A} (f : A -> value) a b :
  (forall x, ~ same (f x) Null) -> same (optional f a) (optional f b) ->
  option_Forall2 (fun x y => same (f x) (f y)) a b.
Proof.
  intros Hf. destruct a as [x|], b as [y|]; cbn; intros H; try by constructor.
  - by apply Hf in H.
  - symmetry in H. by apply Hf in H.
Qed.
Lemma option_Forall2_eq {A} (a b : option A) : option_Forall2 eq a b -> a = b.
Proof. by intros []; subst. Qed.
Lemma Forall2_eq_all {A} (l k : list A) : Forall2 eq l k -> l = k.
Proof. induction 1; by subst. Qed.
Lemma option_Forall2_mono {A B} (P Q : A -> B -> Prop) a b :
  (forall x y, P x y -> Q x y) -> option_Forall2 P a b -> option_Forall2 Q a b.
Proof. intros H []; constructor; auto. Qed.

(** ** Lists *)

Lemma same_map_Array {A} (f : A -> value) (R : A -> A -> Prop) l k :
  (forall x y, same (f x) (f y) -> R x y) -> same (Array (map f l)) (Array (map f k)) -> Forall2 R l k.
Proof.
  intros Hf H%same_Array. apply (Forall2_fmap_1 f f) in H. eapply Forall2_impl; [exact H|]. auto.
Qed.
Lemma same_strings l k : same (strings l) (strings k) -> l = k.
Proof. intros H. by apply Forall2_eq_all, (same_map_Array Str), H; intros x y ->%same_Str. Qed.
Lemma same_optional_u64 a b : same (optional_u64 a) (optional_u64 b) -> a = b.
Proof.
  intros H%same_optional; [|apply same_u64_Null]. apply option_Forall2_eq.
  eapply option_Forall2_mono; [|exact H]. apply same_u64.
Qed.
Lemma same_optional_string a b : same (optional_string a) (optional_string b) -> a = b.
Proof.
  intros H%same_optional; [|apply same_Str_Null]. apply option_Forall2_eq.
  eapply option_Forall2_mono; [|exact H]. apply same_Str.
Qed.

(** ** Objects *)

Lemma normal_keys m m' : Forall2 normal_entry m m' -> m'.*1 = m.*1.
Proof. induction 1 as [|a b m m' [Hk _] _ IH]; [done|]. cbn. by rewrite Hk, IH. Qed.

Lemma same_Object m n : map_wf m -> map_wf n -> same (Object m) (Object n) ->
  Forall2 (fun a b => a.1 = b.1 /\ same a.2 b.2) m n.
Proof.
  intros Hm Hn (v & (m' & Hm' & ->)%normalize_object_Ok & (n' & Hn' & [= Heq])%normalize_object_Ok).
  assert (map_wf m' /\ map_wf n') as [Hwm Hwn].
  { unfold map_wf. by rewrite (normal_keys _ _ Hm'), (normal_keys _ _ Hn'). }
  rewrite !map_collect_id in Heq by done. subst n'. clear Hm Hn Hwm Hwn.
  revert n Hn'. induction Hm' as [|a b m m' [Hk Hv] _ IH]; intros n Hn'; inversion Hn' as [|c ? n2 ? [Hk2 Hv2]]; subst;
    constructor; [|by apply IH].
  split; [congruence|]. by exists b.2.
Qed.

Lemma same_Object_get m n k : map_wf m -> map_wf n -> same (Object m) (Object n) ->
  option_Forall2 same (map_get k m) (map_get k n).
Proof.
  intros Hm Hn H%same_Object; [|done..]. induction H as [|[j v] [i w] m n [Hji Hvw] _ IH]; [constructor|].
  cbn in *. subst i. destruct (String.eqb k j); [by constructor|].
  apply IH; eapply StronglySorted_inv; eassumption.
Qed.

(** The last binding of a key is the one that is collected. *)
Lemma map_get_insert {V} k j (v : V) m :
  map_get k (map_insert j v m) = if String.eqb k j then Some v else map_get k m.
Proof.
  destruct (String.eqb_spec k j) as [->|Hne]; [apply map_get_insert_eq|by apply map_get_insert_ne].
Qed.
Lemma map_get_rev {V} k (l : list (string * V)) : map_get k (map_collect l) = map_get k (rev l).
Proof.
  induction l as [|[j v] l IH] using rev_ind; [done|].
  rewrite map_collect_app, rev_app_distr, map_get_insert. cbn. by rewrite IH.
Qed.
Lemma map_get_app {V} k (l r : list (string * V)) :
  map_get k (l ++ r) = match map_get k l with Some v => Some v | None => map_get k r end.
Proof. induction l as [|[j v] l IH]; [done|]. cbn. by destruct (String.eqb k j). Qed.
Lemma map_get_field_if {A} k j (f : A -> value) o :
  map_get k (rev (field_if j f o)) = if String.eqb k j then f <$> o else None.
Proof. destruct o as [a|]; cbn; by destruct (String.eqb k j). Qed.

Lemma same_fields k l r :
  same (object l) (object r) -> option_Forall2 same (map_get k (rev l)) (map_get k (rev r)).
Proof. intros H. rewrite <-!map_get_rev. apply same_Object_get; auto with json. Qed.
Lemma same_field k l r x y :
  same (object l) (object r) -> map_get k (rev l) = Some x -> map_get k (rev r) = Some y -> same x y.
Proof. intros H%(same_fields k) Hx Hy. rewrite Hx, Hy in H. by inversion H. Qed.
Lemma insert_some_collect {A} k (f : A -> value) o l :
  insert_some k f o (map_collect l) = map_collect (l ++ field_if k f o).
Proof. destruct o; cbn; [by rewrite map_collect_app|by rewrite app_nil_r]. Qed.

Lemma map_insert_fmap {V W} (f : V -> W) k v m :
  map_insert k (f v) ((fun kv => (kv.1, f kv.2)) <$> m) = (fun kv => (kv.1, f kv.2)) <$> map_insert k v m.
Proof.
  induction m as [|[j w] m IH]; [done|]. cbn. destruct (String.compare k j); [done|done|]. cbn. by f_equal.
Qed.
Lemma map_collect_fmap {V W} (f : V -> W) (l : list (string * V)) :
  map_collect ((fun kv => (kv.1, f kv.2)) <$> l) = (fun kv => (kv.1, f kv.2)) <$> map_collect l.
Proof.
  induction l as [|[k v] l IH] using rev_ind; [done|].
  rewrite fmap_app. cbn [fmap list_fmap fst snd]. rewrite !map_collect_app, IH. apply map_insert_fmap.
Qed.

(** Two rendered maps. *)
Lemma same_map_object {V} (f : V -> value) (R : V -> V -> Prop) m n :
  (forall x y, same (f x) (f y) -> R x y) ->
  same (object ((fun kv => (kv.1, f kv.2)) <$> m)) (object ((fun kv => (kv.1, f kv.2)) <$> n)) ->
  same_map R m n.
Proof.
  intros Hf H. unfold object in H. apply same_Object in H; auto with json.
  rewrite !map_collect_fmap in H. apply Forall2_fmap_1 in H.
  eapply Forall2_impl; [exact H|]. cbn. intros [k v] [j w] [Hk Hv]. split; [done|]. by apply Hf.
Qed.

Lemma same_nonempty {A} (R : list A -> list A -> Prop) a b :
  R [] [] -> option_Forall2 R (nonempty a) (nonempty b) -> R a b.
Proof. intros Hn. destruct a as [|x a], b as [|y b]; cbn; intros H; inversion H; by subst. Qed.

Lemma option_eta {A} (o : option A) : match o with Some a => Some a | None => None end = o.
Proof. by destruct o. Qed.

(** Reads the field [k] of an equality between two rendered objects. *)
Ltac read H k F := pose proof (same_field k _ _ _ _ H eq_refl eq_refl) as F.
(** Reads a field that may be absent. *)
Ltac read_optional H k F :=
  pose proof (same_fields k _ _ H) as F;
  rewrite ?rev_app_distr, ?map_get_app, ?map_get_field_if in F;
  cbn [map_get String.eqb Ascii.eqb Bool.eqb rev app] in F;
  rewrite ?option_eta in F.
