(* ===== verification/ManifestHash.v ===== *)
(** * The manifest hash (src/core/manifest_hash.rs)

    The canonical document of a complete manifest and its digest.  The document
    shows every definition, after defaults, so equal bytes mean equal manifests
    up to what the document leaves out on purpose. *)
From S2P Require Import Prelude Json Canonical Identity ThirdPartyModel Profile Records RecordIdentity Manifest Bindings Compatibility Contracts JsonEquality SampleManifest.
From Stdlib Require Import Floats.SpecFloat.

(** ** References *)

Inductive ManifestHashError :=
  | UndefinedReference (owner field target_kind target : string)
  | HashCanonical (e : CanonicalJsonError).

Definition require_name (resolved : bool) (owner field target_kind : string) (target : Name)
  : result ManifestHashError unit :=
  ensure resolved (UndefinedReference owner field target_kind target).

Section References.
Context (manifest : Manifest).

Definition validate_worker_environment (owner : string) (w : Worker.WorkerDefinition)
  : result ManifestHashError unit :=
  let environment := Worker.environment w in
  require_name (contains_key environment (environments manifest)) owner "environment" "environment"
    environment.

Definition validate_parameter_namespace_names (owner : string)
    (datasets_axes implementation_axes : NamedParameterAxes) : result ManifestHashError unit :=
  _ ← for_each (fun dataset => require_name (contains_key dataset (datasets manifest)) owner
        "dataset_parameters" "dataset" dataset) datasets_axes.*1;
  for_each (fun implementation => require_name (contains_key implementation (implementations manifest))
    owner "implementation_parameters" "implementation" implementation) implementation_axes.*1.

Definition validate_dataset (entry : Name * DatasetDefinition) : result ManifestHashError unit :=
  match entry.2 with
  | GeneratedDataset d =>
      validate_worker_environment ("dataset `" +:+ entry.1 +:+ "` materializer") (gd_worker d)
  | FixedDataset _ _ => Ok tt
  end.
Definition validate_problem (entry : Name * ProblemDefinition) : result ManifestHashError unit :=
  _ ← match pdf_preparation entry.2 with
      | Some p => validate_worker_environment ("problem `" +:+ entry.1 +:+ "` preparation") (ppd_worker p)
      | None => Ok tt
      end;
  validate_worker_environment ("problem `" +:+ entry.1 +:+ "` evaluator") (pdf_evaluator entry.2).
Definition validate_implementation (entry : Name * ImplementationDefinition)
  : result ManifestHashError unit :=
  let owner := "implementation `" +:+ entry.1 +:+ "`" in
  _ ← validate_worker_environment owner (id_worker entry.2);
  for_each (fun problem => require_name (contains_key problem (problems manifest)) owner
    "problem_contracts" "problem" problem) (id_problem_contracts entry.2).
Definition validate_experiment (e : ExperimentDefinition) : result ManifestHashError unit :=
  let owner := "experiment `" +:+ experiment_name e +:+ "`" in
  _ ← require_name (contains_key (experiment_problem e) (problems manifest)) owner
        "problem" "problem" (experiment_problem e);
  _ ← for_each (fun dataset => require_name (contains_key dataset (datasets manifest)) owner
        "datasets" "dataset" dataset) (experiment_datasets e);
  _ ← for_each (fun implementation => require_name
        (contains_key implementation (implementations manifest)) owner
        "implementations" "implementation" implementation) (experiment_implementations e);
  _ ← require_name (contains_key (experiment_execution_policy e) (execution_policies manifest)) owner
        "execution_policy" "execution policy" (experiment_execution_policy e);
  _ ← require_name (contains_key (experiment_observation_policy e) (observation_policies manifest)) owner
        "observation_policy" "observation policy" (experiment_observation_policy e);
  _ ← validate_parameter_namespace_names owner (dataset_parameters e) (implementation_parameters e);
  for_each (fun case => validate_parameter_namespace_names
    ("case `" +:+ case_name case +:+ "` in " +:+ owner)
    (case_dataset_parameters case) (case_implementation_parameters case)) (cases e).
Definition validate_references : result ManifestHashError unit :=
  _ ← for_each validate_dataset (datasets manifest);
  _ ← for_each validate_problem (problems manifest);
  _ ← for_each validate_implementation (implementations manifest);
  for_each validate_experiment (experiments manifest).
End References.

(** ** The document *)

Definition named_map {T} (values : BTreeMap T) (convert : T -> value) : value :=
  object ((fun kv => (kv.1, convert kv.2)) <$> values).
Definition optional_canonical (v : option value) : value := optional (fun v => v) v.
Definition parameter_axis (axis : ParameterAxis) : value :=
  match axis with
  | AxisValue v => object [("value", v)]
  | AxisGrid values => object [("grid", Array values)]
  end.
Definition parameter_axes (axes : ParameterAxes) : value := named_map axes parameter_axis.
Definition named_parameter_axes (axes : NamedParameterAxes) : value := named_map axes parameter_axes.
Definition with_parameter_grids (fields : list (string * value)) (grids : ParameterAxes)
  : list (string * value) :=
  insert_some "parameter_grids" parameter_axes (nonempty grids) fields.
Definition optional_protocol_transport (t : option ProtocolTransport) : value :=
  optional (fun t => Str (protocol_transport t)) t.

Definition interpreted_worker (w : Worker.InterpretedWorker) : value := object [
  ("kind", Str "interpreted");
  ("runner", Str (interpreted_runner (Worker.runner w)));
  ("entrypoint", Str (Worker.entrypoint w));
  ("args", strings (Worker.interpreted_args w));
  ("sources", strings (Worker.interpreted_sources w));
  ("environment", Str (Worker.interpreted_environment w));
  ("protocol_transport", optional_protocol_transport (Worker.interpreted_transport w))].
Definition command_worker (w : Worker.CommandWorker) : value := object [
  ("kind", Str "command");
  ("program", Str (Worker.program w));
  ("args", strings (Worker.command_args w));
  ("sources", optional strings (Worker.command_sources w));
  ("environment", Str (Worker.command_environment w));
  ("protocol_transport", optional_protocol_transport (Worker.command_transport w))].
Definition worker_document (w : Worker.WorkerDefinition) : value :=
  match w with
  | Worker.Interpreted w => interpreted_worker w
  | Worker.Command w => command_worker w
  end.
Definition remote_source (s : RemoteSource) : value :=
  object [("url", Str (source_url s)); ("sha256", Str (source_sha256 s))].

Definition environment_document (e : EnvironmentDefinition) : value :=
  match e with
  | LocalEnvironment variables => Object (insert_some "environment_variables"
      (fun variables => named_map variables Str) (nonempty variables) (map_collect [("kind", Str "local")]))
  | UvEnvironment project lockfile groups extras => Object
      (insert_some "extras" strings (nonempty extras) (insert_some "groups" strings (nonempty groups)
        (map_collect [("kind", Str "uv"); ("project", Str project); ("lockfile", Str lockfile)])))
  | RenvEnvironment project lockfile =>
      object [("kind", Str "renv"); ("project", Str project); ("lockfile", Str lockfile)]
  | NixEnvironment flake installable system output_kind output => object [
      ("kind", Str "nix"); ("flake", Str flake); ("installable", Str installable);
      ("system", Str system); ("output_kind", Str (nix_output_kind output_kind)); ("output", Str output)]
  | OciEnvironment image => object [("kind", Str "oci"); ("image", Str image)]
  end.

Definition dataset_document (d : DatasetDefinition) : value :=
  match d with
  | FixedDataset output_schema sources => object [
      ("kind", Str "fixed"); ("output_schema", declaration_value output_schema);
      ("sources", strings sources)]
  | GeneratedDataset d => Object (with_parameter_grids (map_collect [
      ("kind", Str "generated");
      ("parameter_schema", optional declaration_value (gd_parameter_schema d));
      ("parameter_defaults", optional_canonical (gd_parameter_defaults d));
      ("output_schema", declaration_value (gd_output_schema d));
      ("source", optional remote_source (gd_source d));
      ("worker", worker_document (gd_worker d))]) (gd_parameter_grids d))
  end.
Definition inline_contract (p : ProblemDefinition) : option ProblemContract :=
  match pdf_contract p with ContractInline c => Some c | ContractReference _ => None end.
Definition effective_defaults (p : ProblemDefinition) : option value :=
  match inline_contract p with
  | Some contract => resolved_parameter_defaults p contract
  | None => pdf_parameter_defaults p
  end.
Definition preparation_document (p : ProblemPreparationDefinition) : value := object [
  ("worker", worker_document (ppd_worker p)); ("output_schema", declaration_value (ppd_output_schema p))].
Definition problem_document (p : ProblemDefinition) : value :=
  let fields := insert_some "preparation" preparation_document (pdf_preparation p) (map_collect [
    ("contract", contract_value (pdf_contract p));
    ("parameter_defaults", optional_canonical (effective_defaults p));
    ("evaluator", worker_document (pdf_evaluator p))]) in
  Object match inline_contract p with
         | Some contract => with_parameter_grids fields (contract_parameter_grids contract)
         | None => fields
         end.
Definition implementation_document (i : ImplementationDefinition) : value :=
  Object (with_parameter_grids (map_collect [
    ("worker", worker_document (id_worker i));
    ("problem_contracts", strings (id_problem_contracts i));
    ("parameter_schema", optional declaration_value (id_parameter_schema i));
    ("parameter_defaults", optional_canonical (id_parameter_defaults i));
    ("capabilities", strings (map implementation_capability (id_capabilities i)))])
    (id_parameter_grids i)).

Definition experiment_case (c : ExperimentCase) : value := object [
  ("name", Str (case_name c));
  ("dataset_parameters", named_parameter_axes (case_dataset_parameters c));
  ("problem_parameters", parameter_axes (case_problem_parameters c));
  ("implementation_parameters", named_parameter_axes (case_implementation_parameters c))].
Definition experiment_document (e : ExperimentDefinition) : value := object [
  ("name", Str (experiment_name e)); ("problem", Str (experiment_problem e));
  ("datasets", strings (experiment_datasets e));
  ("implementations", strings (experiment_implementations e));
  ("execution_policy", Str (experiment_execution_policy e));
  ("observation_policy", Str (experiment_observation_policy e));
  ("implementation_repetitions", json_u64 (implementation_repetitions e));
  ("measurement_repetitions", json_u64 (measurement_repetitions e));
  ("seed", json_u64 (experiment_seed e));
  ("dataset_parameters", named_parameter_axes (dataset_parameters e));
  ("problem_parameters", parameter_axes (problem_parameters e));
  ("implementation_parameters", named_parameter_axes (implementation_parameters e));
  ("cases", Array (map experiment_case (cases e)))].

Definition execution_policy_document (p : Execution.ExecutionPolicyDefinition) : value := object [
  ("version", json_u64 (Execution.version p)); ("cpus", optional_u64 (Execution.cpus p));
  ("threads", optional_u64 (Execution.threads p)); ("memory", optional_string (Execution.memory p));
  ("network", Bool (Execution.resolved_network p));
  ("worker_reuse", Bool (Execution.resolved_worker_reuse p));
  ("warmup_runs", json_u64 (Execution.resolved_warmup_runs p));
  ("timeout", optional_string (Execution.timeout p));
  ("timing_scope", Str (timing_scope (Execution.resolved_timing_scope p)));
  ("primary_time", Str (primary_time (Execution.resolved_primary_time p)));
  ("run_order", Str (run_order (Execution.resolved_run_order p)));
  ("max_concurrency", json_u64 (Execution.resolved_max_concurrency p));
  ("enforcement", Str (enforcement (Execution.resolved_enforcement p)))].
Definition observation_policy_document (p : ObservationPolicyDefinition) : value :=
  Object (map_insert "kind" (Str (observation_kind (observation_policy_kind p)))
    (map_insert "version" (json_u64 (observation_version p))
      match observation_profile p with
      | Some profile => default [] (as_object (profile_declaration_value profile))
      | None => []
      end)).

(** [Serialize for WorkerTimeouts]. *)
Definition timeouts_value (t : WorkerTimeouts) : value := object [
  ("hello", json_u64 (hello t)); ("materialize", json_u64 (materialize t));
  ("prepare", json_u64 (prepare t)); ("execute", json_u64 (execute t));
  ("reset", json_u64 (reset t)); ("evaluate", json_u64 (evaluate t));
  ("shutdown", json_u64 (shutdown t))].
#[export] Instance worker_timeouts_eq_dec : EqDecision WorkerTimeouts.
Proof. solve_decision. Defined.

Definition manifest_value (m : Manifest) : value :=
  Object (insert_some "worker_timeouts" timeouts_value
    (if decide (worker_timeouts m = default_timeouts) then None else Some (worker_timeouts m))
    (insert_some "default_experiment" Str (default_experiment m) (map_collect [
      ("version", json_u64 (manifest_version m)); ("name", Str (manifest_name m));
      ("datasets", named_map (datasets m) dataset_document);
      ("problems", named_map (problems m) problem_document);
      ("implementations", named_map (implementations m) implementation_document);
      ("environments", named_map (environments m) environment_document);
      ("experiments", Array (map experiment_document (experiments m)));
      ("execution_policies", named_map (execution_policies m) execution_policy_document);
      ("observation_policies", named_map (observation_policies m) observation_policy_document)]))).

Section Hash.
Context `{ThirdParty}.

Definition canonical_manifest_bytes (m : Manifest) : result ManifestHashError bytes :=
  _ ← validate_references m;
  v ← map_err (fun e => HashCanonical (InvalidValue e)) (try_from (manifest_value m));
  map_err HashCanonical (to_canonical_bytes v).
Definition hash_manifest (m : Manifest) : result ManifestHashError bytes :=
  sha256 <$> canonical_manifest_bytes m.
End Hash.

(** ** What the document shows

    Two manifests that differ only in how a default is spelled, in the files an
    inline schema or contract came from, or in the spelling of a number, have one
    document. *)

Definition same_declaration (s t : SchemaDeclaration) : Prop :=
  same (declaration_value s) (declaration_value t).
Definition same_optional_declaration (s t : option SchemaDeclaration) : Prop :=
  same (optional declaration_value s) (optional declaration_value t).
Definition same_defaults (v w : option value) : Prop := same (optional_canonical v) (optional_canonical w).

Inductive same_axis : ParameterAxis -> ParameterAxis -> Prop :=
  | same_axis_value v w : same v w -> same_axis (AxisValue v) (AxisValue w)
  | same_axis_grid l k : Forall2 same l k -> same_axis (AxisGrid l) (AxisGrid k).
Definition same_axes : ParameterAxes -> ParameterAxes -> Prop := same_map same_axis.
Definition same_named_axes : NamedParameterAxes -> NamedParameterAxes -> Prop := same_map same_axes.

Inductive same_environment : EnvironmentDefinition -> EnvironmentDefinition -> Prop :=
  | same_local v w : same_map eq v w -> same_environment (LocalEnvironment v) (LocalEnvironment w)
  | same_other e : same_environment e e.

Record same_generated (d e : GeneratedDatasetDefinition) : Prop := {
  sg_parameter_schema : same_optional_declaration (gd_parameter_schema d) (gd_parameter_schema e);
  sg_parameter_defaults : same_defaults (gd_parameter_defaults d) (gd_parameter_defaults e);
  sg_parameter_grids : same_axes (gd_parameter_grids d) (gd_parameter_grids e);
  sg_output_schema : same_declaration (gd_output_schema d) (gd_output_schema e);
  sg_source : gd_source d = gd_source e;
  sg_worker : gd_worker d = gd_worker e;
}.
Inductive same_dataset : DatasetDefinition -> DatasetDefinition -> Prop :=
  | same_fixed s t l : same_declaration s t -> same_dataset (FixedDataset s l) (FixedDataset t l)
  | same_generated_dataset d e :
      same_generated d e -> same_dataset (GeneratedDataset d) (GeneratedDataset e).

Record same_preparation (p q : ProblemPreparationDefinition) : Prop := {
  spp_worker : ppd_worker p = ppd_worker q;
  spp_output_schema : same_declaration (ppd_output_schema p) (ppd_output_schema q);
}.
Record same_agreement (a b : MetricAgreement) : Prop := {
  sa_atol : same_f64 (atol a) (atol b); sa_rtol : same_f64 (rtol a) (rtol b) }.
Record same_scope (s t : InstrumentedScope) : Prop := {
  ss_clock_origin : clock_origin s = clock_origin t;
  ss_included_work : included_work s = included_work t;
  ss_excluded_preparation : excluded_preparation s = excluded_preparation t;
  ss_metric_agreement : same_map same_agreement (metric_agreement s) (metric_agreement t);
}.
Record same_tolerance (s t : MetricTolerance) : Prop := {
  st_absolute : same_f64 (absolute s) (absolute t); st_relative : same_f64 (relative s) (relative t) }.
Definition same_input (a b : ReferenceInput) : Prop := same (reference_input_value a) (reference_input_value b).
Record same_reference_case (c d : ReferenceCase) : Prop := {
  sr_dataset : same (optional reference_input_value (case_dataset c))
                    (optional reference_input_value (case_dataset d));
  sr_result : same_input (case_result c) (case_result d);
  sr_expected_metrics : same_input (case_expected_metrics c) (case_expected_metrics d);
  sr_metric_tolerance : option_Forall2 same_tolerance (case_metric_tolerance c) (case_metric_tolerance d);
  sr_expected_verdict : case_expected_verdict c = case_expected_verdict d;
}.
(** Defaults and grids of an inline contract belong to its problem. *)
Record same_contract (c d : ProblemContract) : Prop := {
  sc_version : contract_version c = contract_version d;
  sc_name : contract_name c = contract_name d;
  sc_family : contract_family c = contract_family d;
  sc_parameter_schema : same_declaration (contract_parameter_schema c) (contract_parameter_schema d);
  sc_dataset_schemas : Forall2 same_declaration (contract_dataset_schemas c) (contract_dataset_schemas d);
  sc_result_schema : same_declaration (contract_result_schema c) (contract_result_schema d);
  sc_metric_schema : same_declaration (contract_metric_schema c) (contract_metric_schema d);
  sc_semantics_schema :
    same_optional_declaration (contract_semantics_schema c) (contract_semantics_schema d);
  sc_timing_scopes : allowed_timing_scopes c = allowed_timing_scopes d;
  sc_scopes : same_map same_scope (instrumented_scopes c) (instrumented_scopes d);
  sc_budgets : supported_budgets c = supported_budgets d;
  sc_semantics : same (contract_semantics c) (contract_semantics d);
  sc_reference_cases : Forall2 same_reference_case (reference_cases c) (reference_cases d);
}.
Inductive same_contract_declaration : ContractDeclaration -> ContractDeclaration -> Prop :=
  | same_reference path : same_contract_declaration (ContractReference path) (ContractReference path)
  | same_inline c d :
      same_contract c d -> same_axes (contract_parameter_grids c) (contract_parameter_grids d) ->
      same_contract_declaration (ContractInline c) (ContractInline d).
Record same_problem (p q : ProblemDefinition) : Prop := {
  sp_contract : same_contract_declaration (pdf_contract p) (pdf_contract q);
  sp_parameter_defaults : same_defaults (effective_defaults p) (effective_defaults q);
  sp_evaluator : pdf_evaluator p = pdf_evaluator q;
  sp_preparation : option_Forall2 same_preparation (pdf_preparation p) (pdf_preparation q);
}.
Record same_implementation (i j : ImplementationDefinition) : Prop := {
  si_worker : id_worker i = id_worker j;
  si_problem_contracts : id_problem_contracts i = id_problem_contracts j;
  si_parameter_schema : same_optional_declaration (id_parameter_schema i) (id_parameter_schema j);
  si_parameter_defaults : same_defaults (id_parameter_defaults i) (id_parameter_defaults j);
  si_parameter_grids : same_axes (id_parameter_grids i) (id_parameter_grids j);
  si_capabilities : id_capabilities i = id_capabilities j;
}.
Record same_case (c d : ExperimentCase) : Prop := {
  sx_name : case_name c = case_name d;
  sx_dataset_parameters : same_named_axes (case_dataset_parameters c) (case_dataset_parameters d);
  sx_problem_parameters : same_axes (case_problem_parameters c) (case_problem_parameters d);
  sx_implementation_parameters :
    same_named_axes (case_implementation_parameters c) (case_implementation_parameters d);
}.
Record same_experiment (e f : ExperimentDefinition) : Prop := {
  se_name : experiment_name e = experiment_name f;
  se_problem : experiment_problem e = experiment_problem f;
  se_datasets : experiment_datasets e = experiment_datasets f;
  se_implementations : experiment_implementations e = experiment_implementations f;
  se_execution_policy : experiment_execution_policy e = experiment_execution_policy f;
  se_observation_policy : experiment_observation_policy e = experiment_observation_policy f;
  se_implementation_repetitions : implementation_repetitions e = implementation_repetitions f;
  se_measurement_repetitions : measurement_repetitions e = measurement_repetitions f;
  se_seed : experiment_seed e = experiment_seed f;
  se_dataset_parameters : same_named_axes (dataset_parameters e) (dataset_parameters f);
  se_problem_parameters : same_axes (problem_parameters e) (problem_parameters f);
  se_implementation_parameters :
    same_named_axes (implementation_parameters e) (implementation_parameters f);
  se_cases : Forall2 same_case (cases e) (cases f);
}.
(** The settings in force: an omitted one is its default. *)
Record same_execution_policy (p q : Execution.ExecutionPolicyDefinition) : Prop := {
  sx_version : Execution.version p = Execution.version q;
  sx_cpus : Execution.cpus p = Execution.cpus q;
  sx_threads : Execution.threads p = Execution.threads q;
  sx_memory : Execution.memory p = Execution.memory q;
  sx_network : Execution.resolved_network p = Execution.resolved_network q;
  sx_worker_reuse : Execution.resolved_worker_reuse p = Execution.resolved_worker_reuse q;
  sx_warmup_runs : Execution.resolved_warmup_runs p = Execution.resolved_warmup_runs q;
  sx_timeout : Execution.timeout p = Execution.timeout q;
  sx_timing_scope : Execution.resolved_timing_scope p = Execution.resolved_timing_scope q;
  sx_primary_time : Execution.resolved_primary_time p = Execution.resolved_primary_time q;
  sx_run_order : Execution.resolved_run_order p = Execution.resolved_run_order q;
  sx_max_concurrency : Execution.resolved_max_concurrency p = Execution.resolved_max_concurrency q;
  sx_enforcement : Execution.resolved_enforcement p = Execution.resolved_enforcement q;
}.

Record same_policy (p q : ProfilePolicy) : Prop := {
  sq_metric : metric p = metric q;
  sq_direction : direction p = direction q;
  sq_threshold : option_Forall2 same_f64 (threshold p) (threshold q);
  sq_record_thresholds : Forall2 same_f64 (record_thresholds p) (record_thresholds q);
  sq_max_observations : max_observations p = max_observations q;
  sq_max_checkpoint_bytes : max_checkpoint_bytes p = max_checkpoint_bytes q;
  sq_max_trace_points : max_trace_points p = max_trace_points q;
  sq_max_buffer_bytes : max_buffer_bytes p = max_buffer_bytes q;
  sq_terminal_reserve_bytes : terminal_reserve_bytes p = terminal_reserve_bytes q;
  sq_max_active_time : max_active_time p = max_active_time q;
}.
Inductive same_controls : ControlSchedule -> ControlSchedule -> Prop :=
  | same_explicit l k : Forall2 same l k -> same_controls (ExplicitControls l) (ExplicitControls k)
  | same_linear field a b c d n l k :
      same_f64 a b -> same_f64 c d -> Forall2 same l k ->
      same_controls (Linear field a c n l) (Linear field b d n k)
  | same_geometric field a b c d n l k :
      same_f64 a b -> same_f64 c d -> Forall2 same l k ->
      same_controls (Geometric field a c n l) (Geometric field b d n k).
Inductive same_binding : ProfileBinding -> ProfileBinding -> Prop :=
  | same_streaming s : same_binding (StreamingProfileBinding s) (StreamingProfileBinding s)
  | same_buffered b c :
      Manifest.instrumented_scope b = Manifest.instrumented_scope c ->
      same_declaration (instrumentation_schema b) (instrumentation_schema c) ->
      same (instrumentation b) (instrumentation c) -> buffered_schedule b = buffered_schedule c ->
      same_binding (BufferedProfileBinding b) (BufferedProfileBinding c)
  | same_fresh b c :
      same_declaration (control_schema b) (control_schema c) ->
      same_controls (fresh_schedule b) (fresh_schedule c) ->
      same_binding (FreshProfileBinding b) (FreshProfileBinding c).
Record same_profile (p q : ProfileDefinition) : Prop := {
  sf_policy : same_policy (profile_policy p) (profile_policy q);
  sf_implementations : same_map same_binding (profile_implementations p) (profile_implementations q);
}.
Record same_observation_policy (p q : ObservationPolicyDefinition) : Prop := {
  so_version : observation_version p = observation_version q;
  so_kind : observation_policy_kind p = observation_policy_kind q;
  so_profile : option_Forall2 same_profile (observation_profile p) (observation_profile q);
}.

Record same_manifest (m n : Manifest) : Prop := {
  sm_version : manifest_version m = manifest_version n;
  sm_name : manifest_name m = manifest_name n;
  sm_default_experiment : default_experiment m = default_experiment n;
  sm_worker_timeouts : worker_timeouts m = worker_timeouts n;
  sm_datasets : same_map same_dataset (datasets m) (datasets n);
  sm_problems : same_map same_problem (problems m) (problems n);
  sm_implementations : same_map same_implementation (implementations m) (implementations n);
  sm_environments : same_map same_environment (environments m) (environments n);
  sm_experiments : Forall2 same_experiment (experiments m) (experiments n);
  sm_execution_policies : same_map same_execution_policy (execution_policies m) (execution_policies n);
  sm_observation_policies :
    same_map same_observation_policy (observation_policies m) (observation_policies n);
}.

(** ** Reading the document back *)

Ltac leaves :=
  repeat match goal with
  | H : same (Str _) (Str _) |- _ => apply same_Str in H
  | H : same (Bool _) (Bool _) |- _ => apply same_Bool in H
  | H : same (json_u64 _) (json_u64 _) |- _ => apply same_u64 in H
  | H : same (strings _) (strings _) |- _ => apply same_strings in H
  | H : same (optional_u64 _) (optional_u64 _) |- _ => apply same_optional_u64 in H
  | H : same (optional_string _) (optional_string _) |- _ => apply same_optional_string in H
  end.

Lemma same_optional_transport s t :
  same (optional_protocol_transport s) (optional_protocol_transport t) -> s = t.
Proof.
  intros H%same_optional; [|intros x; apply same_Str_Null]. apply option_Forall2_eq.
  eapply option_Forall2_mono; [|exact H]. intros x y Hxy%same_Str. by apply protocol_transport_inj.
Qed.

Lemma worker_document_same v w : same (worker_document v) (worker_document w) -> v = w.
Proof.
  destruct v as [v|v], w as [w|w]; cbn [worker_document]; unfold interpreted_worker, command_worker; intros H;
    read H "kind" F; leaves; try discriminate F; read H "args" Fa; read H "sources" Fs;
    read H "environment" Fe; read H "protocol_transport" Ft; leaves; apply same_optional_transport in Ft.
  - read H "runner" Fr. read H "entrypoint" Fp. leaves. apply interpreted_runner_inj in Fr.
    f_equal. destruct v, w; cbn in *; congruence.
  - read H "program" Fp. leaves. apply same_optional in Fs; [|intros x; apply same_Array_Null].
    assert (Worker.command_sources v = Worker.command_sources w) as Fs'.
    { apply option_Forall2_eq. eapply option_Forall2_mono; [|exact Fs]. intros x y. apply same_strings. }
    f_equal. destruct v, w; cbn in *; congruence.
Qed.

Lemma named_map_same {T} (f : T -> value) (R : T -> T -> Prop) m n :
  (forall x y, same (f x) (f y) -> R x y) -> same (named_map m f) (named_map n f) -> same_map R m n.
Proof. apply same_map_object. Qed.

Lemma parameter_axis_same a b : same (parameter_axis a) (parameter_axis b) -> same_axis a b.
Proof.
  destruct a as [v|l], b as [w|k]; cbn [parameter_axis]; intros H.
  - read H "value" F. by constructor.
  - apply (same_fields "value") in H. cbn in H. inversion H.
  - apply (same_fields "value") in H. cbn in H. inversion H.
  - read H "grid" F. constructor. by apply same_Array.
Qed.
Lemma parameter_axes_same a b : same (parameter_axes a) (parameter_axes b) -> same_axes a b.
Proof. apply named_map_same, parameter_axis_same. Qed.
Lemma named_parameter_axes_same a b :
  same (named_parameter_axes a) (named_parameter_axes b) -> same_named_axes a b.
Proof. apply named_map_same, parameter_axes_same. Qed.
Lemma same_axes_nil : same_axes [] [].
Proof. constructor. Qed.

Lemma with_parameter_grids_collect l grids :
  with_parameter_grids (map_collect l) grids = map_collect (l ++ field_if "parameter_grids" parameter_axes (nonempty grids)).
Proof. apply insert_some_collect. Qed.
(** An optional map is shown when it is not empty. *)
Lemma same_shown {A} (f : list A -> value) (R : list A -> list A -> Prop) a b :
  R [] [] -> (forall x y, same (f x) (f y) -> R x y) ->
  option_Forall2 same (f <$> nonempty a) (f <$> nonempty b) -> R a b.
Proof.
  intros Hn Hf H. apply same_nonempty; [done|].
  destruct (nonempty a), (nonempty b); inversion H; subst; constructor; auto.
Qed.

Lemma environment_document_same a b : same (environment_document a) (environment_document b) -> same_environment a b.
Proof.
  unfold environment_document. intros H.
  destruct a as [v|p l g e|p l|fl i s k o|im], b as [v'|p' l' g' e'|p' l'|fl' i' s' k' o'|im'];
    rewrite ?insert_some_collect in H; fold object in H;
    read_optional H "kind" K; inversion K as [? ? Kd|]; subst; apply same_Str in Kd; try discriminate Kd.
  - constructor. read_optional H "environment_variables" F.
    apply (same_shown (fun v => named_map v Str) (same_map eq)) in F; [done|constructor|].
    intros x y. apply named_map_same. intros ? ?. apply same_Str.
  - read_optional H "project" Fp. read_optional H "lockfile" Fl. read_optional H "groups" Fg.
    read_optional H "extras" Fe. inversion Fp; inversion Fl; leaves; subst.
    apply (same_shown strings eq) in Fg; [|done|apply same_strings].
    apply (same_shown strings eq) in Fe; [|done|apply same_strings]. subst. constructor.
  - read H "project" Fp. read H "lockfile" Fl. leaves. subst. constructor.
  - read H "flake" Fp. read H "installable" Fl. read H "system" Fs. read H "output_kind" Fk. read H "output" Fo.
    leaves. apply nix_output_kind_inj in Fk. subst. constructor.
  - read H "image" Fp. leaves. subst. constructor.
Qed.

Lemma remote_source_same s t : same (optional remote_source s) (optional remote_source t) -> s = t.
Proof.
  intros H%same_optional; [|intros x; apply same_Object_Null]. apply option_Forall2_eq.
  eapply option_Forall2_mono; [|exact H]. intros [u d] [v e] Hx. read Hx "url" Fu. read Hx "sha256" Fd.
  leaves. cbn in *. congruence.
Qed.

Lemma dataset_document_same d e : same (dataset_document d) (dataset_document e) -> same_dataset d e.
Proof.
  destruct d as [s l|d], e as [t k|e]; cbn [dataset_document]; rewrite ?with_parameter_grids_collect; intros H.
  - read H "output_schema" Fs. read H "sources" Fl. leaves. subst. by constructor.
  - read_optional H "kind" K. inversion K; leaves; discriminate.
  - read_optional H "kind" K. inversion K; leaves; discriminate.
  - read_optional H "parameter_schema" Fp. read_optional H "parameter_defaults" Fd. read_optional H "output_schema" Fo.
    read_optional H "source" Fs. read_optional H "worker" Fw. read_optional H "parameter_grids" Fg.
    apply (same_shown parameter_axes same_axes) in Fg; [|apply same_axes_nil|apply parameter_axes_same].
    inversion Fp; inversion Fd; inversion Fo; inversion Fs; inversion Fw; subst. constructor. split; try done.
    + by apply remote_source_same.
    + by apply worker_document_same.
Qed.

Lemma same_declarations l k :
  same (Array (map declaration_value l)) (Array (map declaration_value k)) -> Forall2 same_declaration l k.
Proof. by apply same_map_Array. Qed.
Lemma json_f64_pair key1 key2 a b c d :
  key1 <> key2 ->
  same (object [(key1, json_f64 a); (key2, json_f64 b)]) (object [(key1, json_f64 c); (key2, json_f64 d)]) ->
  same_f64 a c /\ same_f64 b d.
Proof.
  intros Hne H. apply String.eqb_neq in Hne. split.
  - apply (same_field key1 _ _ _ _ H); cbn; by rewrite Hne, String.eqb_refl.
  - apply (same_field key2 _ _ _ _ H); cbn; by rewrite String.eqb_refl.
Qed.

Lemma agreement_same a b : same (agreement_value a) (agreement_value b) -> same_agreement a b.
Proof. intros H. apply json_f64_pair in H as [? ?]; [|done]. by split. Qed.
Lemma tolerance_same a b : same (tolerance_value a) (tolerance_value b) -> same_tolerance a b.
Proof. intros H. apply json_f64_pair in H as [? ?]; [|done]. by split. Qed.
Lemma scope_same a b : same (scope_value a) (scope_value b) -> same_scope a b.
Proof.
  intros H. read H "clock-origin" Fo. read H "included-work" Fi. read H "excluded-preparation" Fe.
  read H "metric-agreement" Fm. leaves. split; try done. by apply (same_map_object _ _ _ _ agreement_same).
Qed.
Lemma verdict_str_inj a b : verdict_str a = verdict_str b -> a = b.
Proof. by destruct a, b. Qed.
Lemma budget_name_inj a b : budget_name a = budget_name b -> a = b.
Proof. by destruct a, b. Qed.

Lemma reference_case_same c d : same (reference_case_value c) (reference_case_value d) -> same_reference_case c d.
Proof.
  unfold reference_case_value. rewrite !insert_some_collect. intros H.
  read_optional H "dataset" Fd. read_optional H "result" Fr. read_optional H "expected_metrics" Fe.
  read_optional H "metric_tolerance" Ft. read_optional H "expected_verdict" Fv.
  inversion Fd; inversion Fr; inversion Fe; subst. split; try done.
  - destruct (case_metric_tolerance c), (case_metric_tolerance d); inversion Ft; subst; constructor.
    by apply tolerance_same.
  - destruct (case_expected_verdict c), (case_expected_verdict d); inversion Fv; subst; [|done].
    leaves. f_equal. by apply verdict_str_inj.
Qed.

Lemma names_inj {A} (f : A -> string) l k :
  (forall x y, f x = f y -> x = y) -> map f l = map f k -> l = k.
Proof.
  intros Hf. revert k. induction l as [|x l IH]; intros [|y k]; try done. intros [= Hx Hl].
  f_equal; auto.
Qed.

Lemma contract_same c d :
  same (contract_declaration_value c) (contract_declaration_value d) -> same_contract c d.
Proof.
  unfold contract_declaration_value. rewrite !insert_some_collect. intros H.
  read_optional H "version" F1. read_optional H "name" F2. read_optional H "family" F3.
  read_optional H "parameter_schema" F4. read_optional H "dataset_schemas" F5. read_optional H "result_schema" F6.
  read_optional H "metric_schema" F7. read_optional H "semantics_schema" F8.
  read_optional H "allowed_timing_scopes" F9. read_optional H "supported_budgets" F10.
  read_optional H "semantics" F11. read_optional H "reference_cases" F12. read_optional H "instrumented_scopes" F13.
  apply (same_shown (fun scopes => object ((fun kv => (kv.1, scope_value kv.2)) <$> scopes))
    (same_map same_scope)) in F13; [|constructor|intros x y; by apply same_map_object, scope_same].
  clear H. repeat match goal with F : option_Forall2 _ (Some _) (Some _) |- _ => inversion F; subst; clear F end.
  leaves. split; try done.
  - by apply same_declarations.
  - by apply (names_inj timing_scope _ _ timing_scope_inj).
  - by apply (names_inj budget_name _ _ budget_name_inj).
  - by apply (same_map_Array reference_case_value same_reference_case _ _ reference_case_same).
Qed.

Lemma contract_declaration_same p q :
  same (contract_value (pdf_contract p)) (contract_value (pdf_contract q)) ->
  (forall c d, inline_contract p = Some c -> inline_contract q = Some d ->
    same_axes (contract_parameter_grids c) (contract_parameter_grids d)) ->
  same_contract_declaration (pdf_contract p) (pdf_contract q).
Proof.
  unfold inline_contract. intros H Hg. destruct (pdf_contract p) as [s|c], (pdf_contract q) as [t|d]; cbn in H.
  - leaves. subst. constructor.
  - symmetry in H. by apply same_Object_Str in H.
  - by apply same_Object_Str in H.
  - constructor; [by apply contract_same|by apply Hg].
Qed.

Lemma preparation_same p q : same (preparation_document p) (preparation_document q) -> same_preparation p q.
Proof. intros H. read H "worker" Fw. read H "output_schema" Fs. split; [by apply worker_document_same|done]. Qed.

Lemma problem_document_collect p : problem_document p = object
  (([("contract", contract_value (pdf_contract p));
    ("parameter_defaults", optional_canonical (effective_defaults p));
    ("evaluator", worker_document (pdf_evaluator p))]
    ++ field_if "preparation" preparation_document (pdf_preparation p))
    ++ field_if "parameter_grids" parameter_axes (inline_contract p ≫= fun c => nonempty (contract_parameter_grids c))).
Proof.
  unfold problem_document. rewrite insert_some_collect. destruct (inline_contract p) as [c|]; cbn [mbind option_bind].
  - by rewrite with_parameter_grids_collect.
  - by rewrite app_nil_r.
Qed.
Lemma problem_document_same p q : same (problem_document p) (problem_document q) -> same_problem p q.
Proof.
  rewrite !problem_document_collect. intros H.
  read_optional H "contract" Fc. read_optional H "parameter_defaults" Fd. read_optional H "evaluator" Fe.
  read_optional H "preparation" Fp. read_optional H "parameter_grids" Fg.
  inversion Fc; inversion Fd; inversion Fe; subst. split; [|done|by apply worker_document_same|].
  - apply contract_declaration_same; [done|]. intros c d Hc Hd. rewrite Hc, Hd in Fg. cbn in Fg.
    by apply (same_shown parameter_axes same_axes) in Fg; [|apply same_axes_nil|apply parameter_axes_same].
  - destruct (pdf_preparation p), (pdf_preparation q); inversion Fp; subst; constructor. by apply preparation_same.
Qed.

Lemma implementation_document_same i j :
  same (implementation_document i) (implementation_document j) -> same_implementation i j.
Proof.
  unfold implementation_document. rewrite !with_parameter_grids_collect. intros H.
  read_optional H "worker" Fw. read_optional H "problem_contracts" Fp. read_optional H "parameter_schema" Fs.
  read_optional H "parameter_defaults" Fd. read_optional H "capabilities" Fc. read_optional H "parameter_grids" Fg.
  apply (same_shown parameter_axes same_axes) in Fg; [|apply same_axes_nil|apply parameter_axes_same].
  inversion Fw; inversion Fp; inversion Fs; inversion Fd; inversion Fc; subst. leaves. split; try done.
  - by apply worker_document_same.
  - by apply (names_inj implementation_capability _ _ implementation_capability_inj).
Qed.

Lemma experiment_case_same c d : same (experiment_case c) (experiment_case d) -> same_case c d.
Proof.
  intros H. read H "name" Fn. read H "dataset_parameters" Fd. read H "problem_parameters" Fp.
  read H "implementation_parameters" Fi. leaves.
  split; eauto using named_parameter_axes_same, parameter_axes_same.
Qed.
Lemma experiment_same e f : same (experiment_document e) (experiment_document f) -> same_experiment e f.
Proof.
  intros H. read H "name" F1. read H "problem" F2. read H "datasets" F3. read H "implementations" F4.
  read H "execution_policy" F5. read H "observation_policy" F6. read H "implementation_repetitions" F7.
  read H "measurement_repetitions" F8. read H "seed" F9. read H "dataset_parameters" F10.
  read H "problem_parameters" F11. read H "implementation_parameters" F12. read H "cases" F13. leaves.
  split; eauto using named_parameter_axes_same, parameter_axes_same.
  by apply (same_map_Array experiment_case same_case _ _ experiment_case_same).
Qed.
Lemma execution_policy_same p q :
  same (execution_policy_document p) (execution_policy_document q) -> same_execution_policy p q.
Proof.
  intros H. read H "version" F1. read H "cpus" F2. read H "threads" F3. read H "memory" F4. read H "network" F5.
  read H "worker_reuse" F6. read H "warmup_runs" F7. read H "timeout" F8. read H "timing_scope" F9.
  read H "primary_time" F10. read H "run_order" F11. read H "max_concurrency" F12. read H "enforcement" F13.
  clear H. leaves. split; auto using timing_scope_inj, primary_time_inj, run_order_inj, enforcement_inj.
Qed.

(** ** Profiles *)

Lemma same_shown_leaf {A} (f : A -> value) (R : A -> A -> Prop) a b :
  (forall x y, same (f x) (f y) -> R x y) -> option_Forall2 same (f <$> a) (f <$> b) -> option_Forall2 R a b.
Proof. intros Hf H. destruct a, b; inversion H; subst; constructor; auto. Qed.
Lemma same_nonzero a b : option_Forall2 same (json_u64 <$> nonzero a) (json_u64 <$> nonzero b) -> a = b.
Proof.
  intros H%(same_shown_leaf json_u64 eq _ _ same_u64)%option_Forall2_eq. unfold nonzero in H.
  destruct (a =? 0)%Z eqn:Ha, (b =? 0)%Z eqn:Hb; simplify_eq; [|done]. apply Z.eqb_eq in Ha, Hb. congruence.
Qed.
Lemma direction_name_inj a b : direction_name a = direction_name b -> a = b.
Proof. by destruct a, b. Qed.
Lemma same_f64_list l k : same (Array (map json_f64 l)) (Array (map json_f64 k)) -> Forall2 same_f64 l k.
Proof. by apply same_map_Array. Qed.

Ltac policy_field Hk k F :=
  assert (F := Hk k ltac:(set_solver)); unfold policy_fields in F;
  rewrite ?rev_app_distr, ?map_get_app, ?map_get_field_if in F;
  cbn [map_get String.eqb Ascii.eqb Bool.eqb rev app] in F; rewrite ?option_eta in F.

(** Other fields of the document do not hide those of the policy. *)
Lemma policy_same p q l r :
  same (object (policy_fields p ++ l)) (object (policy_fields q ++ r)) ->
  (forall k, k ∉ ["implementations"; "version"; "kind"] -> map_get k (rev l) = None /\ map_get k (rev r) = None) ->
  same_policy p q.
Proof.
  intros H Hl.
  assert (forall k, k ∉ ["implementations"; "version"; "kind"] ->
    option_Forall2 same (map_get k (rev (policy_fields p))) (map_get k (rev (policy_fields q)))) as Hk.
  { intros k Hk. destruct (Hl k Hk) as [H1 H2]. apply (same_fields k) in H.
    rewrite !rev_app_distr, !map_get_app, H1, H2 in H. done. }
  policy_field Hk "metric" F1. policy_field Hk "direction" F2. policy_field Hk "threshold" F3.
  policy_field Hk "record-thresholds" F4. policy_field Hk "max-observations" F5.
  policy_field Hk "max-checkpoint-bytes" F6. policy_field Hk "max-trace-points" F7.
  policy_field Hk "max-buffer-bytes" F8. policy_field Hk "terminal-reserve-bytes" F9.
  policy_field Hk "max-active-time" F10. clear Hk H Hl.
  inversion F5 as [? ? F5'|]; inversion F10 as [? ? F10'|]; subst. leaves.
  split; auto using same_nonzero.
  - by apply option_Forall2_eq, (same_shown_leaf Str eq _ _ same_Str).
  - apply option_Forall2_eq. eapply same_shown_leaf; [|exact F2]. intros x y Hxy%same_Str. by apply direction_name_inj.
  - by apply (same_shown_leaf json_f64).
  - by apply (same_shown (fun l => Array (map json_f64 l)) (Forall2 same_f64)) in F4; [| |apply same_f64_list].
Qed.

Lemma check_schedule_same a b : same (check_schedule_value a) (check_schedule_value b) -> a = b.
Proof.
  destruct a as [e s|l], b as [e' s'|k]; cbn [check_schedule_value]; intros H.
  - read H "every" Fe. read H "start" Fs. leaves. by subst.
  - apply (same_fields "every") in H. cbn in H. inversion H.
  - apply (same_fields "every") in H. cbn in H. inversion H.
  - read H "indices" F. f_equal. by apply Forall2_eq_all, (same_map_Array json_u64 eq _ _ same_u64).
Qed.
Lemma control_schedule_same a b : same (control_schedule_value a) (control_schedule_value b) -> same_controls a b.
Proof.
  destruct a as [l|f x y n l|f x y n l], b as [k|f' x' y' n' k|f' x' y' n' k]; cbn [control_schedule_value];
    intros H; read_optional H "kind" K; inversion K as [? ? Kd|]; subst; apply same_Str in Kd; try discriminate Kd.
  - read H "controls" F. constructor. by apply same_Array.
  - read_optional H "field" F1. read_optional H "start" F2. read_optional H "step" F3. read_optional H "count" F4.
    read_optional H "prefix" F5. inversion F1; inversion F2; inversion F3; inversion F4; leaves; subst.
    constructor; try done. by apply (same_shown Array (Forall2 same)) in F5; [|constructor|apply same_Array].
  - read_optional H "field" F1. read_optional H "start" F2. read_optional H "ratio" F3. read_optional H "count" F4.
    read_optional H "prefix" F5. inversion F1; inversion F2; inversion F3; inversion F4; leaves; subst.
    constructor; try done. by apply (same_shown Array (Forall2 same)) in F5; [|constructor|apply same_Array].
Qed.
Lemma binding_same a b :
  same (binding_declaration_value a) (binding_declaration_value b) -> same_binding a b.
Proof.
  destruct a as [a|a|s], b as [b|b|t]; cbn [binding_declaration_value]; intros H;
    read H "delivery" K; leaves; try discriminate K.
  - read H "instrumented-scope" F1. read H "instrumentation-schema" F2. read H "instrumentation" F3.
    read H "check-schedule" F4. leaves. constructor; try done. by apply check_schedule_same.
  - read H "control-schema" F1. read H "schedule" F2. constructor; [done|]. by apply control_schedule_same.
  - read H "check-schedule" F1. apply check_schedule_same in F1. subst. constructor.
Qed.

Definition profile_fields (p : ProfileDefinition) : list (string * value) :=
  policy_fields (profile_policy p) ++
  [("implementations", object ((fun kv => (kv.1, binding_declaration_value kv.2)) <$> profile_implementations p))].
Lemma observation_policy_collect p : observation_policy_document p = object
  (match observation_profile p with Some q => profile_fields q | None => [] end
   ++ [("version", json_u64 (observation_version p)); ("kind", Str (observation_kind (observation_policy_kind p)))]).
Proof.
  unfold observation_policy_document, object. f_equal.
  change ([("version", json_u64 (observation_version p)); ("kind", Str (observation_kind (observation_policy_kind p)))])
    with ([("version", json_u64 (observation_version p))]
          ++ [("kind", Str (observation_kind (observation_policy_kind p)))]).
  rewrite app_assoc, !map_collect_app. do 2 f_equal. destruct (observation_profile p) as [q|]; [|done].
  unfold profile_fields. by rewrite map_collect_app.
Qed.

Lemma observation_policy_same p q :
  same (observation_policy_document p) (observation_policy_document q) -> same_observation_policy p q.
Proof.
  rewrite !observation_policy_collect. intros H. read_optional H "version" Fv. read_optional H "kind" Fk.
  inversion Fv as [? ? Fv'|]; inversion Fk as [? ? Fk'|]; subst. leaves. clear Fv Fk.
  split; [done|by apply observation_kind_inj|].
  assert (forall a, is_Some (map_get "max-observations" (rev (profile_fields a)))) as Hsome.
  { intros a. unfold profile_fields, policy_fields.
    rewrite ?rev_app_distr, ?map_get_app, ?map_get_field_if. cbn. by eexists. }
  destruct (observation_profile p) as [a|], (observation_profile q) as [b|]; [| | |constructor].
  - constructor. unfold profile_fields in H. rewrite <-!app_assoc in H. split.
    + eapply policy_same; [exact H|]. intros k Hk. cbn.
      destruct (String.eqb_spec k "kind"); [set_solver|]. destruct (String.eqb_spec k "version"); [set_solver|].
      destruct (String.eqb_spec k "implementations"); [set_solver|]. done.
    + read_optional H "implementations" F. inversion F; subst.
      by apply (same_map_object _ _ _ _ binding_same).
  - apply (same_fields "max-observations") in H. rewrite !rev_app_distr, !map_get_app in H. cbn in H.
    destruct (Hsome a) as [x Hx]. rewrite Hx in H. inversion H.
  - apply (same_fields "max-observations") in H. rewrite !rev_app_distr, !map_get_app in H. cbn in H.
    destruct (Hsome b) as [x Hx]. rewrite Hx in H. inversion H.
Qed.

(** ** The manifest *)

Lemma manifest_value_collect m : manifest_value m = object
  (([("version", json_u64 (manifest_version m)); ("name", Str (manifest_name m));
     ("datasets", named_map (datasets m) dataset_document);
     ("problems", named_map (problems m) problem_document);
     ("implementations", named_map (implementations m) implementation_document);
     ("environments", named_map (environments m) environment_document);
     ("experiments", Array (map experiment_document (experiments m)));
     ("execution_policies", named_map (execution_policies m) execution_policy_document);
     ("observation_policies", named_map (observation_policies m) observation_policy_document)]
    ++ field_if "default_experiment" Str (default_experiment m))
   ++ field_if "worker_timeouts" timeouts_value
        (if decide (worker_timeouts m = default_timeouts) then None else Some (worker_timeouts m))).
Proof. unfold manifest_value. by rewrite !insert_some_collect. Qed.

Lemma timeouts_same s t : same (timeouts_value s) (timeouts_value t) -> s = t.
Proof.
  intros H. read H "hello" F1. read H "materialize" F2. read H "prepare" F3. read H "execute" F4.
  read H "reset" F5. read H "evaluate" F6. read H "shutdown" F7. leaves. destruct s, t; cbn in *; congruence.
Qed.

Lemma manifest_same m n : same (manifest_value m) (manifest_value n) -> same_manifest m n.
Proof.
  rewrite !manifest_value_collect. intros H.
  read_optional H "version" F1. read_optional H "name" F2. read_optional H "datasets" F3.
  read_optional H "problems" F4. read_optional H "implementations" F5. read_optional H "environments" F6.
  read_optional H "experiments" F7. read_optional H "execution_policies" F8.
  read_optional H "observation_policies" F9. read_optional H "default_experiment" F10.
  read_optional H "worker_timeouts" F11. clear H.
  repeat match goal with F : option_Forall2 _ (Some _) (Some _) |- _ => inversion F; subst; clear F end. leaves.
  split; try done.
  - by apply option_Forall2_eq, (same_shown_leaf Str eq _ _ same_Str).
  - apply (same_shown_leaf timeouts_value eq _ _ timeouts_same), option_Forall2_eq in F11.
    do 2 destruct (decide _) in F11; congruence.
  - by apply (named_map_same _ _ _ _ dataset_document_same).
  - by apply (named_map_same _ _ _ _ problem_document_same).
  - by apply (named_map_same _ _ _ _ implementation_document_same).
  - by apply (named_map_same _ _ _ _ environment_document_same).
  - by apply (same_map_Array _ _ _ _ experiment_same).
  - by apply (named_map_same _ _ _ _ execution_policy_same).
  - by apply (named_map_same _ _ _ _ observation_policy_same).
Qed.

(** ** Names *)

Definition defines {V} (m : BTreeMap V) (name : Name) : Prop := contains_key name m = true.
Record axes_resolved (m : Manifest) (ds imps : NamedParameterAxes) : Prop := {
  ar_datasets : Forall (defines (datasets m)) ds.*1;
  ar_implementations : Forall (defines (implementations m)) imps.*1;
}.
Record experiment_resolved (m : Manifest) (e : ExperimentDefinition) : Prop := {
  er_problem : defines (problems m) (experiment_problem e);
  er_datasets : Forall (defines (datasets m)) (experiment_datasets e);
  er_implementations : Forall (defines (implementations m)) (experiment_implementations e);
  er_execution_policy : defines (execution_policies m) (experiment_execution_policy e);
  er_observation_policy : defines (observation_policies m) (experiment_observation_policy e);
  er_axes : axes_resolved m (dataset_parameters e) (implementation_parameters e);
  er_cases : Forall (fun c => axes_resolved m (case_dataset_parameters c) (case_implementation_parameters c)) (cases e);
}.
Definition worker_resolved (m : Manifest) (w : Worker.WorkerDefinition) : Prop :=
  defines (environments m) (Worker.environment w).
Definition manifest_workers (m : Manifest) : list Worker.WorkerDefinition :=
  flat_map (fun kv => match kv.2 with GeneratedDataset d => [gd_worker d] | FixedDataset _ _ => [] end) (datasets m)
  ++ flat_map (fun kv => match pdf_preparation kv.2 with Some p => [ppd_worker p] | None => [] end
       ++ [pdf_evaluator kv.2]) (problems m)
  ++ map (fun kv => id_worker kv.2) (implementations m).
(** Every name the manifest mentions is defined. *)
Record names_resolved (m : Manifest) : Prop := {
  nr_workers : Forall (worker_resolved m) (manifest_workers m);
  nr_contracts : Forall (fun kv => Forall (defines (problems m)) (id_problem_contracts kv.2)) (implementations m);
  nr_experiments : Forall (experiment_resolved m) (experiments m);
}.

Lemma require_name_Ok b owner field kind target : require_name b owner field kind target = Ok tt <-> b = true.
Proof. unfold require_name, ensure. by destruct b. Qed.
Lemma worker_environment_Ok m owner w : validate_worker_environment m owner w = Ok tt <-> worker_resolved m w.
Proof. apply require_name_Ok. Qed.
Lemma namespace_names_Ok m owner ds imps :
  validate_parameter_namespace_names m owner ds imps = Ok tt <-> axes_resolved m ds imps.
Proof.
  unfold validate_parameter_namespace_names. rewrite seq_Ok.
  rewrite (for_each_iff _ (defines (datasets m))) by (intros x; apply require_name_Ok).
  rewrite (for_each_iff _ (defines (implementations m))) by (intros x; apply require_name_Ok).
  split; [by intros [? ?]; split|by intros []].
Qed.
Lemma experiment_Ok m e : validate_experiment m e = Ok tt <-> experiment_resolved m e.
Proof.
  unfold validate_experiment. rewrite !seq_Ok, !require_name_Ok, namespace_names_Ok.
  rewrite (for_each_iff _ (defines (datasets m))) by (intros x; apply require_name_Ok).
  rewrite (for_each_iff _ (defines (implementations m))) by (intros x; apply require_name_Ok).
  rewrite (for_each_iff _ (fun c => axes_resolved m (case_dataset_parameters c) (case_implementation_parameters c)))
    by (intros x; apply namespace_names_Ok).
  split; [intros (? & ? & ? & ? & ? & ? & ?); by split|intros []; by do 6 (split; [done|])].
Qed.
Lemma Forall_flat_map {A B} (P : B -> Prop) (f : A -> list B) l :
  Forall P (flat_map f l) <-> Forall (fun x => Forall P (f x)) l.
Proof.
  induction l as [|x l IH]; cbn; [by rewrite !Forall_nil|]. by rewrite Forall_app, Forall_cons, IH.
Qed.

Lemma validate_references_spec m : validate_references m = Ok tt <-> names_resolved m.
Proof.
  unfold validate_references. rewrite !seq_Ok.
  rewrite (for_each_iff _ (fun kv => Forall (worker_resolved m)
    match kv.2 with GeneratedDataset d => [gd_worker d] | FixedDataset _ _ => [] end)).
  2: { intros [k d]. unfold validate_dataset. cbn. destruct d; [by rewrite Forall_nil|].
       by rewrite Forall_singleton, worker_environment_Ok. }
  rewrite (for_each_iff _ (fun kv => Forall (worker_resolved m)
    (match pdf_preparation kv.2 with Some p => [ppd_worker p] | None => [] end ++ [pdf_evaluator kv.2]))).
  2: { intros [k p]. unfold validate_problem. cbn. rewrite seq_Ok, worker_environment_Ok, Forall_app, Forall_singleton.
       destruct (pdf_preparation p); [by rewrite worker_environment_Ok, Forall_singleton|rewrite Forall_nil; naive_solver]. }
  rewrite (for_each_iff _ (fun kv => worker_resolved m (id_worker kv.2) /\
    Forall (defines (problems m)) (id_problem_contracts kv.2))).
  2: { intros [k i]. unfold validate_implementation. rewrite seq_Ok, worker_environment_Ok.
       by rewrite (for_each_iff _ (defines (problems m))) by (intros x; apply require_name_Ok). }
  rewrite (for_each_iff _ (experiment_resolved m)) by (intros e; apply experiment_Ok).
  rewrite Forall_and. assert (forall l, Forall (fun kv => worker_resolved m (id_worker kv.2)) l <->
    Forall (worker_resolved m) (map (fun kv : Name * ImplementationDefinition => id_worker kv.2) l)) as ->
    by (intros l; by rewrite List.Forall_map).
  split.
  - intros (? & ? & (? & ?) & ?). split; [|done..]. unfold manifest_workers. by rewrite !Forall_app, !Forall_flat_map.
  - intros [Hw ? ?]. unfold manifest_workers in Hw. rewrite !Forall_app, !Forall_flat_map in Hw. tauto.
Qed.

(** C33: the manifest hash commits to the whole manifest.  When the canonical
    bytes of two manifests agree, every name either mentions is defined in it, and
    they agree in everything that can influence a run: every field of every
    dataset, problem, implementation, environment, experiment, case, execution and
    observation policy, with defaults filled in, the same entries under the same
    names in the same order where order matters.  Only the spelling of a number,
    an inline schema's file and the spelling of a default can differ. *)
Theorem manifest_hash_commits `{ThirdPartyLaws} m n b :
  value_numbers_wf (manifest_value m) = true -> value_numbers_wf (manifest_value n) = true ->
  canonical_manifest_bytes m = Ok b -> canonical_manifest_bytes n = Ok b ->
  names_resolved m /\ names_resolved n /\ same_manifest m n.
Proof.
  intros Hm Hn Hb Hc. unfold canonical_manifest_bytes, to_canonical_bytes in Hb, Hc. ok_inv.
  repeat match goal with u : unit |- _ => destruct u end.
  do 2 (split; [by apply validate_references_spec|]).
  apply manifest_same. unfold try_from in *.
  match goal with Hv : normalize_value (manifest_value m) = Ok ?v, Hw : normalize_value (manifest_value n) = Ok ?w |- _ =>
    assert (v = w) as -> by (destruct (normalize_value_domain _ _ Hm Hv), (normalize_value_domain _ _ Hn Hw);
      eapply to_vec_inj; eauto); by exists w end.
Qed.

(** The sample manifest against itself with the default reuse spelled out. *)
Definition spelled_out : Manifest := {|
  manifest_version := 1; manifest_name := "bench"; default_experiment := None;
  worker_timeouts := default_timeouts; datasets := [("data", sample_dataset)];
  problems := [("fit", sample_problem)];
  implementations := [("slow", sample_implementation (Some (schema_at "implementation.json")))];
  environments := [("local", LocalEnvironment [])];
  experiments := [sample_experiment "@final" [sample_case "tight" 1]];
  execution_policies := [("@local", {|
    Execution.version := 1; Execution.cpus := None; Execution.threads := None; Execution.memory := None;
    Execution.network := None; Execution.worker_reuse := Some false; Execution.warmup_runs := None;
    Execution.timeout := None; Execution.timing_scope := None; Execution.primary_time := None;
    Execution.run_order := None; Execution.max_concurrency := Some 1%Z; Execution.enforcement := None |})];
  observation_policies := observation_policies (sample_manifest []) |}.
Definition sample_bytes : bytes :=
  match canonical_manifest_bytes (H := model) spelled_out with Ok b => b | Err _ => [] end.

Lemma spelled_out_bytes : canonical_manifest_bytes (H := model) spelled_out = Ok sample_bytes.
Proof. vm_compute. reflexivity. Qed.
Lemma sample_manifest_bytes :
  canonical_manifest_bytes (H := model) (sample_manifest [sample_experiment "@final" [sample_case "tight" 1]])
  = Ok sample_bytes.
Proof. vm_compute. reflexivity. Qed.
Lemma sample_numbers :
  value_numbers_wf (manifest_value (sample_manifest [sample_experiment "@final" [sample_case "tight" 1]])) = true /\
  value_numbers_wf (manifest_value spelled_out) = true.
Proof. vm_compute. done. Qed.

Lemma manifest_hash_commits_witness :
  names_resolved spelled_out /\
  same_manifest (sample_manifest [sample_experiment "@final" [sample_case "tight" 1]]) spelled_out.
Proof.
  destruct sample_numbers as [Hm Hn].
  destruct (@manifest_hash_commits model model_laws _ _ sample_bytes Hm Hn sample_manifest_bytes spelled_out_bytes)
    as (_ & Hr & Hs).
  split; [exact Hr|exact Hs].
Defined.
