(* ===== verification/Expansion.v ===== *)
(** * Expansion of parameter matrices (src/core/planning.rs)

    [expand_manifest_configurations] and what it calls: the axes of each
    namespace form a Cartesian product, every combination is resolved against
    its schema, and the candidates of one experiment are pairwise distinct.
    The source span of a failed resolution is not modelled. *)
From S2P Require Import Prelude Json Canonical Identity Profile Records.
From S2P Require Import Manifest Parameters Compatibility ThirdPartyModel SampleManifest.
From Stdlib Require Import Ascii.

Inductive ConfigurationSource :=
  | SourceExperiment
  | SourceCase (name : Name).
Inductive DatasetConfigurationDefinition :=
  | UnitDataset
  | NamedDataset (name : Name).
#[export] Instance dataset_configuration_definition_eq_dec :
  EqDecision DatasetConfigurationDefinition.
Proof. solve_decision. Defined.

Record ExpandedDatasetConfiguration := {
  xd_definition : DatasetConfigurationDefinition;
  xd_parameters : value;
}.
Record ExpandedProblemConfiguration := {
  xp_definition : Name;
  xp_parameters : value;
}.
Record ExpandedImplementationConfiguration := {
  xi_definition : Name;
  xi_environment : Name;
  xi_parameters : value;
}.
Record ExpandedCandidate := {
  x_source : ConfigurationSource;
  x_dataset : ExpandedDatasetConfiguration;
  x_problem : ExpandedProblemConfiguration;
  x_implementation : ExpandedImplementationConfiguration;
}.
Record ExpandedExperiment := {
  expanded_name : Name;
  expanded_candidates : list ExpandedCandidate;
}.

Inductive ConfigurationNamespace := DatasetParameters | ProblemParameters | ImplementationParameters.

Record DuplicateLogicalCandidateError := {
  dup_experiment : Name;
  first_source : ConfigurationSource;
  duplicate_source : ConfigurationSource;
  dup_dataset : DatasetConfigurationDefinition;
  dup_problem : Name;
  dup_implementation : Name;
}.
Inductive ConfigurationExpansionError :=
  | ParameterNamespaceFailure (e : ParameterNamespaceError)
  | ManifestCompatibility (e : ManifestCompatibilityError)
  | ParameterResolution (experiment : Name) (source_location : ConfigurationSource)
      (namespace : ConfigurationNamespace) (definition : Name) (error : ParameterResolutionError)
  | DuplicateLogicalCandidate (e : DuplicateLogicalCandidateError)
  | CanonicalizationFailure (e : CanonicalJsonError).

Record CandidateKey := {
  key_dataset : DatasetConfigurationDefinition;
  key_dataset_parameters : bytes;
  key_problem : Name;
  key_problem_parameters : bytes;
  key_implementation : Name;
  key_implementation_parameters : bytes;
}.
#[export] Instance candidate_key_eq_dec : EqDecision CandidateKey.
Proof. solve_decision. Defined.

(** ** Axes *)

Definition axis_values (axis : ParameterAxis) : list value :=
  match axis with AxisValue v => [v] | AxisGrid values => values end.

(** One round of the loop over the axes. *)
Definition axis_step (combinations : list (list (string * value)))
    (entry : string * ParameterAxis) : list (list (string * value)) :=
  flat_map (fun combination =>
    map (fun v => map_insert entry.1 v combination) (axis_values entry.2)) combinations.

Definition expand_axes (axes : ParameterAxes) : result CanonicalJsonError (list value) :=
  let combinations := fold_left axis_step axes [[]] in
  mapM (fun parameters => map_err InvalidValue (try_from (Object parameters))) combinations.

(** [BTreeMap::extend]. *)
Definition extend {V} (m : BTreeMap V) (entries : option (BTreeMap V)) : BTreeMap V :=
  fold_left (fun m kv => map_insert kv.1 kv.2 m) (default [] entries) m.

Definition expand_resolved_parameters (schemas : SchemaCatalog) (schema_path : string)
    (defaults : option value) (grids : ParameterAxes) (base overlay : option ParameterAxes)
  : result ParameterResolutionError (list value) :=
  let axes := extend (extend (map_collect grids) base) overlay in
  supplied ← map_err ResolutionCanonicalJson (expand_axes axes);
  mapM (resolve_parameters schemas schema_path defaults) supplied.

(** [CanonicalValue::try_from(Value::Object(Map::new()))]. *)
Definition empty_parameters : value := Object [].

Definition worker_environment : Worker.WorkerDefinition -> Name := Worker.environment.

(** ** One experiment *)
Section Expansion.
Context `{ThirdParty}.

(** [Vec<ExpandedCandidate>] and the [BTreeMap] of the keys seen so far, which
    is only looked up and inserted into, as its entries in insertion order. *)
Record ExpansionState := {
  st_candidates : list ExpandedCandidate;
  st_seen : list (CandidateKey * ConfigurationSource);
}.

Definition candidate_key (candidate : ExpandedCandidate) : result CanonicalJsonError CandidateKey :=
  dataset ← to_canonical_bytes (xd_parameters (x_dataset candidate));
  problem ← to_canonical_bytes (xp_parameters (x_problem candidate));
  implementation ← to_canonical_bytes (xi_parameters (x_implementation candidate));
  Ok {| key_dataset := xd_definition (x_dataset candidate);
        key_dataset_parameters := dataset;
        key_problem := xp_definition (x_problem candidate);
        key_problem_parameters := problem;
        key_implementation := xi_definition (x_implementation candidate);
        key_implementation_parameters := implementation |}.

Definition seen_get (key : CandidateKey) (seen : list (CandidateKey * ConfigurationSource))
  : option ConfigurationSource :=
  snd <$> List.find (fun entry => bool_decide (entry.1 = key)) seen.

Definition insert_candidate (experiment : ExperimentDefinition) (state : ExpansionState)
    (candidate : ExpandedCandidate) : result ConfigurationExpansionError ExpansionState :=
  key ← map_err CanonicalizationFailure (candidate_key candidate);
  match seen_get key (st_seen state) with
  | Some first => Err (DuplicateLogicalCandidate {|
      dup_experiment := experiment_name experiment;
      first_source := first;
      duplicate_source := x_source candidate;
      dup_dataset := key_dataset key;
      dup_problem := key_problem key;
      dup_implementation := key_implementation key |})
  | None => Ok {|
      st_candidates := st_candidates state ++ [candidate];
      st_seen := st_seen state ++ [(key, x_source candidate)] |}
  end.

Definition resolution_error (experiment : ExperimentDefinition) (source : ConfigurationSource)
    (namespace : ConfigurationNamespace) (definition : Name)
    (e : ParameterResolutionError) : ConfigurationExpansionError :=
  ParameterResolution (experiment_name experiment) source namespace definition e.

(** The three lists of resolved parameters [expand_source] computes before its
    loops. *)
Definition source_problem_parameters (manifest : Manifest) (contract : ProblemContract)
    (schemas : SchemaCatalog) (experiment : ExperimentDefinition) (case : option ExperimentCase)
    (source : ConfigurationSource)
  : result (failure ConfigurationExpansionError) (list value) :=
  problem ← expect (map_get (experiment_problem experiment) (problems manifest));
  lift (map_err (resolution_error experiment source ProblemParameters (experiment_problem experiment))
    (expand_resolved_parameters schemas (sd_path (contract_parameter_schema contract))
      (resolved_parameter_defaults problem contract) (contract_parameter_grids contract)
      (Some (problem_parameters experiment)) (case_problem_parameters <$> case))).

Definition source_dataset_parameters (manifest : Manifest) (schemas : SchemaCatalog)
    (experiment : ExperimentDefinition) (case : option ExperimentCase)
    (source : ConfigurationSource)
  : result (failure ConfigurationExpansionError)
      (list (DatasetConfigurationDefinition * list value)) :=
  match experiment_datasets experiment with
  | [] => Ok [(UnitDataset, [empty_parameters])]
  | names => mapM (fun name =>
      definition ← expect (map_get name (datasets manifest));
      parameters ← lift (map_err (resolution_error experiment source DatasetParameters name)
        match definition with
        | FixedDataset _ _ => Ok [empty_parameters]
        | GeneratedDataset definition =>
            match gd_parameter_schema definition with
            | Some schema => expand_resolved_parameters schemas (sd_path schema)
                (gd_parameter_defaults definition) (gd_parameter_grids definition)
                (map_get name (dataset_parameters experiment))
                (case ≫= fun case => map_get name (case_dataset_parameters case))
            | None => Ok [empty_parameters]
            end
        end);
      Ok (NamedDataset name, parameters)) names
  end.

Definition source_implementation_parameters (manifest : Manifest) (schemas : SchemaCatalog)
    (experiment : ExperimentDefinition) (case : option ExperimentCase)
    (source : ConfigurationSource)
  : result (failure ConfigurationExpansionError) (list (Name * Name * list value)) :=
  mapM (fun name =>
    definition ← expect (map_get name (implementations manifest));
    parameters ← lift (map_err (resolution_error experiment source ImplementationParameters name)
      match id_parameter_schema definition with
      | Some schema => expand_resolved_parameters schemas (sd_path schema)
          (id_parameter_defaults definition) (id_parameter_grids definition)
          (map_get name (implementation_parameters experiment))
          (case ≫= fun case => map_get name (case_implementation_parameters case))
      | None => Ok [empty_parameters]
      end);
    Ok (name, worker_environment (id_worker definition), parameters))
  (experiment_implementations experiment).

Definition expand_source (manifest : Manifest) (contract : ProblemContract)
    (schemas : SchemaCatalog) (experiment : ExperimentDefinition) (case : option ExperimentCase)
    (source : ConfigurationSource) (state : ExpansionState)
  : result (failure ConfigurationExpansionError) ExpansionState :=
  problem_parameters ← source_problem_parameters manifest contract schemas experiment case source;
  dataset_parameters ← source_dataset_parameters manifest schemas experiment case source;
  implementation_parameters ←
    source_implementation_parameters manifest schemas experiment case source;
  try_fold (fun state '(dataset_definition, dataset_parameters) =>
    try_fold (fun state dataset_parameters =>
      try_fold (fun state problem_parameters =>
        try_fold (fun state '(implementation_definition, environment, implementation_parameters) =>
          try_fold (fun state implementation_parameters =>
            lift (insert_candidate experiment state {|
              x_source := source;
              x_dataset := {| xd_definition := dataset_definition;
                xd_parameters := dataset_parameters |};
              x_problem := {| xp_definition := experiment_problem experiment;
                xp_parameters := problem_parameters |};
              x_implementation := {| xi_definition := implementation_definition;
                xi_environment := environment;
                xi_parameters := implementation_parameters |} |}))
          state implementation_parameters)
        state implementation_parameters)
      state problem_parameters)
    state dataset_parameters)
  state dataset_parameters.

Definition expand_experiment (manifest : Manifest) (contract : ProblemContract)
    (schemas : SchemaCatalog) (experiment : ExperimentDefinition)
  : result (failure ConfigurationExpansionError) ExpandedExperiment :=
  let empty := {| st_candidates := []; st_seen := [] |} in
  state ← match cases experiment with
    | [] => expand_source manifest contract schemas experiment None SourceExperiment empty
    | cases => try_fold (fun state case =>
        expand_source manifest contract schemas experiment (Some case)
          (SourceCase (case_name case)) state) empty cases
    end;
  Ok {| expanded_name := experiment_name experiment;
        expanded_candidates := st_candidates state |}.

Context (pointer : value -> string -> option value).

Definition expand_manifest_configurations (manifest : Manifest)
    (problem_contracts : BTreeMap ProblemContract) (schemas : SchemaCatalog)
  : result (failure ConfigurationExpansionError) (list ExpandedExperiment) :=
  _ ← lift (map_err ParameterNamespaceFailure (validate_parameter_namespaces manifest));
  _ ← lift_err ManifestCompatibility
        (validate_manifest_compatibility_with_schemas pointer manifest problem_contracts schemas);
  mapM (fun experiment =>
    contract ← expect (map_get (experiment_problem experiment) problem_contracts);
    expand_experiment manifest contract schemas experiment) (experiments manifest).
End Expansion.

(** ** The matrix of an experiment *)

(** The candidates of one source in the documented order: dataset, dataset
    parameters, problem parameters, implementation, implementation
    parameters. *)
Definition source_matrix (problem : Name) (source : ConfigurationSource)
    (dataset_parameters : list (DatasetConfigurationDefinition * list value))
    (problem_parameters : list value)
    (implementation_parameters : list (Name * Name * list value)) : list ExpandedCandidate :=
  flat_map (fun '(dataset, parameters) => flat_map (fun dp => flat_map (fun pp =>
    flat_map (fun '(implementation, environment, parameters) => map (fun ip => {|
      x_source := source;
      x_dataset := {| xd_definition := dataset; xd_parameters := dp |};
      x_problem := {| xp_definition := problem; xp_parameters := pp |};
      x_implementation := {| xi_definition := implementation; xi_environment := environment;
        xi_parameters := ip |} |}) parameters)
    implementation_parameters) problem_parameters) parameters) dataset_parameters.

(** The matrix members of an experiment: itself, or each of its cases. *)
Definition sources (experiment : ExperimentDefinition)
  : list (option ExperimentCase * ConfigurationSource) :=
  match cases experiment with
  | [] => [(None, SourceExperiment)]
  | cases => map (fun case => (Some case, SourceCase (case_name case))) cases
  end.

Section ExpansionLemmas.
Context `{ThirdParty}.
Context (manifest : Manifest) (contract : ProblemContract) (schemas : SchemaCatalog).
Context (experiment : ExperimentDefinition).

(** The candidates one matrix member contributes. *)
Definition matrix (member : option ExperimentCase * ConfigurationSource)
  : result (failure ConfigurationExpansionError) (list ExpandedCandidate) :=
  pps ← source_problem_parameters manifest contract schemas experiment member.1 member.2;
  dps ← source_dataset_parameters manifest schemas experiment member.1 member.2;
  ips ← source_implementation_parameters manifest schemas experiment member.1 member.2;
  Ok (source_matrix (experiment_problem experiment) member.2 dps pps ips).

Definition insert_all (state : ExpansionState) (l : list ExpandedCandidate)
  : result (failure ConfigurationExpansionError) ExpansionState :=
  try_fold (fun state c => lift (insert_candidate experiment state c)) state l.

Lemma expand_source_matrix case source state :
  expand_source manifest contract schemas experiment case source state =
  (l ← matrix (case, source); insert_all state l).
Proof.
  unfold expand_source, matrix. cbn [fst snd].
  destruct (source_problem_parameters _ _ _ _ _ _) as [pps|]; [|done].
  destruct (source_dataset_parameters _ _ _ _ _) as [dps|]; [|done].
  destruct (source_implementation_parameters _ _ _ _ _) as [ips|]; [|done].
  cbn. unfold insert_all, source_matrix.
  rewrite try_fold_flat_map. apply try_fold_ext. intros st [dd ps].
  rewrite try_fold_flat_map. apply try_fold_ext. intros st' dp.
  rewrite try_fold_flat_map. apply try_fold_ext. intros st'' pp.
  rewrite try_fold_flat_map. apply try_fold_ext. intros st3 [[i env] xs].
  by rewrite try_fold_map.
Qed.

Definition run_members (state : ExpansionState) members
  : result (failure ConfigurationExpansionError) ExpansionState :=
  try_fold (fun state member => l ← matrix member; insert_all state l) state members.

Lemma expand_experiment_members :
  expand_experiment manifest contract schemas experiment =
  (state ← run_members {| st_candidates := []; st_seen := [] |} (sources experiment);
   Ok {| expanded_name := experiment_name experiment;
         expanded_candidates := st_candidates state |}).
Proof.
  unfold expand_experiment, run_members, sources. destruct (cases experiment) as [|c cs].
  - rewrite expand_source_matrix. simpl. destruct (matrix (None, SourceExperiment)); [|done].
    simpl. by destruct (insert_all _ a).
  - rewrite try_fold_map. f_equal. apply try_fold_ext. intros st x. apply expand_source_matrix.
Qed.

Lemma run_members_Ok state members state' :
  run_members state members = Ok state' <->
  exists ls, mapM matrix members = Ok ls /\ insert_all state (concat ls) = Ok state'.
Proof.
  unfold run_members. revert state. induction members as [|m members IH]; intros state; simpl.
  - split; [intros [= ->]; by exists []|]. by intros (ls & [= <-] & [= ->]).
  - destruct (matrix m) as [l|e]; simpl; [|split; [done|by intros (? & ? & ?)]].
    split.
    + intros (st & Hl & Hm)%bind_Ok. apply IH in Hm as (ls & -> & Hls).
      exists (l :: ls). split; [done|]. simpl. unfold insert_all. rewrite try_fold_app.
      unfold insert_all in Hl. by rewrite Hl.
    + intros (ls & (ls' & Hls' & [= <-])%bind_Ok & Hins). simpl in Hins.
      unfold insert_all in Hins. rewrite try_fold_app in Hins.
      apply bind_Ok in Hins as (st & Hst & Hins). unfold insert_all. rewrite Hst. simpl.
      apply IH. eauto.
Qed.

(** What the state records of the candidates accepted so far. *)
Definition records (candidates : list ExpandedCandidate) (state : ExpansionState) : Prop :=
  st_candidates state = candidates /\
  Forall2 (fun c entry => candidate_key c = Ok entry.1 /\ x_source c = entry.2)
    candidates (st_seen state) /\
  NoDup (st_seen state).*1.

Lemma seen_get_None key seen : seen_get key seen = None <-> key ∉ seen.*1.
Proof.
  unfold seen_get. destruct (List.find _ seen) as [[k s]|] eqn:E; simpl.
  - apply List.find_some in E as [Hin Hk]. bools. simpl in Hk. subst k.
    split; [done|]. intros Hn. destruct Hn. apply list_elem_of_fmap.
    exists (key, s). split; [done|]. by apply list_elem_of_In.
  - split; [intros _|done]. intros ([k s] & -> & Hin)%list_elem_of_fmap.
    apply list_elem_of_In in Hin. pose proof (List.find_none _ _ E _ Hin) as Hf. simpl in Hf. by bools.
Qed.

Lemma seen_get_Some key seen s : seen_get key seen = Some s -> (key, s) ∈ seen.
Proof.
  unfold seen_get. destruct (List.find _ seen) as [[k t]|] eqn:E; simpl; [|done].
  intros [= <-]. apply List.find_some in E as [Hin Hk]. bools. simpl in Hk. subst k.
  by apply list_elem_of_In.
Qed.

Lemma insert_candidate_Ok candidates state c state' :
  records candidates state ->
  insert_candidate experiment state c = Ok state' <->
  exists key, candidate_key c = Ok key /\ seen_get key (st_seen state) = None /\
    state' = {| st_candidates := candidates ++ [c];
                st_seen := st_seen state ++ [(key, x_source c)] |}.
Proof.
  intros (Hc & _ & _). unfold insert_candidate. rewrite Hc.
  destruct (candidate_key c) as [key|e]; simpl; [|naive_solver].
  destruct (seen_get key (st_seen state)) eqn:E; naive_solver.
Qed.

Lemma records_insert candidates state c state' :
  records candidates state -> insert_candidate experiment state c = Ok state' ->
  records (candidates ++ [c]) state'.
Proof.
  intros Hr Hi. pose proof Hr as (Hc & Hs & Hn).
  apply (insert_candidate_Ok _ _ _ _ Hr) in Hi as (key & Hk & Hg & ->).
  split; [done|]. split; simpl.
  - apply Forall2_app; [done|]. by repeat constructor.
  - rewrite fmap_app. apply NoDup_app. split; [done|]. split; [|apply NoDup_singleton].
    apply seen_get_None in Hg. intros k Hin Hk'. simpl in Hk'. set_solver.
Qed.

Lemma insert_all_records candidates state l state' :
  records candidates state -> insert_all state l = Ok state' ->
  records (candidates ++ l) state'.
Proof.
  unfold insert_all. revert candidates state. induction l as [|c l IH]; intros cs st Hr; simpl.
  - intros [= ->]. by rewrite app_nil_r.
  - intros (st' & Hi%lift_Ok & Hl)%bind_Ok. rewrite cons_middle, app_assoc.
    eapply IH; [|done]. by eapply records_insert.
Qed.

Lemma records_keys candidates state :
  records candidates state ->
  mapM candidate_key candidates = Ok (st_seen state).*1.
Proof.
  intros (_ & Hs & _). apply mapM_Ok_Forall2. apply Forall2_fmap_r.
  eapply Forall2_impl; [exact Hs|]. by intros c [k s] [? _].
Qed.

Lemma insert_all_complete candidates state l keys :
  records candidates state -> mapM candidate_key (candidates ++ l) = Ok keys -> NoDup keys ->
  is_ok (insert_all state l) = true.
Proof.
  intros Hr Hk Hn. apply mapM_Ok_Forall2 in Hk. revert candidates state Hr Hk.
  unfold insert_all. induction l as [|c l IH]; intros cs st Hr Hk; [done|].
  rewrite cons_middle in Hk. pose proof Hk as (k1 & k2 & H1 & H2 & ->)%Forall2_app_inv_l.
  apply Forall2_app_inv_l in H2 as (k3 & k4 & H3 & H4 & ->).
  apply Forall2_cons_inv_l in H3 as (key & k5 & Hkey & H5 & ->).
  apply Forall2_nil_inv_l in H5 as ->.
  apply mapM_Ok_Forall2 in H1. rewrite (records_keys _ _ Hr) in H1. injection H1 as H1.
  destruct (insert_candidate experiment st c) as [st'|e] eqn:E.
  - simpl. rewrite E. simpl. apply (IH (cs ++ [c])); [by eapply records_insert|].
    by rewrite <-app_assoc.
  - exfalso. unfold insert_candidate in E. rewrite Hkey in E. simpl in E.
    rewrite (proj2 (seen_get_None key (st_seen st))) in E; [done|].
    rewrite H1. apply NoDup_app in Hn as (_ & Hn & _). intros Hin. apply (Hn key Hin). set_solver.
Qed.

(** A reported duplicate is one: an earlier member of the matrix has the key. *)
Definition duplicates (l : list ExpandedCandidate) (d : DuplicateLogicalCandidateError) : Prop :=
  exists i j first later key,
    (i < j)%nat /\ l !! i = Some first /\ l !! j = Some later /\
    candidate_key first = Ok key /\ candidate_key later = Ok key /\
    d = {| dup_experiment := experiment_name experiment;
           first_source := x_source first; duplicate_source := x_source later;
           dup_dataset := xd_definition (x_dataset later);
           dup_problem := xp_definition (x_problem later);
           dup_implementation := xi_definition (x_implementation later) |}.

Lemma insert_all_duplicate candidates state l d :
  records candidates state ->
  insert_all state l = Err (Returned (DuplicateLogicalCandidate d)) ->
  duplicates (candidates ++ l) d.
Proof.
  unfold insert_all. revert candidates state. induction l as [|c l IH]; intros cs st Hr; [done|].
  simpl. rewrite cons_middle. destruct (insert_candidate experiment st c) as [st'|e] eqn:E.
  - intros Hd. simpl in Hd. rewrite app_assoc. eapply IH; [|done]. by eapply records_insert.
  - simpl. intros [= ->]. unfold insert_candidate in E.
    destruct (candidate_key c) as [key|?] eqn:Hkey; [simpl in E|done].
    destruct (seen_get key (st_seen st)) as [s|] eqn:Hs; [|done]. injection E as <-.
    apply seen_get_Some, list_elem_of_lookup in Hs as [i Hi].
    destruct Hr as (_ & Hf & _).
    destruct (Forall2_lookup_r _ _ _ _ _ Hf Hi) as (c0 & Hc0 & Hk0 & Hsrc). simpl in *.
    exists i, (length cs), c0, c, key. split; [by eapply lookup_lt_Some|].
    split; [by apply lookup_app_l_Some|]. split; [by apply list_lookup_middle|].
    split; [done|]. split; [done|].
    unfold candidate_key in Hkey. ok_inv. simpl. congruence.
Qed.

Definition no_duplicate {A} (m : result (failure ConfigurationExpansionError) A) : Prop :=
  forall d, m <> Err (Returned (DuplicateLogicalCandidate d)).
Lemma no_duplicate_bind {A B} (m : result _ A) (k : A -> result _ B) :
  no_duplicate m -> (forall a, no_duplicate (k a)) -> no_duplicate (m ≫= k).
Proof. intros H1 H2 d. destruct m; simpl; [apply H2|]. intros [= ->]. by apply (H1 d). Qed.
Lemma no_duplicate_mapM {A B} (f : A -> result _ B) l :
  (forall x, no_duplicate (f x)) -> no_duplicate (mapM f l).
Proof.
  intros Hf. induction l as [|x l IH]; [done|]. simpl.
  repeat (apply no_duplicate_bind; [done|intros ?]). done.
Qed.
Lemma no_duplicate_expect {A} (o : option A) : no_duplicate (expect o).
Proof. by destruct o. Qed.
Lemma no_duplicate_resolution {A} source namespace name (m : result ParameterResolutionError A) :
  no_duplicate (lift (map_err (resolution_error experiment source namespace name) m)).
Proof. by destruct m. Qed.

Lemma matrix_no_duplicate member : no_duplicate (matrix member).
Proof.
  unfold matrix, source_problem_parameters, source_dataset_parameters,
    source_implementation_parameters.
  repeat (apply no_duplicate_bind; [|intros ?]); try done;
    [apply no_duplicate_expect|apply no_duplicate_resolution| |].
  - destruct (experiment_datasets experiment); [done|]. apply no_duplicate_mapM. intros x.
    repeat (apply no_duplicate_bind; [|intros ?]); [apply no_duplicate_expect| |done].
    apply no_duplicate_resolution.
  - apply no_duplicate_mapM. intros x.
    repeat (apply no_duplicate_bind; [|intros ?]); [apply no_duplicate_expect| |done].
    apply no_duplicate_resolution.
Qed.

Lemma run_members_duplicate candidates state members d :
  records candidates state ->
  run_members state members = Err (Returned (DuplicateLogicalCandidate d)) ->
  exists n ls, mapM matrix (take n members) = Ok ls /\ duplicates (candidates ++ concat ls) d.
Proof.
  unfold run_members. revert candidates state. induction members as [|m members IH];
    intros cs st Hr; [done|]. simpl.
  destruct (matrix m) as [l|e] eqn:Em; simpl.
  2: { intros [= ->]. by destruct (matrix_no_duplicate m d). }
  destruct (insert_all st l) as [st'|e] eqn:El; simpl.
  - intros Hd. destruct (IH (cs ++ l) st') as (n & ls & Hn & Hdup); [|done|].
    { by eapply insert_all_records. }
    exists (S n), (l :: ls). simpl. rewrite Em. simpl. rewrite Hn. simpl.
    by rewrite app_assoc.
  - intros [= ->]. exists 1%nat, [l]. simpl. rewrite Em. simpl. rewrite app_nil_r.
    split; [done|]. by eapply insert_all_duplicate.
Qed.

Lemma records_nil : records [] {| st_candidates := []; st_seen := [] |}.
Proof. split; [done|]. split; [constructor|]. apply NoDup_nil_2. Qed.
End ExpansionLemmas.

(** C28: expanding an experiment yields the whole matrix and nothing else: it
    succeeds exactly when every matrix member resolves and no two candidates
    have the same canonical key, and then returns the candidates of the members
    in declared order.  A reported duplicate names the two matrix members that
    produced the same candidate, the earlier one first. *)
Theorem expand_experiment_spec `{ThirdParty} manifest contract schemas experiment :
  (forall expanded,
     expand_experiment manifest contract schemas experiment = Ok expanded <->
     exists ls keys,
       mapM (matrix manifest contract schemas experiment) (sources experiment) = Ok ls /\
       mapM candidate_key (concat ls) = Ok keys /\ NoDup keys /\
       expanded = {| expanded_name := experiment_name experiment;
                     expanded_candidates := concat ls |}) /\
  (forall d,
     expand_experiment manifest contract schemas experiment
       = Err (Returned (DuplicateLogicalCandidate d)) ->
     exists n ls,
       mapM (matrix manifest contract schemas experiment) (take n (sources experiment)) = Ok ls /\
       duplicates experiment (concat ls) d).
Proof.
  rewrite expand_experiment_members. split.
  - intros expanded. split.
    + intros (st & (ls & Hls & Hins)%run_members_Ok & [= <-])%bind_Ok.
      pose proof (insert_all_records experiment _ _ _ _ records_nil Hins) as Hr.
      exists ls, (st_seen st).*1. pose proof Hr as (Hc & _ & Hn). simpl in *.
      rewrite Hc. auto using records_keys.
    + intros (ls & keys & Hls & Hk & Hn & ->).
      pose proof (insert_all_complete experiment [] _ _ _ records_nil Hk Hn) as Hok.
      destruct (insert_all _ _ _) as [st|] eqn:Hins; [|done].
      pose proof (insert_all_records experiment _ _ _ _ records_nil Hins) as (Hc & _ & _).
      apply bind_Ok. exists st. split; [apply run_members_Ok; eauto|]. by rewrite Hc.
  - intros d Hd. destruct (run_members _ _ _ _ _ _) as [st|e] eqn:E; [done|].
    injection Hd as ->. apply (run_members_duplicate _ _ _ _ [] _ _ _ records_nil E).
Qed.

Lemma expand_experiment_spec_witness :
  let experiment := sample_experiment "@final" [sample_case "a" 1; sample_case "b" 1] in
  let manifest := sample_manifest [experiment] in
  exists n ls,
    mapM (matrix manifest sample_contract sample_schemas experiment) (take n (sources experiment))
      = Ok ls /\
    @duplicates model experiment (concat ls) {|
      dup_experiment := "main"; first_source := SourceCase "a"; duplicate_source := SourceCase "b";
      dup_dataset := NamedDataset "data"; dup_problem := "fit"; dup_implementation := "slow" |}.
Proof.
  intros experiment manifest.
  apply (@expand_experiment_spec model manifest sample_contract sample_schemas experiment).
  vm_compute. reflexivity.
Defined.

(** ** The Cartesian product of the axes *)

(** All ways to choose one value of each axis, the first axis varying slowest. *)
Fixpoint product (axes : ParameterAxes) : list (list (string * value)) :=
  match axes with
  | [] => [[]]
  | (name, axis) :: axes =>
      flat_map (fun v => map (cons (name, v)) (product axes)) (axis_values axis)
  end.

Lemma flat_map_Forall_ext {A B} (P : A -> Prop) (f g : A -> list B) l :
  Forall P l -> (forall x, P x -> f x = g x) -> flat_map f l = flat_map g l.
Proof. intros Hl Hfg. induction Hl as [|x l Hx _ IH]; simpl; [done|]. by rewrite IH, Hfg. Qed.

Lemma flat_map_flat_map {A B C} (f : A -> list B) (g : B -> list C) l :
  flat_map g (flat_map f l) = flat_map (fun x => flat_map g (f x)) l.
Proof. induction l as [|x l IH]; simpl; [done|]. by rewrite flat_map_app, IH. Qed.
Lemma flat_map_map {A B C} (f : A -> B) (g : B -> list C) l :
  flat_map g (map f l) = flat_map (fun x => g (f x)) l.
Proof. induction l as [|x l IH]; simpl; [done|]. by rewrite IH. Qed.
Lemma map_flat_map {A B C} (f : A -> list B) (g : B -> C) l :
  map g (flat_map f l) = flat_map (fun x => map g (f x)) l.
Proof. induction l as [|x l IH]; simpl; [done|]. by rewrite map_app, IH. Qed.

(** Every key of [m] is below every key of the axes. *)
Definition below (axes : ParameterAxes) (m : list (string * value)) : Prop :=
  Forall (fun k => Forall (fun j => key_lt j k) m.*1) axes.*1.

Lemma axis_rounds axes acc :
  map_wf axes -> Forall (below axes) acc ->
  fold_left axis_step axes acc = flat_map (fun m => map (app m) (product axes)) acc.
Proof.
  unfold map_wf. revert acc. induction axes as [|[k a] axes IH]; intros acc Hw Hb; simpl.
  - clear Hb. induction acc as [|m acc IHa]; simpl; [done|]. by rewrite app_nil_r, <-IHa.
  - apply StronglySorted_inv in Hw as [Hw Hk].
    assert (axis_step acc (k, a)
            = flat_map (fun m => map (fun v => m ++ [(k, v)]) (axis_values a)) acc) as ->.
    { unfold axis_step. eapply flat_map_Forall_ext; [exact Hb|]. simpl. intros m Hm.
      apply map_ext. intros v. apply map_insert_last. by apply Forall_cons in Hm as [? _]. }
    rewrite IH; [|done|].
    + rewrite flat_map_flat_map. apply flat_map_ext. intros m.
      rewrite map_flat_map, flat_map_map. apply flat_map_ext. intros v.
      rewrite map_map. apply map_ext. intros m'. by rewrite <-app_assoc.
    + apply Forall_forall. intros m' Hm'. apply list_elem_of_In, in_flat_map in Hm' as (m & Hm & Hv).
      apply in_map_iff in Hv as (v & <- & _).
      rewrite Forall_forall in Hb. apply list_elem_of_In, Hb, Forall_cons in Hm as [_ Hm].
      apply Forall_forall. intros j Hj. rewrite fmap_app. apply Forall_app. split.
      * rewrite Forall_forall in Hm. auto.
      * repeat constructor. rewrite Forall_forall in Hk. auto.
Qed.

Lemma product_length axes :
  length (product axes) = foldr (fun entry n => length (axis_values entry.2) * n)%nat 1%nat axes.
Proof.
  induction axes as [|[k a] axes IH]; simpl; [done|].
  rewrite length_flat_map. rewrite <-IH.
  induction (axis_values a) as [|v l IHl]; simpl; [done|]. by rewrite IHl, length_map.
Qed.

(** The combinations of an experiment's axes are exactly the choices of one
    authored value per axis, each once and the lexicographically first name
    varying slowest; their number is the product of the sizes of the axes, so
    an empty grid yields no candidate at all. *)
Theorem expand_axes_product axes :
  map_wf axes ->
  expand_axes axes
    = mapM (fun m => map_err InvalidValue (try_from (Object m))) (product axes) /\
  (forall combinations, expand_axes axes = Ok combinations ->
    length combinations
      = foldr (fun entry n => length (axis_values entry.2) * n)%nat 1%nat axes).
Proof.
  intros Hw. assert (fold_left axis_step axes [[]] = product axes) as Hp.
  { rewrite axis_rounds; [|done|].
    - simpl. rewrite app_nil_r. rewrite <-(map_id (product axes)) at 2. by apply map_ext.
    - repeat constructor. apply Forall_forall. intros k _. constructor. }
  unfold expand_axes. rewrite Hp. split; [done|].
  intros combinations Hc%mapM_length. by rewrite Hc, product_length.
Qed.

Lemma expand_axes_product_witness :
  let axes := [("cols", AxisGrid [json_u64 1; json_u64 2]); ("rows", AxisValue (json_u64 5));
               ("seed", AxisGrid [json_u64 3; json_u64 4; json_u64 5])] in
  map_wf axes /\
  expand_axes axes = mapM (fun m => map_err InvalidValue (try_from (Object m))) (product axes) /\
  length (product axes) = 6%nat.
Proof.
  intros axes. assert (map_wf axes) as Hw by (repeat constructor; vm_compute; reflexivity).
  split; [done|]. split; [|done]. apply (expand_axes_product axes Hw).
Defined.

(** ** Expansion does not panic *)

(** [panics] decides the side conditions that only propagate callees' errors. *)
Lemma no_panic_resolution {A} experiment source namespace name
    (m : result ParameterResolutionError A) :
  no_panic (lift (map_err (resolution_error experiment source namespace name) m)).
Proof. by destruct m. Qed.
#[export] Hint Resolve no_panic_resolution : panics.

Section NoPanic.
Context `{ThirdParty} (pointer : value -> string -> option value).
Context (manifest : Manifest) (contracts : BTreeMap ProblemContract) (schemas : SchemaCatalog).

Lemma matrix_no_panic contract experiment member :
  experiment_resolved manifest contracts experiment ->
  no_panic (matrix manifest contract schemas experiment member).
Proof.
  intros Hr. unfold matrix, source_problem_parameters, source_dataset_parameters,
    source_implementation_parameters.
  apply no_panic_bind; [|intros pps _; apply no_panic_bind; [|intros dps _; apply no_panic_bind]].
  - apply no_panic_bind; [apply no_panic_expect, (resolved_problem _ _ _ Hr)|].
    auto with panics.
  - pose proof (resolved_datasets _ _ _ Hr) as Hd.
    destruct (experiment_datasets experiment); [done|]. apply no_panic_mapM.
    eapply Forall_impl; [exact Hd|]. intros x Hx.
    repeat (apply no_panic_bind; [solve [auto with panics]|]; intros ? _). done.
  - apply no_panic_mapM.
    eapply Forall_impl; [exact (resolved_implementations _ _ _ Hr)|]. intros x Hx.
    repeat (apply no_panic_bind; [solve [auto with panics]|]; intros ? _). done.
  - auto with panics.
Qed.

Lemma expand_experiment_no_panic contract experiment :
  experiment_resolved manifest contracts experiment ->
  no_panic (expand_experiment manifest contract schemas experiment).
Proof.
  intros Hr. rewrite expand_experiment_members. apply no_panic_bind; [|auto with panics].
  apply no_panic_try_fold, Forall_forall. intros member _ state.
  apply no_panic_bind; [by apply matrix_no_panic|]. intros l _.
  apply no_panic_try_fold, Forall_forall. auto with panics.
Qed.

Lemma expand_manifest_no_panic :
  no_panic (expand_manifest_configurations pointer manifest contracts schemas).
Proof.
  unfold expand_manifest_configurations.
  apply no_panic_bind; [auto with panics|]. intros _ _.
  apply no_panic_bind; [apply no_panic_lift_err, validate_compatibility_no_panic|].
  intros u Hu%map_err_Ok%validate_compatibility_resolved.
  apply no_panic_mapM. eapply Forall_impl; [exact Hu|]. intros experiment Hr.
  apply no_panic_bind; [apply no_panic_expect, (resolved_contract _ _ _ Hr)|].
  intros contract _. by apply expand_experiment_no_panic.
Qed.

(** What a successful expansion of the manifest tells of each experiment. *)
Lemma expand_manifest_Ok expanded :
  expand_manifest_configurations pointer manifest contracts schemas = Ok expanded ->
  Forall (experiment_resolved manifest contracts) (experiments manifest) /\
  Forall2 (fun experiment x => exists contract,
      expand_experiment manifest contract schemas experiment = Ok x)
    (experiments manifest) expanded.
Proof.
  unfold expand_manifest_configurations. intros (? & _ & H0)%bind_Ok.
  apply bind_Ok in H0 as (? & Hc%map_err_Ok%validate_compatibility_resolved & Hm).
  split; [done|]. apply mapM_Ok_Forall2 in Hm. eapply Forall2_impl; [exact Hm|].
  intros experiment y Hx. apply bind_Ok in Hx as (c & _ & Hx). eauto.
Qed.
End NoPanic.
