(* ===== verification/Scheduling.v ===== *)
(** * Seeds and dispatch order (src/core/seed.rs, src/core/scheduling.rs)

    Component seeds are the leading 53 bits of a domain-separated digest;
    [schedule_slots] orders one experiment's measured slots by keys derived
    from the scheduling seed.  The derived [Ord] of Rust tuples, arrays and
    structs is the lexicographic comparison of their components. *)
From S2P Require Import Prelude Json Canonical Identity Profile Records RecordIdentity.
From S2P Require Import ThirdPartyModel.
From Stdlib Require Import Ascii.

(** ** Comparisons *)

(** What Rust promises of [Ord::cmp]: a total order whose equality is [=]. *)
Class Cmp (A : Type) := cmp : A -> A -> comparison.
Class LawfulCmp (A : Type) `{Cmp A} := {
  cmp_eq (a b : A) : cmp a b = Eq <-> a = b;
  cmp_antisym (a b : A) : cmp b a = CompOpp (cmp a b);
  cmp_trans (a b c : A) : cmp a b = Lt -> cmp b c = Lt -> cmp a c = Lt;
}.

(** [Ordering::then_with]. *)
Definition then_with (c d : comparison) : comparison :=
  match c with Eq => d | _ => c end.

#[export] Instance cmp_u64 : Cmp Z := Z.compare.
#[export] Instance cmp_byte : Cmp ascii := Ascii.compare.
#[export] Instance cmp_pair `{Cmp A, Cmp B} : Cmp (A * B) :=
  fun x y => then_with (cmp x.1 y.1) (cmp x.2 y.2).
#[export] Instance cmp_list `{Cmp A} : Cmp (list A) := fix go l k :=
  match l, k with
  | [], [] => Eq
  | [], _ :: _ => Lt
  | _ :: _, [] => Gt
  | x :: l', y :: k' => then_with (cmp x y) (go l' k')
  end.
#[export] Instance cmp_nat : Cmp nat := Nat.compare.
#[export] Instance cmp_option `{Cmp A} : Cmp (option A) := fun x y =>
  match x, y with
  | None, None => Eq
  | None, Some _ => Lt
  | Some _, None => Gt
  | Some a, Some b => cmp a b
  end.
(** [Ord for RecordId<T>] compares the digests. *)
#[export] Instance cmp_record_id t : Cmp (RecordId t) :=
  fun i j => cmp (digest i) (digest j).

#[export] Instance cmp_u64_lawful : LawfulCmp Z.
Proof.
  split; unfold cmp, cmp_u64; intros *.
  - apply Z.compare_eq_iff.
  - apply Z.compare_antisym.
  - rewrite !Z.compare_lt_iff. lia.
Qed.
#[export] Instance cmp_nat_lawful : LawfulCmp nat.
Proof.
  split; unfold cmp, cmp_nat; intros *.
  - apply Nat.compare_eq_iff.
  - apply Nat.compare_antisym.
  - rewrite !Nat.compare_lt_iff. lia.
Qed.
#[export] Instance cmp_byte_lawful : LawfulCmp ascii.
Proof.
  split; unfold cmp, cmp_byte, Ascii.compare; intros *.
  - rewrite N.compare_eq_iff. split; [|by intros ->].
    intros H. by rewrite <-(ascii_N_embedding a), H, ascii_N_embedding.
  - apply N.compare_antisym.
  - rewrite !N.compare_lt_iff. lia.
Qed.

Lemma cmp_pair_unfold `{Cmp A, Cmp B} (a a' : A) (b b' : B) :
  cmp (a, b) (a', b') = then_with (cmp a a') (cmp b b').
Proof. done. Qed.

Lemma cmp_refl `{LawfulCmp A} (a : A) : cmp a a = Eq.
Proof. by apply cmp_eq. Qed.

#[export] Instance cmp_pair_lawful `{LawfulCmp A, LawfulCmp B} : LawfulCmp (A * B).
Proof.
  split; unfold cmp, cmp_pair; intros *.
  - destruct a as [a1 a2], b as [b1 b2]; simpl.
    pose proof (cmp_eq a1 b1). pose proof (cmp_eq a2 b2).
    destruct (cmp a1 b1) eqn:E; simpl; naive_solver.
  - rewrite (cmp_antisym a.1), (cmp_antisym a.2).
    destruct (cmp a.1 b.1); done.
  - destruct (cmp a.1 b.1) eqn:E1; simpl; [|intros _|done].
    + apply cmp_eq in E1 as ->. destruct (cmp b.1 c.1); simpl; [|done..].
      apply cmp_trans.
    + destruct (cmp b.1 c.1) eqn:E2; simpl; [|intros _|done].
      * apply cmp_eq in E2 as <-. by rewrite E1.
      * by rewrite (cmp_trans _ _ _ E1 E2).
Qed.

#[export] Instance cmp_list_lawful `{LawfulCmp A} : LawfulCmp (list A).
Proof.
  split; unfold cmp.
  - intros l. induction l as [|x l IH]; intros [|y k]; simpl; try done.
    pose proof (cmp_eq x y). destruct (cmp x y) eqn:E; simpl; rewrite ?IH; naive_solver.
  - intros l. induction l as [|x l IH]; intros [|y k]; simpl; try done.
    rewrite (cmp_antisym x), IH. by destruct (cmp x y).
  - intros l. induction l as [|x l IH]; intros [|y k] [|z j]; simpl; try done.
    destruct (cmp x y) eqn:E1; simpl; [|intros _|done].
    + apply cmp_eq in E1 as ->. destruct (cmp y z); simpl; [|done..]. apply IH.
    + destruct (cmp y z) eqn:E2; simpl; [|intros _|done].
      * apply cmp_eq in E2 as <-. by rewrite E1.
      * by rewrite (cmp_trans _ _ _ E1 E2).
Qed.

#[export] Instance cmp_option_lawful `{LawfulCmp A} : LawfulCmp (option A).
Proof.
  split; unfold cmp, cmp_option.
  - intros [a|] [b|]; rewrite ?cmp_eq; naive_solver.
  - intros [a|] [b|]; try done. apply cmp_antisym.
  - intros [a|] [b|] [c|]; try done. apply cmp_trans.
Qed.

#[export] Instance cmp_record_id_lawful t : LawfulCmp (RecordId t).
Proof.
  split; unfold cmp, cmp_record_id; intros *.
  - rewrite cmp_eq. destruct a, b; simpl. naive_solver.
  - apply cmp_antisym.
  - apply cmp_trans.
Qed.

(** The order a sort by key arranges its elements in. *)
Definition cmp_le `{Cmp K} {A} (key : A -> K) (a b : A) : Prop := cmp (key a) (key b) <> Gt.

Section CmpLe.
Context `{LawfulCmp K} {A : Type} (key : A -> K).
#[export] Instance cmp_le_dec : RelDecision (cmp_le key).
Proof. intros a b. unfold cmp_le. destruct (cmp (key a) (key b)); [left|left|right]; congruence. Defined.
#[export] Instance cmp_le_total : Total (cmp_le key).
Proof.
  intros a b. unfold cmp_le. rewrite (cmp_antisym (key a) (key b)).
  destruct (cmp (key a) (key b)); simpl; [left|left|right]; done.
Qed.
#[export] Instance cmp_le_trans : Transitive (cmp_le key).
Proof.
  intros a b c. unfold cmp_le.
  destruct (cmp (key a) (key b)) eqn:E1; [|intros _|done].
  - by apply cmp_eq in E1 as ->.
  - destruct (cmp (key b) (key c)) eqn:E2; intros Hc; [| |done].
    + apply cmp_eq in E2 as <-. by rewrite E1.
    + by rewrite (cmp_trans _ _ _ E1 E2).
Qed.
Lemma cmp_le_antisym a b : cmp_le key a b -> cmp_le key b a -> key a = key b.
Proof.
  unfold cmp_le. rewrite (cmp_antisym (key a) (key b)). intros H1 H2. apply cmp_eq.
  by destruct (cmp (key a) (key b)).
Qed.
End CmpLe.

(** Two sorted arrangements of the same elements are the same list when the key
    determines the element. *)
Lemma sorted_unique `{LawfulCmp K} {A} (key : A -> K) l k :
  (forall a b, key a = key b -> a = b) ->
  StronglySorted (cmp_le key) l -> StronglySorted (cmp_le key) k -> l ≡ₚ k -> l = k.
Proof.
  intros Hinj Hl. revert k. induction Hl as [|x l Hl IH Hx]; intros k Hk Hp.
  - by apply Permutation_nil_l in Hp.
  - destruct Hk as [|y k Hk Hy]; [by apply Permutation_nil_r in Hp|].
    rewrite Forall_forall in Hx, Hy.
    assert (x = y) as ->.
    { apply Hinj. apply cmp_le_antisym.
      - assert (y ∈ x :: l) as Hin by (rewrite Hp; set_solver).
        apply elem_of_cons in Hin as [->|]; [|auto]. unfold cmp_le. by rewrite cmp_refl.
      - assert (x ∈ y :: k) as Hin by (rewrite <-Hp; set_solver).
        apply elem_of_cons in Hin as [->|]; [|auto]. unfold cmp_le. by rewrite cmp_refl. }
    f_equal. apply IH; [done|]. by apply Permutation_cons_inv in Hp.
Qed.

#[export] Instance filter_Permutation {A} (p : A -> bool) :
  Proper ((≡ₚ) ==> (≡ₚ)) (List.filter p).
Proof.
  induction 1 as [|x l k _ IH|x y l|l k j _ IH1 _ IH2]; simpl; [done| | |by etrans].
  - destruct (p x); by rewrite IH.
  - destruct (p x), (p y); done || apply perm_swap.
Qed.

Lemma sorted_filter {A} (R : relation A) (p : A -> bool) l :
  StronglySorted R l -> StronglySorted R (List.filter p l).
Proof.
  induction 1 as [|x l Hl IH Hx]; simpl; [constructor|]. destruct (p x); [|done].
  constructor; [done|]. apply Forall_forall. intros y Hy. rewrite Forall_forall in Hx.
  apply Hx. apply list_elem_of_In in Hy. apply filter_In in Hy as [Hy _].
  by apply list_elem_of_In.
Qed.

(** ** Seeds *)

Definition SEED_DERIVATION_DOMAIN : string := "metewand-seed-v1".
Definition SCHEDULING_PRIORITY_DOMAIN : string := "metewand-scheduling-priority-v1".
Definition DATASET_ROLE : string := "dataset".
Definition IMPLEMENTATION_ROLE : string := "implementation".
Definition SCHEDULING_ROLE : string := "scheduling".
Definition SCHEDULING_POLICY_VERSION : Z := 1.

(** [u64::from_be_bytes] and [u64::to_be_bytes]. *)
Definition from_be_bytes (b : bytes) : Z :=
  fold_left (fun n c => 256 * n + Z.of_nat (nat_of_ascii c))%Z b 0%Z.
Fixpoint be_bytes (n : nat) (z : Z) : bytes :=
  match n with
  | O => []
  | S n => be_bytes n (z / 256) ++ [ascii_of_nat (Z.to_nat (z mod 256))]
  end.
Definition to_be_bytes (z : Z) : bytes := be_bytes 8 z.

Inductive SeedDerivationError := SeedCanonical (e : CanonicalJsonError).

Section Seeds.
Context `{ThirdParty}.

Definition canonical_fields (fields : value) : result SeedDerivationError bytes :=
  v ← map_err (fun e => SeedCanonical (InvalidValue e)) (try_from fields);
  map_err SeedCanonical (to_canonical_bytes v).

Definition seed_transcript (role : string) (canonical_fields : bytes) : bytes :=
  bytes_of SEED_DERIVATION_DOMAIN ++ NUL :: bytes_of role ++ NUL :: canonical_fields.

Definition derive_seed (role : string) (canonical_fields : bytes) : DerivedSeedRecord :=
  let digest := sha256 (seed_transcript role canonical_fields) in
  let leading_bits := from_be_bytes (take 8 digest) in
  {| ds_value := Z.shiftr leading_bits 11; ds_derivation_digest := digest |}.

Definition canonical_dataset_seed_fields (experiment_seed : Z)
    (dataset_definition : RecordId DatasetDefinitionType) (dataset_parameters : value) :=
  canonical_fields (object [
    ("experiment_seed", json_u64 experiment_seed);
    ("dataset_definition", id_value dataset_definition);
    ("dataset_parameters", dataset_parameters)]).
Definition derive_dataset_seed (experiment_seed : Z)
    (dataset_definition : RecordId DatasetDefinitionType) (dataset_parameters : value)
  : result SeedDerivationError DerivedSeedRecord :=
  derive_seed DATASET_ROLE <$>
    canonical_dataset_seed_fields experiment_seed dataset_definition dataset_parameters.

Definition canonical_implementation_seed_fields (experiment_seed : Z)
    (dataset_configuration : RecordId DatasetConfigurationType)
    (problem_configuration : RecordId ProblemConfigurationType)
    (implementation_repetition : Z) :=
  canonical_fields (object [
    ("experiment_seed", json_u64 experiment_seed);
    ("dataset_configuration", id_value dataset_configuration);
    ("problem_configuration", id_value problem_configuration);
    ("implementation_repetition", json_u64 implementation_repetition)]).
Definition derive_implementation_seed (experiment_seed : Z)
    (dataset_configuration : RecordId DatasetConfigurationType)
    (problem_configuration : RecordId ProblemConfigurationType)
    (implementation_repetition : Z) : result SeedDerivationError DerivedSeedRecord :=
  derive_seed IMPLEMENTATION_ROLE <$>
    canonical_implementation_seed_fields experiment_seed dataset_configuration
      problem_configuration implementation_repetition.

Definition canonical_scheduling_seed_fields (experiment_seed : Z)
    (benchmark_name experiment_name : string) (scheduling_policy_version : Z) :=
  canonical_fields (object [
    ("experiment_seed", json_u64 experiment_seed);
    ("benchmark_name", Str benchmark_name);
    ("experiment_name", Str experiment_name);
    ("scheduling_policy_version", json_u64 scheduling_policy_version)]).
Definition derive_scheduling_seed (experiment_seed : Z)
    (benchmark_name experiment_name : string) (scheduling_policy_version : Z)
  : result SeedDerivationError DerivedSeedRecord :=
  derive_seed SCHEDULING_ROLE <$>
    canonical_scheduling_seed_fields experiment_seed benchmark_name experiment_name
      scheduling_policy_version.
End Seeds.

(** ** Scheduling *)

Record ComparisonBlock := {
  cb_dataset_instance : RecordId DatasetInstanceType;
  cb_problem_configuration : RecordId ProblemConfigurationType;
  cb_implementation_repetition : Z;
  cb_measurement_index : Z;
}.
Record SchedulingSlot := {
  ss_observation_round : Z;
  ss_logical_slot : RecordId LogicalAttemptSlotType;
  ss_comparison_block : ComparisonBlock;
  ss_scheduling_priority : bytes;
}.
#[export] Instance comparison_block_eq_dec : EqDecision ComparisonBlock.
Proof. solve_decision. Defined.
#[export] Instance scheduling_slot_eq_dec : EqDecision SchedulingSlot.
Proof. solve_decision. Defined.

(** The derived [Ord] of [ComparisonBlock]: fields in declaration order. *)
Definition block_key (b : ComparisonBlock) :=
  (cb_dataset_instance b, (cb_problem_configuration b,
    (cb_implementation_repetition b, cb_measurement_index b))).
#[export] Instance cmp_block : Cmp ComparisonBlock :=
  fun a b => cmp (block_key a) (block_key b).
#[export] Instance cmp_block_lawful : LawfulCmp ComparisonBlock.
Proof.
  split; unfold cmp, cmp_block; intros *.
  - rewrite cmp_eq. unfold block_key. destruct a, b; simpl. naive_solver.
  - apply cmp_antisym.
  - apply cmp_trans.
Qed.

Section Scheduling.
Context `{ThirdParty}.

Definition derive_block_scheduling_priority (scheduling_seed : DerivedSeedRecord)
    (block : ComparisonBlock) : bytes :=
  sha256 (bytes_of SCHEDULING_PRIORITY_DOMAIN ++ NUL ::
    ds_derivation_digest scheduling_seed ++
    NUL :: bytes_of "block" ++ NUL ::
    bytes_of (to_string (cb_dataset_instance block)) ++ NUL ::
    bytes_of (to_string (cb_problem_configuration block)) ++ NUL ::
    to_be_bytes (cb_implementation_repetition block) ++ NUL ::
    to_be_bytes (cb_measurement_index block)).

(** The tuple [sort_by_cached_key] computes for a slot. *)
Definition slot_key (scheduling_seed : DerivedSeedRecord) (slot : SchedulingSlot) :=
  (derive_block_scheduling_priority scheduling_seed (ss_comparison_block slot),
    (ss_comparison_block slot, (ss_observation_round slot,
      (ss_scheduling_priority slot, ss_logical_slot slot)))).

(** The sort is stable: indices with equal keys stay in increasing order, so
    the index is the last component of the key. *)
Definition index_key (scheduling_seed : DerivedSeedRecord) (slots : list SchedulingSlot)
    (index : nat) :=
  (slot_key scheduling_seed <$> slots !! index, index).

Definition schedule_slots (run_order : RunOrder) (scheduling_seed : DerivedSeedRecord)
    (slots : list SchedulingSlot) : list nat :=
  let order := seq 0 (length slots) in
  match run_order with
  | Randomized => merge_sort (cmp_le (index_key scheduling_seed slots)) order
  | Sequential => order
  end.

(** The slots in the order the executor takes them: [order.map(|i| slots[i])]. *)
Definition dispatch (run_order : RunOrder) (scheduling_seed : DerivedSeedRecord)
    (slots : list SchedulingSlot) : list SchedulingSlot :=
  omap (fun index => slots !! index) (schedule_slots run_order scheduling_seed slots).
End Scheduling.

(** ** The dispatch order *)

Lemma from_be_bytes_app b c :
  from_be_bytes (b ++ [c]) = (256 * from_be_bytes b + Z.of_nat (nat_of_ascii c))%Z.
Proof. unfold from_be_bytes. by rewrite fold_left_app. Qed.

Lemma from_be_bytes_bound b :
  (0 <= from_be_bytes b < 256 ^ Z.of_nat (length b))%Z.
Proof.
  induction b as [|c b IH] using rev_ind; [unfold from_be_bytes; simpl; lia|].
  rewrite from_be_bytes_app, length_app. simpl.
  replace (Z.of_nat (length b + 1)) with (Z.succ (Z.of_nat (length b))) by lia.
  rewrite Z.pow_succ_r by lia. pose proof (nat_ascii_bounded c). lia.
Qed.

Lemma from_be_bytes_be_bytes n z :
  (0 <= z < 256 ^ Z.of_nat n)%Z -> from_be_bytes (be_bytes n z) = z.
Proof.
  revert z. induction n as [|n IH]; intros z Hz; [simpl in Hz; unfold from_be_bytes; simpl; lia|].
  cbn [be_bytes]. rewrite from_be_bytes_app.
  replace (Z.of_nat (S n)) with (Z.succ (Z.of_nat n)) in Hz by lia.
  rewrite Z.pow_succ_r in Hz by lia.
  rewrite IH by (split; [apply Z.div_pos; lia|apply Z.div_lt_upper_bound; lia]).
  pose proof (Z.mod_pos_bound z 256). rewrite nat_ascii_embedding by lia.
  rewrite Z2Nat.id by lia. pose proof (Z.div_mod z 256). lia.
Qed.

(** The numeric value of a seed is in the canonical number domain, whatever the
    digest is. *)
Lemma derive_seed_value `{ThirdPartyLaws} role fields :
  (0 <= ds_value (derive_seed role fields) <= MAX_SAFE_INTEGER)%Z.
Proof.
  unfold derive_seed; simpl. rewrite Z.shiftr_div_pow2 by lia.
  match goal with |- context [from_be_bytes ?b] =>
    pose proof (from_be_bytes_bound b) as Hb; pose proof (length_take b) as Hl;
    clear Hl; assert (length b <= 8)%nat as Hlen by (rewrite length_take; lia)
  end.
  assert (256 ^ Z.of_nat (length (take 8 (sha256 (seed_transcript role fields)))) <= 2 ^ 64)%Z.
  { change (2 ^ 64)%Z with (256 ^ 8)%Z. apply Z.pow_le_mono_r; lia. }
  unfold MAX_SAFE_INTEGER. split; [apply Z.div_pos; lia|].
  apply Z.lt_succ_r. change (Z.succ (2 ^ 53 - 1)) with (2 ^ 53)%Z.
  apply Z.div_lt_upper_bound; lia.
Qed.

Section DispatchLemmas.
Context `{ThirdParty}.
Context (seed : DerivedSeedRecord).
Implicit Types (slots : list SchedulingSlot).

Lemma slot_key_inj a b : slot_key seed a = slot_key seed b -> a = b.
Proof. unfold slot_key. destruct a, b; simpl. naive_solver. Qed.

Lemma schedule_slots_perm run_order slots :
  schedule_slots run_order seed slots ≡ₚ seq 0 (length slots).
Proof. destruct run_order; simpl; [done|]. apply merge_sort_Permutation. Qed.

Lemma omap_lookup_seq slots : omap (fun i => slots !! i) (seq 0 (length slots)) = slots.
Proof.
  induction slots as [|s slots IH]; [done|].
  cbn [length seq]. rewrite <-fmap_S_seq. cbn. f_equal.
  rewrite <-IH at 2. generalize (seq 0 (length slots)) as l.
  induction l as [|i l IHl]; [done|]. cbn. rewrite IHl. by destruct (slots !! i).
Qed.

Lemma dispatch_perm run_order slots : dispatch run_order seed slots ≡ₚ slots.
Proof.
  unfold dispatch. rewrite schedule_slots_perm. by rewrite omap_lookup_seq.
Qed.

Lemma dispatch_sorted slots :
  StronglySorted (cmp_le (slot_key seed)) (dispatch Randomized seed slots).
Proof.
  unfold dispatch. simpl.
  assert (StronglySorted (cmp_le (index_key seed slots))
    (merge_sort (cmp_le (index_key seed slots)) (seq 0 (length slots)))) as Hs
    by apply (StronglySorted_merge_sort _).
  induction Hs as [|i l Hs IH Hi]; simpl; [constructor|].
  destruct (slots !! i) as [s|] eqn:E; [|done].
  constructor; [done|]. apply Forall_forall. intros t (j & Hj & Ht)%list_elem_of_omap.
  rewrite Forall_forall in Hi. specialize (Hi j Hj).
  unfold cmp_le, index_key in *. rewrite E, Ht in Hi.
  unfold cmp at 1, cmp_pair at 1 in Hi. cbn [fst snd fmap option_fmap option_map] in Hi.
  intros Hgt. apply Hi. clear Hi. unfold cmp at 1, cmp_option. by rewrite Hgt.
Qed.

(** Equal sets of slots are dispatched in the same order. *)
Lemma dispatch_unique slots l :
  StronglySorted (cmp_le (slot_key seed)) l -> l ≡ₚ slots ->
  dispatch Randomized seed slots = l.
Proof.
  intros Hl Hp. eapply (sorted_unique (slot_key seed)); [apply slot_key_inj|apply dispatch_sorted|done|].
  by rewrite dispatch_perm, Hp.
Qed.

Lemma dispatch_le slots i j s t :
  (i < j)%nat -> dispatch Randomized seed slots !! i = Some s ->
  dispatch Randomized seed slots !! j = Some t -> cmp_le (slot_key seed) s t.
Proof.
  intros Hij Hi Hj. exact (StronglySorted_lookup_lt _ _ _ _ _ _ (dispatch_sorted slots) Hi Hj Hij).
Qed.

(** The order of the keys restricted to their leading components. *)
Definition block_order (s : SchedulingSlot) :=
  (derive_block_scheduling_priority seed (ss_comparison_block s), ss_comparison_block s).
Lemma slot_le_block s t : cmp_le (slot_key seed) s t -> cmp_le block_order s t.
Proof.
  unfold cmp_le, slot_key, block_order. rewrite !cmp_pair_unfold.
  destruct (cmp (derive_block_scheduling_priority _ _) _); [|done..]. cbn [then_with].
  by destruct (cmp (ss_comparison_block s) (ss_comparison_block t)).
Qed.
Lemma slot_le_round s t :
  cmp_le (slot_key seed) s t -> ss_comparison_block s = ss_comparison_block t ->
  (ss_observation_round s <= ss_observation_round t)%Z.
Proof.
  unfold cmp_le, slot_key. rewrite !cmp_pair_unfold. intros Hle Hb.
  rewrite Hb, !cmp_refl in Hle. cbn [then_with] in Hle.
  change (cmp (ss_observation_round s) (ss_observation_round t))
    with (ss_observation_round s ?= ss_observation_round t)%Z in Hle.
  unfold Z.le. by destruct (ss_observation_round s ?= ss_observation_round t)%Z.
Qed.
End DispatchLemmas.

(** C29: every measured slot is dispatched exactly once; sequential order is the
    caller's; randomized order depends neither on the caller's order nor on
    which other members are selected: any arrangement of a selected subset is
    dispatched in the order those slots have in the whole run.  Its comparable
    measurements (one comparison block) run back to back, and their rounds
    never go backwards. *)
Theorem dispatch_spec `{ThirdParty} seed slots :
  (forall run_order, schedule_slots run_order seed slots ≡ₚ seq 0 (length slots)) /\
  dispatch Sequential seed slots = slots /\
  (forall members (selected : SchedulingSlot -> bool),
     members ≡ₚ List.filter selected slots ->
     dispatch Randomized seed members
     = List.filter selected (dispatch Randomized seed slots)) /\
  (forall i j k s t u, (i < j < k)%nat ->
     dispatch Randomized seed slots !! i = Some s ->
     dispatch Randomized seed slots !! j = Some t ->
     dispatch Randomized seed slots !! k = Some u ->
     ss_comparison_block s = ss_comparison_block u ->
     ss_comparison_block t = ss_comparison_block s /\
     (ss_observation_round s <= ss_observation_round t <= ss_observation_round u)%Z).
Proof.
  split; [|split; [|split]].
  - intros run_order. apply schedule_slots_perm.
  - apply omap_lookup_seq.
  - intros members selected Hp. apply dispatch_unique.
    + apply sorted_filter, dispatch_sorted.
    + rewrite Hp. by rewrite dispatch_perm.
  - intros i j k s t u [Hij Hjk] Hs Ht Hu Hb.
    pose proof (dispatch_le _ _ _ _ _ _ Hij Hs Ht) as Hst.
    pose proof (dispatch_le _ _ _ _ _ _ Hjk Ht Hu) as Htu.
    assert (block_order seed s = block_order seed t) as Heq.
    { apply cmp_le_antisym; [by apply slot_le_block|].
      apply slot_le_block in Htu. unfold cmp_le, block_order in *. by rewrite Hb. }
    injection Heq as _ Heq. split; [done|].
    split; apply (slot_le_round seed); auto; congruence.
Qed.

Section Witness.
#[local] Existing Instance model.

Definition some_block (rep : Z) : ComparisonBlock := {|
  cb_dataset_instance := from_digest (repeat "d"%char 32);
  cb_problem_configuration := from_digest (repeat "p"%char 32);
  cb_implementation_repetition := rep; cb_measurement_index := 0 |}.
Definition some_slot_of (c : ascii) (rep round : Z) : SchedulingSlot := {|
  ss_observation_round := round; ss_logical_slot := from_digest (repeat c 32);
  ss_comparison_block := some_block rep; ss_scheduling_priority := repeat c 32 |}.
Definition some_seed : DerivedSeedRecord :=
  derive_seed SCHEDULING_ROLE (bytes_of "fields").
Definition some_slots : list SchedulingSlot :=
  [some_slot_of "x" 0 1; some_slot_of "y" 1 0; some_slot_of "z" 0 0].
End Witness.

Lemma dispatch_spec_witness :
  let seed := some_seed in
  let member := some_slot_of "z" 0 0 in
  (@dispatch model Randomized seed [member; some_slot_of "x" 0 1]
   = List.filter (fun s => bool_decide (cb_implementation_repetition (ss_comparison_block s) = 0%Z))
       (@dispatch model Randomized seed some_slots)) /\
  @schedule_slots model Randomized seed some_slots <> [0; 1; 2]%nat.
Proof.
  intros seed member. split; [|vm_compute; discriminate].
  apply (@dispatch_spec model seed some_slots). vm_compute. apply perm_swap.
Defined.
