(* ===== verification/Planning.v ===== *)
(** * The logical plan (src/core/planning.rs, src/core/controls.rs)

    [expand_manifest_logical_plan]: every expanded candidate gets its identities
    and seeds, and every implementation repetition its observation and attempt
    slots.  A loop [0..n] is the list [z_range n]. *)
From S2P Require Import Prelude Json Canonical Identity Profile Records.
From S2P Require Import Manifest Bindings Parameters Compatibility Expansion Scheduling.
From Stdlib Require Import Ascii.

(** ** Controls of the local executor *)

Inductive ControlStatus := Enforced | ControlBestEffort | Unsupported.
#[export] Instance control_status_eq_dec : EqDecision ControlStatus.
Proof. solve_decision. Defined.
Record ControlRecord := {
  control_name : string;
  requested : value;
  required : bool;
  status : ControlStatus;
  scope : string;
}.
Record ControlFailure := { failed_control : string }.

Definition validate_required_controls (controls : list ControlRecord) : result ControlFailure unit :=
  for_each (fun control =>
    ensure (negb (required control && negb (bool_decide (status control = Enforced))))
      {| failed_control := control_name control |}) controls.

Definition local_controls (network required : bool) (cpus threads : option Z)
    (memory : option string) : list ControlRecord :=
  let add name requested status := {| control_name := name; requested := requested;
    required := required; status := status; scope := "worker_lifetime" |} in
  [add "network" (Bool network) (if network then Enforced else Unsupported);
   add "filesystem_isolation" (Bool true) Unsupported;
   add "dataset_immutability" (Bool true) ControlBestEffort;
   add "process_tree" (Bool true) ControlBestEffort;
   add "process_tree_accounting" (Bool true) Unsupported;
   add "private_working_directory" (Bool true) ControlBestEffort]
  ++ option_list ((fun cpus => add "cpus" (json_u64 cpus) Unsupported) <$> cpus)
  ++ option_list ((fun threads => add "threads" (json_u64 threads) Unsupported) <$> threads)
  ++ option_list ((fun memory => add "memory" (Str memory) Unsupported) <$> memory).

Definition local_control_report (policy : ExecutionPolicyRecord) : list ControlRecord :=
  local_controls (ep_network policy)
    match ep_enforcement policy with Required => true | BestEffort => false end
    (ep_cpus policy) (ep_threads policy) (ep_memory policy).
Definition default_local_control_report : list ControlRecord :=
  local_controls false false None None None.

(** ** The plan *)

Inductive CapabilityEvidence := Declared | VerifiedNow | PreviouslyVerified.
Record CapabilityReport := {
  capability : ImplementationCapability;
  evidence : CapabilityEvidence;
}.
(** [CapabilityReport::declared]. *)
Definition declared (c : ImplementationCapability) : CapabilityReport :=
  {| capability := c; evidence := Declared |}.

Abbreviation Identified R := (IdentifiedRecord (identity_type R) R) (only parsing).

Record OneShotSpecificationPlan := {
  sp_specification : Identified OneShotLogicalSpecificationRecord;
  sp_observation_slots : list (Identified LogicalObservationSlotRecord);
  sp_attempt_slots : list (Identified LogicalAttemptSlotRecord);
}.
Record LogicalCandidatePlan := {
  cp_profile_policy : option (Identified ObservationPolicyRecord);
  cp_source : ConfigurationSource;
  cp_dataset_configuration : Identified DatasetConfigurationRecord;
  cp_problem_configuration : Identified ProblemConfigurationRecord;
  cp_implementation_configuration : Identified ImplementationConfigurationRecord;
  cp_implementation_capabilities : list CapabilityReport;
  cp_candidate : Identified LogicalCandidateRecord;
  cp_specifications : list OneShotSpecificationPlan;
}.
Record LogicalExperimentPlan := {
  lp_name : Name;
  lp_scheduling_seed : DerivedSeedRecord;
  lp_execution_policy : Identified ExecutionPolicyRecord;
  lp_observation_policy : Identified ObservationPolicyRecord;
  lp_candidates : list LogicalCandidatePlan;
}.
Record LogicalPlan := { plan_experiments : list LogicalExperimentPlan }.

(** Definition identities by name; [dataset_definitions] is keyed by the
    dataset configuration definition. *)
Record LogicalPlanningCatalog := {
  schema_identities : BTreeMap (RecordId SchemaResource);
  dataset_definitions :
    list (DatasetConfigurationDefinition * RecordId DatasetDefinitionType);
  problem_definitions : BTreeMap (RecordId ProblemDefinitionType);
  implementation_definitions : BTreeMap (RecordId ImplementationDefinitionType);
  environment_definitions : BTreeMap (RecordId EnvironmentDefinitionType);
}.

(** [InvalidControlSchedule] is the [MissingDefinitionIdentity] of kind
    ["control schedule"], whose name is the message of [e]. *)
Inductive LogicalPlanningError :=
  | Control (e : ControlFailure)
  | Configuration (e : ConfigurationExpansionError)
  | MissingDefinitionIdentity (kind name : string)
  | InvalidControlSchedule (e : ControlError)
  | Seed (e : SeedDerivationError)
  | Identity (e : IdentityError).

Definition execution_policy_record (name : Name) (definition : Execution.ExecutionPolicyDefinition)
  : ExecutionPolicyRecord := {|
  ep_name := name;
  ep_cpus := Execution.cpus definition;
  ep_threads := Execution.threads definition;
  ep_memory := Execution.memory definition;
  ep_network := Execution.resolved_network definition;
  ep_worker_reuse := Execution.resolved_worker_reuse definition;
  ep_warmup_runs := Execution.resolved_warmup_runs definition;
  ep_timeout := Execution.timeout definition;
  ep_timing_scope := Execution.resolved_timing_scope definition;
  ep_primary_time := Execution.resolved_primary_time definition;
  ep_run_order := Execution.resolved_run_order definition;
  ep_max_concurrency := Execution.resolved_max_concurrency definition;
  ep_enforcement := Execution.resolved_enforcement definition |}.

Definition observation_policy_record (name : Name) (definition : ObservationPolicyDefinition)
  : result (failure LogicalPlanningError) ObservationPolicyRecord :=
  profile ← match observation_profile definition with
    | Some p => Some <$> match try_from (policy_value (profile_policy p)) with
        | Ok v => Ok v
        | Err _ => Err Panicked
        end
    | None => Ok None
    end;
  Ok {| op_profile := profile; op_name := name; op_kind := observation_policy_kind definition |}.

Definition named_definition_id {t} (definitions : BTreeMap (RecordId t)) (name : Name)
    (kind : string) : result LogicalPlanningError (RecordId t) :=
  ok_or (map_get name definitions) (MissingDefinitionIdentity kind name).

(** [Display for DatasetConfigurationDefinition]. *)
Definition dataset_definition_name (d : DatasetConfigurationDefinition) : string :=
  match d with UnitDataset => "<unit>" | NamedDataset name => name end.

Definition z_range (n : Z) : list Z := map Z.of_nat (seq 0 (Z.to_nat n)).

(** [iter.step_by(n)]: skips [n - 1] elements after each one; panics on 0. *)
Fixpoint skipping {A} (n skip : nat) (l : list A) : list A :=
  match l, skip with
  | [], _ => []
  | x :: l, O => x :: skipping n (n - 1) l
  | _ :: l, S skip => skipping n skip l
  end.
Definition step_by {E A} (n : Z) (l : list A) : result (failure E) (list A) :=
  if (n =? 0)%Z then Err Panicked else Ok (skipping (Z.to_nat n) 0 l).

(** [Map::remove]. *)
Definition map_remove {V} (k : string) (m : BTreeMap V) : BTreeMap V :=
  List.filter (fun kv => negb (String.eqb kv.1 k)) m.

Section Planning.
Context `{ThirdParty}.

Definition identify `{IdentityRecord R} (r : R)
  : result LogicalPlanningError (IdentifiedRecord (identity_type R) R) :=
  map_err Identity (identify_record r).

Definition derive_attempt_scheduling_priority (scheduling_seed : DerivedSeedRecord)
    (specification : RecordId LogicalSpecificationType) (role : AttemptSlotRole) : bytes :=
  sha256 (bytes_of SCHEDULING_PRIORITY_DOMAIN ++ NUL ::
    ds_derivation_digest scheduling_seed ++ NUL ::
    match role with
    | WarmupRole warmup_index =>
        bytes_of "warmup" ++ NUL :: bytes_of (to_string specification) ++ NUL ::
        to_be_bytes warmup_index
    | Measured observation_slot =>
        bytes_of "measured" ++ NUL :: bytes_of (to_string observation_slot)
    end).

(** Identifying one attempt slot: the body of both attempt loops. *)
Definition plan_attempt_slot (scheduling_seed : DerivedSeedRecord)
    (specification : RecordId LogicalSpecificationType) (role : AttemptSlotRole)
  : result LogicalPlanningError (Identified LogicalAttemptSlotRecord) :=
  identify {| la_specification := specification; la_role := role;
    la_scheduling_priority :=
      derive_attempt_scheduling_priority scheduling_seed specification role |}.

Definition plan_observation_slot (specification : RecordId LogicalSpecificationType)
    (controls : option (list value)) (bound measurement_index : Z)
  : result (failure LogicalPlanningError) (Identified LogicalObservationSlotRecord) :=
  fresh ← match controls with
    | Some controls =>
        control ← expect (controls !! Z.to_nat (measurement_index mod bound));
        Ok (Some {| schedule_index := measurement_index mod bound;
                    observation_control := control |})
    | None => Ok None
    end;
  lift (identify {| lo_fresh := fresh; lo_specification := specification;
    lo_measurement_index := match controls with
      | Some _ => measurement_index / bound
      | None => measurement_index
      end |}).

Definition plan_specification (experiment : ExperimentDefinition)
    (candidate : RecordId LogicalCandidateType)
    (dataset_configuration : RecordId DatasetConfigurationType)
    (problem_configuration : RecordId ProblemConfigurationType)
    (implementation_repetition warmup_runs : Z) (scheduling_seed : DerivedSeedRecord)
    (profile_bound : option (Z * ProfileBinding))
  : result (failure LogicalPlanningError) OneShotSpecificationPlan :=
  implementation_seed ← lift (map_err Seed (derive_implementation_seed
    (experiment_seed experiment) dataset_configuration problem_configuration
    implementation_repetition));
  specification ← lift (identify {| ls_candidate := candidate; ls_scientific_budget := NoBudget;
    ls_implementation_repetition := implementation_repetition;
    ls_implementation_seed := implementation_seed |});
  controls ← match profile_bound with
    | Some (bound, FreshProfileBinding binding) =>
        Some <$> lift (map_err InvalidControlSchedule
          (Profile.Control.expand (fresh_schedule binding) bound))
    | _ => Ok None
    end;
  let bound := match controls with
    | Some v => Z.of_nat (length v)
    | None => match profile_bound with Some (bound, _) => bound | None => 1%Z end
    end in
  slot_count ← lift (ok_or (checked_mul_u64 (measurement_repetitions experiment) bound)
    (MissingDefinitionIdentity "observation bound" "too many observation slots"));
  observation_slots ← mapM (plan_observation_slot (id specification) controls bound)
    (z_range slot_count);
  warmups ← lift (mapM (fun warmup_index =>
    plan_attempt_slot scheduling_seed (id specification) (WarmupRole warmup_index))
    (z_range warmup_runs));
  stepped ← step_by match controls with Some _ => 1%Z | None => bound end observation_slots;
  measured ← lift (mapM (fun observation =>
    plan_attempt_slot scheduling_seed (id specification) (Measured (id observation))) stepped);
  Ok {| sp_specification := specification; sp_observation_slots := observation_slots;
        sp_attempt_slots := warmups ++ measured |}.

(** The document that identifies a profile bound to one implementation. *)
Definition profile_document (catalog : LogicalPlanningCatalog) (profile : ProfileDefinition)
    (implementation : Name) (binding : ProfileBinding) : value :=
  let schema := match binding_schema binding ≫= fun s => map_get (sd_path s) (schema_identities catalog) with
    | Some i => id_value i
    | None => Null
    end in
  let fields := map_collect [
    ("policy", policy_value (profile_policy profile));
    ("binding", index (index (profile_declaration_value profile) "implementations") implementation);
    ("instrumentation_schema", schema)] in
  Object match binding with
    | StreamingProfileBinding _ => map_remove "instrumentation_schema" fields
    | FreshProfileBinding _ =>
        map_insert "control_schema" schema (map_remove "instrumentation_schema" fields)
    | BufferedProfileBinding _ => fields
    end.

(** The [profile_policy] of [plan_candidate]. *)
Definition plan_profile_policy (catalog : LogicalPlanningCatalog)
    (experiment : ExperimentDefinition) (policy : ObservationPolicyDefinition)
    (implementation : Name)
  : result (failure LogicalPlanningError) (option (Identified ObservationPolicyRecord)) :=
  match observation_profile policy with
  | Some profile =>
      binding ← expect (map_get implementation (profile_implementations profile));
      document ← lift (map_err (fun e => Identity (CanonicalError (InvalidValue e)))
        (try_from (profile_document catalog profile implementation binding)));
      identified ← lift (identify {| op_profile := Some document;
        op_name := experiment_observation_policy experiment; op_kind := ObserveProfile |});
      Ok (Some identified)
  | None => Ok None
  end.

(** The policy and binding [plan_specification] is called with. *)
Definition profile_bound (policy : ObservationPolicyDefinition) (implementation : Name)
  : result (failure LogicalPlanningError) (option (Z * ProfileBinding)) :=
  match observation_profile policy with
  | Some p =>
      binding ← expect (map_get implementation (profile_implementations p));
      Ok (Some (max_observations (profile_policy p), binding))
  | None => Ok None
  end.

Definition plan_candidate (manifest : Manifest) (catalog : LogicalPlanningCatalog)
    (experiment : ExperimentDefinition) (execution_policy : RecordId ExecutionPolicyType)
    (observation_policy : RecordId ObservationPolicyType) (warmup_runs : Z)
    (scheduling_seed : DerivedSeedRecord) (expanded : ExpandedCandidate)
  : result (failure LogicalPlanningError) LogicalCandidatePlan :=
  let implementation := xi_definition (x_implementation expanded) in
  dataset_definition ← lift (ok_or
    (snd <$> List.find (fun kv => bool_decide (kv.1 = xd_definition (x_dataset expanded)))
       (dataset_definitions catalog))
    (MissingDefinitionIdentity "dataset-definition"
       (dataset_definition_name (xd_definition (x_dataset expanded)))));
  problem_definition ← lift (named_definition_id (problem_definitions catalog)
    (xp_definition (x_problem expanded)) "problem-definition");
  implementation_definition ← lift (named_definition_id (implementation_definitions catalog)
    implementation "implementation-definition");
  environment_definition ← lift (named_definition_id (environment_definitions catalog)
    (xi_environment (x_implementation expanded)) "environment-definition");
  dataset_seed ← lift (map_err Seed (derive_dataset_seed (experiment_seed experiment)
    dataset_definition (xd_parameters (x_dataset expanded))));
  dataset_configuration ← lift (identify {| dc_definition := dataset_definition;
    dc_parameters := xd_parameters (x_dataset expanded); dc_seed := dataset_seed |});
  problem_configuration ← lift (identify {| pc_definition := problem_definition;
    pc_parameters := xp_parameters (x_problem expanded) |});
  implementation_configuration ← lift (identify {| ic_definition := implementation_definition;
    ic_parameters := xi_parameters (x_implementation expanded);
    ic_environment := environment_definition |});
  definition ← expect (map_get implementation (implementations manifest));
  policy ← expect (map_get (experiment_observation_policy experiment)
    (observation_policies manifest));
  profile_policy_record ← plan_profile_policy catalog experiment policy implementation;
  let observation_policy := match profile_policy_record with
    | Some p => id p | None => observation_policy end in
  candidate ← lift (identify {| lc_dataset_configuration := id dataset_configuration;
    lc_problem_configuration := id problem_configuration;
    lc_implementation_configuration := id implementation_configuration;
    lc_execution_policy := execution_policy; lc_observation_policy := observation_policy |});
  specifications ← mapM (fun implementation_repetition =>
    profile_bound ← profile_bound policy implementation;
    plan_specification experiment (id candidate) (id dataset_configuration)
      (id problem_configuration) implementation_repetition warmup_runs scheduling_seed profile_bound)
    (z_range (implementation_repetitions experiment));
  Ok {| cp_profile_policy := profile_policy_record; cp_source := x_source expanded;
        cp_dataset_configuration := dataset_configuration;
        cp_problem_configuration := problem_configuration;
        cp_implementation_configuration := implementation_configuration;
        cp_implementation_capabilities := map declared (id_capabilities definition);
        cp_candidate := candidate; cp_specifications := specifications |}.

(** [debug_assert_eq!] panics in the builds that check it. *)
Definition plan_experiment (manifest : Manifest) (catalog : LogicalPlanningCatalog)
    (experiment : ExperimentDefinition) (expanded : ExpandedExperiment)
  : result (failure LogicalPlanningError) LogicalExperimentPlan :=
  _ ← ensure (bool_decide (experiment_name experiment = expanded_name expanded)) Panicked;
  execution_definition ← expect (map_get (experiment_execution_policy experiment)
    (execution_policies manifest));
  execution_policy ← lift (identify (execution_policy_record
    (experiment_execution_policy experiment) execution_definition));
  _ ← lift (map_err Control
        (validate_required_controls (local_control_report (record execution_policy))));
  observation_definition ← expect (map_get (experiment_observation_policy experiment)
    (observation_policies manifest));
  observation_record ← observation_policy_record (experiment_observation_policy experiment)
    observation_definition;
  observation_policy ← lift (identify observation_record);
  scheduling_seed ← lift (map_err Seed (derive_scheduling_seed (experiment_seed experiment)
    (manifest_name manifest) (experiment_name experiment) SCHEDULING_POLICY_VERSION));
  candidates ← mapM (plan_candidate manifest catalog experiment (id execution_policy)
    (id observation_policy) (ep_warmup_runs (record execution_policy)) scheduling_seed)
    (expanded_candidates expanded);
  Ok {| lp_name := expanded_name expanded; lp_scheduling_seed := scheduling_seed;
        lp_execution_policy := execution_policy; lp_observation_policy := observation_policy;
        lp_candidates := candidates |}.

Definition expand_manifest_logical_plan (pointer : value -> string -> option value)
    (manifest : Manifest) (problem_contracts : BTreeMap ProblemContract)
    (schemas : SchemaCatalog) (catalog : LogicalPlanningCatalog)
  : result (failure LogicalPlanningError) LogicalPlan :=
  expanded_experiments ← lift_err Configuration
    (expand_manifest_configurations pointer manifest problem_contracts schemas);
  experiments ← mapM (fun '(experiment, expanded) =>
    plan_experiment manifest catalog experiment expanded)
    (zip (experiments manifest) expanded_experiments);
  Ok {| plan_experiments := experiments |}.
End Planning.

(** [LogicalPlan::select_experiments]; the error names the undeclared one. *)
Definition select_experiments (plan : LogicalPlan) (names : list string) (default : option Name)
  : result string LogicalPlan :=
  let selected := match names with
    | [] => option_list default
    | _ => names
    end in
  _ ← for_each (fun name =>
        ensure (existsb (fun experiment => String.eqb (lp_name experiment) name)
                  (plan_experiments plan)) name) selected;
  Ok match selected with
    | [] => plan
    | _ => {| plan_experiments := List.filter (fun experiment =>
        existsb (fun name => String.eqb (lp_name experiment) name) selected)
        (plan_experiments plan) |}
    end.
