(* ===== verification/Plans.v ===== *)
(** * The shape of a logical plan (src/core/planning.rs)

    The slots [plan_specification] lays out, and the absence of panics in the
    whole planning pass. *)
From S2P Require Import Prelude Json Canonical Identity Profile Records.
From S2P Require Import RecordIdentity ThirdPartyModel.
From S2P Require Import Manifest Bindings Parameters Compatibility SampleManifest.
From S2P Require Import Expansion Scheduling Planning.
From Stdlib Require Import Ascii Floats.SpecFloat.

(** ** Ranges and strides *)

Lemma z_range_length n : length (z_range n) = Z.to_nat n.
Proof. unfold z_range. by rewrite length_map, length_seq. Qed.

Lemma z_range_lookup n i j : z_range n !! i = Some j <-> (j = Z.of_nat i /\ (i < Z.to_nat n)%nat).
Proof.
  unfold z_range. rewrite list_lookup_fmap_Some. split.
  - intros (k & -> & Hk). apply lookup_seq in Hk as [-> Hi]. split; [lia|done].
  - intros [-> Hi]. exists i. split; [done|]. by apply lookup_seq.
Qed.

Lemma skipping_lookup {A} n skip (l : list A) k :
  (0 < n)%nat -> skipping n skip l !! k = l !! (skip + k * n)%nat.
Proof.
  intros Hn. revert skip k. induction l as [|x l IH]; intros skip k; [done|].
  destruct skip as [|skip]; simpl.
  - destruct k as [|k]; simpl; [done|]. rewrite IH.
    replace (n + k * n)%nat with (S (n - 1 + k * n)) by lia. done.
  - by rewrite IH.
Qed.

Lemma skipping_length {A} n (l : list A) m :
  (0 < n)%nat -> length l = (m * n)%nat -> length (skipping n 0 l) = m.
Proof.
  intros Hn Hl. apply Nat.le_antisymm.
  - apply lookup_ge_None. rewrite skipping_lookup by done. apply lookup_ge_None. lia.
  - destruct m as [|m]; [lia|].
    assert (is_Some (skipping n 0 l !! m)) as [y Hy].
    { rewrite skipping_lookup by done. apply lookup_lt_is_Some. lia. }
    by apply lookup_lt_Some in Hy.
Qed.

(** ** The slots of a specification *)

Section Layout.
Context `{ThirdParty}.

Lemma identify_record_Ok `{IdentityRecord R} (r : R) i :
  identify r = Ok i -> record i = r.
Proof. unfold identify, identify_record. intros Hi. by ok_inv. Qed.

(** The coordinates the [i]-th observation slot is planned at. *)
Definition slot_coordinates (specification : RecordId LogicalSpecificationType)
    (controls : option (list value)) (bound : Z) (i : nat) (r : LogicalObservationSlotRecord) : Prop :=
  lo_specification r = specification /\
  match controls with
  | None => lo_fresh r = None /\ lo_measurement_index r = Z.of_nat i
  | Some controls =>
      lo_measurement_index r = (Z.of_nat i / bound)%Z /\
      exists control, controls !! Z.to_nat (Z.of_nat i mod bound) = Some control /\
        lo_fresh r = Some {| schedule_index := Z.of_nat i mod bound; observation_control := control |}
  end.

Lemma plan_observation_slot_coordinates specification controls bound i slot :
  plan_observation_slot specification controls bound (Z.of_nat i) = Ok slot ->
  slot_coordinates specification controls bound i (record slot).
Proof.
  unfold plan_observation_slot, slot_coordinates. destruct controls as [controls|]; intros Hs.
  - apply bind_Ok in Hs as (fresh & Hf & Hs%lift_Ok%identify_record_Ok).
    apply bind_Ok in Hf as (c & Hc%expect_Ok & [= <-]). rewrite Hs. simpl. eauto.
  - apply bind_Ok in Hs as (fresh & [= <-] & Hs%lift_Ok%identify_record_Ok). by rewrite Hs.
Qed.

Lemma mapM_lookup {E A B} (f : A -> result E B) l k i y :
  mapM f l = Ok k -> k !! i = Some y -> exists x, l !! i = Some x /\ f x = Ok y.
Proof.
  intros Hm Hy. apply mapM_Ok_Forall2 in Hm.
  destruct (Forall2_lookup_r _ _ _ _ _ Hm Hy) as (x & Hx & Hf). eauto.
Qed.

Lemma attempt_slots_Ok {A} seed specification (role : A -> AttemptSlotRole) l slots :
  mapM (fun x => plan_attempt_slot seed specification (role x)) l = Ok slots ->
  length slots = length l /\
  forall k slot, slots !! k = Some slot -> exists x, l !! k = Some x /\
    record slot = {| la_specification := specification; la_role := role x;
      la_scheduling_priority := derive_attempt_scheduling_priority seed specification (role x) |}.
Proof.
  intros Hm. split; [by eapply mapM_length|]. intros k slot Hk.
  destruct (mapM_lookup _ _ _ _ _ Hm Hk) as (x & Hx & Hs%identify_record_Ok). eauto.
Qed.
End Layout.

(** The controls and the slots per repetition [plan_specification] works with. *)
Definition planned_controls (profile_bound : option (Z * ProfileBinding)) : option (list value) :=
  match profile_bound with
  | Some (bound, FreshProfileBinding binding) =>
      match Profile.Control.expand (fresh_schedule binding) bound with
      | Ok controls => Some controls
      | Err _ => None
      end
  | _ => None
  end.
Definition planned_bound (profile_bound : option (Z * ProfileBinding)) : Z :=
  match planned_controls profile_bound with
  | Some controls => Z.of_nat (length controls)
  | None => match profile_bound with Some (bound, _) => bound | None => 1 end
  end.
(** Observation slots per measured attempt. *)
Definition planned_stride (profile_bound : option (Z * ProfileBinding)) : Z :=
  match planned_controls profile_bound with Some _ => 1 | None => planned_bound profile_bound end.

(** The fresh points of a repetition, or its one attempt. *)
Definition attempts_per_repetition (profile_bound : option (Z * ProfileBinding)) : Z :=
  match planned_controls profile_bound with Some _ => planned_bound profile_bound | None => 1 end.

Section LayoutLemmas.
Context `{ThirdParty}.
Context (experiment : ExperimentDefinition) (candidate : RecordId LogicalCandidateType).
Context (dataset : RecordId DatasetConfigurationType) (problem : RecordId ProblemConfigurationType).
Context (repetition warmup_runs : Z) (seed : DerivedSeedRecord).
Context (profile_bound : option (Z * ProfileBinding)).

(** The successful run of [plan_specification], step by step. *)
Lemma plan_specification_inv plan :
  plan_specification experiment candidate dataset problem repetition warmup_runs seed profile_bound
    = Ok plan ->
  exists warmups stepped measured,
    let specification := id (sp_specification plan) in
    let bound := planned_bound profile_bound in
    (measurement_repetitions experiment * bound <= u64_max)%Z /\
    mapM (plan_observation_slot specification (planned_controls profile_bound) bound)
      (z_range (measurement_repetitions experiment * bound)) = Ok (sp_observation_slots plan) /\
    mapM (fun i => plan_attempt_slot seed specification (WarmupRole i)) (z_range warmup_runs)
      = Ok warmups /\
    planned_stride profile_bound <> 0%Z /\
    stepped = skipping (Z.to_nat (planned_stride profile_bound)) 0 (sp_observation_slots plan) /\
    mapM (fun o => plan_attempt_slot seed specification (Measured (id o))) stepped = Ok measured /\
    sp_attempt_slots plan = warmups ++ measured.
Proof.
  unfold plan_specification. intros Hp.
  apply bind_Ok in Hp as (seed0 & _ & Hp). apply bind_Ok in Hp as (sp & _ & Hp).
  apply bind_Ok in Hp as (controls & Hc & Hp).
  assert (controls = planned_controls profile_bound) as ->.
  { unfold planned_controls. destruct profile_bound as [[b [?|?|?]]|]; try by injection Hc.
    destruct (Profile.Control.expand _ _); [by injection Hc|done]. }
  change (match planned_controls profile_bound with
    | Some v => Z.of_nat (length v)
    | None => match profile_bound with Some (bound, _) => bound | None => 1%Z end
    end) with (planned_bound profile_bound) in Hp. cbv zeta in Hp.
  apply bind_Ok in Hp as (count & Hn%lift_Ok%ok_or_Ok & Hp).
  unfold checked_mul_u64 in Hn.
  destruct (measurement_repetitions experiment * planned_bound profile_bound <=? u64_max)%Z
    eqn:Hmax; [|done]. injection Hn as <-. bools.
  apply bind_Ok in Hp as (slots & Hs & Hp). apply bind_Ok in Hp as (warmups & Hw%lift_Ok & Hp).
  apply bind_Ok in Hp as (stepped & Hst & Hp). apply bind_Ok in Hp as (measured & Hm%lift_Ok & Hp).
  injection Hp as <-. exists warmups, stepped, measured. simpl.
  change (match planned_controls profile_bound with Some _ => 1%Z
    | None => planned_bound profile_bound end) with (planned_stride profile_bound) in Hst.
  unfold step_by in Hst. destruct (planned_stride profile_bound =? 0)%Z eqn:E; [done|].
  injection Hst as <-. bools. repeat split; auto.
Qed.

Lemma coordinates_inj specification controls bound i j r :
  (0 <= bound)%Z ->
  slot_coordinates specification controls bound i r ->
  slot_coordinates specification controls bound j r -> i = j.
Proof.
  unfold slot_coordinates. intros Hb [_ Hi] [_ Hj]. destruct controls as [cs|].
  - destruct Hi as (Hi & c & _ & Hc), Hj as (Hj & c' & _ & Hc').
    assert (Z.of_nat i mod bound = Z.of_nat j mod bound)%Z by congruence.
    pose proof (Z.div_mod (Z.of_nat i) bound). pose proof (Z.div_mod (Z.of_nat j) bound).
    destruct (decide (bound = 0)%Z) as [->|]; [rewrite !Zmod_0_r in *; lia|].
    assert (Z.of_nat i / bound = Z.of_nat j / bound)%Z as Heq by congruence.
    rewrite Heq in *. lia.
  - destruct Hi as [_ Hi], Hj as [_ Hj]. lia.
Qed.
End LayoutLemmas.

(** C27: a specification is laid out completely.  It has one observation slot per
    measurement repetition and planned observation (their number fits 64 bits),
    fresh slots carrying the control of their schedule position, and no two
    slots with the same coordinates; its attempt slots are the warm-ups in
    order followed by one measured attempt per fresh point, or per repetition
    otherwise, each pointing at the first observation slot it will fill. *)
Theorem plan_specification_layout `{ThirdParty} experiment candidate dataset problem repetition
    warmup_runs seed profile_bound plan :
  (0 <= measurement_repetitions experiment)%Z -> (0 <= planned_bound profile_bound)%Z ->
  (0 <= warmup_runs)%Z ->
  plan_specification experiment candidate dataset problem repetition warmup_runs seed profile_bound
    = Ok plan ->
  let specification := id (sp_specification plan) in
  let bound := planned_bound profile_bound in
  let slots := sp_observation_slots plan in
  let attempts := record <$> sp_attempt_slots plan in
  Z.of_nat (length slots) = (measurement_repetitions experiment * bound)%Z /\
  (measurement_repetitions experiment * bound <= u64_max)%Z /\
  (forall i slot, slots !! i = Some slot ->
     slot_coordinates specification (planned_controls profile_bound) bound i (record slot)) /\
  NoDup (record <$> slots) /\
  Z.of_nat (length attempts) = (warmup_runs
    + measurement_repetitions experiment * attempts_per_repetition profile_bound)%Z /\
  (forall k a, attempts !! k = Some a ->
     la_specification a = specification /\
     la_scheduling_priority a
       = derive_attempt_scheduling_priority seed specification (la_role a) /\
     if decide (Z.of_nat k < warmup_runs)%Z then la_role a = WarmupRole (Z.of_nat k)
     else exists slot,
       slots !! ((k - Z.to_nat warmup_runs) * Z.to_nat (planned_stride profile_bound))%nat = Some slot /\
       la_role a = Measured (id slot)).
Proof.
  intros Hreps Hbound Hwarm Hplan.
  apply plan_specification_inv in Hplan
    as (warmups & stepped & measured & Hmax & Hs & Hw & Hstride & -> & Hm & Hatt).
  cbv zeta. rewrite Hatt.
  pose proof (mapM_length _ _ _ Hs) as Hlen. rewrite z_range_length in Hlen.
  apply attempt_slots_Ok in Hw as [Hwl Hw]. rewrite z_range_length in Hwl.
  apply attempt_slots_Ok in Hm as [Hml Hm].
  assert (forall i slot, sp_observation_slots plan !! i = Some slot ->
    slot_coordinates (id (sp_specification plan)) (planned_controls profile_bound)
      (planned_bound profile_bound) i (record slot)) as Hcoord.
  { intros i slot Hi. destruct (mapM_lookup _ _ _ _ _ Hs Hi) as (x & Hx & Hslot).
    apply z_range_lookup in Hx as [-> _]. by apply plan_observation_slot_coordinates. }
  split; [lia|]. split; [done|]. split; [done|]. split; [|split].
  - apply NoDup_alt. intros i j r Hi Hj. apply list_lookup_fmap_Some in Hi as (x & -> & Hi).
    apply list_lookup_fmap_Some in Hj as (y & Hr & Hj).
    eapply coordinates_inj; [exact Hbound|by apply Hcoord|]. rewrite Hr. by apply Hcoord.
  - rewrite length_fmap, length_app, Hwl, Hml, Nat2Z.inj_add, Z2Nat.id by done. f_equal.
    assert (0 < Z.to_nat (planned_stride profile_bound))%nat as Hpos.
    { unfold planned_stride in *. destruct (planned_controls profile_bound); lia. }
    rewrite (skipping_length _ _
      (Z.to_nat (measurement_repetitions experiment * attempts_per_repetition profile_bound)));
      [|done|].
    + rewrite Z2Nat.id; [done|]. unfold attempts_per_repetition.
      destruct (planned_controls profile_bound); nia.
    + etrans; [exact Hlen|]. unfold attempts_per_repetition, planned_stride in *.
      destruct (planned_controls profile_bound);
        rewrite <-Z2Nat.inj_mul by (try apply Z.mul_nonneg_nonneg; lia); f_equal; lia.
  - intros k a Ha. rewrite fmap_app in Ha. apply lookup_app_Some in Ha as [Ha|[Hk Ha]];
      apply list_lookup_fmap_Some in Ha as (slot & -> & Ha).
    + destruct (Hw _ _ Ha) as (x & Hx & Hslot). apply z_range_lookup in Hx as [-> Hx].
      rewrite Hslot. simpl. rewrite decide_True by lia. done.
    + rewrite length_fmap, Hwl in *. destruct (Hm _ _ Ha) as (x & Hx & Hslot).
      rewrite Hslot. simpl. rewrite decide_False by lia. split; [done|]. split; [done|].
      exists x. rewrite skipping_lookup in Hx; [done|].
      unfold planned_stride in *. destruct (planned_controls profile_bound); lia.
Qed.

Lemma plan_specification_layout_witness :
  let id32 t := from_digest (t := t) (repeat "i"%char 32) in
  let seed := @derive_seed model SCHEDULING_ROLE (bytes_of "main") in
  let profile_bound := Some (2, sample_binding)%Z in
  exists plan,
    @plan_specification model (sample_experiment "sequence" []) (id32 _) (id32 _) (id32 _) 0 2 seed
      profile_bound = Ok plan /\
    length (sp_observation_slots plan) = 6%nat /\ length (sp_attempt_slots plan) = 8%nat /\
    (Z.of_nat (length (sp_observation_slots plan))
     = measurement_repetitions (sample_experiment "sequence" []) * planned_bound profile_bound)%Z.
Proof.
  intros id32 seed profile_bound.
  destruct (@plan_specification model (sample_experiment "sequence" []) (id32 _) (id32 _) (id32 _)
    0 2 seed profile_bound) as [plan|] eqn:E; [|exfalso; vm_compute in E; discriminate E].
  exists plan. split; [done|].
  destruct (@plan_specification_layout model (sample_experiment "sequence" []) (id32 _) (id32 _)
    (id32 _) 0 2 seed profile_bound plan) as (Hn & _ & _ & _ & Ha & _);
    [vm_compute; discriminate|vm_compute; discriminate|lia|exact E|].
  split; [|split; [|exact Hn]].
  - apply (f_equal Z.to_nat) in Hn. rewrite Nat2Z.id in Hn. rewrite Hn. vm_compute. reflexivity.
  - rewrite length_fmap in Ha. apply (f_equal Z.to_nat) in Ha. rewrite Nat2Z.id in Ha.
    rewrite Ha. vm_compute. reflexivity.
Defined.

(** ** Planning does not panic *)

(** What the parser guarantees of a profile policy: the YAML reader admits only
    numbers of the canonical domain, and the policy was validated. *)
Record profile_parsed (p : ProfilePolicy) : Prop := {
  read_bounds : Forall (fun z => 0 <= z <= MAX_SAFE_INTEGER)%Z
    [max_observations p; max_checkpoint_bytes p; max_trace_points p; max_buffer_bytes p;
     terminal_reserve_bytes p];
  read_thresholds : Forall (fun f => number_accepted (Float f) = true)
    (option_list (threshold p) ++ record_thresholds p);
  read_valid : Policy.validate p = Ok tt;
}.
Definition manifest_parsed (manifest : Manifest) : Prop :=
  Forall (fun entry => forall profile, observation_profile entry.2 = Some profile ->
    profile_parsed (profile_policy profile)) (observation_policies manifest).

Definition accepted (v : value) : Prop := value_numbers number_accepted v = true.
Lemma accepted_u64 z : (0 <= z <= MAX_SAFE_INTEGER)%Z -> accepted (json_u64 z).
Proof.
  intros Hz. unfold accepted, json_u64. simpl. apply andb_true_iff. rewrite !Z.leb_le.
  unfold MAX_SAFE_INTEGER in *. lia.
Qed.
Lemma accepted_f64 f : number_accepted (Float f) = true -> accepted (json_f64 f).
Proof. unfold accepted, json_f64. by destruct (is_finite f). Qed.
Lemma accepted_field {A} key (f : A -> value) o :
  (forall a, o = Some a -> accepted (f a)) -> Forall (fun kv => accepted kv.2) (field_if key f o).
Proof. intros Hf. destruct o as [a|]; simpl; [|constructor]. constructor; [by apply Hf|constructor]. Qed.
Lemma accepted_nonzero z key :
  (0 <= z <= MAX_SAFE_INTEGER)%Z ->
  Forall (fun kv => accepted kv.2) (field_if key json_u64 (nonzero z)).
Proof.
  intros Hz. apply accepted_field. unfold nonzero. intros a Ha.
  destruct (z =? 0)%Z; [done|]. injection Ha as <-. by apply accepted_u64.
Qed.

Lemma policy_value_canonical p : profile_parsed p -> is_ok (try_from (policy_value p)) = true.
Proof.
  intros [Hb Ht _]. change (is_ok (normalize_value (policy_value p)) = true).
  rewrite normalize_value_is_ok. unfold policy_value, object. apply value_numbers_object.
  enough (Forall (fun kv => accepted kv.2) (policy_fields p)) as Hf.
  { apply Forall_forall. intros kv Hkv. rewrite Forall_forall in Hf. apply Hf.
    by apply map_collect_elem. }
  repeat (apply Forall_cons in Hb as [? Hb]). apply Forall_app in Ht as [Ht Hr].
  unfold policy_fields.
  repeat (apply Forall_app; split);
    first [ by apply accepted_nonzero
          | apply accepted_field; intros a Ha
          | constructor; [|constructor] ]; try done.
  - apply accepted_f64. rewrite Ha in Ht. by inversion Ht.
  - unfold nonempty in Ha. destruct (record_thresholds p) as [|x l] eqn:E; [done|].
    injection Ha as <-. unfold accepted. apply value_numbers_array, Forall_map.
    eapply Forall_impl; [exact Hr|]. apply accepted_f64.
  - by apply accepted_u64.
Qed.

Section NoPanic.
Context `{ThirdParty} (pointer : value -> string -> option value).
Context (manifest : Manifest) (contracts : BTreeMap ProblemContract) (schemas : SchemaCatalog).
Context (catalog : LogicalPlanningCatalog).
Hypothesis Hparsed : manifest_parsed manifest.

Lemma parsed_profile name policy profile :
  map_get name (observation_policies manifest) = Some policy ->
  observation_profile policy = Some profile -> profile_parsed (profile_policy profile).
Proof.
  intros Hp%map_get_elem Hprofile. unfold manifest_parsed in Hparsed.
  rewrite Forall_forall in Hparsed. exact (Hparsed _ Hp _ Hprofile).
Qed.

Lemma observation_policy_record_no_panic name policy :
  map_get name (observation_policies manifest) = Some policy ->
  no_panic (observation_policy_record name policy).
Proof.
  intros Hp. unfold observation_policy_record. apply no_panic_bind; [|auto with panics].
  destruct (observation_profile policy) as [profile|] eqn:E; [|done].
  pose proof (policy_value_canonical _ (parsed_profile _ _ _ Hp E)) as Hok.
  by destruct (try_from _).
Qed.

Lemma plan_observation_slots_no_panic specification controls bound reps :
  match controls with Some cs => bound = Z.of_nat (length cs) | None => True end ->
  no_panic (mapM (plan_observation_slot specification controls bound) (z_range (reps * bound))).
Proof.
  intros Hb. apply no_panic_mapM, Forall_forall. intros x (i & Hi)%list_elem_of_lookup.
  apply z_range_lookup in Hi as [-> Hi]. unfold plan_observation_slot.
  apply no_panic_bind; [|auto with panics].
  destruct controls as [cs|]; [|done]. apply no_panic_bind; [|auto with panics].
  apply no_panic_expect, lookup_lt_is_Some.
  assert (0 < bound)%Z by (destruct (decide (bound = 0)%Z) as [->|]; [rewrite Z.mul_0_r in Hi|]; lia).
  pose proof (Z.mod_pos_bound (Z.of_nat i) bound). lia.
Qed.

(** The bound of the profile is positive, so stepping by it never panics. *)
Lemma plan_specification_no_panic experiment candidate dataset problem repetition warmup_runs seed
    profile_bound :
  match profile_bound with Some (bound, _) => bound <> 0%Z | None => True end ->
  no_panic (plan_specification experiment candidate dataset problem repetition warmup_runs seed
    profile_bound).
Proof.
  intros Hb. unfold plan_specification.
  apply no_panic_bind; [auto with panics|]. intros seed0 _.
  apply no_panic_bind; [auto with panics|]. intros specification _.
  apply no_panic_bind.
  { destruct profile_bound as [[b [?|?|?]]|]; auto with panics. }
  intros controls Hc. cbv zeta.
  apply no_panic_bind; [auto with panics|]. intros count Hn%lift_Ok%ok_or_Ok.
  assert (count = measurement_repetitions experiment *
    match controls with
    | Some v => Z.of_nat (length v)
    | None => match profile_bound with Some (bound, _) => bound | None => 1 end
    end)%Z as ->.
  { unfold checked_mul_u64 in Hn. by destruct (_ <=? _)%Z; simplify_eq. }
  apply no_panic_bind.
  { apply plan_observation_slots_no_panic. by destruct controls. }
  intros slots _. apply no_panic_bind; [auto with panics|]. intros warmups _.
  apply no_panic_bind; [|intros stepped _; apply no_panic_bind; auto with panics].
  unfold step_by. destruct controls as [cs|]; [done|].
  destruct profile_bound as [[b binding]|]; [|done].
  by destruct (b =? 0)%Z eqn:E; bools.
Qed.

Lemma plan_candidate_no_panic experiment execution_policy observation_policy warmup_runs seed
    expanded :
  experiment_resolved manifest contracts experiment ->
  xi_definition (x_implementation expanded) ∈ experiment_implementations experiment ->
  no_panic (plan_candidate manifest catalog experiment execution_policy observation_policy
    warmup_runs seed expanded).
Proof.
  intros Hr Hin. pose proof (resolved_implementations _ _ _ Hr) as Hi.
  rewrite Forall_forall in Hi. specialize (Hi _ Hin).
  destruct (resolved_observation_policy _ _ _ Hr) as (policy & Hpolicy & Hbindings).
  assert (forall profile, observation_profile policy = Some profile ->
    is_Some (map_get (xi_definition (x_implementation expanded))
      (profile_implementations profile))) as Hb.
  { intros profile E. specialize (Hbindings _ E). rewrite Forall_forall in Hbindings. auto. }
  unfold plan_candidate. cbv zeta.
  do 8 (apply no_panic_bind; [auto with panics|]; intros ? _).
  apply no_panic_bind; [auto with panics|]. intros definition _.
  rewrite Hpolicy. simpl.
  apply no_panic_bind.
  { unfold plan_profile_policy. destruct (observation_profile policy); [|done].
    apply no_panic_bind; [auto with panics|]. intros b _.
    do 2 (apply no_panic_bind; [auto with panics|]; intros ? _). done. }
  intros profile_record _. apply no_panic_bind; [auto with panics|]. intros candidate _.
  apply no_panic_bind; [|auto with panics].
  apply no_panic_mapM, Forall_forall. intros i _. unfold profile_bound.
  destruct (observation_profile policy) as [profile|] eqn:E.
  - destruct (Hb profile eq_refl) as [b ->]. simpl. apply plan_specification_no_panic.
    pose proof (read_valid _ (parsed_profile _ _ _ Hpolicy E)) as Hv.
    unfold Policy.validate in Hv. intros Hz. by rewrite Hz in Hv.
  - simpl. by apply plan_specification_no_panic.
Qed.

(** A candidate of the matrix uses an implementation the experiment selects. *)
Lemma source_matrix_implementation problem source dps pps ips c :
  c ∈ source_matrix problem source dps pps ips ->
  xi_definition (x_implementation c) ∈ (fun entry => entry.1.1) <$> ips.
Proof.
  intros Hc%list_elem_of_In. unfold source_matrix in Hc.
  apply in_flat_map in Hc as ([dd ds] & _ & Hc). apply in_flat_map in Hc as (dp & _ & Hc).
  apply in_flat_map in Hc as (pp & _ & Hc). apply in_flat_map in Hc as ([[i e] ps] & Hi & Hc).
  apply in_map_iff in Hc as (ip & <- & _). simpl. apply list_elem_of_fmap.
  exists (i, e, ps). split; [done|]. by apply list_elem_of_In.
Qed.

Lemma matrix_implementation contract experiment member l c :
  matrix manifest contract schemas experiment member = Ok l -> c ∈ l ->
  xi_definition (x_implementation c) ∈ experiment_implementations experiment.
Proof.
  unfold matrix. intros (pps & _ & Hm)%bind_Ok Hc. apply bind_Ok in Hm as (dps & _ & Hm).
  apply bind_Ok in Hm as (ips & Hips & [= <-]).
  apply source_matrix_implementation in Hc. unfold source_implementation_parameters in Hips.
  assert ((fun entry => entry.1.1) <$> ips = experiment_implementations experiment) as <-; [|done].
  apply mapM_Ok_Forall2 in Hips. revert Hips. generalize (experiment_implementations experiment).
  clear. intros names Hips. induction Hips as [|n x names ips Hx _ IH]; [done|]. rewrite fmap_cons, IH.
  f_equal. apply bind_Ok in Hx as (d & _ & Hx). by apply bind_Ok in Hx as (ps & _ & [= <-]).
Qed.

Lemma expanded_implementations contract experiment expanded c :
  expand_experiment manifest contract schemas experiment = Ok expanded ->
  c ∈ expanded_candidates expanded ->
  xi_definition (x_implementation c) ∈ experiment_implementations experiment.
Proof.
  rewrite expand_experiment_members. intros (st & (ls & Hls & Hins)%run_members_Ok & [= <-])%bind_Ok.
  apply (insert_all_records experiment _ _ _ _ records_nil) in Hins as (Hst & _). simpl in Hst.
  simpl. rewrite Hst. intros (l & Hl & Hc)%list_elem_of_In%in_concat.
  apply list_elem_of_In, list_elem_of_lookup in Hl as [i Hi].
  destruct (mapM_lookup _ _ _ _ _ Hls Hi) as (m & _ & Hm).
  eapply matrix_implementation; [done|]. by apply list_elem_of_In.
Qed.

Lemma expanded_experiment_name contract experiment expanded :
  expand_experiment manifest contract schemas experiment = Ok expanded ->
  expanded_name expanded = experiment_name experiment.
Proof. by rewrite expand_experiment_members; intros (st & _ & [= <-])%bind_Ok. Qed.

Lemma plan_experiment_no_panic contract experiment expanded :
  experiment_resolved manifest contracts experiment ->
  expand_experiment manifest contract schemas experiment = Ok expanded ->
  no_panic (plan_experiment manifest catalog experiment expanded).
Proof.
  intros Hr Hx. unfold plan_experiment.
  rewrite (expanded_experiment_name _ _ _ Hx), bool_decide_eq_true_2 by done. simpl.
  apply no_panic_bind; [apply no_panic_expect, (resolved_execution_policy _ _ _ Hr)|].
  intros definition _. do 2 (apply no_panic_bind; [auto with panics|]; intros ? _).
  destruct (resolved_observation_policy _ _ _ Hr) as (policy & Hpolicy & _).
  rewrite Hpolicy. simpl.
  apply no_panic_bind; [by eapply observation_policy_record_no_panic|]. intros r _.
  do 2 (apply no_panic_bind; [auto with panics|]; intros ? _).
  apply no_panic_bind; [|auto with panics].
  apply no_panic_mapM, Forall_forall. intros c Hc.
  apply plan_candidate_no_panic; [done|]. by eapply expanded_implementations.
Qed.
End NoPanic.

(** C26: planning a parsed manifest never panics, whatever the contracts, the
    schemas and the identity catalog are: every map it indexes and every value
    it unwraps was established by the validation passes that run first.  A plan
    it returns has the experiments of the manifest in their order. *)
Theorem planning_never_panics `{ThirdParty} pointer manifest contracts schemas catalog :
  manifest_parsed manifest ->
  no_panic (expand_manifest_logical_plan pointer manifest contracts schemas catalog) /\
  (forall plan,
     expand_manifest_logical_plan pointer manifest contracts schemas catalog = Ok plan ->
     lp_name <$> plan_experiments plan = experiment_name <$> experiments manifest).
Proof.
  intros Hparsed. unfold expand_manifest_logical_plan. split.
  - apply no_panic_bind; [apply no_panic_lift_err, expand_manifest_no_panic|].
    intros expanded (Hr & Hx)%map_err_Ok%expand_manifest_Ok.
    apply no_panic_bind; [|auto with panics]. apply no_panic_mapM.
    induction Hx as [|e x es xs [contract Hx] _ IH]; simpl; [constructor|].
    apply Forall_cons in Hr as [Hr Hrs]. constructor; [|auto].
    by eapply plan_experiment_no_panic.
  - intros plan (expanded & (_ & Hx)%map_err_Ok%expand_manifest_Ok & Hp)%bind_Ok.
    apply bind_Ok in Hp as (ps & Hm & [= <-]). simpl. clear Hparsed.
    revert ps Hm. induction Hx as [|e x es xs [contract Hx] _ IH]; simpl; intros ps Hm.
    + by injection Hm as <-.
    + apply bind_Ok in Hm as (p & Hp & Hm). apply bind_Ok in Hm as (ps' & Hm & [= <-]).
      rewrite fmap_cons, (IH _ Hm). f_equal. apply expanded_experiment_name in Hx. rewrite <-Hx.
      unfold plan_experiment in Hp.
      repeat (apply bind_Ok in Hp as (? & _ & Hp)). by injection Hp as <-.
Qed.

Definition sample_catalog : LogicalPlanningCatalog := {|
  schema_identities := [("problem.json", from_digest (repeat "s"%char 32))];
  dataset_definitions := [(NamedDataset "data", from_digest (repeat "d"%char 32))];
  problem_definitions := [("fit", from_digest (repeat "p"%char 32))];
  implementation_definitions := [("slow", from_digest (repeat "i"%char 32))];
  environment_definitions := [("local", from_digest (repeat "e"%char 32))] |}.

Lemma planning_never_panics_witness :
  let manifest := sample_manifest [sample_experiment "sequence" []] in
  let plan := @expand_manifest_logical_plan model (fun _ _ => None) manifest
    [("fit", sample_contract)] sample_schemas sample_catalog in
  manifest_parsed manifest /\ no_panic plan /\ is_ok plan = true.
Proof.
  intros manifest plan. assert (manifest_parsed manifest) as Hp.
  { constructor; [|constructor; [|constructor]]; intros profile E; [discriminate E|].
    injection E as <-. split; [|constructor|vm_compute; reflexivity].
    repeat constructor; vm_compute; discriminate. }
  split; [exact Hp|]. split; [|vm_compute; reflexivity].
  apply (@planning_never_panics model _ manifest _ _ _ Hp).
Defined.
