(* ===== verification/Framing.v ===== *)
(** * Protocol framing (src/protocol/framing.rs)

    The bounded JSON-Lines reader between the executor and a worker, and the
    correlation of responses with the pending request.  The byte stream is the
    sequence of chunks the operating system delivers; serde_json's grammar is a
    parameter, as in [Canonical.v]. *)
From S2P Require Import Prelude Json Canonical Identity Manifest.
From Stdlib Require Import Ascii Floats.SpecFloat.

Definition MAX_LINE_BYTES : Z := 1024 * 1024.
Definition newline : ascii := "010"%char.

Inductive FrameError :=
  | Io (e : string)
  | LineTooLong (limit : Z)
  | EarlyEof (received : Z)
  | ByteOrderMark
  | InvalidUtf8 (valid_up_to : Z)
  | DuplicateKey (key : string)
  | MalformedJson.

(** ** The buffered reader

    One [read] of the underlying stream: the bytes it delivered, none at the
    end of the stream, or the error it reported. *)
Abbreviation chunk := (result string bytes) (only parsing).

(** [BufReader]: what [fill_buf] has read and [consume] has not yet taken. *)
Record FrameReader := {
  buffer : bytes;
  pending : list (result string bytes);
}.

Definition length_z {A} (l : list A) : Z := Z.of_nat (length l).

(** [iter().position(|byte| *byte == b'\n')]. *)
Fixpoint position (l : bytes) : option nat :=
  match l with
  | [] => None
  | c :: l => if Ascii.eqb c newline then Some O else S <$> position l
  end.

(** [usize] subtraction panics when it underflows. *)
Definition checked_sub {E} (a b : Z) : result (failure E) Z :=
  if (a <? b)%Z then Err Panicked else Ok (a - b)%Z.

Inductive progress :=
  | Finished (frame : option bytes) (consumed : nat)
  | More (line : bytes).

(** The body of the loop of [read_line] on a filled buffer. *)
Definition examine (line available : bytes) : result (failure FrameError) progress :=
  match available with
  | [] =>
      match line with
      | [] => Ok (Finished None 0)
      | _ => Err (Returned (EarlyEof (length_z line)))
      end
  | _ =>
      match position available with
      | Some newline =>
          let consumed := S newline in
          if (MAX_LINE_BYTES <? length_z line + Z.of_nat consumed)%Z
          then Err (Returned (LineTooLong MAX_LINE_BYTES))
          else Ok (Finished (Some (line ++ take newline available)) consumed)
      | None =>
          remaining ← checked_sub (MAX_LINE_BYTES - 1) (length_z line);
          if (remaining <? length_z available)%Z
          then Err (Returned (LineTooLong MAX_LINE_BYTES))
          else Ok (More (line ++ available))
      end
  end.

(** The loop with an empty buffer; each round fills it with the next chunk. *)
Fixpoint fill_line (line : bytes) (pending : list (result string bytes))
  : result (failure FrameError) (option bytes) * FrameReader :=
  match pending with
  | [] =>
      (match examine line [] with
       | Ok (Finished frame _) => Ok frame
       | Ok (More _) => Ok None
       | Err e => Err e
       end, {| buffer := []; pending := [] |})
  | Err e :: pending => (Err (Returned (Io e)), {| buffer := []; pending := pending |})
  | Ok available :: pending =>
      match examine line available with
      | Ok (Finished frame consumed) =>
          (Ok frame, {| buffer := drop consumed available; pending := pending |})
      | Ok (More line) => fill_line line pending
      | Err e => (Err e, {| buffer := available; pending := pending |})
      end
  end.

Definition read_line (r : FrameReader)
  : result (failure FrameError) (option bytes) * FrameReader :=
  match buffer r with
  | [] => fill_line [] (pending r)
  | available =>
      match examine [] available with
      | Ok (Finished frame consumed) =>
          (Ok frame, {| buffer := drop consumed available; pending := pending r |})
      | Ok (More line) => fill_line line (pending r)
      | Err e => (Err e, r)
      end
  end.

(** ** Decoding a line *)

Definition in_range (lo hi : nat) (c : ascii) : bool :=
  ((lo <=? nat_of_ascii c) && (nat_of_ascii c <=? hi))%nat.
Definition continuation : ascii -> bool := in_range 128 191.

(** [str::from_utf8]: [Some n] when [n] is the length of the valid prefix of
    invalid input. *)
Fixpoint utf8_error (valid_up_to : Z) (b : bytes) : option Z :=
  match b with
  | [] => None
  | x :: b1 =>
      if in_range 0 127 x then utf8_error (valid_up_to + 1) b1
      else match b1 with
      | [] => Some valid_up_to
      | y :: b2 =>
          if in_range 194 223 x && continuation y then utf8_error (valid_up_to + 2) b2
          else match b2 with
          | [] => Some valid_up_to
          | z :: b3 =>
              if (in_range 224 224 x && in_range 160 191 y
                  || (in_range 225 236 x || in_range 238 239 x) && continuation y
                  || in_range 237 237 x && in_range 128 159 y) && continuation z
              then utf8_error (valid_up_to + 3) b3
              else match b3 with
              | [] => Some valid_up_to
              | w :: b4 =>
                  if (in_range 240 240 x && in_range 144 191 y
                      || in_range 241 243 x && continuation y
                      || in_range 244 244 x && in_range 128 143 y)
                     && continuation z && continuation w
                  then utf8_error (valid_up_to + 4) b4
                  else Some valid_up_to
              end
          end
      end
  end.

Definition byte_order_mark : bytes := ["239"; "187"; "191"]%char.
Definition starts_with (prefix l : bytes) : bool := bool_decide (take (length prefix) l = prefix).

Module Unique.
(** [UniqueValueVisitor]: a repeated key is reported before its value is read. *)
Definition visit_i64 (z : Z) : result FrameError value := Ok (Number (number_of_i64 z)).
Definition visit_u64 (n : N) : result FrameError value := Ok (Number (PosInt (Z.of_N n))).
Definition visit_f64 (f : spec_float) : result FrameError value :=
  Number <$> ok_or (number_from_f64 f) MalformedJson.

Definition visit_seq (visit : raw -> result FrameError value) :=
  fix go (values : list value) (items : list raw) (closed : bool) : result FrameError value :=
    match items with
    | [] => if closed then Ok (Array values) else Err MalformedJson
    | r :: items => v ← visit r; go (values ++ [v]) items closed
    end.

Definition visit_map (visit : raw -> result FrameError value) :=
  fix go (values : list (string * value)) (entries : list (string * raw)) (closed : bool)
    : result FrameError value :=
    match entries with
    | [] => if closed then Ok (Object values) else Err MalformedJson
    | (key, r) :: entries =>
        if contains_key key values then Err (DuplicateKey key)
        else v ← visit r; go (map_insert key v values) entries closed
    end.

Fixpoint visit (r : raw) : result FrameError value :=
  match r with
  | RawNull => Ok Null
  | RawBool b => Ok (Bool b)
  | RawI64 z => visit_i64 z
  | RawU64 n => visit_u64 n
  | RawF64 f => visit_f64 f
  | RawStr s => Ok (Str s)
  | RawSeq items closed => visit_seq visit [] items closed
  | RawMap entries closed => visit_map visit [] entries closed
  | RawBad => Err MalformedJson
  end.
End Unique.

Section Decoding.
(** What serde_json feeds to the visitor for a text, and whether only
    whitespace follows it. *)
Context (document : bytes -> raw * bool).

Definition parse_unique_json (input : bytes) : result FrameError value :=
  let '(r, at_end) := document input in
  v ← Unique.visit r;
  _ ← ensure at_end MalformedJson;
  Ok v.

Definition parse_frame (input : bytes) : result FrameError value :=
  _ ← ensure (negb (starts_with byte_order_mark input)) ByteOrderMark;
  _ ← match utf8_error 0 input with
      | Some valid_up_to => Err (InvalidUtf8 valid_up_to)
      | None => Ok tt
      end;
  parse_unique_json input.

Definition read_frame (r : FrameReader)
  : result (failure FrameError) (option value) * FrameReader :=
  let '(line, r) := read_line r in
  (bytes ← line;
   match bytes with
   | None => Ok None
   | Some bytes => Some <$> lift (parse_frame bytes)
   end, r).
End Decoding.

(** ** Correlation *)

Record ResponseCorrelator := { expected_id : option string }.
Inductive CorrelationError :=
  | InvalidRequestId
  | MismatchedRequestId (expected actual : string)
  | ExtraResponse (id : string).

Definition new_correlator (expected_id : string) : ResponseCorrelator :=
  {| expected_id := Some expected_id |}.
(** The correlator is changed only by an accepted response. *)
Definition accept (c : ResponseCorrelator) (response : value)
  : result CorrelationError ResponseCorrelator :=
  actual ← ok_or ((as_object response ≫= map_get "id") ≫= as_str) InvalidRequestId;
  expected ← ok_or (expected_id c) (ExtraResponse actual);
  _ ← ensure (String.eqb actual expected) (MismatchedRequestId expected actual);
  Ok {| expected_id := None |}.
Definition is_complete (c : ResponseCorrelator) : bool :=
  match expected_id c with None => true | Some _ => false end.

(** ** What the reader returns *)

(** The bytes still to be read, when the stream reports no error. *)
Definition delivered (pending : list (result string bytes)) : bytes :=
  concat (omap (fun c => match c with Ok b => Some b | Err _ => None end) pending).
Definition content (r : FrameReader) : bytes := buffer r ++ delivered (pending r).
(** A stream that delivers bytes without error until it ends. *)
Definition fed (pending : list (result string bytes)) : Prop :=
  Forall (fun c => exists b, c = Ok b /\ b <> []) pending.

(** The frame at the front of a byte stream. *)
Definition frame_of (stream : bytes) : result (failure FrameError) (option bytes) :=
  match position stream with
  | Some p =>
      if (MAX_LINE_BYTES <? Z.of_nat (S p))%Z then Err (Returned (LineTooLong MAX_LINE_BYTES))
      else Ok (Some (take p stream))
  | None =>
      if (MAX_LINE_BYTES - 1 <? length_z stream)%Z then Err (Returned (LineTooLong MAX_LINE_BYTES))
      else match stream with [] => Ok None | _ => Err (Returned (EarlyEof (length_z stream))) end
  end.
Definition after_frame (stream : bytes) : bytes :=
  match position stream with Some p => drop (S p) stream | None => [] end.

Lemma position_app a b :
  position (a ++ b) = match position a with
    | Some p => Some p
    | None => Nat.add (length a) <$> position b
    end.
Proof.
  induction a as [|c a IH]; simpl; [by destruct (position b)|].
  destruct (Ascii.eqb c newline); [done|]. rewrite IH.
  destruct (position a); simpl; [done|]. by destruct (position b).
Qed.
Lemma position_lt l p : position l = Some p -> (p < length l)%nat.
Proof.
  revert p. induction l as [|c l IH]; intros p; simpl; [done|].
  destruct (Ascii.eqb c newline); [intros [= <-]; lia|].
  destruct (position l) as [q|]; [|done]. intros [= <-]. specialize (IH q eq_refl). lia.
Qed.

(** One examination of a nonempty buffer, against the frame at the front of the
    line read so far, the buffer and whatever follows. *)
Lemma examine_spec line available rest :
  available <> [] -> position line = None -> (length_z line < MAX_LINE_BYTES)%Z ->
  match examine line available with
  | Ok (Finished frame consumed) =>
      frame_of (line ++ available ++ rest) = Ok frame /\ is_Some frame /\
      after_frame (line ++ available ++ rest) = drop consumed available ++ rest
  | Ok (More line') =>
      line' = line ++ available /\ position line' = None /\ (length_z line' < MAX_LINE_BYTES)%Z
  | Err e => frame_of (line ++ available ++ rest) = Err e
  end.
Proof.
  intros Hne Hline Hlen. unfold examine. destruct available as [|a0 a1]; [done|].
  set (available := a0 :: a1) in *. clearbody available. clear a0 a1.
  unfold frame_of, after_frame, length_z in *.
  rewrite !position_app, Hline. destruct (position available) as [p|] eqn:Hp.
  - cbn [fmap option_fmap option_map]. apply position_lt in Hp as Hlt.
    replace (Z.of_nat (S (length line + p))) with (Z.of_nat (length line) + Z.of_nat (S p))%Z by lia.
    destruct (_ <? _)%Z eqn:E; [done|].
    rewrite take_app_add, take_app_le by lia. split; [done|]. split; [done|].
    rewrite <-Nat.add_succ_r, drop_app_add, drop_app_le by lia. done.
  - unfold checked_sub. rewrite (proj2 (Z.ltb_ge _ _)) by lia. cbn.
    destruct (_ <? _)%Z eqn:E; bools.
    + destruct (position rest) as [q|]; cbn [fmap option_fmap option_map].
      * rewrite (proj2 (Z.ltb_lt _ _)); [done|]. lia.
      * rewrite (proj2 (Z.ltb_lt _ _)); [done|]. rewrite !length_app. lia.
    + split; [done|]. rewrite position_app, Hline, Hp, length_app. split; [done|]. lia.
Qed.

Lemma delivered_cons b pending : delivered (Ok b :: pending) = b ++ delivered pending.
Proof. done. Qed.

Lemma fill_line_spec line pending :
  fed pending -> position line = None -> (length_z line < MAX_LINE_BYTES)%Z ->
  (fill_line line pending).1 = frame_of (line ++ delivered pending) /\
  (forall frame, (fill_line line pending).1 = Ok (Some frame) ->
     content (fill_line line pending).2 = after_frame (line ++ delivered pending) /\
     fed (Framing.pending (fill_line line pending).2)).
Proof.
  intros Hfed. revert line. induction Hfed as [|c pending (b & -> & Hb) Hfed IH]; intros line Hline Hlen.
  - unfold delivered. simpl. rewrite app_nil_r. unfold frame_of. rewrite Hline.
    rewrite (proj2 (Z.ltb_ge _ _)) by lia. by destruct line.
  - rewrite delivered_cons. pose proof (examine_spec line b (delivered pending) Hb Hline Hlen) as He.
    cbn [fill_line]. destruct (examine line b) as [[frame consumed|line']|e].
    + destruct He as (Hf & _ & Ha). cbn. split; [done|]. intros _ _. by rewrite Ha.
    + destruct He as (-> & Hl & Hn). rewrite app_assoc. by apply IH.
    + cbn. by rewrite He.
Qed.

Lemma read_line_frame r :
  fed (pending r) ->
  (read_line r).1 = frame_of (content r) /\
  (forall frame, (read_line r).1 = Ok (Some frame) ->
     content (read_line r).2 = after_frame (content r) /\ fed (pending (read_line r).2)).
Proof.
  intros Hfed. assert (length_z (@nil ascii) < MAX_LINE_BYTES)%Z as H0 by done.
  unfold read_line, content. destruct (buffer r) as [|b0 b1] eqn:Hb.
  - by apply (fill_line_spec []).
  - set (b := b0 :: b1) in *.
    pose proof (examine_spec [] b (delivered (pending r)) ltac:(done) eq_refl H0) as He.
    cbn [app] in He. destruct (examine [] b) as [[frame consumed|line']|e].
    + destruct He as (Hf & _ & Ha). split; [done|]. intros _ _. by rewrite Ha.
    + destruct He as (-> & Hl & Hn). by apply fill_line_spec.
    + by rewrite He.
Qed.

(** Reading [n] lines, one call after the other. *)
Fixpoint read_lines (n : nat) (r : FrameReader)
  : result (failure FrameError) (list (option bytes)) * FrameReader :=
  match n with
  | O => (Ok [], r)
  | S n =>
      let '(line, r) := read_line r in
      match line with
      | Ok line => let '(lines, r) := read_lines n r in (cons line <$> lines, r)
      | Err e => (Err e, r)
      end
  end.

Definition framed (lines : list bytes) : bytes := concat (map (fun l => l ++ [newline]) lines).

Lemma frame_of_line line rest :
  position line = None -> (length_z line < MAX_LINE_BYTES)%Z ->
  frame_of (line ++ newline :: rest) = Ok (Some line) /\ after_frame (line ++ newline :: rest) = rest.
Proof.
  intros Hl Hn. unfold frame_of, after_frame, length_z in *. rewrite position_app, Hl. cbn.
  rewrite Nat.add_0_r. rewrite (proj2 (Z.ltb_ge _ _)) by lia. rewrite take_app_length. split; [done|].
  rewrite <-Nat.add_1_r, drop_app_add. done.
Qed.

Lemma read_lines_framed lines r :
  fed (pending r) -> content r = framed lines ->
  Forall (fun l => position l = None /\ (length_z l < MAX_LINE_BYTES)%Z) lines ->
  (read_lines (S (length lines)) r).1 = Ok (map Some lines ++ [None]).
Proof.
  intros Hfed Hc Hl. revert r Hfed Hc. induction Hl as [|l lines [Hp Hn] _ IH]; intros r Hfed Hc.
  - destruct (read_line_frame r Hfed) as [Hr _]. rewrite Hc in Hr. simpl.
    destruct (read_line r) as [line r']. simpl in Hr. by rewrite Hr.
  - destruct (read_line_frame r Hfed) as [Hr Hrest].
    assert (framed (l :: lines) = l ++ newline :: framed lines) as Hfr
      by (unfold framed; simpl; by rewrite <-app_assoc).
    rewrite Hc, Hfr in Hr, Hrest.
    destruct (frame_of_line l (framed lines) Hp Hn) as [Hf Ha]. rewrite Hf in Hr. rewrite Ha in Hrest.
    destruct (Hrest l Hr) as [Hc' Hfed'].
    change (S (length (l :: lines))) with (S (S (length lines))).
    remember (S (length lines)) as n eqn:En. cbn [read_lines].
    destruct (read_line r) as [line r'] eqn:Er. cbn [fst snd] in *. rewrite Hr.
    specialize (IH r' Hfed' Hc').
    destruct (read_lines n r') as [ls r'']. cbn [fst] in *. by rewrite IH.
Qed.

(** How the stream is cut into reads never matters.  While the stream
    delivers bytes, what [read_line] returns is a function of the bytes alone:
    the first line if it ends within the limit, a clean end between frames, and
    otherwise the limit or truncation error; the reader never underflows its
    limit arithmetic and leaves exactly the bytes after the line.  Lines written
    one after the other are therefore read back one by one, followed by the end
    of the stream. *)
Theorem read_line_unfragmented r :
  fed (pending r) ->
  (read_line r).1 = frame_of (content r) /\
  no_panic (read_line r).1 /\
  (forall line, (read_line r).1 = Ok (Some line) ->
     content (read_line r).2 = after_frame (content r)) /\
  (forall lines, content r = framed lines ->
     Forall (fun l => position l = None /\ (length_z l < MAX_LINE_BYTES)%Z) lines ->
     (read_lines (S (length lines)) r).1 = Ok (map Some lines ++ [None])).
Proof.
  intros Hfed. destruct (read_line_frame r Hfed) as [Hr Hrest].
  split; [done|]. split; [|split].
  - rewrite Hr. unfold frame_of. repeat case_match; done.
  - intros line Hline. by apply Hrest in Hline as [? _].
  - intros lines. by apply read_lines_framed.
Qed.

Lemma read_line_unfragmented_witness :
  let chunks := [Ok (bytes_of "{}"); Ok [newline; "["%char]; Ok ("]"%char :: [newline])] in
  let r := {| buffer := []; pending := chunks |} in
  fed chunks /\
  (read_lines 3 r).1 = Ok [Some (bytes_of "{}"); Some (bytes_of "[]"); None].
Proof.
  intros chunks r. assert (fed chunks) as Hf.
  { constructor; [|constructor; [|constructor; [|constructor]]]; eexists; split;
      [reflexivity|discriminate|reflexivity|discriminate|reflexivity|discriminate]. }
  split; [exact Hf|].
  apply (read_line_unfragmented r Hf) with (lines := [bytes_of "{}"; bytes_of "[]"]).
  - reflexivity.
  - repeat constructor.
Defined.
