(* ===== verification/Redaction.v ===== *)
(** * Secret filtering (src/runtime/redaction.rs, worker_process.rs,
    worker_environment.rs)

    The redactor that hides the values of secret channels in worker logs and
    typed responses, and the bounded log capture that relies on it: what a log
    shows of a stream never depends on how the stream was cut into reads or on
    where the capture was truncated. *)
From S2P Require Import Prelude Json Canonical Identity Manifest Framing.
From Stdlib Require Import Ascii.

Abbreviation panicking A := (result (failure Empty_set) A) (only parsing).

(** ** Secrets *)

Inductive WorkerEnvironmentError :=
  | InvalidName (name : string)
  | InvalidSecret.

(** [WorkerSecrets::new] on Unix; [validate_name] is an argument. *)
Definition worker_secrets (validate_name : string -> result WorkerEnvironmentError unit)
    (values : BTreeMap string) : result WorkerEnvironmentError (BTreeMap string) :=
  _ ← for_each (fun '(name, value) =>
        _ ← validate_name name;
        ensure (negb (String.eqb value "" || bool_decide (NUL ∈ bytes_of value))) InvalidSecret)
      values;
  Ok values.

(** ** The redactor *)
Module Redactor.

Definition REDACTED : bytes := bytes_of "[REDACTED]".

Definition new (secrets : BTreeMap string) : list bytes :=
  map (fun kv => bytes_of kv.2) secrets.
Definition add (r : list bytes) (secret : bytes) : list bytes := r ++ [secret].
Definition is_empty (r : list bytes) : bool := match r with [] => true | _ => false end.
Definition lookahead (r : list bytes) : nat := max_list_with length r.

(** [slice.windows(size)] panics for windows of size zero. *)
Definition windows (size : nat) (b : bytes) : panicking (list bytes) :=
  match size with
  | O => Err Panicked
  | S _ =>
      Ok (if length b <? size then []
          else map (fun start => take size (drop start b)) (seq 0 (S (length b - size))))
  end.

(** [hidden[start..stop].fill(true)]. *)
Definition fill (hidden : list bool) (start stop : nat) : panicking (list bool) :=
  if (start <=? stop) && (stop <=? length hidden)
  then Ok (take start hidden ++ replicate (stop - start) true ++ drop stop hidden)
  else Err Panicked.

Definition enumerate {A} (l : list A) : list (nat * A) := zip (seq 0 (length l)) l.

Definition mark_window (secret : bytes) (hidden : list bool) (w : nat * bytes)
  : panicking (list bool) :=
  let '(start, window) := w in
  if bool_decide (window = secret) then fill hidden start (start + length secret)
  else Ok hidden.
Definition mark_secret (b : bytes) (hidden : list bool) (secret : bytes)
  : panicking (list bool) :=
  ws ← windows (length secret) b;
  try_fold (mark_window secret) hidden (enumerate ws).

(** The loop that emits a marker for each run of hidden bytes. *)
Fixpoint emit (previous : bool) (l : list (ascii * bool)) : bytes :=
  match l with
  | [] => []
  | (byte, hide) :: l =>
      (if hide && negb previous then REDACTED else if negb hide then [byte] else [])
      ++ emit hide l
  end.

Definition prefix (r : list bytes) (b : bytes) (limit : nat) : panicking bytes :=
  if is_empty r then Ok (take limit b)
  else
    hidden ← try_fold (mark_secret b) (replicate (length b) false) r;
    Ok (emit false (take limit (zip b hidden))).

Definition bytes (r : list bytes) (b : Identity.bytes) : panicking Identity.bytes :=
  prefix r b (length b).

(** [String::from_utf8(..).expect(..)]. *)
Definition from_utf8 (b : Identity.bytes) : panicking string :=
  match utf8_error 0 b with None => Ok (string_of b) | Some _ => Err Panicked end.
Definition text (r : list Identity.bytes) (s : string) : panicking string :=
  b ← bytes r (bytes_of s);
  from_utf8 b.

Fixpoint value (r : list Identity.bytes) (v : Json.value) : panicking Json.value :=
  if is_empty r then Ok v
  else match v with
  | Str s => Str <$> text r s
  | Array items => Array <$> mapM (value r) items
  | Object fields =>
      entries ← mapM (fun '(name, v) =>
        v ← value r v;
        name ← text r name;
        Ok (name, v)) fields;
      Ok (Object (map_collect entries))
  | v => Ok v
  end.
End Redactor.

(** ** Log capture *)

Definition saturating_add_u64 (a b : Z) : Z := Z.min u64_max (a + b).

Record CapturedWorkerLog := {
  log_bytes : bytes;
  log_total : Z;
  log_truncated : bool;
}.
Record LiveLog := { live_bytes : bytes; live_total : Z }.

(** [LiveLog::snapshot]. *)
Definition snapshot (l : LiveLog) (limit : nat) (r : list bytes)
  : panicking CapturedWorkerLog :=
  let visible := (length (live_bytes l) - Redactor.lookahead r)%nat in
  b ← Redactor.prefix r (live_bytes l) (Nat.min visible limit);
  Ok {| log_bytes := take limit b;
        log_total := live_total l;
        log_truncated := (Z.of_nat (Nat.min visible limit) <? live_total l)%Z |}.

(** The capture loop of [drain_log_shared]: the retained bytes, the total and
    the truncation flag, with the live logs it publishes after each read. *)
Record Drain := { retained : bytes; total : Z; truncated : bool }.

Definition drain_read (retained_limit : Z) (d : Drain) (read : bytes) : Drain :=
  let kept := Z.to_nat (Z.min (length_z read)
                (saturating_sub retained_limit (length_z (retained d)))) in
  {| retained := retained d ++ take kept read;
     total := saturating_add_u64 (total d) (length_z read);
     truncated := truncated d || (kept <? length read)%nat |}.

Fixpoint drain_reads (retained_limit : Z) (d : Drain) (reads : list (result string bytes))
  : result string Drain * list LiveLog :=
  match reads with
  | [] | Ok [] :: _ => (Ok d, [])
  | Err e :: _ => (Err e, [])
  | Ok read :: reads =>
      let d := drain_read retained_limit d read in
      let '(res, lives) := drain_reads retained_limit d reads in
      (res, {| live_bytes := retained d; live_total := total d |} :: lives)
  end.

(** The end of [drain_log_shared]. *)
Definition captured (d : Drain) (limit : nat) (r : list bytes) : panicking CapturedWorkerLog :=
  b ← Redactor.prefix r (retained d) limit;
  Ok {| log_bytes := take limit b;
        log_total := total d;
        log_truncated := truncated d || (limit <? length b)%nat
                         || (Z.of_nat limit <? total d)%Z |}.

Definition drain_log_shared (reads : list (result string bytes)) (limit : nat) (r : list bytes)
  : result string (panicking CapturedWorkerLog) * list LiveLog :=
  let retained_limit := saturating_add_u64 (Z.of_nat limit) (Z.of_nat (Redactor.lookahead r)) in
  let '(res, lives) :=
    drain_reads retained_limit {| retained := []; total := 0; truncated := false |} reads in
  ((fun d => captured d limit r) <$> res, lives).

(** ** What is hidden

    A byte is covered when a secret occurs in the whole text around it. *)
Definition occurs (s b : bytes) (start : nat) : bool :=
  bool_decide (take (length s) (drop start b) = s).
Definition covers (s b : bytes) (i start : nat) : bool :=
  occurs s b start && (start <=? i)%nat && (i <? start + length s)%nat.
Definition covered (secrets : list bytes) (b : bytes) (i : nat) : bool :=
  existsb (fun s => existsb (covers s b i) (seq 0 (length b))) secrets.
Definition mask (secrets : list bytes) (b : bytes) : list bool :=
  map (covered secrets b) (seq 0 (length b)).

(** The first [limit] bytes of a text with every covered run replaced. *)
Definition redacted (secrets : list bytes) (b : bytes) (limit : nat) : bytes :=
  Redactor.emit false (take limit (zip b (mask secrets b))).

Lemma occurs_bound s b start :
  s <> [] -> occurs s b start = true -> (start + length s <= length b)%nat.
Proof.
  unfold occurs. intros Hs H. bools.
  apply (f_equal length) in H. rewrite length_take, length_drop in H.
  destruct s; [done|]. cbn [length] in *. lia.
Qed.

Lemma existsb_iff {A B} (f : A -> bool) (g : B -> bool) l k :
  (exists x, x ∈ l /\ f x = true) <-> (exists x, x ∈ k /\ g x = true) ->
  existsb f l = existsb g k.
Proof.
  intros H. apply eq_true_iff_eq. rewrite !existsb_exists.
  by setoid_rewrite <-list_elem_of_In.
Qed.

Lemma covered_spec secrets b i :
  Forall (fun s => s <> []) secrets ->
  covered secrets b i = true <->
  exists s start, s ∈ secrets /\ occurs s b start = true /\ (start <= i < start + length s)%nat.
Proof.
  intros Hne. unfold covered. rewrite existsb_exists. setoid_rewrite <-list_elem_of_In.
  split.
  - intros (s & Hs & H). apply existsb_exists in H as (start & _ & H). exists s, start.
    unfold covers in H. nat_bools. repeat split; auto; lia.
  - intros (s & start & Hs & Ho & Hi). exists s. split; [done|].
    apply existsb_exists. exists start. rewrite Forall_forall in Hne.
    pose proof (occurs_bound _ _ _ (Hne s Hs) Ho). split.
    + apply in_seq. pose proof (Hne s Hs). destruct s; [done|]. cbn [length] in *. lia.
    + unfold covers. rewrite Ho. cbn [andb]. apply andb_true_intro. split; [apply Nat.leb_le|apply Nat.ltb_lt]; lia.
Qed.

(** ** The marking loop computes the mask *)

Lemma fill_spec hidden start n :
  (start + n <= length hidden)%nat ->
  exists h, Redactor.fill hidden start (start + n) = Ok h /\ length h = length hidden /\
    forall i, h !! i = (fun x => x || ((start <=? i) && (i <? start + n))%nat) <$> hidden !! i.
Proof.
  intros H. unfold Redactor.fill. rewrite (proj2 (Nat.leb_le _ _)) by lia.
  rewrite (proj2 (Nat.leb_le _ _)) by lia. cbn [andb].
  replace (start + n - start)%nat with n by lia. eexists. split; [done|]. split.
  - rewrite !length_app, length_take, length_drop, length_replicate. lia.
  - intros i. destruct (Nat.lt_ge_cases i start) as [Hi|Hi].
    { rewrite lookup_app_l by (rewrite length_take; lia). rewrite lookup_take_lt by lia.
      rewrite (proj2 (Nat.leb_gt _ _)) by lia. simpl. destruct (hidden !! i); simpl; [|done].
      by rewrite orb_false_r. }
    rewrite lookup_app_r by (rewrite length_take; lia). rewrite length_take.
    replace (i - start `min` length hidden)%nat with (i - start)%nat by lia.
    rewrite (proj2 (Nat.leb_le _ _)) by lia. destruct (Nat.lt_ge_cases i (start + n)) as [Hn|Hn].
    + rewrite lookup_app_l by (rewrite length_replicate; lia). rewrite (proj2 (Nat.ltb_lt _ _)) by lia.
      destruct (lookup_lt_is_Some_2 hidden i) as [x ->]; [lia|]. simpl. rewrite orb_true_r.
      apply lookup_replicate_2. lia.
    + rewrite lookup_app_r by (rewrite length_replicate; lia). rewrite length_replicate, lookup_drop.
      rewrite (proj2 (Nat.ltb_ge _ _)) by lia. replace (start + n + (i - start - n))%nat with i by lia.
      destruct (hidden !! i); simpl; [|done]. by rewrite orb_false_r.
Qed.

(** Marking a list of windows hides what the matching ones cover. *)
Definition window_covers (secret : bytes) (i : nat) (w : nat * bytes) : bool :=
  bool_decide (w.2 = secret) && (w.1 <=? i)%nat && (i <? w.1 + length secret)%nat.

Lemma mark_windows_spec secret ws hidden :
  Forall (fun w => (w.1 + length secret <= length hidden)%nat) ws ->
  exists h, try_fold (Redactor.mark_window secret) hidden ws = Ok h /\
    length h = length hidden /\
    forall i, h !! i = (fun x => x || existsb (window_covers secret i) ws) <$> hidden !! i.
Proof.
  intros Hws. revert hidden Hws. induction ws as [|[start window] ws IH]; intros hidden Hws.
  - exists hidden. repeat split; auto. intros i. simpl. destruct (hidden !! i); simpl; [|done].
    by rewrite orb_false_r.
  - apply Forall_cons_1 in Hws as [Hw Hws]. cbn [fst] in Hw.
    assert (exists h1, Redactor.mark_window secret hidden (start, window) = Ok h1 /\
      length h1 = length hidden /\
      forall i, h1 !! i = (fun x => x || window_covers secret i (start, window)) <$> hidden !! i)
      as (h1 & E1 & L1 & H1).
    { unfold Redactor.mark_window, window_covers. cbn [fst snd].
      destruct (bool_decide_reflect (window = secret)) as [->|].
      - by apply fill_spec.
      - exists hidden. repeat split; auto. intros i. simpl. destruct (hidden !! i); simpl; [|done].
        by rewrite orb_false_r. }
    destruct (IH h1) as (h & E & L & Hh).
    { by rewrite L1. }
    exists h. cbn [try_fold]. rewrite E1. cbn [mbind result_bind]. split; [done|].
    split; [by rewrite L|]. intros i. rewrite Hh, H1. cbn [existsb].
    destruct (hidden !! i); simpl; [|done]. by rewrite orb_assoc.
Qed.

Lemma enumerate_map {A} (f : nat -> A) n :
  Redactor.enumerate (map f (seq 0 n)) = map (fun i => (i, f i)) (seq 0 n).
Proof.
  unfold Redactor.enumerate. rewrite length_map, length_seq. generalize (seq 0 n). intros l.
  induction l as [|x l IH]; [done|]. cbn [map zip zip_with]. by rewrite <-IH.
Qed.

Lemma enumerate_windows (secret b : bytes) ws :
  Redactor.windows (length secret) b = Ok ws ->
  Redactor.enumerate ws =
    if (length b <? length secret)%nat then []
    else map (fun start => (start, take (length secret) (drop start b)))
           (seq 0 (S (length b - length secret))).
Proof.
  unfold Redactor.windows. destruct (length secret) as [|n]; [done|].
  intros H. apply (f_equal (fun m => match m with Ok ws => ws | Err _ => [] end)) in H.
  rewrite <-H. destruct (length b <? S n)%nat; [done|]. apply enumerate_map.
Qed.

Lemma mark_secret_spec b hidden secret :
  secret <> [] -> length hidden = length b ->
  exists h, Redactor.mark_secret b hidden secret = Ok h /\ length h = length b /\
    forall i, h !! i = (fun x => x || existsb (covers secret b i) (seq 0 (length b))) <$> hidden !! i.
Proof.
  intros Hne Hlen. unfold Redactor.mark_secret.
  destruct (Redactor.windows (length secret) b) as [ws|e] eqn:Hws.
  2:{ exfalso. unfold Redactor.windows in Hws. by destruct secret. }
  cbn [mbind result_bind]. rewrite (enumerate_windows _ _ _ Hws).
  assert (length secret <> 0%nat) as Hpos by (by destruct secret).
  destruct (mark_windows_spec secret
    (if (length b <? length secret)%nat then []
     else map (fun start => (start, take (length secret) (drop start b)))
            (seq 0 (S (length b - length secret)))) hidden) as (h & E & L & Hh).
  { destruct (length b <? length secret)%nat eqn:Hl; [constructor|]. nat_bools.
    apply Forall_map. apply Forall_forall. intros x Hx%elem_of_seq. cbn [fst]. lia. }
  exists h. rewrite E, L. repeat split; auto. intros i. rewrite Hh.
  destruct (hidden !! i) as [x|]; cbn [fmap option_fmap option_map]; [|done]. do 2 f_equal.
  apply existsb_iff. split.
  - intros (w & Hw & H). destruct (length b <? length secret)%nat eqn:Hl; [by apply elem_of_nil in Hw|].
    nat_bools.
    apply list_elem_of_fmap in Hw as (start & -> & Hs%elem_of_seq).
    exists start. split; [|exact H]. apply elem_of_seq. assert (length secret <> 0)%nat by auto. lia.
  - intros (start & Hs & H). unfold covers in H.
    assert (occurs secret b start = true) as Ho by (by bools).
    pose proof (occurs_bound _ _ _ Hne Ho) as Hb.
    exists (start, take (length secret) (drop start b)). split; [|exact H].
    rewrite (proj2 (Nat.ltb_ge _ _)) by lia.
    apply list_elem_of_fmap. exists start. split; [done|]. apply elem_of_seq. lia.
Qed.

Lemma mark_secrets_spec b secrets hidden :
  Forall (fun s => s <> []) secrets -> length hidden = length b ->
  exists h, try_fold (Redactor.mark_secret b) hidden secrets = Ok h /\ length h = length b /\
    forall i, h !! i = (fun x => x || covered secrets b i) <$> hidden !! i.
Proof.
  intros Hne. revert hidden. induction Hne as [|s secrets Hs _ IH]; intros hidden Hlen.
  - exists hidden. repeat split; auto. intros i. simpl. destruct (hidden !! i); simpl; [|done].
    by rewrite orb_false_r.
  - destruct (mark_secret_spec b hidden s Hs Hlen) as (h1 & E1 & L1 & H1).
    destruct (IH h1 L1) as (h & E & L & Hh). exists h. cbn [try_fold]. rewrite E1.
    cbn [mbind result_bind]. repeat split; auto. intros i. rewrite Hh, H1.
    destruct (hidden !! i); simpl; [|done]. by rewrite orb_assoc.
Qed.

Lemma zip_false_emit b n : Redactor.emit false (take n (zip b (replicate (length b) false))) = take n b.
Proof. revert n. induction b as [|c b IH]; intros [|n]; simpl; [done..|]. by rewrite IH. Qed.

(** The redactor replaces exactly what the secrets cover. *)
Lemma prefix_spec secrets b limit :
  Forall (fun s => s <> []) secrets -> Redactor.prefix secrets b limit = Ok (redacted secrets b limit).
Proof.
  intros Hne. unfold Redactor.prefix, redacted. destruct (Redactor.is_empty secrets) eqn:He.
  - destruct secrets; [|done]. f_equal. rewrite <-(zip_false_emit b limit). do 3 f_equal.
    unfold mask. generalize O. generalize (length b). intros n. induction n as [|n IH]; intros k; [done|].
    simpl. by rewrite <-IH.
  - destruct (mark_secrets_spec b secrets (replicate (length b) false) Hne) as (h & E & L & Hh).
    { apply length_replicate. }
    rewrite E. cbn [mbind result_bind]. do 5 f_equal. apply list_eq. intros i. rewrite Hh.
    unfold mask. change (map ?f) with (fmap (M := list) f). rewrite list_lookup_fmap.
    destruct (Nat.lt_ge_cases i (length b)) as [Hi|Hi].
    + rewrite lookup_replicate_2 by done. rewrite lookup_seq_lt by done. done.
    + rewrite (proj1 (lookup_replicate_None _ _ _)) by done. by rewrite lookup_seq_ge.
Qed.

(** ** Truncated input

    A secret that begins among the first [limit] bytes ends within the
    lookahead, so the bytes after it do not matter. *)
Lemma lookahead_bound s secrets : s ∈ secrets -> (length s <= Redactor.lookahead secrets)%nat.
Proof.
  unfold Redactor.lookahead. induction 1 as [|? ? ? _ IH]; simpl; lia.
Qed.

Lemma covered_take secrets b n i :
  Forall (fun s => s <> []) secrets ->
  (i + Redactor.lookahead secrets <= n)%nat -> covered secrets (take n b) i = covered secrets b i.
Proof.
  intros Hne Hn. apply eq_true_iff_eq. rewrite !covered_spec by done.
  assert (forall s start, s ∈ secrets -> (start <= i)%nat ->
    take (length s) (drop start (take n b)) = take (length s) (drop start b)) as Heq.
  { intros s start Hs Hi. pose proof (lookahead_bound _ _ Hs).
    replace n with (start + (n - start))%nat by lia. rewrite <-take_drop_commute.
    rewrite take_take. f_equal. lia. }
  split; intros (s & start & Hs & Ho & Hi); exists s, start; repeat split; auto; try lia;
    unfold occurs in *; rewrite Heq in * by (auto; lia); done.
Qed.

Lemma redacted_take secrets b n limit :
  Forall (fun s => s <> []) secrets ->
  (limit + Redactor.lookahead secrets <= n)%nat \/ (length b <= n)%nat ->
  redacted secrets (take n b) limit = redacted secrets b limit.
Proof.
  intros Hne [Hn|Hn]; [|by rewrite take_ge]. unfold redacted. f_equal.
  assert (limit <= n)%nat as Hl by lia.
  apply list_eq. intros i. destruct (Nat.lt_ge_cases i limit) as [Hi|Hi].
  2:{ by rewrite !lookup_take_ge. }
  rewrite !lookup_take_lt by done. rewrite !lookup_zip_with.
  rewrite lookup_take_lt by lia. unfold mask.
  change (map ?f) with (fmap (M := list) f). rewrite !list_lookup_fmap.
  destruct (b !! i) as [c|] eqn:Hc; [|done]. apply lookup_lt_Some in Hc as Hb.
  rewrite !lookup_seq_lt by (rewrite ?length_take; lia). simpl.
  rewrite covered_take by (auto; lia). done.
Qed.

(** ** The capture loop *)

(** What the loop holds after a stream of which it keeps [n] bytes. *)
Definition drained (n : nat) (stream : bytes) : Drain := {|
  retained := take n stream;
  total := Z.min u64_max (length_z stream);
  truncated := (n <? length stream)%nat;
|}.

Lemma drain_read_spec n stream read :
  drain_read (Z.of_nat n) (drained n stream) read = drained n (stream ++ read).
Proof.
  unfold drain_read, drained, saturating_add_u64, saturating_sub, length_z. cbn [retained total truncated].
  rewrite length_take, length_app.
  replace (Z.to_nat _) with (Nat.min (length read) (n - length stream)) by lia. f_equal.
  - rewrite take_app. f_equal. destruct (Nat.le_ge_cases (length read) (n - length stream)).
    + rewrite !take_ge by lia. done.
    + by rewrite Nat.min_r by lia.
  - lia.
  - apply eq_true_iff_eq. rewrite orb_true_iff, !Nat.ltb_lt. lia.
Qed.

Lemma drain_reads_spec n reads stream :
  fed reads ->
  exists lives,
    drain_reads (Z.of_nat n) (drained n stream) reads = (Ok (drained n (stream ++ delivered reads)), lives)
    /\ Forall (fun live => exists seen rest, seen ++ rest = stream ++ delivered reads /\
         live_bytes live = take n seen) lives.
Proof.
  intros Hfed. revert stream. induction Hfed as [|c reads (b & -> & Hb) Hfed IH]; intros stream.
  - exists []. unfold delivered. simpl. rewrite app_nil_r. by split.
  - destruct b as [|b0 b1]; [done|]. set (b := b0 :: b1) in *.
    destruct (IH (stream ++ b)) as (lives & E & Hl). rewrite delivered_cons, app_assoc.
    eexists (_ :: lives). split.
    + cbn [drain_reads]. subst b. cbv iota. rewrite drain_read_spec, E. done.
    + constructor; [|done]. exists (stream ++ b), (delivered reads). by split.
Qed.

Lemma drained_prefix secrets n seen rest k :
  Forall (fun s => s <> []) secrets ->
  (k <= length (take n seen) - Redactor.lookahead secrets)%nat ->
  redacted secrets (take n seen) k = redacted secrets (seen ++ rest) k.
Proof.
  intros Hne Hk. rewrite length_take in Hk. destruct k as [|k]; [done|].
  assert (take n seen = take (Nat.min n (length seen)) (seen ++ rest)) as ->.
  { rewrite <-take_take, take_app_length. done. }
  apply redacted_take; [done|]. lia.
Qed.

(** C25: what a captured log shows of a stream is the redaction of the complete
    stream.  However the stream is cut into reads, and wherever the capture
    stops retaining bytes, the final log is the prefix, at the capture limit,
    of the stream with every occurrence of a secret replaced; so is every live
    snapshot taken meanwhile, at a possibly smaller limit.  A secret that
    straddles a read, the end of the retained bytes or the limit is never
    shown in part, and nothing that is not part of a secret is hidden. *)
Theorem captured_logs_redacted secrets reads limit :
  Forall (fun s => s <> []) secrets ->
  fed reads ->
  (Z.of_nat (limit + Redactor.lookahead secrets) <= u64_max)%Z ->
  let stream := delivered reads in
  exists lives,
    drain_log_shared reads limit secrets =
      (Ok (Ok {| log_bytes := take limit (redacted secrets stream limit);
                 log_total := Z.min u64_max (length_z stream);
                 log_truncated := (limit <? length stream)%nat
                                  || (limit <? length (redacted secrets stream limit))%nat |}),
       lives) /\
    forall live, live ∈ lives -> exists log k,
      snapshot live limit secrets = Ok log /\ (k <= limit)%nat /\
      log_bytes log = take limit (redacted secrets stream k).
Proof.
  intros Hne Hfed Hlimit stream. unfold drain_log_shared.
  set (n := (limit + Redactor.lookahead secrets)%nat) in *.
  assert (saturating_add_u64 (Z.of_nat limit) (Z.of_nat (Redactor.lookahead secrets)) = Z.of_nat n)
    as -> by (unfold saturating_add_u64; lia).
  destruct (drain_reads_spec n reads [] Hfed) as (lives & E & Hl).
  replace {| retained := []; total := 0; truncated := false |} with (drained n [])
    by (unfold drained; by rewrite take_nil).
  rewrite E. exists lives. cbn [app] in *. fold stream in E, Hl |- *. split.
  - do 2 f_equal. cbn [fmap result_fmap]. f_equal. unfold captured, drained. cbn [retained total truncated].
    rewrite prefix_spec by done. rewrite redacted_take by (auto; lia). cbn [mbind result_bind].
    do 2 f_equal. apply eq_true_iff_eq. rewrite !orb_true_iff, !Nat.ltb_lt, Z.ltb_lt.
    unfold length_z. subst n. lia.
  - intros live Hlive. rewrite Forall_forall in Hl. apply Hl in Hlive as (seen & rest & Hs & Hb).
    unfold snapshot. rewrite prefix_spec by done. cbn [mbind result_bind].
    eexists _, _. split; [done|]. cbn [log_bytes]. split; [apply Nat.le_min_r|].
    rewrite Hb, <-Hs. f_equal. apply drained_prefix; [done|]. lia.
Qed.

Lemma captured_logs_redacted_witness :
  let secrets := [bytes_of "hunter2"; bytes_of "2nd"] in
  let reads := [Ok (bytes_of "a hun"); Ok (bytes_of "ter2nd, the"); Ok (bytes_of "n hunter3")] in
  exists lives,
    drain_log_shared reads 20 secrets =
      (Ok (Ok {| log_bytes := bytes_of "a [REDACTED], then h";
                 log_total := 25; log_truncated := true |}), lives).
Proof.
  intros secrets reads.
  assert (Forall (fun s => s <> []) secrets) as H1 by (repeat constructor; discriminate).
  assert (fed reads) as H2 by (repeat constructor; eexists; split; try reflexivity; discriminate).
  destruct (captured_logs_redacted secrets reads 20 H1 H2 ltac:(vm_compute; discriminate))
    as (lives & E & _).
  exists lives. rewrite E. vm_compute. reflexivity.
Defined.

(** ** Redacted text is text

    UTF-8 synchronizes itself: a secret occurs only at character boundaries,
    so a character is hidden entirely or not at all. *)

(** The length of a character, from its first byte. *)
Definition char_length (c : ascii) : nat :=
  if in_range 0 127 c then 1 else if in_range 194 223 c then 2
  else if in_range 224 239 c then 3 else 4.
Lemma in_range_spec lo hi c :
  in_range lo hi c = true <-> (lo <= nat_of_ascii c <= hi)%nat.
Proof. unfold in_range. rewrite andb_true_iff, !Nat.leb_le. done. Qed.
Lemma in_range_false lo hi c :
  (nat_of_ascii c < lo \/ hi < nat_of_ascii c)%nat -> in_range lo hi c = false.
Proof. intros H. apply not_true_iff_false. rewrite in_range_spec. lia. Qed.

(** The conditions of [utf8_error] on the first two bytes of three and four. *)
Definition lead3 (x y : ascii) : bool :=
  in_range 224 224 x && in_range 160 191 y
  || (in_range 225 236 x || in_range 238 239 x) && continuation y
  || in_range 237 237 x && in_range 128 159 y.
Definition lead4 (x y : ascii) : bool :=
  in_range 240 240 x && in_range 144 191 y
  || in_range 241 243 x && continuation y
  || in_range 244 244 x && in_range 128 143 y.

Lemma lead3_spec x y : lead3 x y = true -> (224 <= nat_of_ascii x <= 239)%nat /\ continuation y = true.
Proof.
  unfold lead3, continuation. rewrite !orb_true_iff, !andb_true_iff, !orb_true_iff, !in_range_spec. lia.
Qed.
Lemma lead4_spec x y : lead4 x y = true -> (240 <= nat_of_ascii x <= 244)%nat /\ continuation y = true.
Proof. unfold lead4, continuation. rewrite !orb_true_iff, !andb_true_iff, !in_range_spec. lia. Qed.

Inductive char_shape : bytes -> Prop :=
  | shape1 x : in_range 0 127 x = true -> char_shape [x]
  | shape2 x y : in_range 194 223 x = true -> continuation y = true -> char_shape [x; y]
  | shape3 x y z : lead3 x y = true -> continuation z = true -> char_shape [x; y; z]
  | shape4 x y z w :
      lead4 x y = true -> continuation z = true -> continuation w = true ->
      char_shape [x; y; z; w].

(** The first byte decides the length of a character. *)
Lemma shape_length b : char_shape b ->
  exists x l, b = x :: l /\ length b = char_length x /\ continuation x = false /\
    Forall (fun y => continuation y = true) l.
Proof.
  assert (forall x, (nat_of_ascii x < 128 \/ 191 < nat_of_ascii x)%nat -> continuation x = false) as Hc
    by (intros; by apply in_range_false).
  unfold char_length.
  intros [x Hx|x y Hx Hy|x y z Hxy Hz|x y z w Hxy Hz Hw];
    [apply in_range_spec in Hx as Hr|apply in_range_spec in Hx as Hr
    |apply lead3_spec in Hxy as [Hr ?]|apply lead4_spec in Hxy as [Hr ?]];
    eexists x, _; (split; [done|]); (split; [|split; [apply Hc; lia|by repeat constructor]]).
  - by rewrite Hx.
  - rewrite in_range_false by lia. by rewrite Hx.
  - rewrite (in_range_false 0 127), (in_range_false 194 223) by lia.
    rewrite (proj2 (in_range_spec _ _ _)) by lia. done.
  - rewrite (in_range_false 0 127), (in_range_false 194 223), (in_range_false 224 239) by lia. done.
Qed.

Lemma utf8_error_shape n c b : char_shape c -> utf8_error n (c ++ b) = utf8_error (n + length_z c) b.
Proof.
  intros [x Hx|x y Hx Hy|x y z Hxy Hz|x y z w Hxy Hz Hw]; cbn [app utf8_error].
  - by rewrite Hx.
  - apply in_range_spec in Hx as Hr. rewrite (in_range_false 0 127) by lia. by rewrite Hx, Hy.
  - apply lead3_spec in Hxy as Hr. rewrite (in_range_false 0 127), (in_range_false 194 223) by lia.
    cbn [andb]. fold (lead3 x y). by rewrite Hxy, Hz.
  - apply lead4_spec in Hxy as Hr. rewrite (in_range_false 0 127), (in_range_false 194 223) by lia.
    cbn [andb].
    assert (forall y, lead3 x y = false) as Hl.
    { intros y'. unfold lead3. by rewrite !(in_range_false _ _ x) by lia. }
    fold (lead3 x y). rewrite Hl. cbn [andb]. fold (lead4 x y). by rewrite Hxy, Hz, Hw.
Qed.

Lemma utf8_error_next n x b :
  utf8_error n (x :: b) = None ->
  exists c rest, x :: b = c ++ rest /\ char_shape c /\ utf8_error (n + length_z c) rest = None.
Proof.
  cbn [utf8_error]. destruct (in_range 0 127 x) eqn:Hx.
  { intros H. exists [x], b. by repeat constructor. }
  destruct b as [|y b]; [done|]. destruct (_ && _) eqn:H2.
  { intros H. apply andb_prop in H2 as [? ?]. exists [x; y], b. by repeat constructor. }
  destruct b as [|z b]; [done|]. fold (lead3 x y) (lead4 x y). destruct (lead3 x y && _) eqn:H3.
  { intros H. apply andb_prop in H3 as [? ?]. exists [x; y; z], b. by repeat constructor. }
  destruct b as [|w b]; [done|]. destruct (_ && continuation w) eqn:H4; [|done].
  intros H. bools. exists [x; y; z; w], b. by repeat constructor.
Qed.

Inductive utf8 : bytes -> Prop :=
  | utf8_nil : utf8 []
  | utf8_char c b : char_shape c -> utf8 b -> utf8 (c ++ b).

Lemma utf8_error_utf8 n b : utf8_error n b = None <-> utf8 b.
Proof.
  split.
  - revert n. remember (length b) as len eqn:Hlen. revert b Hlen.
    induction (lt_wf len) as [len _ IH]. intros [|x b] Hlen n H; [constructor|].
    apply utf8_error_next in H as (c & rest & E & Hc & H). rewrite E in *. constructor; [done|].
    eapply IH; [|done|exact H]. rewrite Hlen, length_app. destruct Hc; simpl; lia.
  - intros H. revert n. induction H as [|c b Hc _ IH]; intros n; [done|].
    by rewrite utf8_error_shape.
Qed.

Lemma shape_det c d a b : char_shape c -> char_shape d -> c ++ a = d ++ b -> c = d /\ a = b.
Proof.
  intros (x & l & -> & Lc & _)%shape_length (y & k & -> & Ld & _)%shape_length H.
  assert (x = y) as -> by (by simplify_eq). apply app_inj_1; [|done]. by rewrite Lc, Ld.
Qed.

Lemma utf8_cancel a b : utf8 a -> utf8 (a ++ b) -> utf8 b.
Proof.
  induction 1 as [|c a Hc _ IH]; [done|]. rewrite <-app_assoc. intros H.
  remember (c ++ a ++ b) as t eqn:Ht. destruct H as [|d t Hd H].
  - by destruct Hc.
  - apply shape_det in Ht as [-> ->]; auto.
Qed.
Lemma utf8_app a b : utf8 a -> utf8 b -> utf8 (a ++ b).
Proof. induction 1; [done|]. intros Hb. rewrite <-app_assoc. constructor; auto. Qed.

Lemma utf8_head x b : utf8 (x :: b) -> continuation x = false.
Proof.
  remember (x :: b) as t eqn:Ht. destruct 1 as [|c t Hc _]; [done|].
  apply shape_length in Hc as (y & l & -> & _ & Hy & _). injection Ht as -> _. done.
Qed.

(** A secret occurs between character boundaries. *)
Lemma occurs_boundary s b start :
  utf8 s -> s <> [] -> utf8 b -> occurs s b start = true ->
  utf8 (take start b) /\ utf8 (take (start + length s) b).
Proof.
  intros Hs Hne Hb H. unfold occurs in H. bools. revert start H.
  induction Hb as [|c b Hc Hb IH]; intros start H.
  { rewrite drop_nil, take_nil in H. by subst. }
  destruct (Nat.lt_ge_cases start (length c)) as [Hlt|Hge].
  - destruct start as [|start].
    { rewrite drop_0 in H. rewrite Nat.add_0_l, H. split; [constructor|done]. }
    exfalso. rewrite drop_app_le in H by lia.
    apply shape_length in Hc as (x & l & -> & _ & _ & Hl). cbn [drop length] in *.
    destruct (drop start l) as [|y k] eqn:Hd.
    { apply (f_equal length) in Hd. rewrite length_drop in Hd. simpl in Hd. lia. }
    assert (continuation y = true) as Hy.
    { rewrite Forall_forall in Hl. apply Hl. rewrite <-(take_drop start l), Hd. set_solver. }
    destruct s as [|z s]; [done|]. cbn [length app take] in H. injection H as -> _.
    apply utf8_head in Hs. congruence.
  - rewrite drop_app_ge in H by done. destruct (IH _ H) as [H1 H2].
    rewrite !take_app_ge by lia. split; [by constructor|].
    replace (start + length s - length c)%nat with (start - length c + length s)%nat by lia.
    by constructor.
Qed.

Lemma boundary_outside pre c rest p :
  utf8 pre -> char_shape c -> utf8 (take p (pre ++ c ++ rest)) ->
  (p <= length pre \/ length pre + length c <= p)%nat.
Proof.
  intros Hpre Hc H. destruct (Nat.le_gt_cases p (length pre)) as [|Hp]; [by left|].
  destruct (Nat.le_gt_cases (length pre + length c) p) as [|Hp']; [by right|]. exfalso.
  rewrite take_app_ge in H by lia. apply utf8_cancel in H; [|done].
  rewrite take_app_le in H by lia. set (k := (p - length pre)%nat) in *.
  assert (take k c ++ drop k c = c ++ []) as Hk by (by rewrite take_drop, app_nil_r).
  assert (length (take k c) = k) as Lk by (rewrite length_take; lia).
  assert (length (drop k c) <> 0)%nat as Ld by (rewrite length_drop; lia).
  destruct H as [|d e Hd _]; [simpl in Lk; lia|].
  rewrite <-app_assoc in Hk. apply shape_det in Hk as [_ Hk]; [|done..].
  apply app_eq_nil in Hk as [_ Hk]. rewrite Hk in Ld. done.
Qed.

Definition text_secrets (secrets : list bytes) : Prop :=
  Forall (fun s => s <> [] /\ utf8 s) secrets.
Lemma text_secrets_nonempty secrets : text_secrets secrets -> Forall (fun s => s <> []) secrets.
Proof. intros H. eapply Forall_impl; [exact H|]. by intros ? []. Qed.

Lemma covered_char secrets pre c rest i :
  text_secrets secrets -> utf8 pre -> char_shape c -> utf8 rest ->
  (length pre <= i < length pre + length c)%nat ->
  covered secrets (pre ++ c ++ rest) i = covered secrets (pre ++ c ++ rest) (length pre).
Proof.
  intros Hs Hpre Hc Hrest Hi.
  assert (utf8 (pre ++ c ++ rest)) as Hb by (apply utf8_app; [done|]; by apply utf8_char).
  apply eq_true_iff_eq. rewrite !covered_spec by (by apply text_secrets_nonempty).
  unfold text_secrets in Hs. rewrite Forall_forall in Hs.
  split; intros (s & start & Hin & Ho & Hr); exists s, start; (repeat split; auto);
    destruct (Hs s Hin) as [Hne Hu];
    destruct (occurs_boundary _ _ _ Hu Hne Hb Ho) as [B1 B2];
    apply boundary_outside in B1; auto; apply boundary_outside in B2; auto; lia.
Qed.

(** A marked text whose characters are hidden entirely or not at all. *)
Inductive aligned : list (ascii * bool) -> Prop :=
  | aligned_nil : aligned []
  | aligned_char c hide l :
      char_shape c -> aligned l -> aligned (map (fun x => (x, hide)) c ++ l).

Lemma aligned_mask secrets pre b :
  text_secrets secrets -> utf8 pre -> utf8 b ->
  aligned (zip b (map (covered secrets (pre ++ b)) (seq (length pre) (length b)))).
Proof.
  intros Hs Hpre Hb. revert pre Hpre. induction Hb as [|c b Hc Hb IH]; intros pre Hpre; [constructor|].
  rewrite length_app, seq_app, map_app, zip_with_app by (by rewrite length_map, length_seq).
  assert (zip c (map (covered secrets (pre ++ c ++ b)) (seq (length pre) (length c))) =
          map (fun x => (x, covered secrets (pre ++ c ++ b) (length pre))) c) as ->.
  { apply list_eq. intros i. change (map ?f) with (fmap (M := list) f).
    rewrite lookup_zip_with, !list_lookup_fmap. destruct (c !! i) as [x|] eqn:Hx; [|done].
    apply lookup_lt_Some in Hx. rewrite lookup_seq_lt by done. simpl. rewrite covered_char by (auto; lia).
    done. }
  constructor; [done|]. rewrite app_assoc, <-length_app. apply IH.
  apply utf8_app; [done|]. rewrite <-(app_nil_r c). by repeat constructor.
Qed.

Lemma emit_hidden previous c l :
  c <> [] -> Redactor.emit previous (map (fun x => (x, true)) c ++ l) =
    (if previous then [] else Redactor.REDACTED) ++ Redactor.emit true l.
Proof.
  intros Hc. destruct c as [|x c]; [done|]. cbn [map app Redactor.emit andb negb].
  assert (Redactor.emit true (map (fun x => (x, true)) c ++ l) = Redactor.emit true l) as ->.
  { clear. induction c as [|x c IH]; [done|]. cbn [map app Redactor.emit andb negb]. done. }
  by destruct previous.
Qed.
Lemma emit_visible previous c l :
  c <> [] -> Redactor.emit previous (map (fun x => (x, false)) c ++ l) = c ++ Redactor.emit false l.
Proof.
  intros Hc. revert previous. induction c as [|x c IH]; intros previous; [done|].
  cbn [map app Redactor.emit andb negb]. f_equal. destruct c; [done|]. by apply IH.
Qed.

Lemma emit_aligned previous l : aligned l -> utf8 (Redactor.emit previous l).
Proof.
  intros H. revert previous. induction H as [|c hide l Hc _ IH]; intros previous; [constructor|].
  assert (c <> []) as Hne by (by destruct Hc). destruct hide.
  - rewrite emit_hidden by done. apply utf8_app; [|apply IH].
    destruct previous; [constructor|]. by apply (utf8_error_utf8 0).
  - rewrite emit_visible by done. by constructor.
Qed.

Lemma redacted_utf8 secrets b :
  text_secrets secrets -> utf8 b -> utf8 (redacted secrets b (length b)).
Proof.
  intros Hs Hb. unfold redacted. rewrite take_ge.
  2:{ rewrite length_zip_with. lia. }
  apply emit_aligned, (aligned_mask secrets [] b Hs); [constructor|done].
Qed.

Definition utf8_string (s : string) : Prop := utf8 (bytes_of s).
Definition redacted_text (secrets : list bytes) (s : string) : string :=
  string_of (redacted secrets (bytes_of s) (length (bytes_of s))).

Lemma text_spec secrets s :
  text_secrets secrets -> utf8_string s -> Redactor.text secrets s = Ok (redacted_text secrets s).
Proof.
  intros Hs Hu. unfold Redactor.text, Redactor.bytes.
  rewrite prefix_spec by (by apply text_secrets_nonempty). cbn [mbind result_bind].
  unfold Redactor.from_utf8. rewrite (proj2 (utf8_error_utf8 0 _)); [done|]. by apply redacted_utf8.
Qed.

(** Every string of a JSON document is text. *)
Fixpoint utf8_value (v : value) : Prop :=
  match v with
  | Str s => utf8_string s
  | Array l => fold_right (fun v P => utf8_value v /\ P) True l
  | Object m => fold_right (fun kv P => (utf8_string kv.1 /\ utf8_value kv.2) /\ P) True m
  | _ => True
  end.
(** The document with every string and every name redacted. *)
Fixpoint redacted_value (secrets : list bytes) (v : value) : value :=
  match v with
  | Str s => Str (redacted_text secrets s)
  | Array l => Array (map (redacted_value secrets) l)
  | Object m =>
      Object (map_collect (map (fun kv => (redacted_text secrets kv.1, redacted_value secrets kv.2)) m))
  | v => v
  end.

Lemma value_spec secrets v :
  secrets <> [] -> text_secrets secrets -> utf8_value v ->
  Redactor.value secrets v = Ok (redacted_value secrets v).
Proof.
  intros Hne Hs. destruct secrets as [|s0 secrets]; [done|]. clear Hne.
  induction v as [| | |s|l IH|m IH] using value_ind'; intros Hu; cbn [Redactor.value Redactor.is_empty];
    try done.
  - rewrite text_spec by done. done.
  - cbn [utf8_value] in Hu. cbn [redacted_value].
    assert (mapM (Redactor.value (s0 :: secrets)) l = Ok (map (redacted_value (s0 :: secrets)) l)) as ->;
      [|done].
    induction IH as [|v l Hv _ IHl]; [done|]. destruct Hu as [Hu1 Hu2]. cbn [mapM map].
    rewrite Hv by done. cbn [mbind result_bind]. by rewrite IHl.
  - cbn [utf8_value] in Hu. cbn [redacted_value].
    match goal with |- context [mapM ?f m] => set (entry := f) end.
    assert (mapM entry m = Ok (map (fun kv =>
      (redacted_text (s0 :: secrets) kv.1, redacted_value (s0 :: secrets) kv.2)) m)) as ->; [|done].
    induction IH as [|[k v] m Hv _ IHm]; [done|]. destruct Hu as [[Hk Hu1] Hu2]. cbn [mapM map].
    cbn [fst snd] in *.
    assert (entry (k, v) = Ok (redacted_text (s0 :: secrets) k, redacted_value (s0 :: secrets) v)) as ->.
    { unfold entry. rewrite Hv by done. cbn [mbind result_bind]. by rewrite text_spec. }
    cbn [mbind result_bind]. by rewrite IHm.
Qed.

(** Redaction of text is total and yields text.  The secrets of worker
    environments are nonempty strings, so filtering a typed response never
    panics: no window has size zero, and no replacement cuts a character in
    two.  The result is the response with every string and field name redacted
    as a whole. *)
Theorem redaction_total validate_name secrets secrets' v :
  worker_secrets validate_name secrets = Ok secrets' ->
  Forall (fun kv => utf8_string kv.2) secrets ->
  utf8_value v ->
  no_panic (Redactor.value (Redactor.new secrets') v) /\
  (secrets <> [] ->
   Redactor.value (Redactor.new secrets') v = Ok (redacted_value (Redactor.new secrets') v)) /\
  (forall s, utf8_string s ->
   Redactor.text (Redactor.new secrets') s = Ok (redacted_text (Redactor.new secrets') s) /\
   utf8_string (redacted_text (Redactor.new secrets') s)).
Proof.
  intros Hw Hu Hv. unfold worker_secrets in Hw. apply bind_Ok in Hw as ([] & Hw & [= <-]).
  rewrite for_each_Ok in Hw.
  assert (text_secrets (Redactor.new secrets)) as Hs.
  { unfold text_secrets, Redactor.new. apply Forall_map. rewrite Forall_forall in *.
    intros [name s] Hin. split; [|by apply (Hu (name, s))]. specialize (Hw _ Hin). cbn in Hw.
    apply bind_Ok in Hw as (? & _ & Hw). apply ensure_Ok in Hw. by destruct s. }
  assert (secrets <> [] ->
    Redactor.value (Redactor.new secrets) v = Ok (redacted_value (Redactor.new secrets) v)) as Hval.
  { intros Hne. apply value_spec; auto. by destruct secrets. }
  split; [|split; [done|]].
  - destruct secrets as [|kv secrets]; [by destruct v|]. by rewrite Hval.
  - intros s Hus. split; [by apply text_spec|]. unfold utf8_string, redacted_text.
    rewrite bytes_of_string_of. by apply redacted_utf8.
Qed.

Lemma redaction_total_witness :
  let secrets := [("TOKEN", "s3cret")] in
  let v := Object [("s3cret", Array [Str "see s3crets3cret."; Null])] in
  Redactor.value (Redactor.new secrets) v =
    Ok (Object [("[REDACTED]", Array [Str "see [REDACTED]."; Null])]).
Proof.
  intros secrets v.
  assert (worker_secrets (fun _ => Ok tt) secrets = Ok secrets) as H1 by reflexivity.
  assert (forall s, utf8_error 0 (bytes_of s) = None -> utf8_string s) as Hu
    by (intros s Hs; by apply (utf8_error_utf8 0)).
  assert (Forall (fun kv => utf8_string kv.2) secrets) as H2
    by (repeat constructor; apply Hu; reflexivity).
  assert (utf8_value v) as H3.
  { cbn [utf8_value v fold_right fst snd]. repeat split; apply Hu; reflexivity. }
  destruct (redaction_total (fun _ => Ok tt) secrets secrets v H1 H2 H3) as (_ & E & _).
  rewrite E by discriminate. vm_compute. reflexivity.
Defined.
