(* ===== verification/Wire.v ===== *)
(** * Decoding of protocol messages

    The conventions by which the message types of src/protocol/messages.rs are
    written to and read from JSON: a [codec] pairs the two directions with the
    values that survive them, and a struct is the list of its fields in
    declaration order.  The derived decoders accept a struct both as an object
    and as the array of its fields. *)
From S2P Require Import Prelude Json Canonical Identity Manifest.
From Stdlib Require Import Ascii Floats.SpecFloat.

#[local] Obligation Tactic := cbn beta.
#[local] Unset Program Cases.

(** ** Codecs *)
Record codec (A : Type) := {
  enc : A -> value;
  dec : value -> option A;
  (** What a decoder returns, and all that an encoder is given. *)
  valid : A -> bool;
  dec_enc : forall a, valid a = true -> dec (enc a) = Some a;
  dec_valid : forall v a, dec v = Some a -> valid a = true;
}.
Arguments enc {A} c a.
Arguments dec {A} c v.
Arguments valid {A} c a.
Arguments dec_enc {A} c a H.
Arguments dec_valid {A} c v a H.
Create HintDb codecs.
#[export] Hint Resolve dec_enc dec_valid : codecs.

(** A value kept as it is, if it satisfies a predicate. *)
Definition refine_with {A} (p : A -> bool) (o : option A) : option A :=
  a ← o; if p a then Some a else None.
Lemma refine_with_Some {A} (p : A -> bool) o a :
  refine_with p o = Some a <-> o = Some a /\ p a = true.
Proof.
  unfold refine_with. destruct o as [b|]; simpl; [|naive_solver].
  destruct (p b) eqn:E; naive_solver congruence.
Qed.

Program Definition refined {A} (c : codec A) (p : A -> bool) : codec A := {|
  enc := enc c;
  dec v := refine_with p (dec c v);
  valid a := valid c a && p a;
|}.
Next Obligation. intros A c p a H. bools. apply refine_with_Some. auto with codecs. Qed.
Next Obligation. intros A c p v a [H1 H2]%refine_with_Some. apply andb_true_intro. eauto with codecs. Qed.

(** [String::deserialize], [bool::deserialize], [Value::deserialize]. *)
Program Definition string_codec : codec string :=
  {| enc := Str; dec := as_str; valid _ := true |}.
Next Obligation. done. Qed.
Next Obligation. done. Qed.
Program Definition bool_codec : codec bool :=
  {| enc := Bool; dec v := match v with Bool b => Some b | _ => None end; valid _ := true |}.
Next Obligation. done. Qed.
Next Obligation. done. Qed.
Program Definition value_codec : codec value :=
  {| enc v := v; dec v := Some v; valid _ := true |}.
Next Obligation. done. Qed.
Next Obligation. done. Qed.

(** An unsigned integer of at most [max]. *)
Program Definition unsigned_codec (max : Z) : codec Z := {|
  enc n := json_u64 n;
  dec v := match v with
           | Number (PosInt n) => if ((0 <=? n) && (n <=? max))%Z then Some n else None
           | _ => None
           end;
  valid n := ((0 <=? n) && (n <=? max))%Z;
|}.
Next Obligation. intros max n H. unfold json_u64. by rewrite H. Qed.
Next Obligation.
  intros max v a. destruct v as [| |[n| |]| | |]; try done.
  destruct (_ && _) eqn:H; [|done]. by intros [= <-].
Qed.

(** [Value::as_f64]. *)
Definition value_f64 (v : value) : option spec_float :=
  match v with Number n => Some (as_f64 n) | _ => None end.
(** [f64::deserialize] of a number; every number of a document is finite. *)
Program Definition f64_codec : codec spec_float := {|
  enc f := Number (Float f);
  dec v := refine_with is_finite (value_f64 v);
  valid f := is_finite f;
|}.
Next Obligation. intros f Hf. by apply refine_with_Some. Qed.
Next Obligation. intros v f [_ Hf]%refine_with_Some. done. Qed.

Definition u64_codec : codec Z := unsigned_codec u64_max.

(** Unit enums: the variant's name, or an object with the name as its only key
    and [null] as its value. *)
Definition variant_name (v : value) : option string :=
  match v with
  | Str s => Some s
  | Object [(s, Null)] => Some s
  | _ => None
  end.
Definition variant_of {A} (variants : list (string * A)) (v : value) : option A :=
  s ← variant_name v; map_get s variants.

Program Definition constant_codec (s : string) : codec unit :=
  {| enc _ := Str s; dec v := variant_of [(s, tt)] v; valid _ := true |}.
Next Obligation. intros s [] _. unfold variant_of. cbn. by rewrite String.eqb_refl. Qed.
Next Obligation. done. Qed.

Program Definition enum_codec {A} (name : A -> string) (all : list A)
    (H : forall a, variant_of (map (fun a => (name a, a)) all) (Str (name a)) = Some a) : codec A := {|
  enc a := Str (name a);
  dec v := variant_of (map (fun a => (name a, a)) all) v;
  valid _ := true;
|}.
Next Obligation. intros A name all H a _. apply H. Qed.
Next Obligation. done. Qed.

(** [Option<T>] as a value: [null] is [None]. *)
Program Definition nullable {A} (c : codec A)
    (H : forall a, valid c a = true -> enc c a <> Null) : codec (option A) := {|
  enc o := match o with Some a => enc c a | None => Null end;
  dec v := match v with Null => Some None | v => Some <$> dec c v end;
  valid o := match o with Some a => valid c a | None => true end;
|}.
Next Obligation.
  intros A c Hnull [a|] H; [|done]. specialize (Hnull a H). apply dec_enc in H.
  by destruct (enc c a); try (by rewrite H).
Qed.
Next Obligation.
  intros A c _ v [a|]; [|done]. destruct v; try done;
    intros (x & Hx & [= ->])%fmap_Some; by eapply dec_valid.
Qed.

(** A field whose [deserialize_with] wraps a present value in [Some]. *)
Program Definition present {A} (c : codec A) : codec (option A) := {|
  enc o := match o with Some a => enc c a | None => Null end;
  dec v := Some <$> dec c v;
  valid o := match o with Some a => valid c a | None => false end;
|}.
Next Obligation. intros A c [a|] H; [|done]. by rewrite dec_enc. Qed.
Next Obligation. intros A c v o (a & H & ->)%fmap_Some. by eapply dec_valid. Qed.

(** [Vec<T>]. *)
Program Definition vec_codec {A} (c : codec A) : codec (list A) := {|
  enc l := Array (map (enc c) l);
  dec v := l ← as_array v; mapM (dec c) l;
  valid l := forallb (valid c) l;
|}.
Next Obligation.
  intros A c l. cbn [as_array mbind option_bind]. induction l as [|a l IH]; [done|].
  cbn [forallb map mapM]. intros H. bools. rewrite dec_enc by done. cbn. by rewrite IH.
Qed.
Next Obligation.
  intros A c v l. destruct (as_array v) as [k|]; [|done]. cbn [mbind option_bind].
  revert l. induction k as [|x k IH]; intros l; cbn [mapM]; [by intros [= <-]|].
  destruct (dec c x) as [a|] eqn:Ha; [|done]. cbn. destruct (mapM (dec c) k) as [l'|]; [|done].
  cbn. intros [= <-]. cbn [forallb]. apply andb_true_intro. eauto with codecs.
Qed.

(** [BTreeMap<String, T>]. *)
Program Definition map_codec {A} `{EqDecision A} (c : codec A) : codec (BTreeMap A) := {|
  enc m := Object (map (fun kv => (kv.1, enc c kv.2)) m);
  dec v := m ← as_object v;
           map_collect <$> mapM (fun kv => pair kv.1 <$> dec c kv.2) m;
  valid m := forallb (fun kv => valid c kv.2) m && bool_decide (map_collect m = m);
|}.
Next Obligation.
  intros A ? c m H. bools. cbn [as_object mbind option_bind].
  assert (mapM (fun kv => pair kv.1 <$> dec c kv.2) (map (fun kv => (kv.1, enc c kv.2)) m) = Some m)
    as ->; [|cbn; by f_equal].
  clear H0. induction m as [|[k a] m IH]; [done|]. cbn [forallb map mapM fst snd] in *. bools.
  rewrite dec_enc by done. cbn. by rewrite IH.
Qed.
Next Obligation.
  intros A ? c v m. destruct (as_object v) as [k|]; [|done]. cbn [mbind option_bind].
  intros (l & H & ->)%fmap_Some. apply andb_true_intro. split.
  - apply forallb_forall. intros [j a] Hin%list_elem_of_In.
    assert (forall l acc, (j, a) ∈ fold_left (fun m kv => map_insert kv.1 kv.2 m) l acc ->
      (j, a) ∈ acc \/ (j, a) ∈ l) as Hc.
    { clear. induction l as [|[i x] l IH]; intros acc Hin; [by left|].
      apply IH in Hin as [Hin|Hin]; [|set_solver].
      apply map_insert_elem in Hin. set_solver. }
    apply Hc in Hin as [Hin|Hin]; [set_solver|].
    apply mapM_Some_1 in H. apply list_elem_of_lookup in Hin as [i Hi].
    eapply Forall2_lookup_r in H as ([k' v'] & _ & H); [|done].
    apply fmap_Some in H as (x & H & [= -> ->]). by eapply dec_valid.
  - apply bool_decide_eq_true. apply map_collect_id, map_collect_wf.
Qed.

(** A codec through a bijection. *)
Program Definition through {A B} (c : codec A) (to : B -> A) (from : A -> B)
    (Hft : forall b, from (to b) = b) (Htf : forall a, to (from a) = a) : codec B := {|
  enc b := enc c (to b);
  dec v := from <$> dec c v;
  valid b := valid c (to b);
|}.
Next Obligation. intros A B c to from Hft _ b H. rewrite dec_enc by done. cbn. by rewrite Hft. Qed.
Next Obligation.
  intros A B c to from _ Htf v b (a & H & ->)%fmap_Some. rewrite Htf. by eapply dec_valid.
Qed.

(** ** Structs

    The fields in declaration order.  A field with [#[serde(default)]] may be
    absent, and is skipped when it is [None]. *)
Inductive fields : Type -> Type :=
  | FNil : fields unit
  | FReq {A B} (name : string) (c : codec A) (rest : fields B) : fields (A * B)
  | FDef {A B} (name : string) (c : codec (option A)) (rest : fields B) : fields (option A * B).

Fixpoint names {T} (fs : fields T) : list string :=
  match fs with
  | FNil => []
  | FReq name _ rest | FDef name _ rest => name :: names rest
  end.
Fixpoint entries {T} (fs : fields T) : T -> list (string * value) :=
  match fs with
  | FNil => fun _ => []
  | FReq name c rest => fun t => (name, enc c t.1) :: entries rest t.2
  | FDef name c rest => fun t =>
      match t.1 with Some _ => [(name, enc c t.1)] | None => [] end ++ entries rest t.2
  end.
Fixpoint valid_fields {T} (fs : fields T) : T -> bool :=
  match fs with
  | FNil => fun _ => true
  | FReq _ c rest => fun t => valid c t.1 && valid_fields rest t.2
  | FDef _ c rest => fun t =>
      match t.1 with Some _ => valid c t.1 | None => true end && valid_fields rest t.2
  end.

(** [visit_map] and [visit_seq] of the derived visitor. *)
Fixpoint from_object {T} (fs : fields T) (m : list (string * value)) : option T :=
  match fs with
  | FNil => Some tt
  | FReq name c rest =>
      a ← map_get name m ≫= dec c;
      pair a <$> from_object rest m
  | FDef name c rest =>
      a ← match map_get name m with Some v => dec c v | None => Some None end;
      pair a <$> from_object rest m
  end.
Fixpoint from_array {T} (fs : fields T) (l : list value) : option T :=
  match fs with
  | FNil => match l with [] => Some tt | _ => None end
  | FReq name c rest =>
      match l with
      | [] => None
      | v :: l => a ← dec c v; pair a <$> from_array rest l
      end
  | FDef name c rest =>
      match l with
      | [] => pair None <$> from_array rest []
      | v :: l => a ← dec c v; pair a <$> from_array rest l
      end
  end.

(** [deny_unknown_fields] rejects an object with any other key. *)
Definition from_struct {T} (deny_unknown_fields : bool) (fs : fields T) (v : value) : option T :=
  match v with
  | Object m =>
      if deny_unknown_fields && negb (forallb (fun k => bool_decide (k ∈ names fs)) (m.*1))
      then None else from_object fs m
  | Array l => from_array fs l
  | _ => None
  end.

Lemma map_get_collect {V} k (l : list (string * V)) :
  NoDup (l.*1) -> map_get k (map_collect l) = map_get k l.
Proof.
  induction l as [|[j v] l IH] using rev_ind; intros H; [done|].
  rewrite fmap_app in H. apply NoDup_app in H as (Hl & Hd & _). rewrite map_collect_app.
  assert (map_get k (l ++ [(j, v)]) =
    match map_get k l with Some w => Some w | None => if String.eqb k j then Some v else None end) as ->.
  { clear. induction l as [|[i w] l IH]; simpl; [done|]. by destruct (String.eqb k i). }
  destruct (String.eqb_spec k j) as [->|Hne].
  - rewrite map_get_insert_eq. rewrite (proj2 (map_get_None j l)); [done|].
    intros Hin. apply (Hd j Hin). simpl. set_solver.
  - rewrite map_get_insert_ne by done. rewrite IH by done. by destruct (map_get k l).
Qed.

Lemma entries_names {T} (fs : fields T) t k : k ∈ (entries fs t).*1 -> k ∈ names fs.
Proof.
  revert t. induction fs as [|A B name c rest IH|A B name c rest IH]; intros t; [done| |].
  - cbn [entries names]. rewrite fmap_cons. set_solver.
  - cbn [entries names]. destruct t.1; cbn [app]; rewrite ?fmap_cons; set_solver.
Qed.
Lemma entries_nodup {T} (fs : fields T) t : NoDup (names fs) -> NoDup ((entries fs t).*1).
Proof.
  revert t. induction fs as [|A B name c rest IH|A B name c rest IH]; intros t H; [constructor| |];
    apply NoDup_cons in H as [Hn H]; cbn [entries].
  - rewrite fmap_cons. constructor; [|by apply IH]. intros Hin. by apply entries_names in Hin.
  - destruct t.1; cbn [app]; [|by apply IH]. rewrite fmap_cons. constructor; [|by apply IH].
    intros Hin. by apply entries_names in Hin.
Qed.

Lemma from_object_entries {T} (fs : fields T) t m :
  NoDup (names fs) -> valid_fields fs t = true ->
  (forall k, k ∈ names fs -> map_get k m = map_get k (entries fs t)) ->
  from_object fs m = Some t.
Proof.
  revert t. induction fs as [|A B name c rest IH|A B name c rest IH]; intros t Hd Hv Hm.
  - by destruct t.
  - destruct t as [a t]. apply NoDup_cons in Hd as [Hn Hd]. cbn [valid_fields fst snd] in Hv. bools.
    cbn [from_object]. rewrite Hm by (cbn [names]; set_solver). cbn [entries fst snd map_get].
    rewrite String.eqb_refl. cbn [mbind option_bind]. rewrite dec_enc by done. cbn [mbind option_bind].
    rewrite (IH t); [done..|]. intros k Hk. rewrite Hm by (cbn [names]; set_solver).
    cbn [entries fst snd map_get]. by destruct (String.eqb_spec k name) as [->|].
  - destruct t as [o t]. apply NoDup_cons in Hd as [Hn Hd]. cbn [valid_fields fst snd] in Hv. bools.
    assert (map_get name (entries rest t) = None) as Hrest.
    { apply map_get_None. intros Hin. by apply entries_names in Hin. }
    cbn [from_object]. rewrite Hm by (cbn [names]; set_solver). cbn [entries fst snd].
    assert (from_object rest m = Some t) as Hr.
    { apply IH; [done..|]. intros k Hk. rewrite Hm by (cbn [names]; set_solver).
      cbn [entries fst snd]. destruct o; [|done]. cbn [app map_get].
      by destruct (String.eqb_spec k name) as [->|]. }
    destruct o as [a|]; cbn [app map_get].
    + rewrite String.eqb_refl, dec_enc by done. cbn [mbind option_bind]. by rewrite Hr.
    + rewrite Hrest. cbn [mbind option_bind]. by rewrite Hr.
Qed.

Lemma from_object_valid {T} (fs : fields T) m t :
  from_object fs m = Some t -> valid_fields fs t = true.
Proof.
  revert t. induction fs as [|A B name c rest IH|A B name c rest IH]; intros t; [done| |];
    cbn [from_object]; intros (a & Ha & (t' & Ht & ->)%fmap_Some)%bind_Some;
    cbn [valid_fields fst snd]; apply andb_true_intro; (split; [|by apply IH]).
  - apply bind_Some in Ha as (v & _ & Ha). by eapply dec_valid.
  - destruct (map_get name m) as [v|]; [|by injection Ha as <-].
    destruct a; [|done]. by eapply dec_valid.
Qed.
Lemma from_array_valid {T} (fs : fields T) l t :
  from_array fs l = Some t -> valid_fields fs t = true.
Proof.
  revert l t. induction fs as [|A B name c rest IH|A B name c rest IH]; intros l t; [done| |];
    cbn [from_array valid_fields]; destruct l as [|v l]; try done.
  - intros (a & Ha & (t' & Ht & ->)%fmap_Some)%bind_Some. cbn. apply andb_true_intro.
    split; [by eapply dec_valid|by eapply IH].
  - intros (t' & Ht & ->)%fmap_Some. by eapply IH.
  - intros (a & Ha & (t' & Ht & ->)%fmap_Some)%bind_Some. cbn. apply andb_true_intro.
    split; [|by eapply IH]. destruct a; [|done]. by eapply dec_valid.
Qed.

Program Definition struct_codec {T} (fs : fields T) (H : bool_decide (NoDup (names fs)) = true)
  : codec T := {|
  enc t := Object (map_collect (entries fs t));
  dec v := from_struct true fs v;
  valid t := valid_fields fs t;
|}.
Next Obligation.
  intros T fs H t Hv. bools. cbn [from_struct]. rewrite (proj2 (forallb_forall _ _)).
  - cbn [andb negb]. apply from_object_entries; [done..|]. intros k _.
    apply map_get_collect. by apply entries_nodup.
  - intros k Hk%list_elem_of_In. apply bool_decide_eq_true. apply (entries_names fs t).
    destruct (decide (k ∈ (entries fs t).*1)) as [|Hn]; [done|].
    apply map_get_None in Hn. rewrite <-map_get_collect in Hn by (by apply entries_nodup).
    by apply map_get_None in Hn.
Qed.
Next Obligation.
  intros T fs H v t. destruct v as [| | | |l|m]; try done; cbn [from_struct].
  - apply from_array_valid.
  - destruct (_ && _); [done|]. apply from_object_valid.
Qed.

Lemma struct_enc_object {T} (fs : fields T) H t : is_Some (as_object (enc (struct_codec fs H) t)).
Proof. by eexists. Qed.
