(* ===== verification/Messages.v ===== *)
(** * Protocol messages (src/protocol/messages.rs, messages/streaming.rs,
    messages/preparation.rs)

    The messages of the version-1 worker protocol, with the shape their derived
    and custom deserializers accept.  A message is its record of data; the
    constant [method], [event], [ok] and [protocol] fields exist only on the
    wire. *)
From S2P Require Import Prelude Json Canonical Identity ThirdPartyModel Manifest Framing Redaction Wire.
From Stdlib Require Import Ascii Floats.SpecFloat.

#[local] Obligation Tactic := cbn beta.
#[local] Unset Program Cases.

Definition WIRE_PROTOCOL_VERSION : Z := 1.
Definition RESOLVED_WORKER_PREFIX : string := "mw1-resolved-worker-".

Definition is_object (v : value) : bool := match v with Object _ => true | _ => false end.

(** ** Scalars *)

(** [deserialize_nonempty_string]. *)
Definition nonempty_string : codec string := refined string_codec (fun s => negb (String.eqb s "")).
(** [deserialize_safe_u64]. *)
Definition safe_u64 : codec Z := unsigned_codec MAX_SAFE_INTEGER.
(** [deserialize_object]. *)
Definition object_value : codec value := refined value_codec is_object.
(** [deserialize_required_safe_u64_option]. *)
Program Definition required_safe_u64_option : codec (option Z) := nullable safe_u64 _.
Next Obligation. done. Qed.
(** [deserialize_optional_object]. *)
Program Definition optional_object : codec (option value) := nullable object_value _.
Next Obligation. by intros [] H. Qed.

Inductive MetadataError :=
  | EmptyRequestId
  | InvalidWorkerIdentity (value : string)
  | EmptySdkName
  | EmptySdkVersion
  | EmptyWorkerFailureMessage
  | InvalidWorkerFailureDetails.

Module RequestId.
Definition from_str (s : string) : result MetadataError string :=
  if String.eqb s "" then Err EmptyRequestId else Ok s.
End RequestId.

Module WorkerIdentity.
Definition from_str (s : string) : result MetadataError string :=
  digest ← ok_or (strip_prefix RESOLVED_WORKER_PREFIX s) (InvalidWorkerIdentity s);
  let b := bytes_of digest in
  _ ← ensure ((length b =? 64)%nat && forallb is_hex_lower b) (InvalidWorkerIdentity s);
  Ok s.
End WorkerIdentity.

(** A string that its [from_str] accepts. *)
Definition parsed (from_str : string -> result MetadataError string) : codec string :=
  refined string_codec (fun s => is_ok (from_str s)).
Definition request_id : codec string := parsed RequestId.from_str.
Definition worker_identity : codec string := parsed WorkerIdentity.from_str.

Inductive WorkerRole := DatasetMaterializer | ProblemPreparer | Implementation | ProblemEvaluator.
#[export] Instance worker_role_eq_dec : EqDecision WorkerRole.
Proof. solve_decision. Defined.
Definition role_name (r : WorkerRole) : string :=
  match r with
  | DatasetMaterializer => "dataset_materializer"
  | ProblemPreparer => "problem_preparer"
  | Implementation => "implementation"
  | ProblemEvaluator => "problem_evaluator"
  end.
Program Definition worker_role : codec WorkerRole :=
  enum_codec role_name [DatasetMaterializer; ProblemPreparer; Implementation; ProblemEvaluator] _.
Next Obligation. by intros []. Qed.

Inductive Capability :=
  | ProblemPreparation | OneShot | Applicability | FreshSequence | StreamingProfile
  | BufferedProfile | ManagedOutputs | ProblemSemantics.
#[export] Instance capability_eq_dec : EqDecision Capability.
Proof. solve_decision. Defined.
(** In the derived order. *)
Definition all_capabilities : list Capability :=
  [ProblemPreparation; OneShot; Applicability; FreshSequence; StreamingProfile;
   BufferedProfile; ManagedOutputs; ProblemSemantics].
Definition capability_name (c : Capability) : string :=
  match c with
  | ProblemPreparation => "problem_preparation"
  | OneShot => "one_shot"
  | Applicability => "applicability"
  | FreshSequence => "fresh_sequence"
  | StreamingProfile => "streaming_profile"
  | BufferedProfile => "buffered_profile"
  | ManagedOutputs => "managed_outputs"
  | ProblemSemantics => "problem_semantics"
  end.
Program Definition capability : codec Capability := enum_codec capability_name all_capabilities _.
Next Obligation. by intros []. Qed.

(** [into_iter().collect::<BTreeSet<Capability>>()], in iteration order. *)
Definition collect_set (l : list Capability) : list Capability :=
  List.filter (fun c => bool_decide (c ∈ l)) all_capabilities.

Lemma collect_set_elem l c : c ∈ collect_set l <-> c ∈ l.
Proof.
  unfold collect_set. rewrite list_elem_of_In, filter_In, <-list_elem_of_In, bool_decide_eq_true.
  split; [tauto|]. intros H. split; [|done]. destruct c; set_solver.
Qed.
Lemma collect_set_collected l : collect_set (collect_set l) = collect_set l.
Proof.
  unfold collect_set at 1 3. apply filter_ext. intros c.
  apply bool_decide_ext, collect_set_elem.
Qed.

(** [Capabilities]: unique values, put into protocol order. *)
Program Definition capabilities : codec (list Capability) := {|
  enc l := enc (vec_codec capability) l;
  dec v := l ← dec (vec_codec capability) v;
           if (length (collect_set l) =? length l)%nat then Some (collect_set l) else None;
  valid l := bool_decide (collect_set l = l);
|}.
Next Obligation.
  intros l H. bools. rewrite dec_enc by (cbn; by apply forallb_forall).
  cbn [mbind option_bind]. by rewrite H, Nat.eqb_refl.
Qed.
Next Obligation.
  intros v l (k & _ & H)%bind_Some. destruct (_ =? _)%nat; [|done]. injection H as <-.
  apply bool_decide_eq_true. apply collect_set_collected.
Qed.

(** [ProtocolOffers]: nonempty and unique [u32] versions. *)
Definition protocol_offers : codec (list Z) :=
  refined (vec_codec (unsigned_codec (2 ^ 32 - 1)))
    (fun l => negb (bool_decide (l = [])) && bool_decide (NoDup l)).

(** [Success], [Failure] and [VersionOne]. *)
Program Definition flag_codec (b : bool) : codec unit := {|
  enc _ := Bool b;
  dec v := match v with Bool c => if Bool.eqb b c then Some tt else None | _ => None end;
  valid _ := true;
|}.
Next Obligation. intros b [] _. by rewrite Bool.eqb_reflx. Qed.
Next Obligation. done. Qed.
Definition success : codec unit := flag_codec true.
Definition failure_flag : codec unit := flag_codec false.
Program Definition version_one : codec unit := {|
  enc _ := json_u64 WIRE_PROTOCOL_VERSION;
  dec v := n ← dec (unsigned_codec (2 ^ 32 - 1)) v;
           if (n =? WIRE_PROTOCOL_VERSION)%Z then Some tt else None;
  valid _ := true;
|}.
Next Obligation. by intros []. Qed.
Next Obligation. done. Qed.

(** ** Message types *)

(** A record and the tuple of its fields carry the same data. *)
Ltac same_data :=
  cbn beta; intros;
  repeat match goal with
  | t : _ * _ |- _ => destruct t
  | u : unit |- _ => destruct u
  end;
  first [reflexivity | match goal with m : _ |- _ => destruct m; reflexivity end].
#[local] Obligation Tactic := try solve [same_data]; cbn beta.

Class WireMessage (M : Type) := message_codec : codec M.
Arguments message_codec M {_}.
Class WireResponse (M : Type) `{WireMessage M} := response_id : M -> string.

Module SdkMetadata.
Record t := { name : string; version : string }.
Definition new (name version : string) : result MetadataError t :=
  if String.eqb name "" then Err EmptySdkName
  else if String.eqb version "" then Err EmptySdkVersion
  else Ok {| name := name; version := version |}.
Definition wire_fields := FReq "name" string_codec (FReq "version" string_codec FNil).
Program Definition wire : codec t :=
  refined (through (struct_codec wire_fields eq_refl)
    (fun m => (name m, (version m, tt)))
    (fun '(name, (version, _)) => {| name := name; version := version |}) _ _)
  (fun m => is_ok (new (name m) (version m))).
Program Definition optional : codec (option t) := nullable wire _.
Next Obligation. done. Qed.
End SdkMetadata.

Module HelloRequest.
Record t := { id : string; protocols : list Z; role : WorkerRole; worker_id : string }.
Definition new (id : string) (role : WorkerRole) (worker_id : string) : t :=
  {| id := id; protocols := [WIRE_PROTOCOL_VERSION]; role := role; worker_id := worker_id |}.
Definition wire_fields :=
  FReq "id" request_id (FReq "method" (constant_codec "hello")
  (FReq "protocols" protocol_offers (FReq "role" worker_role
  (FReq "worker_id" worker_identity FNil)))).
#[global] Program Instance wire : WireMessage t :=
  through (struct_codec wire_fields eq_refl)
    (fun m => (id m, (tt, (protocols m, (role m, (worker_id m, tt))))))
    (fun '(id, (_, (protocols, (role, (worker_id, _))))) =>
       {| id := id; protocols := protocols; role := role; worker_id := worker_id |}) _ _.
End HelloRequest.

Module HelloResponse.
Record t := {
  id : string; worker_id : string; sdk : option SdkMetadata.t; capabilities : list Capability }.
Definition new (id worker_id : string) (sdk : option SdkMetadata.t) (reported : list Capability) : t :=
  {| id := id; worker_id := worker_id; sdk := sdk; capabilities := collect_set reported |}.
Definition wire_fields :=
  FReq "id" request_id (FReq "ok" success (FReq "protocol" version_one
  (FReq "worker_id" worker_identity (FReq "sdk" SdkMetadata.optional
  (FReq "capabilities" Messages.capabilities FNil))))).
#[global] Program Instance wire : WireMessage t :=
  through (struct_codec wire_fields eq_refl)
    (fun m => (id m, (tt, (tt, (worker_id m, (sdk m, (capabilities m, tt)))))))
    (fun '(id, (_, (_, (worker_id, (sdk, (capabilities, _)))))) =>
       {| id := id; worker_id := worker_id; sdk := sdk; capabilities := capabilities |}) _ _.
#[global] Instance response : WireResponse t := id.
End HelloResponse.

Module MaterializeRequest.
Record t := {
  id : string; source_dir : string; dataset_parameters : value; dataset_seed : Z;
  output_dir : string }.
Definition wire_fields :=
  FReq "id" request_id (FReq "method" (constant_codec "materialize")
  (FReq "source_dir" nonempty_string (FReq "dataset_parameters" object_value
  (FReq "dataset_seed" safe_u64 (FReq "output_dir" nonempty_string FNil))))).
#[global] Program Instance wire : WireMessage t :=
  through (struct_codec wire_fields eq_refl)
    (fun m => (id m, (tt, (source_dir m, (dataset_parameters m, (dataset_seed m, (output_dir m, tt)))))))
    (fun '(id, (_, (source_dir, (dataset_parameters, (dataset_seed, (output_dir, _)))))) =>
       {| id := id; source_dir := source_dir; dataset_parameters := dataset_parameters;
          dataset_seed := dataset_seed; output_dir := output_dir |}) _ _.
End MaterializeRequest.

Module PrepareProblemRequest.
Record t := {
  id : string; dataset_dir : string; problem_contract_id : string; problem_parameters : value;
  output_dir : string }.
Definition wire_fields :=
  FReq "id" request_id (FReq "method" (constant_codec "materialize")
  (FReq "dataset_dir" nonempty_string (FReq "problem_contract_id" nonempty_string
  (FReq "problem_parameters" object_value (FReq "output_dir" nonempty_string FNil))))).
#[global] Program Instance wire : WireMessage t :=
  through (struct_codec wire_fields eq_refl)
    (fun m => (id m, (tt, (dataset_dir m, (problem_contract_id m, (problem_parameters m, (output_dir m, tt)))))))
    (fun '(id, (_, (dataset_dir, (problem_contract_id, (problem_parameters, (output_dir, _)))))) =>
       {| id := id; dataset_dir := dataset_dir; problem_contract_id := problem_contract_id;
          problem_parameters := problem_parameters; output_dir := output_dir |}) _ _.
End PrepareProblemRequest.

Module CheckApplicabilityRequest.
Record t := {
  problem_dir : option string; id : string; dataset_dir : string; dataset_manifest : string;
  problem_contract_id : string; problem_parameters : value; implementation_parameters : value }.
Definition wire_fields :=
  FDef "problem_dir" (present nonempty_string) (FReq "id" request_id
  (FReq "method" (constant_codec "check_applicability")
  (FReq "dataset_dir" nonempty_string (FReq "dataset_manifest" nonempty_string
  (FReq "problem_contract_id" nonempty_string (FReq "problem_parameters" object_value
  (FReq "implementation_parameters" object_value FNil))))))).
#[global] Program Instance wire : WireMessage t :=
  through (struct_codec wire_fields eq_refl)
    (fun m => (problem_dir m, (id m, (tt, (dataset_dir m, (dataset_manifest m,
       (problem_contract_id m, (problem_parameters m, (implementation_parameters m, tt)))))))))
    (fun '(problem_dir, (id, (_, (dataset_dir, (dataset_manifest,
       (problem_contract_id, (problem_parameters, (implementation_parameters, _)))))))) =>
       {| problem_dir := problem_dir; id := id; dataset_dir := dataset_dir;
          dataset_manifest := dataset_manifest; problem_contract_id := problem_contract_id;
          problem_parameters := problem_parameters;
          implementation_parameters := implementation_parameters |}) _ _.
End CheckApplicabilityRequest.

Inductive ApplicabilityOutcome := Applicable | NotApplicable.
Definition outcome_name (o : ApplicabilityOutcome) : string :=
  match o with Applicable => "applicable" | NotApplicable => "not_applicable" end.
Program Definition applicability_outcome : codec ApplicabilityOutcome :=
  enum_codec outcome_name [Applicable; NotApplicable] _.

Module CheckApplicabilityResponse.
Record t := {
  id : string; outcome : ApplicabilityOutcome; code : string; reason : string;
  details : option value }.
Definition wire_fields :=
  FReq "id" request_id (FReq "ok" success (FReq "outcome" applicability_outcome
  (FReq "code" nonempty_string (FReq "reason" nonempty_string
  (FDef "details" (present object_value) FNil))))).
#[global] Program Instance wire : WireMessage t :=
  through (struct_codec wire_fields eq_refl)
    (fun m => (id m, (tt, (outcome m, (code m, (reason m, (details m, tt)))))))
    (fun '(id, (_, (outcome, (code, (reason, (details, _)))))) =>
       {| id := id; outcome := outcome; code := code; reason := reason; details := details |}) _ _.
#[global] Instance response : WireResponse t := id.
End CheckApplicabilityResponse.

Module PrepareRequest.
Record t := {
  problem_dir : option string; id : string; dataset_dir : string; problem_contract_id : string;
  problem_parameters : value; implementation_parameters : value; implementation_seed : Z }.
Definition wire_fields :=
  FDef "problem_dir" (present nonempty_string) (FReq "id" request_id
  (FReq "method" (constant_codec "prepare") (FReq "dataset_dir" nonempty_string
  (FReq "problem_contract_id" nonempty_string (FReq "problem_parameters" object_value
  (FReq "implementation_parameters" object_value (FReq "implementation_seed" safe_u64 FNil))))))).
#[global] Program Instance wire : WireMessage t :=
  through (struct_codec wire_fields eq_refl)
    (fun m => (problem_dir m, (id m, (tt, (dataset_dir m, (problem_contract_id m,
       (problem_parameters m, (implementation_parameters m, (implementation_seed m, tt)))))))))
    (fun '(problem_dir, (id, (_, (dataset_dir, (problem_contract_id,
       (problem_parameters, (implementation_parameters, (implementation_seed, _)))))))) =>
       {| problem_dir := problem_dir; id := id; dataset_dir := dataset_dir;
          problem_contract_id := problem_contract_id; problem_parameters := problem_parameters;
          implementation_parameters := implementation_parameters;
          implementation_seed := implementation_seed |}) _ _.
End PrepareRequest.

Module ExecuteRequest.
Record t := { observation_control : option value; id : string; result_dir : string }.
Definition wire_fields :=
  FDef "observation_control" (present object_value) (FReq "id" request_id
  (FReq "method" (constant_codec "execute") (FReq "result_dir" nonempty_string FNil))).
#[global] Program Instance wire : WireMessage t :=
  through (struct_codec wire_fields eq_refl)
    (fun m => (observation_control m, (id m, (tt, (result_dir m, tt)))))
    (fun '(observation_control, (id, (_, (result_dir, _)))) =>
       {| observation_control := observation_control; id := id; result_dir := result_dir |}) _ _.
End ExecuteRequest.

Module ExecuteBufferedRequest.
Record t := { id : string; result_root : string; profile : value }.
Definition wire_fields :=
  FReq "id" request_id (FReq "method" (constant_codec "execute_buffered")
  (FReq "result_root" nonempty_string (FReq "profile" object_value FNil))).
#[global] Program Instance wire : WireMessage t :=
  through (struct_codec wire_fields eq_refl)
    (fun m => (id m, (tt, (result_root m, (profile m, tt)))))
    (fun '(id, (_, (result_root, (profile, _)))) =>
       {| id := id; result_root := result_root; profile := profile |}) _ _.
End ExecuteBufferedRequest.

(** The field [manifest] of a completed artifact. *)
Module ManifestReference.
Definition wire_fields := FReq "manifest" nonempty_string FNil.
Program Definition wire : codec string :=
  through (struct_codec wire_fields eq_refl) (fun m => (m, tt)) (fun '(m, _) => m) _ _.
End ManifestReference.

Module ExecuteBufferedResponse.
Record t := { id : string; buffer : string }.
Definition wire_fields :=
  FReq "id" request_id (FReq "ok" success (FReq "buffer" ManifestReference.wire FNil)).
#[global] Program Instance wire : WireMessage t :=
  through (struct_codec wire_fields eq_refl)
    (fun m => (id m, (tt, (buffer m, tt))))
    (fun '(id, (_, (buffer, _))) => {| id := id; buffer := buffer |}) _ _.
#[global] Instance response : WireResponse t := id.
End ExecuteBufferedResponse.

Module ResetRequest.
Record t := { id : string }.
Definition wire_fields := FReq "id" request_id (FReq "method" (constant_codec "reset") FNil).
#[global] Program Instance wire : WireMessage t :=
  through (struct_codec wire_fields eq_refl)
    (fun m => (id m, (tt, tt))) (fun '(id, _) => {| id := id |}) _ _.
End ResetRequest.

Module EvaluateRequest.
Record t := {
  problem_dir : option string; id : string; dataset_dir : string; problem_contract_id : string;
  problem_parameters : value; problem_semantics : option value; result_dir : string;
  metrics_path : string }.
Definition wire_fields :=
  FDef "problem_dir" (present nonempty_string) (FReq "id" request_id
  (FReq "method" (constant_codec "evaluate") (FReq "dataset_dir" nonempty_string
  (FReq "problem_contract_id" nonempty_string (FReq "problem_parameters" object_value
  (FDef "problem_semantics" (present object_value) (FReq "result_dir" nonempty_string
  (FReq "metrics_path" nonempty_string FNil)))))))).
#[global] Program Instance wire : WireMessage t :=
  through (struct_codec wire_fields eq_refl)
    (fun m => (problem_dir m, (id m, (tt, (dataset_dir m, (problem_contract_id m,
       (problem_parameters m, (problem_semantics m, (result_dir m, (metrics_path m, tt))))))))))
    (fun '(problem_dir, (id, (_, (dataset_dir, (problem_contract_id,
       (problem_parameters, (problem_semantics, (result_dir, (metrics_path, _))))))))) =>
       {| problem_dir := problem_dir; id := id; dataset_dir := dataset_dir;
          problem_contract_id := problem_contract_id; problem_parameters := problem_parameters;
          problem_semantics := problem_semantics; result_dir := result_dir;
          metrics_path := metrics_path |}) _ _.
End EvaluateRequest.

Module ShutdownRequest.
Record t := { id : string }.
Definition wire_fields := FReq "id" request_id (FReq "method" (constant_codec "shutdown") FNil).
#[global] Program Instance wire : WireMessage t :=
  through (struct_codec wire_fields eq_refl)
    (fun m => (id m, (tt, tt))) (fun '(id, _) => {| id := id |}) _ _.
End ShutdownRequest.

Module MaterializeResponse.
Record t := { id : string; dataset : string }.
Definition wire_fields :=
  FReq "id" request_id (FReq "ok" success (FReq "dataset" ManifestReference.wire FNil)).
#[global] Program Instance wire : WireMessage t :=
  through (struct_codec wire_fields eq_refl)
    (fun m => (id m, (tt, (dataset m, tt))))
    (fun '(id, (_, (dataset, _))) => {| id := id; dataset := dataset |}) _ _.
#[global] Instance response : WireResponse t := id.
End MaterializeResponse.

Module Acknowledgement.
Record t := { id : string }.
Definition wire_fields := FReq "id" request_id (FReq "ok" success FNil).
#[global] Program Instance wire : WireMessage t :=
  through (struct_codec wire_fields eq_refl)
    (fun m => (id m, (tt, tt))) (fun '(id, _) => {| id := id |}) _ _.
#[global] Instance response : WireResponse t := id.
End Acknowledgement.

Inductive EvaluationVerdict := Invalid | Reached | NotReached | NotRequired.
Definition verdict_name (v : EvaluationVerdict) : string :=
  match v with
  | Invalid => "invalid"
  | Reached => "reached"
  | NotReached => "not_reached"
  | NotRequired => "not_required"
  end.
Program Definition evaluation_verdict : codec EvaluationVerdict :=
  enum_codec verdict_name [Invalid; Reached; NotReached; NotRequired] _.

Module EvaluateResponse.
Record t := { id : string; verdict : EvaluationVerdict }.
Definition wire_fields :=
  FReq "id" request_id (FReq "ok" success (FReq "verdict" evaluation_verdict FNil)).
#[global] Program Instance wire : WireMessage t :=
  through (struct_codec wire_fields eq_refl)
    (fun m => (id m, (tt, (verdict m, tt))))
    (fun '(id, (_, (verdict, _))) => {| id := id; verdict := verdict |}) _ _.
#[global] Instance response : WireResponse t := id.
End EvaluateResponse.

Module ExecuteResponse.
Record t := {
  observation_control : option value; id : string; implementation_time_ns : option Z;
  manifest : string; statistics : value }.
Definition wire_fields :=
  FDef "observation_control" (present object_value) (FReq "id" request_id (FReq "ok" success
  (FReq "implementation_time_ns" required_safe_u64_option
  (FReq "result" ManifestReference.wire (FReq "statistics" object_value FNil))))).
#[global] Program Instance wire : WireMessage t :=
  through (struct_codec wire_fields eq_refl)
    (fun m => (observation_control m, (id m, (tt, (implementation_time_ns m, (manifest m,
       (statistics m, tt)))))))
    (fun '(observation_control, (id, (_, (implementation_time_ns, (manifest, (statistics, _)))))) =>
       {| observation_control := observation_control; id := id;
          implementation_time_ns := implementation_time_ns; manifest := manifest;
          statistics := statistics |}) _ _.
#[global] Instance response : WireResponse t := id.
End ExecuteResponse.

Inductive WorkerFailureCode :=
  | InvalidRequest | UnsupportedOperation | OperationFailed | InternalError | ResourceLimit.
Definition failure_code_name (c : WorkerFailureCode) : string :=
  match c with
  | InvalidRequest => "invalid_request"
  | UnsupportedOperation => "unsupported_operation"
  | OperationFailed => "operation_failed"
  | InternalError => "internal_error"
  | ResourceLimit => "resource_limit"
  end.
Program Definition worker_failure_code : codec WorkerFailureCode :=
  enum_codec failure_code_name
    [InvalidRequest; UnsupportedOperation; OperationFailed; InternalError; ResourceLimit] _.

Module WorkerFailure.
Record t := { code : WorkerFailureCode; message : string; details : option value }.
Definition new (code : WorkerFailureCode) (message : string) (details : option value)
  : result MetadataError t :=
  if String.eqb message "" then Err EmptyWorkerFailureMessage
  else if match details with Some d => negb (is_object d) | None => false end
  then Err InvalidWorkerFailureDetails
  else Ok {| code := code; message := message; details := details |}.
Definition wire_fields :=
  FReq "code" worker_failure_code (FReq "message" nonempty_string
  (FDef "details" optional_object FNil)).
Program Definition wire : codec t :=
  through (struct_codec wire_fields eq_refl)
    (fun m => (code m, (message m, (details m, tt))))
    (fun '(code, (message, (details, _))) =>
       {| code := code; message := message; details := details |}) _ _.
End WorkerFailure.

Module WorkerFailureResponse.
Record t := { id : string; error : WorkerFailure.t }.
Definition wire_fields :=
  FReq "id" request_id (FReq "ok" failure_flag (FReq "error" WorkerFailure.wire FNil)).
#[global] Program Instance wire : WireMessage t :=
  through (struct_codec wire_fields eq_refl)
    (fun m => (id m, (tt, (error m, tt))))
    (fun '(id, (_, (error, _))) => {| id := id; error := error |}) _ _.
End WorkerFailureResponse.

(** [ManagedOutputResponse]: the first untagged variant that matches. *)
Module ManagedOutputResponse.
Inductive t :=
  | Execute (id draft : string) (implementation_time_ns : option Z) (statistics : value)
      (observation_control : option value)
  | Evaluate (id draft : string) (verdict : EvaluationVerdict)
  | Materialize (id draft : string).
Definition execute_fields :=
  FReq "id" request_id (FReq "ok" success (FReq "draft" nonempty_string
  (FReq "implementation_time_ns" required_safe_u64_option (FReq "statistics" object_value
  (FDef "observation_control" (present object_value) FNil))))).
Definition evaluate_fields :=
  FReq "id" request_id (FReq "ok" success (FReq "draft" nonempty_string
  (FReq "verdict" evaluation_verdict FNil))).
Definition materialize_fields :=
  FReq "id" request_id (FReq "ok" success (FReq "draft" nonempty_string FNil)).
Definition decode (v : value) : option t :=
  match from_struct true execute_fields v with
  | Some (id, (_, (draft, (time, (statistics, (control, _)))))) =>
      Some (Execute id draft time statistics control)
  | None =>
  match from_struct true evaluate_fields v with
  | Some (id, (_, (draft, (verdict, _)))) => Some (Evaluate id draft verdict)
  | None =>
  match from_struct true materialize_fields v with
  | Some (id, (_, (draft, _))) => Some (Materialize id draft)
  | None => None
  end end end.
Definition method (m : t) : string :=
  match m with
  | Execute _ _ _ _ _ => "execute"
  | Evaluate _ _ _ => "evaluate"
  | Materialize _ _ => "materialize"
  end.
End ManagedOutputResponse.

(** ** Streaming *)

Module ExecuteStreamRequest.
Record t := { id : string; result_root : string; profile : value }.
Definition wire_fields :=
  FReq "id" request_id (FReq "method" (constant_codec "execute_stream")
  (FReq "result_root" nonempty_string (FReq "profile" object_value FNil))).
#[global] Program Instance wire : WireMessage t :=
  through (struct_codec wire_fields eq_refl)
    (fun m => (id m, (tt, (result_root m, (profile m, tt)))))
    (fun '(id, (_, (result_root, (profile, _)))) =>
       {| id := id; result_root := result_root; profile := profile |}) _ _.
End ExecuteStreamRequest.

Module StreamCheckpoint.
Record t := {
  id : string; sequence : Z; check_index : Z; work : BTreeMap Z; terminal : bool;
  manifest : option string; draft : option string }.
Definition new (id : string) (sequence check_index : Z) (work : BTreeMap Z) (terminal : bool)
    (manifest : string) : t :=
  {| id := id; sequence := sequence; check_index := check_index; work := work;
     terminal := terminal; manifest := Some manifest; draft := None |}.
(** [UncheckedCheckpoint]. *)
Definition wire_fields :=
  FReq "id" request_id (FReq "event" (constant_codec "checkpoint") (FReq "sequence" safe_u64
  (FReq "check_index" safe_u64 (FReq "work" (map_codec (unsigned_codec u64_max))
  (FReq "terminal" bool_codec (FDef "manifest" (present nonempty_string)
  (FDef "draft" (present nonempty_string) FNil))))))).
Definition safe_work (work : BTreeMap Z) : bool :=
  forallb (fun kv => (kv.2 <=? MAX_SAFE_INTEGER)%Z) work.
(** The two options agree on being present. *)
Definition same_presence (a b : option string) : bool :=
  match a, b with Some _, Some _ | None, None => true | _, _ => false end.
(** [TryFrom<UncheckedCheckpoint>]. *)
Definition try_from (m : t) : bool :=
  negb (same_presence (manifest m) (draft m) || negb (safe_work (work m))).
#[global] Program Instance wire : WireMessage t :=
  refined (through (struct_codec wire_fields eq_refl)
    (fun m => (id m, (tt, (sequence m, (check_index m, (work m, (terminal m, (manifest m,
       (draft m, tt)))))))))
    (fun '(id, (_, (sequence, (check_index, (work, (terminal, (manifest, (draft, _)))))))) =>
       {| id := id; sequence := sequence; check_index := check_index; work := work;
          terminal := terminal; manifest := manifest; draft := draft |}) _ _) try_from.
End StreamCheckpoint.

Inductive StreamAction := Continue | Stop.
#[export] Instance stream_action_eq_dec : EqDecision StreamAction.
Proof. solve_decision. Defined.
Definition action_name (a : StreamAction) : string :=
  match a with Continue => "continue" | Stop => "stop" end.
Program Definition stream_action : codec StreamAction := enum_codec action_name [Continue; Stop] _.

Module StreamDecision.
Record t := { id : string; sequence : Z; action : StreamAction; reason : option string }.
Definition new (id : string) (sequence : Z) (action : StreamAction) (reason : option string) : t :=
  {| id := id; sequence := sequence; action := action; reason := reason |}.
Definition wire_fields :=
  FReq "id" request_id (FReq "method" (constant_codec "stream_decision")
  (FReq "sequence" safe_u64 (FReq "action" stream_action
  (FDef "reason" (present nonempty_string) FNil)))).
#[global] Program Instance wire : WireMessage t :=
  through (struct_codec wire_fields eq_refl)
    (fun m => (id m, (tt, (sequence m, (action m, (reason m, tt))))))
    (fun '(id, (_, (sequence, (action, (reason, _))))) =>
       {| id := id; sequence := sequence; action := action; reason := reason |}) _ _.
End StreamDecision.

Module ExecuteStreamResponse.
Record t := { id : string; checkpoint_count : Z }.
Definition wire_fields :=
  FReq "id" request_id (FReq "ok" success (FReq "checkpoint_count" safe_u64 FNil)).
#[global] Program Instance wire : WireMessage t :=
  through (struct_codec wire_fields eq_refl)
    (fun m => (id m, (tt, (checkpoint_count m, tt))))
    (fun '(id, (_, (checkpoint_count, _))) => {| id := id; checkpoint_count := checkpoint_count |}) _ _.
#[global] Instance response : WireResponse t := id.
End ExecuteStreamResponse.

(** ** Encoding and decoding *)

Inductive MessageEncodeError := Serialization | LineLimit (limit : Z).
(** [InvalidMessage] without the diagnostic of serde_json. *)
Inductive MessageDecodeError := InvalidMessage.

Definition message_value {M} `{WireMessage M} (m : M) : value := enc (message_codec M) m.
Definition valid_message {M} `{WireMessage M} (m : M) : bool := Wire.valid (message_codec M) m.

Definition encode_message `{ThirdParty} {M} `{WireMessage M} (m : M)
  : result MessageEncodeError bytes :=
  encoded ← ok_or (to_vec (message_value m)) Serialization;
  if (MAX_LINE_BYTES <=? length_z encoded)%Z then Err (LineLimit MAX_LINE_BYTES)
  else Ok (encoded ++ [newline]).

Definition decode_message (M : Type) `{WireMessage M} (v : value) : result MessageDecodeError M :=
  ok_or (dec (message_codec M) v) InvalidMessage.

Lemma decode_message_value {M} `{WireMessage M} (m : M) :
  valid_message m = true -> decode_message M (message_value m) = Ok m.
Proof. intros Hv. unfold decode_message, message_value. by rewrite dec_enc. Qed.
Lemma decode_message_valid {M} `{WireMessage M} v (m : M) :
  decode_message M v = Ok m -> valid_message m = true.
Proof.
  unfold decode_message. destruct (dec _ v) as [m'|] eqn:E; [|done]. intros [= <-].
  by eapply dec_valid.
Qed.


(** ** The kinds of messages

    The types of the protocol that implement [WireMessage] with one strict shape.
    [ManagedOutputResponse], whose shape is one of three, is not among them. *)
Inductive MessageKind :=
  | HelloRequestKind | HelloResponseKind | MaterializeRequestKind | PrepareProblemRequestKind
  | CheckApplicabilityRequestKind | CheckApplicabilityResponseKind | PrepareRequestKind
  | ExecuteRequestKind | ExecuteBufferedRequestKind | ExecuteBufferedResponseKind
  | ResetRequestKind | EvaluateRequestKind | ShutdownRequestKind | MaterializeResponseKind
  | AcknowledgementKind | EvaluateResponseKind | ExecuteResponseKind
  | WorkerFailureResponseKind | ExecuteStreamRequestKind | StreamCheckpointKind
  | StreamDecisionKind | ExecuteStreamResponseKind.
#[export] Instance message_kind_eq_dec : EqDecision MessageKind.
Proof. solve_decision. Defined.
Definition message_type (k : MessageKind) : Type :=
  match k with
  | HelloRequestKind => HelloRequest.t
  | HelloResponseKind => HelloResponse.t
  | MaterializeRequestKind => MaterializeRequest.t
  | PrepareProblemRequestKind => PrepareProblemRequest.t
  | CheckApplicabilityRequestKind => CheckApplicabilityRequest.t
  | CheckApplicabilityResponseKind => CheckApplicabilityResponse.t
  | PrepareRequestKind => PrepareRequest.t
  | ExecuteRequestKind => ExecuteRequest.t
  | ExecuteBufferedRequestKind => ExecuteBufferedRequest.t
  | ExecuteBufferedResponseKind => ExecuteBufferedResponse.t
  | ResetRequestKind => ResetRequest.t
  | EvaluateRequestKind => EvaluateRequest.t
  | ShutdownRequestKind => ShutdownRequest.t
  | MaterializeResponseKind => MaterializeResponse.t
  | AcknowledgementKind => Acknowledgement.t
  | EvaluateResponseKind => EvaluateResponse.t
  | ExecuteResponseKind => ExecuteResponse.t
  | WorkerFailureResponseKind => WorkerFailureResponse.t
  | ExecuteStreamRequestKind => ExecuteStreamRequest.t
  | StreamCheckpointKind => StreamCheckpoint.t
  | StreamDecisionKind => StreamDecision.t
  | ExecuteStreamResponseKind => ExecuteStreamResponse.t
  end.
#[export] Instance message_wire (k : MessageKind) : WireMessage (message_type k) :=
  match k with
  | HelloRequestKind => HelloRequest.wire
  | HelloResponseKind => HelloResponse.wire
  | MaterializeRequestKind => MaterializeRequest.wire
  | PrepareProblemRequestKind => PrepareProblemRequest.wire
  | CheckApplicabilityRequestKind => CheckApplicabilityRequest.wire
  | CheckApplicabilityResponseKind => CheckApplicabilityResponse.wire
  | PrepareRequestKind => PrepareRequest.wire
  | ExecuteRequestKind => ExecuteRequest.wire
  | ExecuteBufferedRequestKind => ExecuteBufferedRequest.wire
  | ExecuteBufferedResponseKind => ExecuteBufferedResponse.wire
  | ResetRequestKind => ResetRequest.wire
  | EvaluateRequestKind => EvaluateRequest.wire
  | ShutdownRequestKind => ShutdownRequest.wire
  | MaterializeResponseKind => MaterializeResponse.wire
  | AcknowledgementKind => Acknowledgement.wire
  | EvaluateResponseKind => EvaluateResponse.wire
  | ExecuteResponseKind => ExecuteResponse.wire
  | WorkerFailureResponseKind => WorkerFailureResponse.wire
  | ExecuteStreamRequestKind => ExecuteStreamRequest.wire
  | StreamCheckpointKind => StreamCheckpoint.wire
  | StreamDecisionKind => StreamDecision.wire
  | ExecuteStreamResponseKind => ExecuteStreamResponse.wire
  end.

(** The fields of a kind on the wire. *)
Definition message_fields (k : MessageKind) : sigT fields :=
  match k with
  | HelloRequestKind => existT _ HelloRequest.wire_fields
  | HelloResponseKind => existT _ HelloResponse.wire_fields
  | MaterializeRequestKind => existT _ MaterializeRequest.wire_fields
  | PrepareProblemRequestKind => existT _ PrepareProblemRequest.wire_fields
  | CheckApplicabilityRequestKind => existT _ CheckApplicabilityRequest.wire_fields
  | CheckApplicabilityResponseKind => existT _ CheckApplicabilityResponse.wire_fields
  | PrepareRequestKind => existT _ PrepareRequest.wire_fields
  | ExecuteRequestKind => existT _ ExecuteRequest.wire_fields
  | ExecuteBufferedRequestKind => existT _ ExecuteBufferedRequest.wire_fields
  | ExecuteBufferedResponseKind => existT _ ExecuteBufferedResponse.wire_fields
  | ResetRequestKind => existT _ ResetRequest.wire_fields
  | EvaluateRequestKind => existT _ EvaluateRequest.wire_fields
  | ShutdownRequestKind => existT _ ShutdownRequest.wire_fields
  | MaterializeResponseKind => existT _ MaterializeResponse.wire_fields
  | AcknowledgementKind => existT _ Acknowledgement.wire_fields
  | EvaluateResponseKind => existT _ EvaluateResponse.wire_fields
  | ExecuteResponseKind => existT _ ExecuteResponse.wire_fields
  | WorkerFailureResponseKind => existT _ WorkerFailureResponse.wire_fields
  | ExecuteStreamRequestKind => existT _ ExecuteStreamRequest.wire_fields
  | StreamCheckpointKind => existT _ StreamCheckpoint.wire_fields
  | StreamDecisionKind => existT _ StreamDecision.wire_fields
  | ExecuteStreamResponseKind => existT _ ExecuteStreamResponse.wire_fields
  end.
(** The constant that tells a request or an event from the others. *)
Definition message_tag (k : MessageKind) : option (string * string) :=
  match k with
  | HelloRequestKind => Some ("method", "hello")
  | MaterializeRequestKind => Some ("method", "materialize")
  | PrepareProblemRequestKind => Some ("method", "materialize")
  | CheckApplicabilityRequestKind => Some ("method", "check_applicability")
  | PrepareRequestKind => Some ("method", "prepare")
  | ExecuteRequestKind => Some ("method", "execute")
  | ExecuteBufferedRequestKind => Some ("method", "execute_buffered")
  | ResetRequestKind => Some ("method", "reset")
  | EvaluateRequestKind => Some ("method", "evaluate")
  | ShutdownRequestKind => Some ("method", "shutdown")
  | ExecuteStreamRequestKind => Some ("method", "execute_stream")
  | StreamCheckpointKind => Some ("event", "checkpoint")
  | StreamDecisionKind => Some ("method", "stream_decision")
  | _ => None
  end.

(** *** No frame is a message of two kinds *)

Fixpoint required {T} (fs : fields T) : list string :=
  match fs with
  | FNil => []
  | FReq name _ rest => name :: required rest
  | FDef _ _ rest => required rest
  end.

Lemma entries_required {T} (fs : fields T) t j : j ∈ required fs -> j ∈ (entries fs t).*1.
Proof.
  revert t. induction fs as [|A B name c rest IH|A B name c rest IH]; intros t; cbn [required entries].
  - by intros ?%elem_of_nil.
  - rewrite fmap_cons. intros [->|Hj]%elem_of_cons; [by left|right; by apply IH].
  - intros Hj. rewrite fmap_app. apply elem_of_app. right. by apply IH.
Qed.
Lemma from_object_required {T} (fs : fields T) m t j :
  from_object fs m = Some t -> j ∈ required fs -> j ∈ m.*1.
Proof.
  revert t. induction fs as [|A B name c rest IH|A B name c rest IH]; intros t; cbn [required from_object]; [by intros _ ?%elem_of_nil|..];
    intros (a & Ha & (t' & Ht & ->)%fmap_Some)%bind_Some; [|by eapply IH].
  intros [->|Hj]%elem_of_cons; [|by eapply IH].
  apply bind_Some in Ha as (v & Hv & _). destruct (decide (name ∈ m.*1)) as [|Hn]; [done|].
  apply map_get_None in Hn. congruence.
Qed.

Definition kind_required (k : MessageKind) : list string := required (projT2 (message_fields k)).
Definition kind_names (k : MessageKind) : list string := names (projT2 (message_fields k)).

(** What is known of the object of a message. *)
Record of_kind (k : MessageKind) (o : list (string * value)) : Prop := {
  ok_required j : j ∈ kind_required k -> j ∈ o.*1;
  ok_names j : j ∈ o.*1 -> j ∈ kind_names k;
  ok_tag j s : message_tag k = Some (j, s) -> map_get j o ≫= variant_name = Some s;
}.

Lemma map_collect_keys {V} (l : list (string * V)) j :
  NoDup (l.*1) -> j ∈ (map_collect l).*1 <-> j ∈ l.*1.
Proof.
  intros Hl. pose proof (map_get_collect j l Hl) as E. pose proof (map_get_None j l) as H1.
  pose proof (map_get_None j (map_collect l)) as H2. rewrite E in H2.
  destruct (decide (j ∈ l.*1)), (decide (j ∈ (map_collect l).*1)); tauto.
Qed.

Lemma struct_of_kind {T} (fs : fields T) (t : T) :
  bool_decide (NoDup (names fs)) = true ->
  (forall j, j ∈ required fs -> j ∈ (map_collect (entries fs t)).*1) /\
  (forall j, j ∈ (map_collect (entries fs t)).*1 -> j ∈ names fs) /\
  (forall j, map_get j (map_collect (entries fs t)) = map_get j (entries fs t)).
Proof.
  intros Hn%bool_decide_eq_true. pose proof (entries_nodup fs t Hn) as Hd. split; [|split]; intros j.
  - intros Hj. apply map_collect_keys; [done|]. by apply entries_required.
  - rewrite map_collect_keys by done. apply entries_names.
  - by apply map_get_collect.
Qed.

Lemma message_of_kind k (m : message_type k) : exists o, message_value m = Object o /\ of_kind k o.
Proof.
  assert (exists t, message_value m = Object (map_collect (entries (projT2 (message_fields k)) t)) /\
    forall j s, message_tag k = Some (j, s) -> map_get j (entries (projT2 (message_fields k)) t) = Some (Str s))
    as (t & -> & Htag).
  { destruct k; (eexists; split; [reflexivity|]); intros j s [= <- <-];
      cbn; try reflexivity; repeat case_match; reflexivity. }
  assert (bool_decide (NoDup (names (projT2 (message_fields k)))) = true) as Hn by (by destruct k).
  destruct (struct_of_kind _ t Hn) as (H1 & H2 & H3). eexists. split; [reflexivity|].
  constructor; [exact H1|exact H2|]. intros j s Hj. rewrite H3. by rewrite (Htag j s Hj).
Qed.

Lemma constant_text s v u : dec (constant_codec s) v = Some u -> variant_name v = Some s.
Proof.
  cbn. unfold variant_of. intros (t & Hv & Ht)%bind_Some. rewrite Hv. cbn in Ht.
  by destruct (String.eqb_spec t s) as [->|].
Qed.

Lemma tag_decoded o j s u : map_get j o ≫= dec (constant_codec s) = Some u -> map_get j o ≫= variant_name = Some s.
Proof. intros (v & -> & Hv)%bind_Some. by eapply constant_text. Qed.

Lemma decoded_of_kind k o (m : message_type k) :
  decode_message (message_type k) (Object o) = Ok m -> of_kind k o.
Proof.
  unfold decode_message. intros Hm.
  assert (exists t, from_struct true (projT2 (message_fields k)) (Object o) = Some t) as [t Ht].
  { destruct (dec _ _) as [m'|] eqn:E in Hm; [clear Hm|done].
    destruct k; cbn [message_type message_wire] in *;
      first [apply refine_with_Some in E as [E _]|idtac]; apply fmap_Some in E as (t & E & _); by exists t. }
  cbn [from_struct andb] in Ht. destruct (forallb _ _) eqn:Hn; [|done]. cbn [negb] in Ht. constructor.
  - intros j. by apply (from_object_required _ _ _ _ Ht).
  - intros j Hj%list_elem_of_In. rewrite forallb_forall in Hn. apply Hn in Hj. by bools.
  - intros j s Htag. clear Hn Hm m. revert Ht.
    destruct k; try discriminate Htag; injection Htag as <- <-; intros E;
      match type of E with from_object ?fs _ = _ => let f := eval hnf in fs in change fs with f in E end;
      cbn [from_object] in E;
      repeat (apply bind_Some in E as (? & ? & (? & E & _)%fmap_Some)); by eapply tag_decoded.
Qed.

(** Two kinds have different keys, or the same key with different constants. *)
Definition separated (k k' : MessageKind) : bool :=
  existsb (fun j => negb (bool_decide (j ∈ kind_names k'))) (kind_required k) ||
  existsb (fun j => negb (bool_decide (j ∈ kind_names k))) (kind_required k') ||
  match message_tag k, message_tag k' with
  | Some (j, s), Some (j', s') => String.eqb j j' && negb (String.eqb s s')
  | _, _ => false
  end.
Lemma kinds_separated k k' : k <> k' -> separated k k' = true.
Proof. destruct k, k'; intros Hne; first [by destruct Hne|reflexivity]. Qed.

Lemma missing_key k k' o :
  of_kind k o -> of_kind k' o -> existsb (fun j => negb (bool_decide (j ∈ kind_names k'))) (kind_required k) = false.
Proof.
  intros H1 H2. apply not_true_iff_false. rewrite existsb_exists. intros (j & Hj & Hn). bools.
  apply Hn, (ok_names _ _ H2), (ok_required _ _ H1). by apply list_elem_of_In.
Qed.
Lemma of_kind_unique k k' o : of_kind k o -> of_kind k' o -> k = k'.
Proof.
  intros H1 H2. destruct (decide (k = k')) as [|Hs%kinds_separated]; [done|exfalso].
  unfold separated in Hs. rewrite (missing_key k k' o), (missing_key k' k o) in Hs by done.
  destruct (message_tag k) as [[j s]|] eqn:E1, (message_tag k') as [[j' s']|] eqn:E2; try done.
  apply (ok_tag _ _ H1) in E1. apply (ok_tag _ _ H2) in E2.
  apply andb_true_iff in Hs as [->%String.eqb_eq Hs]. rewrite E1 in E2. injection E2 as ->.
  by rewrite String.eqb_refl in Hs.
Qed.

(** Normalization keeps the keys and the constants of an object. *)
Lemma normal_variant_name v w s :
  normalize_value v = Ok w -> variant_name v = Some s -> variant_name w = Some s.
Proof.
  destruct v as [| | |t| |[|[t []] []]]; cbn; try done; intros [= <-]; done.
Qed.
Lemma normal_entries_variant m m' j s :
  Forall2 normal_entry m m' -> map_get j m ≫= variant_name = Some s -> map_get j m' ≫= variant_name = Some s.
Proof.
  induction 1 as [|[k v] [k' v'] m m' [Hk Hv] _ IH]; [done|]. cbn in *. subst k'.
  destruct (String.eqb j k); [|done]. cbn. by apply normal_variant_name.
Qed.

Lemma normalized_of_kind k o w :
  map_wf o -> of_kind k o -> normalize_value (Object o) = Ok w -> exists o', w = Object o' /\ of_kind k o'.
Proof.
  intros Ho [H1 H2 H3] (m & Hm & ->)%normalize_object_Ok. exists m.
  pose proof (normal_entries_keys _ _ Hm) as Hk.
  assert (map_wf m) as Hw by (unfold map_wf in *; by rewrite Hk).
  split; [by rewrite map_collect_id|]. constructor; rewrite ?Hk; [done..|].
  intros j s Hj. eapply normal_entries_variant; eauto.
Qed.

(** ** From one end of the pipe to the other *)

(** What serde_json feeds to a visitor for the text of a value. *)
Fixpoint raw_of (v : value) : raw :=
  match v with
  | Null => RawNull
  | Bool b => RawBool b
  | Number (PosInt n) => RawU64 (Z.to_N n)
  | Number (NegInt z) => RawI64 z
  | Number (Float f) => RawF64 f
  | Str s => RawStr s
  | Array l => RawSeq (map raw_of l) true
  | Object m => RawMap (map (fun kv => (kv.1, raw_of kv.2)) m) true
  end.

(** The text of a canonical value: one line of UTF-8 without a byte-order mark,
    whose parse feeds back the value. *)
Definition canonical_text (document : bytes -> raw * bool) (v : value) (b : bytes) : Prop :=
  position b = None /\ starts_with byte_order_mark b = false /\ utf8_error 0 b = None /\
  document b = (raw_of v, true).

Lemma unique_visit_raw_of v :
  in_domain v = true -> value_wf v -> Unique.visit (raw_of v) = Ok v.
Proof.
  induction v as [| |n| |l IH|m IH] using value_ind'; intros Hd Hw; try done.
  - destruct n as [z|z|f]; cbn in Hd; bools; cbn.
    + unfold Unique.visit_u64. by rewrite Z2N.id by lia.
    + unfold Unique.visit_i64, number_of_i64. by rewrite (proj2 (Z.ltb_lt _ _)) by lia.
    + unfold Unique.visit_f64, number_from_f64. by rewrite H.
  - apply value_numbers_array in Hd. apply value_wf_array in Hw. cbn [raw_of Unique.visit].
    assert (forall acc, Unique.visit_seq Unique.visit acc (map raw_of l) true = Ok (Array (acc ++ l))) as H;
      [|apply (H [])].
    induction IH as [|v l Hv _ IHl]; intros acc; [by rewrite app_nil_r|].
    apply Forall_cons in Hd as [? ?], Hw as [? ?]. cbn [map Unique.visit_seq].
    rewrite Hv by done. cbn [mbind result_bind]. rewrite IHl by done. by rewrite <-app_assoc.
  - apply value_numbers_object in Hd. apply value_wf_object in Hw as [Hm Hw]. cbn [raw_of Unique.visit].
    assert (forall acc, map_wf (acc ++ m) ->
      Unique.visit_map Unique.visit acc (map (fun kv => (kv.1, raw_of kv.2)) m) true = Ok (Object (acc ++ m)))
      as H; [|by apply (H [])].
    clear Hm. induction IH as [|[k v] m Hv _ IHm]; intros acc Hm; [by rewrite app_nil_r|].
    apply Forall_cons in Hd as [? ?], Hw as [? ?]. cbn [map Unique.visit_map fst snd].
    assert (Forall (fun j => key_lt j k) (acc.*1)) as Hlast.
    { unfold map_wf in Hm. rewrite fmap_app in Hm. apply Forall_forall. intros j Hj.
      eapply StronglySorted_app_1_elem_of; eauto. rewrite fmap_cons. set_solver. }
    assert (contains_key k acc = false) as ->.
    { unfold contains_key. rewrite (proj2 (map_get_None k acc)); [done|]. intros Hin.
      rewrite Forall_forall in Hlast. by apply (key_lt_irrefl k), Hlast. }
    cbn [fst snd] in *. rewrite Hv by done. cbn [mbind result_bind].
    rewrite map_insert_last by done. rewrite IHm; rewrite <-?app_assoc; done.
Qed.

Section Transport.
Context `{ThirdParty} (document : bytes -> raw * bool).

Lemma parse_canonical_text v b :
  in_domain v = true -> value_wf v -> canonical_text document v b ->
  parse_frame document b = Ok v.
Proof.
  intros Hd Hw (_ & Hbom & Hu & Hdoc). unfold parse_frame, parse_unique_json.
  rewrite Hbom, Hu, Hdoc. cbn. by rewrite unique_visit_raw_of.
Qed.

(** The frame of a message is read as the value its text denotes. *)
Lemma read_encoded {M} `{WireMessage M} (m : M) w frame r rest :
  in_domain w = true -> value_wf w ->
  (forall b, to_vec (message_value m) = Some b -> canonical_text document w b) ->
  encode_message m = Ok frame -> fed (pending r) -> content r = frame ++ rest ->
  (read_frame document r).1 = Ok (Some w) /\ content (read_frame document r).2 = rest.
Proof.
  intros Hd Hw Htext He Hfed Hc. unfold encode_message in He.
  apply bind_Ok in He as (b & Hb & He). destruct (to_vec _) as [b'|] eqn:Eb; [|done].
  injection Hb as ->. specialize (Htext b eq_refl).
  destruct (_ <=? _)%Z eqn:Hlen; [done|]. injection He as <-. bools.
  rewrite <-app_assoc in Hc. cbn [app] in Hc.
  pose proof Htext as (Hn & _).
  destruct (frame_of_line b rest Hn Hlen) as [Hf Ha].
  destruct (read_line_frame r Hfed) as [Hr Hr2]. rewrite Hc, Hf in Hr. rewrite Hc, Ha in Hr2.
  destruct (Hr2 b Hr) as [Hcont _]. unfold read_frame.
  destruct (read_line r) as [line r']. cbn [fst snd] in *. rewrite Hr. cbn [mbind result_bind].
  unfold lift. by rewrite (parse_canonical_text _ _ Hd Hw Htext).
Qed.

(** C24: a message survives the pipe.  Take a valid message of any of the
    twenty-two kinds (every type of the protocol but the untagged
    [ManagedOutputResponse]), its payloads made of serde_json numbers and ordered
    objects, whose value has a canonical form, which fails only for an integral
    number beyond 2^53 - 1 in magnitude in a payload.  If the serializer writes the RFC 8785 text
    of that form, on one line of UTF-8 that serde_json parses back to it, and the
    line is within the limit of [encode_message], then the reader accepts the frame:
    however the stream cuts it, [read_frame] returns the canonical form and leaves
    the reader at the bytes after the frame.  A message that is canonical already
    (its integral numbers are spelled as integers) is decoded to itself; in another
    one the payload numbers, and nothing else, are read in their canonical spelling.
    And no kind is taken for another: what is read decodes as a message of no other
    kind, which holds for requests, events and responses alike. *)
Theorem message_roundtrip k (m : message_type k) w frame r rest :
  valid_message m = true ->
  value_numbers_wf (message_value m) = true -> value_wf (message_value m) ->
  normalize_value (message_value m) = Ok w ->
  (forall b, to_vec (message_value m) = Some b -> canonical_text document w b) ->
  encode_message m = Ok frame ->
  fed (pending r) -> content r = frame ++ rest ->
  (read_frame document r).1 = Ok (Some w) /\
  content (read_frame document r).2 = rest /\
  (in_domain (message_value m) = true -> w = message_value m /\ decode_message (message_type k) w = Ok m) /\
  (forall k' (m' : message_type k'), decode_message (message_type k') w = Ok m' -> k' = k).
Proof.
  intros Hv Hn Hw Hnorm Htext He Hfed Hc. destruct (normalize_value_domain _ _ Hn Hnorm) as [Hwd Hww].
  destruct (read_encoded m w frame r rest) as [Hread Hrest]; try done.
  split; [done|]. split; [done|]. split.
  - intros Hd. rewrite normalize_value_canonical in Hnorm by done. injection Hnorm as <-.
    split; [done|]. by apply decode_message_value.
  - intros k' m' Hm'. destruct (message_of_kind k m) as (o & Ho & Hk). rewrite Ho in Hnorm, Hw.
    apply value_wf_object in Hw as [Hwf _].
    destruct (normalized_of_kind k o w Hwf Hk Hnorm) as (o' & -> & Hk').
    apply decoded_of_kind in Hm'. by eapply of_kind_unique.
Qed.
End Transport.
Definition example_checkpoint : StreamCheckpoint.t := {|
  StreamCheckpoint.id := "3"; StreamCheckpoint.sequence := 0; StreamCheckpoint.check_index := 16;
  StreamCheckpoint.work := [("iterations", 16%Z)]; StreamCheckpoint.terminal := false;
  StreamCheckpoint.manifest := Some "checkpoints/0/result.json"; StreamCheckpoint.draft := None |}.

(** A checkpoint in canonical form, cut in two, and a request whose profile
    holds the float 1.0, which is read as the integer. *)
Definition example_buffered : ExecuteBufferedRequest.t := {|
  ExecuteBufferedRequest.id := "4"; ExecuteBufferedRequest.result_root := "results";
  ExecuteBufferedRequest.profile := Object [("rate", Number (Float (S754_finite false 1 0)))] |}.
Definition example_read : value := message_value {|
  ExecuteBufferedRequest.id := "4"; ExecuteBufferedRequest.result_root := "results";
  ExecuteBufferedRequest.profile := Object [("rate", Number (PosInt 1))] |}.

Lemma message_roundtrip_witness :
  let document b := (raw_of (message_value example_checkpoint), true) in
  let document' b := (raw_of example_read, true) in
  exists frame frame', encode_message (H := model) example_checkpoint = Ok frame /\
    (read_frame document {| buffer := []; pending := [Ok (take 40 frame); Ok (drop 40 frame)] |}).1
      = Ok (Some (message_value example_checkpoint)) /\
    decode_message StreamCheckpoint.t (message_value example_checkpoint) = Ok example_checkpoint /\
    encode_message (H := model) example_buffered = Ok frame' /\
    (read_frame document' {| buffer := []; pending := [Ok frame'] |}).1 = Ok (Some example_read) /\
    (forall k m, decode_message (message_type k) example_read = Ok m -> k = ExecuteBufferedRequestKind).
Proof.
  intros document document'.
  destruct (encode_message (H := model) example_checkpoint) as [frame|e] eqn:E; [|vm_compute in E; discriminate].
  destruct (encode_message (H := model) example_buffered) as [frame'|e] eqn:E'; [|vm_compute in E'; discriminate].
  exists frame, frame'. split; [reflexivity|].
  set (r := {| buffer := []; pending := [Ok (take 40 frame); Ok (drop 40 frame)] |}).
  assert (bool_decide (take 40 frame <> []) && bool_decide (drop 40 frame <> []) && bool_decide (frame' <> []) = true) as Hne.
  { vm_compute in E, E'. injection E as <-. injection E' as <-. vm_compute. reflexivity. }
  apply andb_prop in Hne as [Hne H3%bool_decide_eq_true].
  apply andb_prop in Hne as [H1%bool_decide_eq_true H2%bool_decide_eq_true].
  destruct (@message_roundtrip model document StreamCheckpointKind example_checkpoint
    (message_value example_checkpoint) frame r []) as (Hr & _ & Hm & _).
  - vm_compute. reflexivity.
  - vm_compute. reflexivity.
  - repeat split; repeat constructor.
  - vm_compute. reflexivity.
  - intros b Hb. vm_compute in Hb. injection Hb as <-. repeat split; vm_compute; reflexivity.
  - exact E.
  - constructor; [|constructor; [|constructor]]; eexists; (split; [reflexivity|assumption]).
  - unfold content, delivered, r. cbn. rewrite !app_nil_r. apply take_drop.
  - destruct (@message_roundtrip model document' ExecuteBufferedRequestKind example_buffered
      example_read frame' {| buffer := []; pending := [Ok frame'] |} []) as (Hr' & _ & _ & Hk).
    + vm_compute. reflexivity.
    + vm_compute. reflexivity.
    + repeat split; repeat constructor.
    + vm_compute. reflexivity.
    + intros b Hb. vm_compute in Hb. injection Hb as <-. repeat split; vm_compute; reflexivity.
    + exact E'.
    + constructor; [|constructor]. eexists. split; [reflexivity|assumption].
    + unfold content, delivered. cbn. by rewrite !app_nil_r.
    + split; [exact Hr|]. split; [by apply Hm; vm_compute|]. split; [reflexivity|].
      split; [exact Hr'|exact Hk].
Defined.
