(* ===== verification/Handshake.v ===== *)
(** * Request tracking and the hello exchange (src/protocol/messages.rs)

    The serial request tracker, the decoding of a terminal response against it,
    and the validation of a worker's hello response. *)
From S2P Require Import Prelude Json Canonical Identity Manifest Framing Wire Messages.
From stdpp Require Import pretty.
From Stdlib Require Import Ascii.

(** ** The request tracker *)
Inductive RequestTrackerError :=
  | RequestAlreadyPending (id : string)
  | RequestIdExhausted
  | MismatchedRequest (expected actual : string)
  | ExtraRequestResponse (id : string).

Record RequestTracker := { next_id : Z; pending_request : option string }.
#[export] Instance request_tracker_eq_dec : EqDecision RequestTracker.
Proof. solve_decision. Defined.

Module Tracker.
Definition new : RequestTracker := {| next_id := 0; pending_request := None |}.

(** [u64::to_string]. *)
Definition id_string (n : Z) : string := pretty (Z.to_N n).

Definition begin_request (t : RequestTracker)
  : result RequestTrackerError (string * RequestTracker) :=
  match pending_request t with
  | Some id => Err (RequestAlreadyPending id)
  | None =>
      next ← ok_or (checked_add_u64 (next_id t) 1) RequestIdExhausted;
      let id := id_string (next_id t) in
      Ok (id, {| next_id := next; pending_request := Some id |})
  end.

Definition complete_response (response_id : string) (t : RequestTracker)
  : result RequestTrackerError RequestTracker :=
  match pending_request t with
  | None => Err (ExtraRequestResponse response_id)
  | Some expected =>
      if negb (String.eqb expected response_id) then Err (MismatchedRequest expected response_id)
      else Ok {| next_id := next_id t; pending_request := None |}
  end.
End Tracker.

(** ** Terminal responses *)
Inductive OperationResponseDecodeError :=
  | MessageError (e : MessageDecodeError)
  | RequestError (e : RequestTrackerError).
Inductive OperationResponse (R : Type) :=
  | Success (response : R)
  | Failure (failure : WorkerFailure.t).
Arguments Success {R} response.
Arguments Failure {R} failure.

(** [ResponseEnvelope]: any further field of an object is ignored. *)
Definition envelope_fields := FReq "id" request_id (FReq "ok" bool_codec FNil).

(** The tracker is changed before the body of the response is decoded. *)
Definition decode_operation_response (R : Type) `{WireMessage R} (v : value) (t : RequestTracker)
  : result OperationResponseDecodeError (OperationResponse R) * RequestTracker :=
  match from_struct false envelope_fields v with
  | None => (Err (MessageError InvalidMessage), t)
  | Some (id, (ok, _)) =>
      match Tracker.complete_response id t with
      | Err e => (Err (RequestError e), t)
      | Ok t =>
          (map_err MessageError
             (if ok : bool then Success <$> decode_message R v
              else (fun r => Failure (WorkerFailureResponse.error r)) <$>
                     decode_message WorkerFailureResponse.t v), t)
      end
  end.

(** ** The handshake *)
Inductive HandshakeError :=
  | NoCommonProtocol (offered supported : list Z)
  | MismatchedHelloId (expected actual : string)
  | ProtocolMismatch (selected reported : Z)
  | WorkerIdentityMismatch (expected actual : string)
  | MissingCapability (capability : Capability)
  | ReservedCapability (capability : Capability)
  | CapabilityRoleMismatch (role : WorkerRole) (capability : Capability).

Record NegotiatedSession := {
  ns_role : WorkerRole;
  ns_protocol : Z;
  ns_worker_id : string;
  ns_sdk : option SdkMetadata.t;
  selected_capabilities : list Capability;
  reported_capabilities : list Capability;
}.

Definition negotiate_protocol (offered : list Z) : result HandshakeError Z :=
  if bool_decide (WIRE_PROTOCOL_VERSION ∈ offered) then Ok WIRE_PROTOCOL_VERSION
  else Err (NoCommonProtocol offered [WIRE_PROTOCOL_VERSION]).

(** The capabilities that cannot be selected for a role. *)
Definition role_mismatch (role : WorkerRole) (c : Capability) : bool :=
  match c with
  | ManagedOutputs => false
  | ProblemPreparation =>
      negb (match role with Implementation | ProblemEvaluator => true | _ => false end)
  | ProblemSemantics => negb (bool_decide (role = ProblemEvaluator))
  | _ => negb (bool_decide (role = Implementation))
  end.
Definition reserved (c : Capability) : bool :=
  negb (match c with
        | OneShot | Applicability | ProblemSemantics | ProblemPreparation | BufferedProfile
        | FreshSequence | ManagedOutputs | StreamingProfile => true
        end).

Definition reject_first {E} (p : Capability -> bool) (error : Capability -> E)
    (l : list Capability) : result E unit :=
  match List.find p l with Some c => Err (error c) | None => Ok tt end.

Definition validate_hello_response (request : HelloRequest.t) (response : HelloResponse.t)
    (selected : list Capability) : result HandshakeError NegotiatedSession :=
  _ ← ensure (String.eqb (HelloResponse.id response) (HelloRequest.id request))
        (MismatchedHelloId (HelloRequest.id request) (HelloResponse.id response));
  protocol ← negotiate_protocol (HelloRequest.protocols request);
  _ ← ensure (WIRE_PROTOCOL_VERSION =? protocol)%Z
        (ProtocolMismatch protocol WIRE_PROTOCOL_VERSION);
  _ ← ensure (String.eqb (HelloResponse.worker_id response) (HelloRequest.worker_id request))
        (WorkerIdentityMismatch (HelloRequest.worker_id request) (HelloResponse.worker_id response));
  _ ← reject_first (role_mismatch (HelloRequest.role request))
        (CapabilityRoleMismatch (HelloRequest.role request)) selected;
  _ ← reject_first reserved ReservedCapability selected;
  let selected := collect_set selected in
  _ ← for_each (fun c =>
        ensure (bool_decide (c ∈ HelloResponse.capabilities response)) (MissingCapability c)) selected;
  Ok {| ns_role := HelloRequest.role request;
        ns_protocol := protocol;
        ns_worker_id := HelloResponse.worker_id response;
        ns_sdk := HelloResponse.sdk response;
        selected_capabilities := selected;
        reported_capabilities := HelloResponse.capabilities response |}.

(** ** Facts of the tracker *)

Lemma pretty_inj n m :
  (0 <= n)%Z -> (0 <= m)%Z -> Tracker.id_string n = Tracker.id_string m -> n = m.
Proof. unfold Tracker.id_string. intros Hn Hm H. apply (inj pretty) in H. lia. Qed.

Lemma begin_request_Ok t id t' :
  Tracker.begin_request t = Ok (id, t') ->
  pending_request t = None /\ id = Tracker.id_string (next_id t) /\
  next_id t' = (next_id t + 1)%Z /\ pending_request t' = Some id.
Proof.
  unfold Tracker.begin_request. destruct (pending_request t); [done|].
  intros (n & Hn & [= <- <-])%bind_Ok. unfold checked_add_u64 in Hn.
  destruct (_ <=? _)%Z; simplify_eq/=. done.
Qed.

(** A response consumes the request it answers, whatever its body decodes to. *)
Lemma decode_operation_response_tracker (R : Type) `{WireMessage R} v t res t' :
  decode_operation_response R v t = (res, t') ->
  (pending_request t' = None /\ is_Some (pending_request t) /\ next_id t' = next_id t) \/
  (t' = t /\ exists e, res = Err e).
Proof.
  unfold decode_operation_response.
  destruct (from_struct _ _ _) as [[id [ok []]]|]; [|intros [= <- <-]; right; eauto].
  unfold Tracker.complete_response. destruct (pending_request t) as [expected|] eqn:Hp.
  - destruct (negb _); intros [= <- <-]; [right; eauto|left; naive_solver].
  - intros [= <- <-]. right; eauto.
Qed.

Lemma reject_first_Ok {E} p (error : Capability -> E) l :
  reject_first p error l = Ok tt <-> Forall (fun c => p c = false) l.
Proof.
  unfold reject_first. induction l as [|c l IH]; simpl; [done|].
  destruct (p c) eqn:Hp; [|rewrite IH, Forall_cons; tauto].
  split; [done|]. intros H%Forall_cons. destruct H. congruence.
Qed.
