(* ===== verification/Session.v ===== *)
(** * Worker sessions (src/runtime/worker_session.rs)

    One negotiated worker process that serves serial typed requests.  A session
    operation changes the session whether it succeeds or fails, so operations
    are computations of a state and error monad.  What the operating system
    does during one exchange (the clock, the private directory, the reply of
    the worker, the finalization of managed output) is an argument. *)
From S2P Require Import Prelude Json Canonical Identity Manifest Framing Redaction Wire Messages Handshake.
From Stdlib Require Import Ascii.

(** ** Data *)

(** Durations and instants are nanoseconds. *)
Record PhaseTimeouts := {
  t_hello : Z; t_materialize : Z; t_prepare : Z; t_execute : Z; t_reset : Z; t_evaluate : Z;
  t_shutdown : Z }.

Inductive WorkerPhase :=
  | PhaseHello | PhaseMaterialize | PhaseCheckApplicability | PhasePrepare | PhaseExecute
  | PhaseReset | PhaseEvaluate | PhaseShutdown.

(** The transport and protocol failures; [string] is the text of an I/O error. *)
Inductive WorkerSessionError :=
  | StreamProtocol (message : string)
  | ManagedOutput (source : string)
  | ObservationControlMismatch
  | ControlEnforcementLost (control : string)
  | RedactedProtocolRead (phase : WorkerPhase)
  | HandshakeFailed (source : HandshakeError)
  | RequestFailed (phase : WorkerPhase) (source : RequestTrackerError)
  | EncodeFailed (phase : WorkerPhase) (source : MessageEncodeError)
  | ProtocolWrite (phase : WorkerPhase) (source : string)
  | ProtocolRead (phase : WorkerPhase) (source : FrameError)
  | ProtocolClosed (phase : WorkerPhase)
  | ProtocolThreadStopped (phase : WorkerPhase)
  | ResponseFailed (phase : WorkerPhase) (source : OperationResponseDecodeError)
  | WorkerFailed (phase : WorkerPhase) (failure : WorkerFailure.t)
  | ScientificTimeout (phase : WorkerPhase)
  | TimeoutExpired (phase : WorkerPhase) (limit : Z)
  | InvalidRole (phase : WorkerPhase) (role : WorkerRole)
  | CapabilityNotSelected (phase : WorkerPhase) (capability : Capability)
  | ProcessFailed (phase : WorkerPhase) (source : string)
  | UnsuccessfulExit (phase : WorkerPhase)
  | SessionUnusable.

(** The part of a process that the session looks at. *)
Record WorkerProcess := { private_working_directory : bool }.

Record StreamState := {
  st_root : string;
  st_bound : Z;
  st_bytes : Z;
  st_count : Z;
  st_awaiting : bool;
  st_stopped : bool;
}.

Record WorkerSession := {
  problem_dir : option string;
  stream : option StreamState;
  redactor : list bytes;
  role : WorkerRole;
  negotiated_session : option NegotiatedSession;
  requests : RequestTracker;
  timeouts : PhaseTimeouts;
  scientific_deadline : option Z;
  process : option WorkerProcess;
  protocol_sender : bool;
  usable : bool;
}.

(** ** Computations on a session *)
Definition session (A : Type) : Type :=
  WorkerSession -> result (failure WorkerSessionError) A * WorkerSession.

#[export] Instance session_ret : MRet session := fun _ a s => (Ok a, s).
#[export] Instance session_bind : MBind session := fun _ _ k m s =>
  match m s with
  | (Ok a, s) => k a s
  | (Err e, s) => (Err e, s)
  end.

Definition throw {A} (e : WorkerSessionError) : session A := fun s => (Err (Returned e), s).
Definition panic {A} : session A := fun s => (Err Panicked, s).
Definition gets {A} (f : WorkerSession -> A) : session A := fun s => (Ok (f s), s).
Definition modify (f : WorkerSession -> WorkerSession) : session unit := fun s => (Ok tt, f s).
(** [option.expect(..)]. *)
Definition unwrap {A} (o : option A) : session A :=
  match o with Some a => mret a | None => panic end.
(** A computation of the redactor, which has no error of its own. *)
Definition panicking_in {A} (m : result (failure Empty_set) A) : session A :=
  match m with Ok a => mret a | Err _ => panic end.
Definition require (b : bool) (e : WorkerSessionError) : session unit :=
  if b then mret tt else throw e.
(** [map_err(..)?] on a result of the protocol. *)
Definition lift_result {E A} (f : E -> WorkerSessionError) (m : result E A) : session A :=
  match m with Ok a => mret a | Err e => throw (f e) end.

Definition set_stream (st : option StreamState) (s : WorkerSession) : WorkerSession := {|
  problem_dir := problem_dir s; stream := st; redactor := redactor s; role := role s;
  negotiated_session := negotiated_session s; requests := requests s; timeouts := timeouts s;
  scientific_deadline := scientific_deadline s; process := process s;
  protocol_sender := protocol_sender s; usable := usable s |}.
Definition set_requests (r : RequestTracker) (s : WorkerSession) : WorkerSession := {|
  problem_dir := problem_dir s; stream := stream s; redactor := redactor s; role := role s;
  negotiated_session := negotiated_session s; requests := r; timeouts := timeouts s;
  scientific_deadline := scientific_deadline s; process := process s;
  protocol_sender := protocol_sender s; usable := usable s |}.
Definition set_negotiated (n : NegotiatedSession) (s : WorkerSession) : WorkerSession := {|
  problem_dir := problem_dir s; stream := stream s; redactor := redactor s; role := role s;
  negotiated_session := Some n; requests := requests s; timeouts := timeouts s;
  scientific_deadline := scientific_deadline s; process := process s;
  protocol_sender := protocol_sender s; usable := usable s |}.
Definition set_problem_dir (d : option string) (s : WorkerSession) : WorkerSession := {|
  problem_dir := d; stream := stream s; redactor := redactor s; role := role s;
  negotiated_session := negotiated_session s; requests := requests s; timeouts := timeouts s;
  scientific_deadline := scientific_deadline s; process := process s;
  protocol_sender := protocol_sender s; usable := usable s |}.
Definition set_deadline (d : option Z) (s : WorkerSession) : WorkerSession := {|
  problem_dir := problem_dir s; stream := stream s; redactor := redactor s; role := role s;
  negotiated_session := negotiated_session s; requests := requests s; timeouts := timeouts s;
  scientific_deadline := d; process := process s;
  protocol_sender := protocol_sender s; usable := usable s |}.
(** The end of [discard]: the process is killed and reaped, protocol I/O stopped. *)
Definition released (s : WorkerSession) : WorkerSession := {|
  problem_dir := problem_dir s; stream := stream s; redactor := redactor s; role := role s;
  negotiated_session := negotiated_session s; requests := requests s; timeouts := timeouts s;
  scientific_deadline := scientific_deadline s; process := None;
  protocol_sender := false; usable := false |}.

(** ** Helpers of the session *)

Definition discarded (s : WorkerSession) : WorkerSession :=
  if negb (usable s) && match process s with None => true | Some _ => false end
  then s else released s.
Definition discard : session unit := modify discarded.
(** Terminates the process group first; the session ends the same way. *)
Definition discard_after_timeout : session unit := discard.

Definition fail_discarding {A} (e : WorkerSessionError) : session A := discard;; throw e.

(** [if result.is_err() { self.discard() }]. *)
Definition discarding_on_error {A} (m : session A) : session A := fun s =>
  match m s with
  | (Ok a, s) => (Ok a, s)
  | (Err e, s) => (Err e, discarded s)
  end.

Definition ensure_usable : session unit :=
  usable ← gets usable; require usable SessionUnusable.
Definition require_role (phase : WorkerPhase) (expected : WorkerRole) : session unit :=
  ensure_usable;;
  role ← gets role;
  require (bool_decide (role = expected)) (InvalidRole phase role).

(** [verify_private_directory] on the directory of the process, if it has one. *)
Definition verify_controls (private : bool) : session unit :=
  process ← gets process;
  if match process with Some p => private_working_directory p | None => false end && negb private
  then fail_discarding (ControlEnforcementLost "private_working_directory")
  else mret tt.

Definition negotiated : session NegotiatedSession :=
  n ← gets negotiated_session; unwrap n.
Definition selected (c : Capability) : session bool :=
  n ← negotiated; mret (bool_decide (c ∈ selected_capabilities n)).
Definition require_capability (phase : WorkerPhase) (c : Capability) : session unit :=
  b ← selected c; require b (CapabilityNotSelected phase c).

Definition begin_request (phase : WorkerPhase) : session string :=
  ensure_usable;;
  t ← gets requests;
  '(id, t) ← lift_result (RequestFailed phase) (Tracker.begin_request t);
  modify (set_requests t);;
  mret id.

(** ** One exchange *)

(** What [recv_timeout] delivers: a frame, the end of the stream, an I/O error
    of the protocol thread, nothing in time, or a stopped thread. *)
Inductive Received :=
  | Frame (v : value)
  | EndOfStream
  | WriteError (source : string)
  | ReadError (source : FrameError)
  | NoReply
  | Disconnected.

(** The outside world during one exchange, in the order it is observed. *)
Record Exchange := {
  private_before : bool;
  started : Z;
  encoded_after : Z;
  sent : bool;
  received : Received;
  (** [managed_output::finalize] of a request and a response. *)
  finalize : value -> value -> result string value;
  finalized_after : Z;
  decoded_after : Z;
  private_after : bool;
}.

Definition saturating_duration_since (deadline now : Z) : Z := Z.max 0 (deadline - now).

(** The limit of an exchange and the error that reports its expiry. *)
Definition exchange_limit (phase : WorkerPhase) (timeout : Z) (deadline : option Z) (now : Z)
  : Z * WorkerSessionError :=
  let remaining := (fun d => saturating_duration_since d now) <$> deadline in
  let scientific := match remaining with Some d => (d <=? timeout)%Z | None => false end in
  (match remaining with Some d => Z.min timeout d | None => timeout end,
   if scientific then ScientificTimeout phase else TimeoutExpired phase timeout).

Definition get_field (k : string) (v : value) : option value := as_object v ≫= map_get k.

Section Exchanges.
Context `{ThirdParty}.

(** Sends a frame and waits for the reply. *)
Definition await_reply (phase : WorkerPhase) (timeout_error : WorkerSessionError)
    (sent : bool) (received : Received) : session value :=
  open ← gets protocol_sender;
  if negb open then panic
  else if negb sent then fail_discarding (ProtocolThreadStopped phase)
  else match received with
  | Frame v => mret v
  | EndOfStream => fail_discarding (ProtocolClosed phase)
  | WriteError source => fail_discarding (ProtocolWrite phase source)
  | ReadError source =>
      r ← gets redactor;
      fail_discarding (if Redactor.is_empty r then ProtocolRead phase source
                       else RedactedProtocolRead phase)
  | NoReply => discard_after_timeout;; throw timeout_error
  | Disconnected => fail_discarding (ProtocolThreadStopped phase)
  end.

(** The text of a failure, redacted when the session carries secrets. *)
Definition redacted_source (source : string) : session string :=
  r ← gets redactor;
  if Redactor.is_empty r then mret source else panicking_in (Redactor.text r source).

(** The branch for a response that carries a [draft]. *)
Definition finalize_draft (request : value) (limit : Z) (timeout_error : WorkerSessionError)
    (x : Exchange) (v : value) : session value :=
  n ← gets negotiated_session;
  if negb (match n with
           | Some n => bool_decide (ManagedOutputs ∈ selected_capabilities n)
           | None => false
           end)
  then fail_discarding (ManagedOutput "managed output capability was not negotiated")
  else match ManagedOutputResponse.decode v with
  | None => fail_discarding (ManagedOutput "invalid managed output response")
  | Some managed =>
      if negb (bool_decide (as_str (index request "method")
                            = Some (ManagedOutputResponse.method managed)))
      then fail_discarding
             (ManagedOutput "managed response does not match the pending operation")
      else match finalize x request v with
      | Ok v => mret v
      | Err source =>
          if (limit <=? finalized_after x)%Z then discard_after_timeout;; throw timeout_error
          else
            discard;;
            source ← redacted_source source;
            throw (ManagedOutput source)
      end
  end.

Definition exchange {Q R} `{WireMessage Q, WireMessage R} (phase : WorkerPhase) (request : Q)
    (timeout : Z) (x : Exchange) : session R :=
  verify_controls (private_before x);;
  deadline ← gets scientific_deadline;
  let '(limit, timeout_error) := exchange_limit phase timeout deadline (started x) in
  if (limit =? 0)%Z then discard_after_timeout;; throw timeout_error
  else match encode_message request with
  | Err source => fail_discarding (EncodeFailed phase source)
  | Ok _ =>
  if (limit <=? encoded_after x)%Z then discard_after_timeout;; throw timeout_error
  else
    v ← await_reply phase timeout_error (sent x) (received x);
    r ← gets redactor;
    v ← panicking_in (Redactor.value r v);
    v ← match get_field "draft" v with
        | Some _ => finalize_draft (message_value request) limit timeout_error x v
        | None => mret v
        end;
    t ← gets requests;
    let '(decoded, t) := decode_operation_response R v t in
    modify (set_requests t);;
    if (limit <=? decoded_after x)%Z then discard_after_timeout;; throw timeout_error
    else
      verify_controls (private_after x);;
      match decoded with
      | Ok (Success response) => mret response
      | Ok (Failure failure) => throw (WorkerFailed phase failure)
      | Err source => fail_discarding (ResponseFailed phase source)
      end
  end.

(** ** Operations *)

(** [connect_with_deadline], once the protocol thread runs.  An error drops the
    session, which discards the process. *)
Definition connect_with_deadline (p : WorkerProcess) (secrets : list bytes) (r : WorkerRole)
    (worker_id : string) (plan : list Capability) (phases : PhaseTimeouts) (deadline : option Z)
    (x : Exchange) : result (failure WorkerSessionError) WorkerSession :=
  let s := {| problem_dir := None; stream := None; redactor := secrets; role := r;
              negotiated_session := None; requests := Tracker.new; timeouts := phases;
              scientific_deadline := deadline; process := Some p; protocol_sender := true;
              usable := true |} in
  let hello : session unit :=
    id ← begin_request PhaseHello;
    let request := HelloRequest.new id r worker_id in
    response ← exchange (R := HelloResponse.t) PhaseHello request (t_hello phases) x;
    let reported c := bool_decide (c ∈ HelloResponse.capabilities response) in
    let plan := plan ++ (if bool_decide (r = ProblemEvaluator) && reported ProblemSemantics
                         then [ProblemSemantics] else []) in
    let plan := plan ++ (if reported ManagedOutputs then [ManagedOutputs] else []) in
    let plan := plan ++ (if reported ProblemPreparation && negb (bool_decide (ProblemPreparation ∈ plan))
                         then [ProblemPreparation] else []) in
    match validate_hello_response request response plan with
    | Ok n => modify (set_negotiated n)
    | Err source => fail_discarding (HandshakeFailed source)
    end in
  match hello s with
  | (Ok _, s) => Ok s
  | (Err e, _) => Err e
  end.

Definition set_problem_directory (directory : option string) : session unit :=
  match directory with
  | Some _ =>
      r ← gets role;
      require_capability (if bool_decide (r = ProblemEvaluator) then PhaseEvaluate else PhasePrepare)
        ProblemPreparation
  | None => mret tt
  end;;
  modify (set_problem_dir directory).

Definition set_scientific_deadline (deadline : option Z) : session unit :=
  modify (set_deadline deadline).

Definition materialize (source_dir : string) (parameters : value) (seed : Z) (output_dir : string)
    (x : Exchange) : session MaterializeResponse.t :=
  require_role PhaseMaterialize DatasetMaterializer;;
  id ← begin_request PhaseMaterialize;
  phases ← gets timeouts;
  exchange PhaseMaterialize
    {| MaterializeRequest.id := id; MaterializeRequest.source_dir := source_dir;
       MaterializeRequest.dataset_parameters := parameters; MaterializeRequest.dataset_seed := seed;
       MaterializeRequest.output_dir := output_dir |} (t_materialize phases) x.

Definition prepare_problem (dataset_dir contract : string) (parameters : value)
    (output_dir : string) (x : Exchange) : session MaterializeResponse.t :=
  require_role PhaseMaterialize ProblemPreparer;;
  id ← begin_request PhaseMaterialize;
  phases ← gets timeouts;
  exchange PhaseMaterialize
    {| PrepareProblemRequest.id := id; PrepareProblemRequest.dataset_dir := dataset_dir;
       PrepareProblemRequest.problem_contract_id := contract;
       PrepareProblemRequest.problem_parameters := parameters;
       PrepareProblemRequest.output_dir := output_dir |} (t_materialize phases) x.

Definition check_applicability (dataset_dir dataset_manifest contract : string)
    (problem_parameters implementation_parameters : value) (x : Exchange)
  : session (CheckApplicabilityRequest.t * CheckApplicabilityResponse.t) :=
  require_role PhaseCheckApplicability Implementation;;
  require_capability PhaseCheckApplicability Applicability;;
  id ← begin_request PhaseCheckApplicability;
  dir ← gets problem_dir;
  phases ← gets timeouts;
  let request :=
    {| CheckApplicabilityRequest.problem_dir := dir; CheckApplicabilityRequest.id := id;
       CheckApplicabilityRequest.dataset_dir := dataset_dir;
       CheckApplicabilityRequest.dataset_manifest := dataset_manifest;
       CheckApplicabilityRequest.problem_contract_id := contract;
       CheckApplicabilityRequest.problem_parameters := problem_parameters;
       CheckApplicabilityRequest.implementation_parameters := implementation_parameters |} in
  response ← exchange PhaseCheckApplicability request (t_prepare phases) x;
  mret (request, response).

Definition prepare (dataset_dir contract : string) (problem_parameters implementation_parameters : value)
    (seed : Z) (x : Exchange) : session Acknowledgement.t :=
  require_role PhasePrepare Implementation;;
  id ← begin_request PhasePrepare;
  dir ← gets problem_dir;
  phases ← gets timeouts;
  exchange PhasePrepare
    {| PrepareRequest.problem_dir := dir; PrepareRequest.id := id;
       PrepareRequest.dataset_dir := dataset_dir; PrepareRequest.problem_contract_id := contract;
       PrepareRequest.problem_parameters := problem_parameters;
       PrepareRequest.implementation_parameters := implementation_parameters;
       PrepareRequest.implementation_seed := seed |} (t_prepare phases) x.

(** Controls are compared as canonical values. *)
Definition control_matches (expected actual : option value) : bool :=
  match expected, actual with
  | None, None => true
  | Some expected, Some actual =>
      match Canonical.try_from expected, Canonical.try_from actual with
      | Ok expected, Ok actual => bool_decide (expected = actual)
      | _, _ => false
      end
  | _, _ => false
  end.

(** [execute] without a control, [execute_fresh] with one. *)
Definition execute_control (result_dir : string) (control : option value) (x : Exchange)
  : session ExecuteResponse.t :=
  require_role PhaseExecute Implementation;;
  require_capability PhaseExecute
    (match control with Some _ => FreshSequence | None => OneShot end);;
  id ← begin_request PhaseExecute;
  phases ← gets timeouts;
  response ← exchange PhaseExecute
    {| ExecuteRequest.observation_control := control; ExecuteRequest.id := id;
       ExecuteRequest.result_dir := result_dir |} (t_execute phases) x;
  if negb (control_matches control (ExecuteResponse.observation_control response))
  then fail_discarding ObservationControlMismatch
  else mret response.

Definition execute_buffered (result_root : string) (profile : value) (x : Exchange)
  : session ExecuteBufferedResponse.t :=
  require_role PhaseExecute Implementation;;
  require_capability PhaseExecute BufferedProfile;;
  id ← begin_request PhaseExecute;
  phases ← gets timeouts;
  exchange PhaseExecute
    {| ExecuteBufferedRequest.id := id; ExecuteBufferedRequest.result_root := result_root;
       ExecuteBufferedRequest.profile := profile |} (t_execute phases) x.

(** A failed exchange, and only that, discards the worker. *)
Definition reset (x : Exchange) : session Acknowledgement.t :=
  require_role PhaseReset Implementation;;
  id ← begin_request PhaseReset;
  phases ← gets timeouts;
  discarding_on_error (exchange PhaseReset {| ResetRequest.id := id |} (t_reset phases) x).

Definition evaluate (dataset_dir contract : string) (parameters semantics : value)
    (result_dir metrics_path : string) (x : Exchange) : session EvaluateResponse.t :=
  require_role PhaseEvaluate ProblemEvaluator;;
  id ← begin_request PhaseEvaluate;
  dir ← gets problem_dir;
  delivers ← selected ProblemSemantics;
  phases ← gets timeouts;
  exchange PhaseEvaluate
    {| EvaluateRequest.problem_dir := dir; EvaluateRequest.id := id;
       EvaluateRequest.dataset_dir := dataset_dir; EvaluateRequest.problem_contract_id := contract;
       EvaluateRequest.problem_parameters := parameters;
       EvaluateRequest.problem_semantics := if delivers : bool then Some semantics else None;
       EvaluateRequest.result_dir := result_dir; EvaluateRequest.metrics_path := metrics_path |}
    (t_evaluate phases) x.
End Exchanges.
