(* ===== verification/Streaming.v ===== *)
(** * Streaming executions (src/runtime/worker_session/streaming.rs,
    runtime/streaming.rs, worker_output.rs)

    Both ends of a streaming execution: the orchestrator's session, which
    receives checkpoints and answers each with a decision, and the worker's
    context, which publishes a snapshot and blocks until the decision arrives. *)
From S2P Require Import Prelude Json Canonical Identity Manifest Profile Framing Redaction Wire Messages Handshake Session.
From Stdlib Require Import Ascii.

(** ** Relative paths (worker_output.rs) *)

(** [value.split('/')]. *)
Fixpoint split_slash (b : bytes) : list bytes :=
  match b with
  | [] => [[]]
  | c :: b =>
      if Ascii.eqb c "/" then [] :: split_slash b
      else match split_slash b with
           | part :: parts => (c :: part) :: parts
           | [] => [[c]]
           end
  end.
Definition is_ascii_alphabetic (c : ascii) : bool := in_range 65 90 c || in_range 97 122 c.
Definition is_windows_drive_path (b : bytes) : bool :=
  match b with
  | c0 :: c1 :: c2 :: _ => is_ascii_alphabetic c0 && Ascii.eqb c1 ":" && Ascii.eqb c2 "/"
  | _ => false
  end.
(** On Unix.  The conditions on slashes all say that a component is empty. *)
Definition validate_relative_path (path : string) : result string string :=
  let b := bytes_of path in
  let invalid :=
    bool_decide (b = []) || bool_decide (head b = Some "/"%char)
    || bool_decide (last b = Some "/"%char)
    || bool_decide ("\"%char ∈ b)
    || is_windows_drive_path b
    || existsb (fun part => bool_decide (part = []) || bool_decide (part = bytes_of ".")
                            || bool_decide (part = bytes_of "..")) (split_slash b) in
  if invalid
  then Err ("output path `" +:+ path +:+
            "` must be normalized, relative UTF-8 without backslashes")
  else Ok path.

(** ** The orchestrator's end *)

Inductive StreamMessage :=
  | Checkpoint (c : StreamCheckpoint.t)
  | Finished (r : ExecuteStreamResponse.t).

(** The outside world while a stream waits for its next frame. *)
Record StreamExchange := {
  sx_private_before : bool;
  sx_started : Z;
  sx_sent : bool;
  sx_received : Received;
  (** [snapshot_directory] of a root, a draft and a byte limit. *)
  sx_snapshot : string -> string -> Z -> result string (string * string);
  (** Whether [managed_output::finalize] accepts a request and a response. *)
  sx_finalize : value -> value -> result string unit;
  sx_finalized_after : Z;
  (** [relative_path] of the finalized manifest beside a draft. *)
  sx_reference : string -> result string string;
  sx_after : Z;
  sx_private_after : bool;
}.

Definition stream_error {A} (message : string) : session A :=
  discard;;
  r ← gets redactor;
  message ← panicking_in (Redactor.text r message);
  throw (StreamProtocol message).

(** [br#""kind":"result","#.len()]. *)
Definition draft_overhead : Z := 16.

Definition profile_bound (profile : value) (key : string) : Z :=
  match index (index profile "policy") key with
  | Number n => default 0%Z (as_u64 n)
  | _ => 0%Z
  end.

(** The checks on a decoded checkpoint against the pending stream. *)
Definition checkpoint_valid (st : StreamState) (pending : string) (c : StreamCheckpoint.t) : bool :=
  String.eqb (StreamCheckpoint.id c) pending
  && (StreamCheckpoint.sequence c =? st_count st)%Z
  && (st_count st <? st_bound st)%Z
  && StreamCheckpoint.safe_work (StreamCheckpoint.work c)
  && negb (StreamCheckpoint.same_presence (StreamCheckpoint.manifest c) (StreamCheckpoint.draft c)).

Definition remove_key (k : string) (m : list (string * value)) : list (string * value) :=
  List.filter (fun kv => negb (String.eqb kv.1 k)) m.

(** A draft is replaced by the manifest its finalization produced. *)
Definition with_manifest (v : value) (manifest : string) : value :=
  match v with
  | Object m => Object (map_insert "manifest" (Str manifest) (remove_key "draft" m))
  | v => v
  end.

Definition receive_draft (st : StreamState) (c : StreamCheckpoint.t) (draft : string) (limit : Z)
    (timeout_error : WorkerSessionError) (x : StreamExchange) (v : value) : session value :=
  managed ← selected ManagedOutputs;
  if negb managed then stream_error "checkpoint draft requires managed_outputs"
  else match sx_snapshot x (st_root st) draft (saturating_add_u64 (st_bytes st) draft_overhead) with
  | Err e => stream_error e
  | Ok (directory, name) =>
      let id := Str (StreamCheckpoint.id c) in
      let response := object [("id", id); ("ok", Bool true); ("draft", Str name)] in
      let request := object [("id", id); ("method", Str "execute"); ("result_dir", Str directory)] in
      match sx_finalize x request response with
      | Err e =>
          if (limit <=? sx_finalized_after x)%Z then discard_after_timeout;; throw timeout_error
          else stream_error e
      | Ok _ =>
          manifest ← lift_result StreamProtocol (sx_reference x draft);
          mret (with_manifest v manifest)
      end
  end.

(** A frame with an [event]: a checkpoint. *)
Definition receive_checkpoint (limit : Z) (timeout_error : WorkerSessionError) (x : StreamExchange)
    (v : value) : session StreamMessage :=
  match decode_message StreamCheckpoint.t v with
  | Err _ => stream_error "invalid worker protocol message"
  | Ok c =>
      st ← gets stream; st ← unwrap st;
      t ← gets requests;
      valid ← (if st_stopped st then mret false
               else pending ← unwrap (pending_request t); mret (checkpoint_valid st pending c));
      if negb valid then stream_error "checkpoint ID, sequence, count, or state is invalid"
      else
        v ← match StreamCheckpoint.draft c with
            | Some draft => receive_draft st c draft limit timeout_error x v
            | None => mret v
            end;
        c ← unwrap (match decode_message StreamCheckpoint.t v with Ok c => Some c | Err _ => None end);
        manifest ← unwrap (StreamCheckpoint.manifest c);
        match validate_relative_path manifest with
        | Err e => stream_error e
        | Ok _ =>
            if (limit <=? sx_after x)%Z then discard_after_timeout;; throw timeout_error
            else
              modify (set_stream (Some {| st_root := st_root st; st_bound := st_bound st;
                st_bytes := st_bytes st; st_count := st_count st + 1; st_awaiting := true;
                st_stopped := st_stopped st |}));;
              mret (Checkpoint c)
        end
  end.

(** A frame without an [event]: the terminal response. *)
Definition receive_response (private : bool) (v : value) : session StreamMessage :=
  t ← gets requests;
  let '(response, t) := decode_operation_response ExecuteStreamResponse.t v t in
  modify (set_requests t);;
  st ← gets stream; st ← unwrap st;
  match response with
  | Ok (Success response) =>
      if (ExecuteStreamResponse.checkpoint_count response =? st_count st)%Z
      then verify_controls private;; modify (set_stream None);; mret (Finished response)
      else stream_error "terminal checkpoint count does not match received checkpoints"
  | Ok (Failure failure) => fail_discarding (WorkerFailed PhaseExecute failure)
  | Err source => fail_discarding (ResponseFailed PhaseExecute source)
  end.

Definition stream_frame (stopping : bool) (x : StreamExchange) : session StreamMessage :=
  ensure_usable;;
  verify_controls (sx_private_before x);;
  phases ← gets timeouts;
  deadline ← gets scientific_deadline;
  let timeout := if stopping then t_shutdown phases else t_execute phases in
  let '(limit, timeout_error) :=
    exchange_limit PhaseExecute timeout (if stopping then None else deadline) (sx_started x) in
  if (limit =? 0)%Z then discard_after_timeout;; throw timeout_error
  else
    v ← await_reply PhaseExecute timeout_error (sx_sent x) (sx_received x);
    r ← gets redactor;
    v ← panicking_in (Redactor.value r v);
    match get_field "event" v with
    | None => receive_response (sx_private_after x) v
    | Some _ => receive_checkpoint limit timeout_error x v
    end.

Section Sending.
Context `{ThirdParty}.

Definition start_stream (result_root : string) (profile : value) (x : StreamExchange)
  : session StreamMessage :=
  require_role PhaseExecute Implementation;;
  require_capability PhaseExecute StreamingProfile;;
  id ← begin_request PhaseExecute;
  modify (set_stream (Some {|
    st_root := result_root; st_bound := profile_bound profile "max-observations";
    st_bytes := profile_bound profile "max-checkpoint-bytes";
    st_count := 0; st_awaiting := false; st_stopped := false |}));;
  _ ← lift_result (EncodeFailed PhaseExecute) (encode_message
        {| ExecuteStreamRequest.id := id; ExecuteStreamRequest.result_root := result_root;
           ExecuteStreamRequest.profile := profile |});
  stream_frame false x.

Definition decide_stream (action : StreamAction) (reason : option string) (x : StreamExchange)
  : session StreamMessage :=
  st ← gets stream;
  match st with
  | None => throw (StreamProtocol "no stream is active")
  | Some st =>
      if negb (st_awaiting st) || st_stopped st
      then stream_error "no checkpoint is awaiting a decision"
      else
        t ← gets requests;
        id ← unwrap (pending_request t);
        sequence ← unwrap (match checked_sub (E := Empty_set) (st_count st) 1 with
                           | Ok n => Some n | Err _ => None end);
        let decision := StreamDecision.new id sequence action reason in
        modify (set_stream (Some {| st_root := st_root st; st_bound := st_bound st;
          st_bytes := st_bytes st; st_count := st_count st; st_awaiting := false;
          st_stopped := bool_decide (action = Stop) |}));;
        _ ← lift_result (EncodeFailed PhaseExecute) (encode_message decision);
        stream_frame (bool_decide (action = Stop)) x
  end.
End Sending.

(** ** The worker's end *)

(** [serde_json::from_value(json!(decision.reason))]. *)
Definition stop_reason_of (reason : option string) : option StopReason :=
  match reason with
  | Some s => variant_of (map (fun r => (stop_reason_name r, r)) all_stop_reasons) (Str s)
  | None => None
  end.

Inductive Decision := KeepGoing | StopBecause (r : StopReason).

Record Progress := { check_index : Z; work : BTreeMap Z }.
Record SelectedStreamingProfile := { sp_policy : ProfilePolicy; sp_check_schedule : CheckSchedule }.

(** Errors carry the text of their [WorkerError]. *)
Abbreviation WorkerResult A := (result string A) (only parsing).

Record StreamingContext := {
  cx_profile : SelectedStreamingProfile;
  cx_id : string;
  cx_count : Z;
  cx_last : option Z;
  cx_stopped : option StopReason;
}.

(** The file system and the implementation's writer during one capture. *)
Record Capture := {
  create_dir_all : WorkerResult unit;
  writer : WorkerResult string;
  snapshot_directory : string -> Z -> WorkerResult unit;
}.

Module Context.
Section Text.
(** The texts of the errors of the policy and of the schedule. *)
Context (policy_text : PolicyError -> string) (schedule_text : ScheduleError -> string).

Definition new (profile : SelectedStreamingProfile) (id : string) : WorkerResult StreamingContext :=
  _ ← map_err policy_text (Policy.validate (sp_policy profile));
  _ ← map_err schedule_text (Check.validate (sp_check_schedule profile));
  if (max_checkpoint_bytes (sp_policy profile) =? 0)%Z
  then Err "streaming requires max-checkpoint-bytes"
  else Ok {| cx_profile := profile; cx_id := id; cx_count := 0; cx_last := None;
             cx_stopped := None |}.
End Text.

(** [relative_path(&relative.join(manifest))] of a validated manifest. *)
Definition reference (count : Z) (manifest : string) : WorkerResult string :=
  if bool_decide (NUL ∈ bytes_of manifest) then Err "expected a UTF-8 relative path"
  else Ok ("checkpoints/" +:+ Tracker.id_string count +:+ "/" +:+ manifest).

Definition progress_rejected (c : StreamingContext) (p : Progress) : bool :=
  (MAX_SAFE_INTEGER <? check_index p)%Z || negb (StreamCheckpoint.safe_work (work p))
  || match cx_last c with Some last => (check_index p <=? last)%Z | None => false end.

(** [capture] up to the exchange: no checkpoint is due, or the one to publish. *)
Definition prepare_checkpoint (c : StreamingContext) (p : Progress) (terminal : bool) (x : Capture)
  : WorkerResult (option StreamCheckpoint.t) :=
  match cx_stopped c with
  | Some _ => Err "checkpoint after stop"
  | None =>
      if progress_rejected c p then Err "checkpoint progress must increase and use safe integers"
      else if negb terminal && negb (Check.includes (sp_check_schedule (cx_profile c)) (check_index p))
      then Ok None
      else if (max_observations (sp_policy (cx_profile c)) <=? cx_count c)%Z
      then Err "checkpoint count exceeds policy"
      else
        _ ← create_dir_all x;
        manifest ← writer x;
        manifest ← validate_relative_path manifest;
        reference ← reference (cx_count c) manifest;
        _ ← snapshot_directory x reference (max_checkpoint_bytes (sp_policy (cx_profile c)));
        Ok (Some (StreamCheckpoint.new (cx_id c) (cx_count c) (check_index p) (work p) terminal
                    reference))
  end.

(** [capture] after the exchange. *)
Definition apply_decision (c : StreamingContext) (p : Progress) (terminal : bool)
    (d : StreamDecision.t) : WorkerResult Decision * StreamingContext :=
  if negb (String.eqb (StreamDecision.id d) (cx_id c))
     || negb (StreamDecision.sequence d =? cx_count c)%Z
     || terminal && negb (bool_decide (StreamDecision.action d = Stop))
  then (Err "decision does not match the pending checkpoint", c)
  else
    let counted stopped :=
      {| cx_profile := cx_profile c; cx_id := cx_id c; cx_count := cx_count c + 1;
         cx_last := Some (check_index p); cx_stopped := stopped |} in
    match StreamDecision.action d, StreamDecision.reason d with
    | Continue, None => (Ok KeepGoing, counted (cx_stopped c))
    | Stop, reason =>
        match stop_reason_of reason with
        | Some r => (Ok (StopBecause r), counted (Some r))
        | None => (Err "unknown stop reason", counted (cx_stopped c))
        end
    | Continue, Some _ => (Err "continue must omit a stopping reason", counted (cx_stopped c))
    end.

Definition capture (exchange : StreamCheckpoint.t -> WorkerResult StreamDecision.t)
    (c : StreamingContext) (p : Progress) (terminal : bool) (x : Capture)
  : WorkerResult Decision * StreamingContext :=
  match prepare_checkpoint c p terminal x with
  | Err e => (Err e, c)
  | Ok None => (Ok KeepGoing, c)
  | Ok (Some checkpoint) =>
      match exchange checkpoint with
      | Err e => (Err e, c)
      | Ok d => apply_decision c p terminal d
      end
  end.

Definition finish (exchange : StreamCheckpoint.t -> WorkerResult StreamDecision.t)
    (c : StreamingContext) (p : Progress) (x : Capture) : WorkerResult unit * StreamingContext :=
  if match cx_stopped c with Some _ => true | None => false end
     || bool_decide (cx_last c = Some (check_index p))
  then (Ok tt, c)
  else let '(res, c) := capture exchange c p true x in
       ((fun _ => tt) <$> res, c).
End Context.
