(* ===== verification/Sessions.v ===== *)
(** * What sessions guarantee

    Requests are serial and correlated, an exchange that fails in any other way
    than by the worker's own report ends the session, and no operation panics,
    in every state that a connected session reaches. *)
From S2P Require Import Prelude Json Canonical Identity ThirdPartyModel Manifest Framing Redaction Wire Messages Handshake Session Streaming.
From Stdlib Require Import Ascii.

(** ** Hoare triples

    [triple P m Q E]: from a state of [P], [m] does not panic; it ends in [Q]
    when it succeeds and in [E] when it fails. *)
Definition triple {A} (P : WorkerSession -> Prop) (m : session A)
    (Q : A -> WorkerSession -> Prop) (E : WorkerSession -> Prop) : Prop :=
  forall s, P s ->
    match m s with
    | (Ok a, s') => Q a s'
    | (Err e, s') => e <> Panicked /\ E s'
    end.

Section Rules.
Context (E : WorkerSession -> Prop).
Implicit Types (P : WorkerSession -> Prop).

Lemma triple_bind {A B} P (R : A -> WorkerSession -> Prop) (Q : B -> WorkerSession -> Prop) m k :
  triple P m R E -> (forall a, triple (R a) (k a) Q E) -> triple P (m ≫= k) Q E.
Proof.
  intros Hm Hk s Hs. specialize (Hm s Hs). unfold mbind, session_bind.
  destruct (m s) as [[a|e] s']; [|done]. by apply Hk.
Qed.
Lemma triple_ret {A} P (Q : A -> WorkerSession -> Prop) a :
  (forall s, P s -> Q a s) -> triple P (mret a) Q E.
Proof. intros H s Hs. by apply H. Qed.
Lemma triple_throw {A} P (Q : A -> WorkerSession -> Prop) e :
  (forall s, P s -> E s) -> triple P (throw e) Q E.
Proof. intros H s Hs. cbn. split; [done|]. by apply H. Qed.
Lemma triple_gets {A} P (f : WorkerSession -> A) Q :
  (forall s, P s -> Q (f s) s) -> triple P (gets f) Q E.
Proof. intros H s Hs. by apply H. Qed.
Lemma triple_modify P f (Q : unit -> WorkerSession -> Prop) :
  (forall s, P s -> Q tt (f s)) -> triple P (modify f) Q E.
Proof. intros H s Hs. by apply H. Qed.
Lemma triple_weaken {A} P P' (Q : A -> WorkerSession -> Prop) m :
  (forall s, P s -> P' s) -> triple P' m Q E -> triple P m Q E.
Proof. intros H Hm s Hs. by apply Hm, H. Qed.
Lemma triple_post {A} P (Q Q' : A -> WorkerSession -> Prop) m :
  triple P m Q E -> (forall a s, Q a s -> Q' a s) -> triple P m Q' E.
Proof.
  intros Hm H s Hs. specialize (Hm s Hs). destruct (m s) as [[a|e] s']; [|done]. by apply H.
Qed.
(** A binding may use what holds of the state it reads. *)
Lemma triple_gets_bind {A B} P (f : WorkerSession -> A) k (Q : B -> WorkerSession -> Prop) :
  (forall a, triple (fun s => P s /\ f s = a) (k a) Q E) -> triple P (x ← gets f; k x) Q E.
Proof. intros H s Hs. unfold mbind, session_bind, gets. by apply (H (f s)). Qed.
Lemma triple_pure {A} P (C : Prop) (m : session A) Q :
  (C -> triple P m Q E) -> triple (fun s => P s /\ C) m Q E.
Proof. intros H s [Hs HC]. by apply H. Qed.
Lemma triple_require_bind {B} P b e k (Q : B -> WorkerSession -> Prop) :
  (forall s, P s -> E s) -> (b = true -> triple P (k tt) Q E) ->
  triple P (x ← require b e; k x) Q E.
Proof.
  intros He H s Hs. unfold require. destruct b; [by apply H|]. cbn. split; [done|]. by apply He.
Qed.
End Rules.

(** ** The invariant *)

(** [N] is what is known of the negotiation. *)
Record base (N : option NegotiatedSession -> Prop) (s : WorkerSession) : Prop := {
  base_negotiated : N (negotiated_session s);
  base_secrets : text_secrets (redactor s);
  base_process : usable s = true -> is_Some (process s) /\ protocol_sender s = true;
  base_released : usable s = false -> process s = None;
  base_stream st : stream s = Some st ->
    (0 <= st_count st)%Z /\ (st_awaiting st = true -> is_Some (pending_request (requests s)) /\ (1 <= st_count st)%Z);
}.
(** At most one request is in flight, and it is in flight as long as its stream
    is active. *)
Record invariant (N : option NegotiatedSession -> Prop) (s : WorkerSession) : Prop := {
  inv_base : base N s;
  inv_serial : usable s = true -> is_Some (pending_request (requests s)) <-> is_Some (stream s);
}.
(** A request has been sent. *)
Record sending (N : option NegotiatedSession -> Prop) (s : WorkerSession) : Prop := {
  sending_base : base N s;
  sending_usable : usable s = true;
  sending_pending : is_Some (pending_request (requests s));
}.

Section Invariant.
Context (N : option NegotiatedSession -> Prop).
Notation E := (invariant N).

Lemma discarded_invariant s : base N s -> invariant N (discarded s).
Proof.
  intros [Hn Hs Hp Hr Hst]. unfold discarded. destruct (usable s) eqn:Hu; cbn [negb andb].
  - constructor; [by constructor|done].
  - rewrite (Hr eq_refl). constructor; [constructor; rewrite ?Hu; auto; by rewrite Hr|congruence].
Qed.

Lemma fail_discarding_triple {A} P e (Q : A -> WorkerSession -> Prop) :
  (forall s, P s -> base N s) -> triple P (fail_discarding e) Q E.
Proof.
  intros H s Hs. cbn. split; [done|]. by apply discarded_invariant, H.
Qed.
Lemma timeout_triple {A} P e (Q : A -> WorkerSession -> Prop) :
  (forall s, P s -> base N s) -> triple P (discard_after_timeout;; throw e) Q E.
Proof. apply fail_discarding_triple. Qed.

Lemma verify_controls_triple P private :
  (forall s, P s -> base N s) -> triple P (verify_controls private) (fun _ => P) E.
Proof.
  intros H s Hs. unfold verify_controls, mbind, session_bind, gets. destruct (_ && _); [|done].
  cbn. split; [done|]. by apply discarded_invariant, H.
Qed.

Lemma await_reply_triple P phase e sent received :
  (forall s, P s -> base N s /\ usable s = true) ->
  triple P (await_reply phase e sent received) (fun v s => P s /\ received = Frame v) E.
Proof.
  intros H s Hs. destruct (H s Hs) as [Hb Hu].
  assert (forall A (err : WorkerSessionError), match fail_discarding (A := A) err s with
    | (Ok _, _) => False | (Err e, s') => e <> Panicked /\ invariant N s' end) as Hf.
  { intros A err. cbn. split; [done|]. by apply discarded_invariant. }
  unfold await_reply, mbind, session_bind, gets.
  destruct (base_process _ _ Hb Hu) as [_ ->]. cbn [negb].
  destruct sent; cbn [negb].
  - destruct received; try (specialize (Hf value)); try apply Hf. done.
  - apply (Hf value).
Qed.

Lemma redact_total r v : text_secrets r -> utf8_value v -> exists v', Redactor.value r v = Ok v'.
Proof.
  intros Hr Hv. destruct r as [|s r]; [destruct v; by eexists|].
  eexists. by apply value_spec.
Qed.
Lemma redact_text_total r s : text_secrets r -> utf8_string s -> exists t, Redactor.text r s = Ok t.
Proof. intros Hr Hs. eexists. by apply text_spec. Qed.

Lemma redact_value_triple P v :
  (forall s, P s -> base N s) -> utf8_value v ->
  triple P (r ← gets redactor; panicking_in (Redactor.value r v))
    (fun v' s => P s /\ Redactor.value (redactor s) v = Ok v') E.
Proof.
  intros H Hv s Hs. unfold mbind, session_bind, gets.
  destruct (redact_total (redactor s) v) as [v' Hv']; [apply (H s Hs)|done|]. rewrite Hv'. done.
Qed.
Lemma redact_text_triple P t :
  (forall s, P s -> base N s) -> utf8_string t ->
  triple P (r ← gets redactor; panicking_in (Redactor.text r t)) (fun _ => P) E.
Proof.
  intros H Ht s Hs. unfold mbind, session_bind, gets.
  destruct (redact_text_total (redactor s) t) as [t' Ht']; [apply (H s Hs)|done|]. by rewrite Ht'.
Qed.
Lemma redacted_source_triple P t :
  (forall s, P s -> base N s) -> utf8_string t ->
  triple P (redacted_source t) (fun _ => P) E.
Proof.
  intros H Ht s Hs. unfold redacted_source, mbind, session_bind, gets.
  destruct (Redactor.is_empty _); [done|].
  destruct (redact_text_total (redactor s) t) as [t' Ht']; [apply (H s Hs)|done|]. by rewrite Ht'.
Qed.
End Invariant.

(** ** Exchanges *)

Definition utf8_received (r : Received) : Prop := match r with Frame v => utf8_value v | _ => True end.
(** Frames and error texts are text. *)
Record exchange_ok (x : Exchange) : Prop := {
  ok_received : utf8_received (received x);
  ok_finalize request v e : finalize x request v = Err e -> utf8_string e;
}.

Lemma base_completed N s t :
  base N s -> stream s = None -> base N (set_requests t s).
Proof. intros [Hn Hs Hp Hr _] Hst. split; try done. cbn. intros st. by rewrite Hst. Qed.

Section Exchange.
Context `{ThirdParty} (N : option NegotiatedSession -> Prop).

Lemma finalize_draft_triple P request limit e x v :
  (forall s, P s -> base N s) -> exchange_ok x ->
  triple P (finalize_draft request limit e x v) (fun _ => P) (invariant N).
Proof.
  intros HP Hx. unfold finalize_draft. apply triple_gets_bind. intros n.
  apply triple_weaken with P; [by intros s []|].
  destruct (negb _); [by apply fail_discarding_triple|].
  destruct (ManagedOutputResponse.decode v); [|by apply fail_discarding_triple].
  destruct (negb _); [by apply fail_discarding_triple|].
  destruct (finalize x request v) as [v'|source] eqn:Hf; [by apply triple_ret|].
  destruct (_ <=? _)%Z; [by apply timeout_triple|].
  apply triple_bind with (fun _ => invariant N).
  { intros s Hs. by apply discarded_invariant, HP. }
  intros _. apply triple_bind with (fun _ => invariant N).
  - apply redacted_source_triple; [by intros s []|]. by eapply ok_finalize.
  - intros source'. by apply triple_throw.
Qed.

(** What is left of a request when its exchange succeeds. *)
Definition answered (s : WorkerSession) : Prop :=
  invariant N s /\ usable s = true /\ pending_request (requests s) = None /\ stream s = None.

Lemma exchange_triple {Q R} `{WireMessage Q, WireMessage R} phase (request : Q) timeout x :
  exchange_ok x ->
  triple (fun s => sending N s /\ stream s = None)
    (exchange (R := R) phase request timeout x) (fun _ => answered) (invariant N).
Proof.
  intros Hx. set (P := fun s => sending N s /\ stream s = None).
  assert (forall s, P s -> base N s) as HP by (by intros s [[] _]).
  assert (forall s, P s -> base N s /\ usable s = true) as HPu by (by intros s [[] _]).
  unfold exchange. apply triple_bind with (fun _ => P); [by apply verify_controls_triple|]. intros _.
  apply triple_gets_bind. intros deadline. apply triple_weaken with P; [by intros s []|].
  destruct (exchange_limit _ _ _ _) as [limit e].
  destruct (limit =? 0)%Z; [by apply timeout_triple|].
  destruct (encode_message request); [|by apply fail_discarding_triple].
  destruct (limit <=? encoded_after x)%Z; [by apply timeout_triple|].
  apply triple_bind with (fun v s => P s /\ received x = Frame v); [by apply await_reply_triple|].
  intros v. apply triple_pure. intros Hr. pose proof (ok_received x Hx) as Hv. rewrite Hr in Hv. cbn in Hv.
  intros s Hs. unfold mbind at 1, session_bind at 1, gets at 1.
  destruct (redact_total (redactor s) v) as [v' Hv']; [apply (HP s Hs)|done|]. rewrite Hv'.
  cbn [panicking_in]. revert s Hs Hv'.
  assert (triple P (x1 ← match get_field "draft" v' with
     | Some _ => finalize_draft (message_value request) limit e x v' | None => mret v' end;
     t ← gets requests;
     let '(decoded, t0) := decode_operation_response R x1 t in
     x2 ← modify (set_requests t0);
     if (limit <=? decoded_after x)%Z then discard_after_timeout;; throw e
     else verify_controls (private_after x);;
       match decoded with
       | Ok (Success response) => mret response
       | Ok (Failure failure) => throw (WorkerFailed phase failure)
       | Err source => fail_discarding (ResponseFailed phase source)
       end) (fun _ => answered) (invariant N)) as Hrest.
  { apply triple_bind with (fun _ => P).
    { destruct (get_field _ _); [by apply finalize_draft_triple|by apply triple_ret]. }
    intros v2. apply triple_gets_bind. intros t.
    destruct (decode_operation_response R v2 t) as [decoded t'] eqn:Hd.
    apply decode_operation_response_tracker in Hd.
    set (P1 := fun s => base N s /\ usable s = true /\ stream s = None /\ requests s = t').
    assert (forall s, P1 s -> base N s) as HP1 by (by intros s []).
    apply triple_bind with (fun _ => P1).
    { apply triple_modify. intros s [[Hs Hst] Ht]. split; [|by destruct Hs].
      apply base_completed; [by destruct Hs|done]. }
    intros _. destruct (_ <=? _)%Z; [by apply timeout_triple|].
    apply triple_bind with (fun _ => P1); [by apply verify_controls_triple|]. intros _.
    assert (forall s, P1 s -> (exists r, decoded = Ok r) -> answered s) as Hans.
    { intros s (Hb & Hu & Hst & Ht) [r Hr']. destruct Hd as [(Hp & _)|[_ [err Herr]]]; [|congruence].
      rewrite <-Ht in Hp. split; [|done]. constructor; [done|]. intros _. rewrite Hst, Hp.
      split; intros []; done. }
    destruct decoded as [[response|failure]|source].
    - apply triple_ret. intros s Hs. by apply Hans; [|eexists].
    - apply triple_throw. intros s Hs. by apply Hans; [|eexists].
    - by apply fail_discarding_triple. }
  intros s Hs _. apply (Hrest s Hs).
Qed.
End Exchange.

(** ** Requests *)

Section Requests.
Context `{ThirdParty}.
Abbreviation N := (is_Some (A := NegotiatedSession)).
Abbreviation I := (invariant N).

Lemma require_role_triple phase expected :
  triple I (require_role phase expected) (fun _ => I) I.
Proof.
  unfold require_role, ensure_usable.
  intros s Hs. unfold mbind, session_bind, gets, require.
  destruct (usable s); [|done]. cbn. by destruct (bool_decide_reflect (role s = expected)).
Qed.
Lemma selected_triple (P : WorkerSession -> Prop) c :
  (forall s, P s -> base N s) -> triple P (selected c) (fun _ => P) I.
Proof.
  intros HP s Hs. unfold selected, negotiated, mbind, session_bind, gets.
  by destruct (base_negotiated _ _ (HP s Hs)) as [n ->].
Qed.
Lemma require_capability_triple phase c : triple I (require_capability phase c) (fun _ => I) I.
Proof.
  unfold require_capability. eapply triple_bind; [by apply selected_triple; intros s []|].
  intros b. unfold require. destruct b; [by apply triple_ret|by apply triple_throw].
Qed.

(** A request begins only when none is in flight. *)
Lemma begin_request_triple M phase :
  triple (invariant M) (begin_request phase)
    (fun id s => (sending M s /\ stream s = None) /\ pending_request (requests s) = Some id)
    (invariant M).
Proof.
  intros s Hs. pose proof Hs as [Hb Hser]. unfold begin_request, ensure_usable, mbind, session_bind, gets, require.
  destruct (usable s) eqn:Hu; [|done]. cbn.
  destruct (Tracker.begin_request (requests s)) as [[id t]|e] eqn:Ht; cbn; [|done].
  apply begin_request_Ok in Ht as (Hn & _ & _ & Hp).
  assert (stream s = None) as Hst.
  { specialize (Hser eq_refl). rewrite Hn in Hser. destruct (stream s); [|done].
    destruct Hser as [_ Hser]. destruct Hser; [by eexists|done]. }
  split; [|done]. split; [|done]. split; cbn; [by apply base_completed|done|by rewrite Hp].
Qed.

(** An operation that sends one request and awaits its response. *)
Lemma operation_triple {R A} `{WireMessage R} phase (k : string -> session R) (f : R -> A) :
  (forall id, triple (fun s => sending N s /\ stream s = None) (k id) (fun _ => answered N) I) ->
  triple I (id ← begin_request phase; k id) (fun _ => answered N) I.
Proof.
  intros Hk. eapply triple_bind; [apply begin_request_triple|]. intros id.
  apply triple_weaken with (fun s => sending N s /\ stream s = None); [by intros s []|]. apply Hk.
Qed.

Lemma gets_then {A B} (f : WorkerSession -> B) P (k : B -> session A) Q :
  (forall b, triple P (k b) Q I) -> triple P (x ← gets f; k x) Q I.
Proof. intros Hk. apply triple_gets_bind. intros b. apply triple_weaken with P; [by intros s []|done]. Qed.

Inductive operation :=
  | SetProblemDirectory (directory : option string)
  | SetScientificDeadline (deadline : option Z)
  | Materialize (source_dir : string) (parameters : value) (seed : Z) (output_dir : string) (x : Exchange)
  | PrepareProblem (dataset_dir contract : string) (parameters : value) (output_dir : string) (x : Exchange)
  | CheckApplicability (dataset_dir dataset_manifest contract : string)
      (problem_parameters implementation_parameters : value) (x : Exchange)
  | Prepare (dataset_dir contract : string) (problem_parameters implementation_parameters : value)
      (seed : Z) (x : Exchange)
  | Execute (result_dir : string) (control : option value) (x : Exchange)
  | ExecuteBuffered (result_root : string) (profile : value) (x : Exchange)
  | Reset (x : Exchange)
  | Evaluate (dataset_dir contract : string) (parameters semantics : value)
      (result_dir metrics_path : string) (x : Exchange)
  | StartStream (result_root : string) (profile : value) (x : StreamExchange)
  | DecideStream (action : StreamAction) (reason : option string) (x : StreamExchange).

Definition run (o : operation) : session unit :=
  match o with
  | SetProblemDirectory d => set_problem_directory d
  | SetScientificDeadline d => set_scientific_deadline d
  | Materialize a b c d x => materialize a b c d x;; mret tt
  | PrepareProblem a b c d x => prepare_problem a b c d x;; mret tt
  | CheckApplicability a b c d e x => check_applicability a b c d e x;; mret tt
  | Prepare a b c d e x => prepare a b c d e x;; mret tt
  | Execute a b x => execute_control a b x;; mret tt
  | ExecuteBuffered a b x => execute_buffered a b x;; mret tt
  | Reset x => reset x;; mret tt
  | Evaluate a b c d e f x => evaluate a b c d e f x;; mret tt
  | StartStream a b x => start_stream a b x;; mret tt
  | DecideStream a b x => decide_stream a b x;; mret tt
  end.

Lemma answered_invariant s : answered N s -> I s.
Proof. by intros []. Qed.

Lemma run_request {A} (m : session A) :
  triple I m (fun _ => answered N) I -> triple I (m;; mret tt) (fun _ => I) I.
Proof.
  intros Hm. eapply triple_bind; [exact Hm|]. intros a. apply triple_ret. apply answered_invariant.
Qed.

Ltac request :=
  repeat first
    [ apply run_request
    | (eapply triple_bind; [first [apply require_role_triple | apply require_capability_triple]|intros ?; cbn beta])
    | (eapply triple_bind; [apply begin_request_triple|intros ?];
       apply triple_weaken with (fun s => sending N s /\ stream s = None); [by intros s [] |])
    | (apply gets_then; intros ?)
    | by apply exchange_triple ].

Lemma exchange_operations o x :
  match o with
  | Materialize _ _ _ _ y | PrepareProblem _ _ _ _ y | Prepare _ _ _ _ _ y
  | ExecuteBuffered _ _ y => x = y
  | _ => False
  end -> exchange_ok x -> triple I (run o) (fun _ => I) I.
Proof. destruct o; try done; intros <- Hx; unfold run, materialize, prepare_problem, prepare, execute_buffered; request. Qed.

Lemma reset_triple x : exchange_ok x -> triple I (reset x) (fun _ => answered N) I.
Proof.
  intros Hx. unfold reset. request. intros s Hs. unfold discarding_on_error.
  match goal with |- context [exchange ?p ?q ?t x s] =>
    pose proof (exchange_triple N (R := Acknowledgement.t) p q t x Hx s Hs) as Ht end.
  destruct (exchange _ _ _ _ s) as [[r|e] s']; [done|]. destruct Ht as [Hne [Hb _]]. split; [done|].
  by apply discarded_invariant.
Qed.

Lemma evaluate_triple a b c d e f x :
  exchange_ok x -> triple I (evaluate a b c d e f x) (fun _ => answered N) I.
Proof.
  intros Hx. unfold evaluate. request.
  eapply triple_bind; [apply selected_triple; by intros s [[] _]|]. intros delivers. cbn beta. request.
Qed.

Lemma execute_triple a b x :
  exchange_ok x -> triple I (execute_control a b x) (fun _ => answered N) I.
Proof.
  intros Hx. unfold execute_control. request.
  eapply triple_bind; [by apply exchange_triple|]. intros response.
  destruct (negb _); [|by apply triple_ret]. apply fail_discarding_triple. by intros s [[] _].
Qed.

Lemma check_applicability_triple a b c d e x :
  exchange_ok x -> triple I (check_applicability a b c d e x) (fun _ => answered N) I.
Proof.
  intros Hx. unfold check_applicability. request.
  eapply triple_bind; [by apply exchange_triple|]. intros response. by apply triple_ret.
Qed.

Lemma set_problem_directory_triple d : triple I (set_problem_directory d) (fun _ => I) I.
Proof.
  unfold set_problem_directory. apply triple_bind with (fun _ => I).
  - destruct d; [|by apply triple_ret]. apply gets_then. intros r. apply require_capability_triple.
  - intros _. apply triple_modify. intros s [[] Hser]. constructor; [by constructor|done].
Qed.
End Requests.

(** ** Checkpoints on the wire *)

Lemma redacted_text_utf8 r s : text_secrets r -> utf8_string s -> utf8_string (redacted_text r s).
Proof.
  intros Hr Hs. unfold utf8_string, redacted_text. rewrite bytes_of_string_of. by apply redacted_utf8.
Qed.

Lemma utf8_value_object m :
  utf8_value (Object m) <-> Forall (fun kv => utf8_string kv.1 /\ utf8_value kv.2) m.
Proof. cbn. induction m as [|kv m IH]; simpl; rewrite ?Forall_nil, ?Forall_cons; tauto. Qed.
Lemma utf8_value_array l : utf8_value (Array l) <-> Forall utf8_value l.
Proof. cbn. induction l as [|v l IH]; simpl; rewrite ?Forall_nil, ?Forall_cons; tauto. Qed.

Lemma map_collect_Forall {V} (P : string * V -> Prop) l : Forall P l -> Forall P (map_collect l).
Proof.
  intros H. unfold map_collect. assert (Forall P ([] : list (string * V))) as Hacc by constructor.
  revert Hacc. generalize (@nil (string * V)). induction H as [|[k v] l Hkv _ IH]; intros acc Hacc; [done|].
  apply IH. apply Forall_forall. intros [j x] [Hin|Hin]%map_insert_elem; [by rewrite Hin|].
  rewrite Forall_forall in Hacc. auto.
Qed.

Lemma redacted_value_utf8 r v : text_secrets r -> utf8_value v -> utf8_value (redacted_value r v).
Proof.
  intros Hr. induction v as [| | |s|l IH|m IH] using value_ind'; intros Hv; try done.
  - by apply redacted_text_utf8.
  - apply utf8_value_array in Hv. cbn [redacted_value]. apply utf8_value_array, Forall_map.
    rewrite Forall_forall in *. intros x Hx. auto.
  - apply utf8_value_object in Hv. cbn [redacted_value]. apply utf8_value_object, map_collect_Forall, Forall_map.
    rewrite Forall_forall in *. intros kv Hkv. cbn [fst snd]. destruct (Hv kv Hkv) as [H1 H2].
    split; [by apply redacted_text_utf8|auto].
Qed.
Lemma redactor_value_utf8 r v v' :
  text_secrets r -> utf8_value v -> Redactor.value r v = Ok v' -> utf8_value v'.
Proof.
  intros Hr Hv H. destruct r as [|s r].
  - assert (Redactor.value [] v = Ok v) as Hid by (by destruct v). congruence.
  - rewrite value_spec in H by done. injection H as <-. by apply redacted_value_utf8.
Qed.

Lemma utf8_member k v m : utf8_value (Object m) -> map_get k m = Some v -> utf8_value v.
Proof.
  intros Hm%utf8_value_object Hv%map_get_elem. rewrite Forall_forall in Hm. by apply (Hm (k, v)).
Qed.
Lemma nonempty_string_utf8 v s : utf8_value v -> dec nonempty_string v = Some s -> utf8_string s.
Proof.
  intros Hv H. cbn in H. apply refine_with_Some in H as [H _]. destruct v; try done.
  by injection H as <-.
Qed.

Lemma remove_key_get j k m :
  map_get k (remove_key j m) = if String.eqb k j then None else map_get k m.
Proof.
  induction m as [|[i v] m IH]; simpl; [by destruct (String.eqb k j)|].
  destruct (String.eqb_spec i j) as [->|Hne]; cbn [negb].
  - rewrite IH. destruct (String.eqb_spec k j) as [->|]; [done|]. done.
  - cbn [map_get]. rewrite IH. destruct (String.eqb_spec k i) as [->|]; [|done].
    by destruct (String.eqb_spec i j).
Qed.

(** The fields of a checkpoint that was decoded from an object. *)
Definition checkpoint_fields (m : list (string * value)) : option StreamCheckpoint.t :=
  from_object StreamCheckpoint.wire_fields m ≫=
    fun '(id, (_, (sequence, (check_index, (work, (terminal, (manifest, (draft, _)))))))) =>
      Some {| StreamCheckpoint.id := id; StreamCheckpoint.sequence := sequence;
              StreamCheckpoint.check_index := check_index; StreamCheckpoint.work := work;
              StreamCheckpoint.terminal := terminal; StreamCheckpoint.manifest := manifest;
              StreamCheckpoint.draft := draft |}.
Definition known_names (m : list (string * value)) : bool :=
  forallb (fun k => bool_decide (k ∈ names StreamCheckpoint.wire_fields)) (m.*1).

Lemma decode_checkpoint m c :
  decode_message StreamCheckpoint.t (Object m) = Ok c <->
  known_names m = true /\ checkpoint_fields m = Some c /\ StreamCheckpoint.try_from c = true.
Proof.
  unfold decode_message, checkpoint_fields.
  change (dec (message_codec StreamCheckpoint.t) (Object m)) with
    (refine_with StreamCheckpoint.try_from
      ((fun '(id, (_, (sequence, (check_index, (work, (terminal, (manifest, (draft, _)))))))) =>
         {| StreamCheckpoint.id := id; StreamCheckpoint.sequence := sequence;
            StreamCheckpoint.check_index := check_index; StreamCheckpoint.work := work;
            StreamCheckpoint.terminal := terminal; StreamCheckpoint.manifest := manifest;
            StreamCheckpoint.draft := draft |}) <$>
        (if negb (known_names m) then None else from_object StreamCheckpoint.wire_fields m))).
  destruct (known_names m); cbn [negb]; [|naive_solver].
  destruct (from_object _ m) as [[id [e [sq [ci [w [t [mf [d u]]]]]]]]|]; cbn [fmap option_fmap option_map mbind option_bind];
    [|naive_solver].
  unfold refine_with. cbn [mbind option_bind]. destruct (StreamCheckpoint.try_from _) eqn:Ht;
    cbn [ok_or]; split.
  - intros [= <-]. done.
  - intros (_ & [= <-] & _). done.
  - done.
  - intros (_ & [= <-] & Htr). congruence.
Qed.

Definition with_reference (c : StreamCheckpoint.t) (manifest : string) : StreamCheckpoint.t :=
  StreamCheckpoint.new (StreamCheckpoint.id c) (StreamCheckpoint.sequence c)
    (StreamCheckpoint.check_index c) (StreamCheckpoint.work c) (StreamCheckpoint.terminal c) manifest.

Lemma remove_key_keys j m k : k ∈ (remove_key j m).*1 -> k ∈ m.*1.
Proof.
  intros (v & -> & Hv)%list_elem_of_fmap. apply list_elem_of_fmap. exists v. split; [done|].
  apply list_elem_of_In in Hv. apply filter_In in Hv as [Hv _]. by apply list_elem_of_In.
Qed.

Ltac next_field :=
  match goal with
  | |- context [(map_get ?k ?m ≫= dec ?c) ≫= _] => destruct (map_get k m ≫= dec c) as [?|]
  end; cbn [mbind option_bind fmap option_fmap option_map]; [|done].

(** A finalized draft decodes to the checkpoint with its manifest. *)
Lemma decode_with_manifest m c d manifest :
  decode_message StreamCheckpoint.t (Object m) = Ok c -> StreamCheckpoint.draft c = Some d ->
  manifest <> "" ->
  decode_message StreamCheckpoint.t (with_manifest (Object m) manifest) = Ok (with_reference c manifest).
Proof.
  rewrite decode_checkpoint. intros (Hk & Hc & Ht) Hd Hne. cbn [with_manifest]. apply decode_checkpoint.
  assert (forall k, map_get k (map_insert "manifest" (Str manifest) (remove_key "draft" m)) =
    if String.eqb k "manifest" then Some (Str manifest)
    else if String.eqb k "draft" then None else map_get k m) as Hget.
  { intros k. destruct (String.eqb_spec k "manifest") as [->|Hn].
    - by rewrite map_get_insert_eq.
    - by rewrite map_get_insert_ne, remove_key_get. }
  split; [|split].
  - unfold known_names in *. apply forallb_forall. intros k Hin%list_elem_of_In.
    apply map_insert_keys in Hin as [->|Hin]; [done|]. apply remove_key_keys in Hin.
    rewrite forallb_forall in Hk. apply Hk. by apply list_elem_of_In.
  - revert Hc. unfold checkpoint_fields. cbn [from_object StreamCheckpoint.wire_fields].
    rewrite !Hget. cbn [String.eqb Ascii.eqb Bool.eqb].
    do 6 next_field.
    assert (dec (present nonempty_string) (Str manifest) = Some (Some manifest)) as Hm.
    { apply (dec_enc (present nonempty_string) (Some manifest)). cbn.
      by destruct (String.eqb_spec manifest ""). }
    rewrite Hm. cbn [mbind option_bind fmap option_fmap option_map].
    destruct (match map_get "manifest" m with Some v => _ | None => _ end) as [mo|]; [|done].
    cbn [mbind option_bind fmap option_fmap option_map].
    destruct (match map_get "draft" m with Some v => _ | None => _ end) as [dr|]; [|done].
    cbn [mbind option_bind fmap option_fmap option_map]. by intros [= <-].
  - unfold StreamCheckpoint.try_from in *. cbn. rewrite Hd in Ht.
    by destruct (StreamCheckpoint.manifest c); cbn in Ht.
Qed.

(** The manifest of a decoded checkpoint is text of the frame. *)
Lemma decoded_manifest_utf8 m c s :
  decode_message StreamCheckpoint.t (Object m) = Ok c -> utf8_value (Object m) ->
  StreamCheckpoint.manifest c = Some s -> utf8_string s.
Proof.
  rewrite decode_checkpoint. intros (_ & Hc & _) Hu Hs. revert Hc.
  unfold checkpoint_fields. cbn [from_object StreamCheckpoint.wire_fields]. do 6 next_field.
  destruct (map_get "manifest" m) as [v|] eqn:Hv.
  - destruct (dec (present nonempty_string) v) as [o|] eqn:Ho; [|done].
    cbn [mbind option_bind fmap option_fmap option_map].
    destruct (match map_get "draft" m with Some v => _ | None => _ end); [|done].
    intros [= <-]. cbn in Hs. subst o. apply fmap_Some in Ho as (s' & Ho & [= <-]).
    apply (nonempty_string_utf8 v); [|done]. by eapply utf8_member.
  - cbn [mbind option_bind fmap option_fmap option_map].
    destruct (match map_get "draft" m with Some v => _ | None => _ end); [|done].
    intros [= <-]. done.
Qed.

(** ** Streams *)

Record stream_exchange_ok (x : StreamExchange) : Prop := {
  sok_received : utf8_received (sx_received x);
  sok_snapshot root draft limit e : sx_snapshot x root draft limit = Err e -> utf8_string e;
  sok_finalize request response e : sx_finalize x request response = Err e -> utf8_string e;
  sok_reference draft m : sx_reference x draft = Ok m -> m <> "" /\ utf8_string m;
}.

(** A stream is active and its request, [id], awaits a frame. *)
Record receiving (st : StreamState) (id : string) (s : WorkerSession) : Prop := {
  rc_base : base is_Some s;
  rc_usable : usable s = true;
  rc_pending : pending_request (requests s) = Some id;
  rc_stream : stream s = Some st;
  rc_awaiting : st_awaiting st = false;
}.
(** The same, unless the session has been discarded. *)
Record posted (st : StreamState) (id : string) (s : WorkerSession) : Prop := {
  po_base : base is_Some s;
  po_pending : pending_request (requests s) = Some id;
  po_stream : stream s = Some st;
  po_awaiting : st_awaiting st = false;
}.
Definition counted (st : StreamState) : StreamState := {|
  st_root := st_root st; st_bound := st_bound st; st_bytes := st_bytes st;
  st_count := st_count st + 1; st_awaiting := true; st_stopped := st_stopped st |}.
(** What a message says of the stream [st] it answers. *)
Definition delivered_message (st : StreamState) (id : string) (msg : StreamMessage)
    (s : WorkerSession) : Prop :=
  invariant is_Some s /\ usable s = true /\
  match msg with
  | Checkpoint c =>
      st_stopped st = false /\ StreamCheckpoint.id c = id /\ StreamCheckpoint.sequence c = st_count st /\
      (st_count st < st_bound st)%Z /\ StreamCheckpoint.draft c = None /\
      (exists m, StreamCheckpoint.manifest c = Some m /\ validate_relative_path m = Ok m) /\
      stream s = Some (counted st) /\ pending_request (requests s) = Some id
  | Finished r =>
      ExecuteStreamResponse.checkpoint_count r = st_count st /\
      stream s = None /\ pending_request (requests s) = None
  end.

Section Streams.
Abbreviation I := (invariant is_Some).

Lemma receiving_base st id s : receiving st id s -> base is_Some s.
Proof. by intros []. Qed.
Lemma receiving_invariant st id s : receiving st id s -> I s.
Proof.
  intros []. constructor; [done|]. intros _. rewrite rc_pending0, rc_stream0. split; intros; by eexists.
Qed.
Hint Resolve receiving_base : core.

Lemma stream_error_triple {A} P message (Q : A -> WorkerSession -> Prop) :
  (forall s, P s -> base is_Some s) -> utf8_string message -> triple P (stream_error message) Q I.
Proof.
  intros HP Hm. unfold stream_error. apply triple_bind with (fun _ => I).
  { intros s Hs. by apply discarded_invariant, HP. }
  intros _. intros s Hs. unfold mbind, session_bind, gets.
  destruct (redact_text_total (redactor s) message) as [t Ht];
    [apply (base_secrets _ _ (inv_base _ _ Hs))|done|].
  rewrite Ht. cbn. by split.
Qed.

Lemma utf8_literal s : utf8_error 0 (bytes_of s) = None -> utf8_string s.
Proof. by apply utf8_error_utf8. Qed.
Lemma utf8_string_app a b : utf8_string a -> utf8_string b -> utf8_string (a +:+ b).
Proof.
  unfold utf8_string. intros Ha Hb. rewrite bytes_of_app. by apply Redaction.utf8_app.
Qed.
Lemma validate_relative_path_Err m e : validate_relative_path m = Err e -> utf8_string m -> utf8_string e.
Proof.
  unfold validate_relative_path. destruct (_ || _); [|done]. intros [= <-] Hm.
  repeat apply utf8_string_app; try done; by apply utf8_literal.
Qed.
Lemma validate_relative_path_Ok m p : validate_relative_path m = Ok p -> p = m.
Proof. unfold validate_relative_path. destruct (_ || _); [done|]. by intros [= <-]. Qed.

Lemma receive_draft_triple st id c draft limit e x v m :
  stream_exchange_ok x ->
  decode_message StreamCheckpoint.t v = Ok c -> v = Object m -> StreamCheckpoint.draft c = Some draft ->
  triple (receiving st id) (receive_draft st c draft limit e x v)
    (fun v' s => receiving st id s /\ exists manifest,
       decode_message StreamCheckpoint.t v' = Ok (with_reference c manifest) /\ utf8_string manifest) I.
Proof.
  intros Hx Hdec -> Hd. unfold receive_draft.
  eapply triple_bind; [apply selected_triple; eauto|]. intros managed. cbn beta.
  destruct managed; cbn [negb].
  2:{ apply stream_error_triple; [eauto|]. by apply utf8_literal. }
  destruct (sx_snapshot _ _ _ _) as [[directory name]|e'] eqn:Hsnap.
  2:{ apply stream_error_triple; [eauto|]. by eapply sok_snapshot. }
  destruct (sx_finalize _ _ _) as [u|e'] eqn:Hfin.
  - destruct (sx_reference x draft) as [manifest|e'] eqn:Href.
    + destruct (sok_reference x Hx _ _ Href) as [Hne Hu]. intros s Hs.
      unfold lift_result. cbn [mbind session_bind mret session_ret]. split; [done|].
      exists manifest. split; [|done]. by eapply decode_with_manifest.
    + intros s Hs. cbn. split; [done|]. by eapply receiving_invariant.
  - destruct (_ <=? _)%Z; [apply timeout_triple; eauto|].
    apply stream_error_triple; [eauto|]. by eapply sok_finalize.
Qed.

Lemma get_field_object k v x : get_field k v = Some x -> exists m, v = Object m.
Proof. unfold get_field. destruct v; try done. by eexists. Qed.

Lemma checkpoint_valid_spec st id c :
  checkpoint_valid st id c = true ->
  StreamCheckpoint.id c = id /\ StreamCheckpoint.sequence c = st_count st /\
  (st_count st < st_bound st)%Z /\
  StreamCheckpoint.same_presence (StreamCheckpoint.manifest c) (StreamCheckpoint.draft c) = false.
Proof. unfold checkpoint_valid. intros H. bools. by apply String.eqb_eq in H. Qed.

Lemma counted_delivered st id c m s :
  receiving st id s -> st_stopped st = false ->
  StreamCheckpoint.id c = id -> StreamCheckpoint.sequence c = st_count st ->
  (st_count st < st_bound st)%Z -> StreamCheckpoint.draft c = None ->
  StreamCheckpoint.manifest c = Some m -> validate_relative_path m = Ok m ->
  delivered_message st id (Checkpoint c) (set_stream (Some (counted st)) s).
Proof.
  intros [Hb Hu Hp Hst Ha] Hstop Hid Hseq Hbound Hd Hm Hpath.
  assert (invariant is_Some (set_stream (Some (counted st)) s)) as Hinv.
  { destruct Hb as [H1 H2 H3 H5 H4]. specialize (H4 _ Hst) as [Hc _]. constructor.
    - constructor; try done. intros st' [= <-]. cbn. rewrite Hp. split; [lia|]. intros _. split; [by eexists|lia].
    - intros _. cbn. rewrite Hp. split; intros; by eexists. }
  split; [done|]. split; [done|]. do 5 (split; [done|]). split; [by exists m|]. by split.
Qed.

Lemma receive_checkpoint_triple st id limit e x v m :
  stream_exchange_ok x -> v = Object m -> utf8_value v ->
  triple (receiving st id) (receive_checkpoint limit e x v) (delivered_message st id) I.
Proof.
  intros Hx -> Hv. unfold receive_checkpoint.
  destruct (decode_message StreamCheckpoint.t (Object m)) as [c|err] eqn:Hdec.
  2:{ apply stream_error_triple; [eauto|]. by apply utf8_literal. }
  apply triple_gets_bind. intros so. apply triple_bind with (fun st' s => receiving st id s /\ st' = st).
  { intros s [Hs Hso]. rewrite (rc_stream _ _ _ Hs) in Hso. by subst so. }
  intros st'. apply triple_pure. intros ->. apply triple_gets_bind. intros t.
  apply triple_bind with (fun valid s => receiving st id s /\
    (valid = true -> st_stopped st = false /\ checkpoint_valid st id c = true)).
  { intros s [Hs Ht]. destruct (st_stopped st) eqn:Hstop; cbn; [by split|].
    rewrite <-Ht, (rc_pending _ _ _ Hs). cbn. by split. }
  intros valid. apply triple_pure. intros Hvalid.
  destruct valid; cbn [negb]; [|apply stream_error_triple; [eauto|]; by apply utf8_literal].
  destruct (Hvalid eq_refl) as [Hstop Hcv]. clear Hvalid.
  apply checkpoint_valid_spec in Hcv as (Hid & Hseq & Hbound & Hpres).
  apply triple_bind with (fun v' s => receiving st id s /\ exists c' s', 
    decode_message StreamCheckpoint.t v' = Ok c' /\ StreamCheckpoint.manifest c' = Some s' /\
    StreamCheckpoint.draft c' = None /\ utf8_string s' /\ StreamCheckpoint.id c' = id /\
    StreamCheckpoint.sequence c' = st_count st).
  { destruct (StreamCheckpoint.draft c) as [d|] eqn:Hd.
    - eapply triple_post; [by eapply receive_draft_triple|].
      intros v' s [Hs (manifest & Hdm & Hu)]. split; [done|]. by exists (with_reference c manifest), manifest.
    - apply triple_ret. intros s Hs. split; [done|].
      destruct (StreamCheckpoint.manifest c) as [s'|] eqn:Hm; [|done]. exists c, s'.
      repeat split; auto. by eapply decoded_manifest_utf8. }
  intros v'. apply triple_pure. intros (c' & s' & Hdec' & Hm' & Hd' & Hu' & Hid' & Hseq').
  apply triple_bind with (fun c s => receiving st id s /\ c = c').
  { rewrite Hdec'. by apply triple_ret. }
  intros c2. apply triple_pure. intros ->.
  apply triple_bind with (fun m s => receiving st id s /\ m = s').
  { rewrite Hm'. by apply triple_ret. }
  intros m2. apply triple_pure. intros ->.
  destruct (validate_relative_path s') as [p|err] eqn:Hpath.
  - apply validate_relative_path_Ok in Hpath as Hp. subst p.
    destruct (_ <=? _)%Z; [apply timeout_triple; eauto|].
    intros s Hs. cbn. rewrite <-Hid'. eapply counted_delivered; eauto; congruence.
  - apply stream_error_triple; [eauto|]. by eapply validate_relative_path_Err.
Qed.

Lemma receive_response_triple st id private v :
  triple (receiving st id) (receive_response private v) (delivered_message st id) I.
Proof.
  unfold receive_response. apply triple_gets_bind. intros t.
  destruct (decode_operation_response ExecuteStreamResponse.t v t) as [decoded t'] eqn:Hd.
  apply decode_operation_response_tracker in Hd.
  set (P := fun s => base is_Some s /\ usable s = true /\ stream s = Some st /\ requests s = t').
  assert (forall s, P s -> base is_Some s) as HP by (by intros s []).
  apply triple_bind with (fun _ => P).
  { apply triple_modify. intros s [[[H1 H2 H3 H5 H4] Hu Hp Hst Ha] Ht]. split; [|done].
    constructor; try done. intros st' Hst'. cbn in Hst'. rewrite Hst in Hst'. injection Hst' as <-.
    split; [by apply (H4 _ Hst)|congruence]. }
  intros _. apply triple_gets_bind. intros so.
  apply triple_bind with (fun st' s => P s /\ st' = st).
  { intros s [(Hb & Hu & Hst & Ht) Hso]. rewrite Hst in Hso. by subst so. }
  intros st'. apply triple_pure. intros ->.
  destruct decoded as [[response|failure]|source].
  - destruct (_ =? _)%Z eqn:Hcount.
    2:{ apply stream_error_triple; [done|]. by apply utf8_literal. }
    apply triple_bind with (fun _ => P); [by apply verify_controls_triple|]. intros _.
    intros s (Hb & Hu & Hst & Ht). cbn. bools.
    assert (pending_request (requests s) = None) as Hp.
    { rewrite Ht. by destruct Hd as [(? & _)|[_ [? ?]]]. }
    destruct Hb as [H1 H2 H3 H5 H4]. split; [|by repeat split].
    constructor; [constructor|]; try done. intros _. cbn. rewrite Hp. split; intros []; done.
  - by apply fail_discarding_triple.
  - by apply fail_discarding_triple.
Qed.

Lemma stream_frame_triple st id stopping x :
  stream_exchange_ok x ->
  triple (receiving st id) (stream_frame stopping x) (delivered_message st id) I.
Proof.
  intros Hx. set (P := receiving st id).
  assert (forall s, P s -> base is_Some s) as HP by (by intros s []).
  assert (forall s, P s -> base is_Some s /\ usable s = true) as HPu by (by intros s []).
  unfold stream_frame. apply triple_bind with (fun _ => P).
  { intros s Hs. unfold ensure_usable, mbind, session_bind, gets, require.
    by rewrite (rc_usable _ _ _ Hs). }
  intros _. apply triple_bind with (fun _ => P); [by apply verify_controls_triple|]. intros _.
  apply gets_then. intros phases. apply gets_then. intros deadline.
  destruct (exchange_limit _ _ _ _) as [limit e].
  destruct (limit =? 0)%Z; [by apply timeout_triple|].
  apply triple_bind with (fun v s => P s /\ sx_received x = Frame v); [by apply await_reply_triple|].
  intros v. apply triple_pure. intros Hr. pose proof (sok_received x Hx) as Hv. rewrite Hr in Hv.
  cbn in Hv. intros s Hs. unfold mbind at 1, session_bind at 1, gets at 1.
  destruct (redact_total (redactor s) v) as [v' Hv']; [apply (HP s Hs)|done|]. rewrite Hv'.
  cbn [panicking_in]. apply redactor_value_utf8 in Hv' as Hu; [|apply (HP s Hs)|done].
  assert (triple P (match get_field "event" v' with
    | None => receive_response (sx_private_after x) v'
    | Some _ => receive_checkpoint limit e x v'
    end) (delivered_message st id) I) as Hrest; [|exact (Hrest s Hs)].
  destruct (get_field "event" v') as [ev|] eqn:Hev; [|apply receive_response_triple].
  apply get_field_object in Hev as [m ->]. by eapply receive_checkpoint_triple.
Qed.

Lemma posted_invariant st id s : posted st id s -> I s.
Proof.
  intros []. constructor; [done|]. intros _. rewrite po_pending0, po_stream0. split; intros; by eexists.
Qed.
Lemma unusable_fails {A} (k : unit -> session A) s :
  usable s = false -> (ensure_usable ≫= k) s = (Err (Returned SessionUnusable), s).
Proof. intros Hu. unfold ensure_usable, mbind, session_bind, gets. by rewrite Hu. Qed.
Lemma posted_triple st id stopping x :
  stream_exchange_ok x ->
  triple (posted st id) (stream_frame stopping x) (delivered_message st id) I.
Proof.
  intros Hx s Hs. destruct (usable s) eqn:Hu.
  - apply (stream_frame_triple st id stopping x Hx s). by destruct Hs.
  - unfold stream_frame. rewrite unusable_fails by done. split; [done|]. by eapply posted_invariant.
Qed.

(** The stream that [start_stream] opens, and a stream whose checkpoint was
    decided. *)
Definition opened (root : string) (profile : value) : StreamState := {|
  st_root := root; st_bound := profile_bound profile "max-observations";
  st_bytes := profile_bound profile "max-checkpoint-bytes";
  st_count := 0; st_awaiting := false; st_stopped := false |}.
Definition decided (st : StreamState) (action : StreamAction) : StreamState := {|
  st_root := st_root st; st_bound := st_bound st; st_bytes := st_bytes st;
  st_count := st_count st; st_awaiting := false; st_stopped := bool_decide (action = Stop) |}.

Context `{ThirdParty}.

Lemma start_stream_triple root profile x :
  stream_exchange_ok x ->
  triple I (start_stream root profile x)
    (fun msg s => exists id, delivered_message (opened root profile) id msg s) I.
Proof.
  intros Hx. unfold start_stream. eapply triple_bind; [apply require_role_triple|]. intros u1. cbn beta.
  eapply triple_bind; [apply require_capability_triple|]. intros u2. cbn beta.
  eapply triple_bind; [apply begin_request_triple|]. intros id. cbn beta.
  apply triple_bind with (fun _ => receiving (opened root profile) id).
  { apply triple_modify. intros s [[[[H1 H2 H3 H5 H4] Hu Hp] Hst] Hid]. constructor; try done.
    constructor; try done. by intros st [= <-]. }
  intros _. apply triple_bind with (fun _ => receiving (opened root profile) id).
  { intros s Hs. destruct (encode_message _); [done|]. cbn. split; [done|]. by eapply receiving_invariant. }
  intros b. eapply triple_post; [by apply stream_frame_triple|]. intros msg s Hs. by exists id.
Qed.

Lemma decide_stream_triple st id action reason x :
  stream_exchange_ok x ->
  triple (fun s => I s /\ stream s = Some st /\ pending_request (requests s) = Some id)
    (decide_stream action reason x)
    (fun msg s => st_awaiting st = true /\ st_stopped st = false /\
       delivered_message (decided st action) id msg s) I.
Proof.
  intros Hx. set (P := fun s => I s /\ stream s = Some st /\ pending_request (requests s) = Some id).
  assert (forall s, P s -> base is_Some s) as HP by (by intros s [[] _]).
  unfold decide_stream. apply triple_gets_bind. intros so. intros s [Hs Hso].
  pose proof Hs as (Hinv & Hst & Hp). rewrite Hst in Hso. subst so. revert s Hs Hinv Hst Hp.
  assert (triple P (if negb (st_awaiting st) || st_stopped st
    then stream_error "no checkpoint is awaiting a decision"
    else
      t ← gets requests;
      id ← unwrap (pending_request t);
      sequence ← unwrap (match checked_sub (E := Empty_set) (st_count st) 1 with
                         | Ok n => Some n | Err _ => None end);
      let decision := StreamDecision.new id sequence action reason in
      modify (set_stream (Some (decided st action)));;
      _ ← lift_result (EncodeFailed PhaseExecute) (encode_message decision);
      stream_frame (bool_decide (action = Stop)) x)
    (fun msg s => st_awaiting st = true /\ st_stopped st = false /\
       delivered_message (decided st action) id msg s) I) as Hrest;
    [|intros s Hs _ _ _; exact (Hrest s Hs)].
  destruct (st_awaiting st) eqn:Ha; cbn [negb orb].
  2:{ apply stream_error_triple; [done|]. by apply utf8_literal. }
  destruct (st_stopped st) eqn:Hstop; [apply stream_error_triple; [done|]; by apply utf8_literal|].
  apply triple_gets_bind. intros t.
  apply triple_bind with (fun id' s => P s /\ id' = id).
  { intros s [Hs Ht]. pose proof Hs as (_ & _ & Hp). rewrite <-Ht, Hp. done. }
  intros id'. apply triple_pure. intros ->.
  apply triple_bind with (fun _ => P).
  { intros s Hs. pose proof Hs as ([Hb _] & Hst & _). destruct (base_stream _ _ Hb _ Hst) as [_ Hc].
    destruct (Hc Ha) as [_ Hc1]. unfold checked_sub. rewrite (proj2 (Z.ltb_ge _ _)) by lia. done. }
  intros sequence. cbv zeta. apply triple_bind with (fun _ => posted (decided st action) id).
  { apply triple_modify. intros s ([[H1 H2 H3 H5 H4] Hser] & Hst & Hp). destruct (H4 _ Hst) as [H6 _].
    constructor; try done. constructor; try done. by intros st' [= <-]. }
  intros _. apply triple_bind with (fun _ => posted (decided st action) id).
  { intros s Hs. destruct (encode_message _); [done|]. cbn. split; [done|]. by eapply posted_invariant. }
  intros b. eapply triple_post; [by apply posted_triple|]. done.
Qed.

(** ** Every operation *)

Definition operation_ok (o : operation) : Prop :=
  match o with
  | SetProblemDirectory _ | SetScientificDeadline _ => True
  | Materialize _ _ _ _ x | PrepareProblem _ _ _ _ x | CheckApplicability _ _ _ _ _ x
  | Prepare _ _ _ _ _ x | Execute _ _ x | ExecuteBuffered _ _ x | Reset x
  | Evaluate _ _ _ _ _ _ x => exchange_ok x
  | StartStream _ _ x | DecideStream _ _ x => stream_exchange_ok x
  end.

Lemma run_triple o : operation_ok o -> triple I (run o) (fun _ => I) I.
Proof.
  intros Hx. destruct o; try (by eapply exchange_operations); unfold run.
  - apply set_problem_directory_triple.
  - apply triple_modify. intros s [[] Hser]. constructor; [by constructor|done].
  - by apply run_request, check_applicability_triple.
  - by apply run_request, execute_triple.
  - by apply run_request, reset_triple.
  - by apply run_request, evaluate_triple.
  - eapply triple_bind; [by apply start_stream_triple|]. intros msg. apply triple_ret. by intros s [? []].
  - intros s Hs. destruct (stream s) as [st|] eqn:Hst.
    + destruct (pending_request (requests s)) as [id|] eqn:Hp.
      * assert (triple (fun s => I s /\ stream s = Some st /\ pending_request (requests s) = Some id)
          (decide_stream action reason x;; mret tt) (fun _ => I) I) as Ht; [|by apply (Ht s)].
        eapply triple_bind; [by apply decide_stream_triple|]. intros msg. apply triple_ret.
        by intros s' (_ & _ & []).
      * assert (st_awaiting st = false) as Ha.
        { destruct (base_stream _ _ (inv_base _ _ Hs) _ Hst) as [_ Hc].
          destruct (st_awaiting st); [|done]. destruct (Hc eq_refl) as [[? ?] _]. congruence. }
        assert (decide_stream action reason x s =
          stream_error "no checkpoint is awaiting a decision" s) as Heq.
        { unfold decide_stream, mbind at 1, session_bind at 1, gets at 1. by rewrite Hst, Ha. }
        pose proof (stream_error_triple (A := StreamMessage) I "no checkpoint is awaiting a decision"
          (fun _ => I) ltac:(by intros ? []) ltac:(by apply utf8_literal) s Hs) as Ht.
        rewrite <-Heq in Ht. unfold mbind, session_bind.
        by destruct (decide_stream action reason x s) as [[]].
    + unfold decide_stream, mbind, session_bind, gets. rewrite Hst. cbn. done.
Qed.
End Streams.

(** ** Connected sessions *)

Section Sessions.
Context `{ThirdParty}.

Lemma connect_invariant p secrets r worker_id plan phases deadline x :
  text_secrets secrets -> exchange_ok x ->
  match connect_with_deadline p secrets r worker_id plan phases deadline x with
  | Ok s => invariant is_Some s /\ usable s = true
  | Err e => e <> Panicked
  end.
Proof.
  intros Hsec Hx. unfold connect_with_deadline.
  match goal with |- context [(begin_request PhaseHello ≫= ?k) ?s0] => set (s := s0); set (hello := k) end.
  set (M := fun _ : option NegotiatedSession => True).
  assert (triple (invariant M) (begin_request PhaseHello ≫= hello)
    (fun _ s => invariant is_Some s /\ usable s = true) (invariant M)) as Ht.
  { eapply triple_bind; [apply begin_request_triple|]. intros id. cbn beta. unfold hello. cbv zeta.
    apply triple_weaken with (fun s => sending M s /\ stream s = None); [by intros ? []|].
    eapply triple_bind; [by apply exchange_triple|]. intros response.
    destruct (validate_hello_response _ _ _) as [n|source].
    - apply triple_modify. intros s1 ([[H1 H2 H3 H5 H4] Hser] & Hu & Hp & Hst). split; [|done].
      constructor; [|done]. by constructor.
    - apply fail_discarding_triple. by intros ? [[] _]. }
  assert (invariant M s) as Hs.
  { constructor; [by constructor|]. cbn. intros _. split; intros []; done. }
  specialize (Ht s Hs). destruct ((begin_request PhaseHello ≫= hello) s) as [[u|e] s1]; by destruct Ht.
Qed.

(** The sessions that connecting and then operating lead to. *)
Inductive reached : WorkerSession -> Prop :=
  | reached_connect p secrets r worker_id plan phases deadline x s :
      text_secrets secrets -> exchange_ok x ->
      connect_with_deadline p secrets r worker_id plan phases deadline x = Ok s -> reached s
  | reached_run o s : reached s -> operation_ok o -> reached (run o s).2.

Lemma triple_run o s : operation_ok o -> invariant is_Some s ->
  (run o s).1 <> Err Panicked /\ invariant is_Some (run o s).2.
Proof.
  intros Ho Hs. pose proof (run_triple o Ho s Hs) as Ht.
  destruct (run o s) as [[u|e] s']; cbn; [by split|]. destruct Ht as [Hne Hi]. split; [|done].
  by intros [= ->].
Qed.

Lemma reached_invariant s : reached s -> invariant is_Some s.
Proof.
  induction 1 as [p secrets r worker_id plan phases deadline x s Hsec Hx Hc|o s _ IH Ho].
  - pose proof (connect_invariant p secrets r worker_id plan phases deadline x Hsec Hx) as Hi.
    rewrite Hc in Hi. by destruct Hi.
  - by apply triple_run.
Qed.
End Sessions.

(** ** The end of a session *)

Section Ended.
Context `{ThirdParty}.

Lemma discarded_unusable s : usable (discarded s) = false.
Proof. unfold discarded. destruct (usable s) eqn:Hu, (process s); done. Qed.

Lemma bind_unusable {A B} (m : session A) (k : A -> session B) s :
  usable (m s).2 = false -> (forall a s, usable s = false -> usable (k a s).2 = false) ->
  usable ((m ≫= k) s).2 = false.
Proof.
  intros Hm Hk. unfold mbind, session_bind. destruct (m s) as [[a|e] s']; [|done]. by apply Hk.
Qed.
Lemma require_role_unusable phase r s :
  usable s = false -> require_role phase r s = (Err (Returned SessionUnusable), s).
Proof. intros Hu. unfold require_role. by rewrite unusable_fails. Qed.
Lemma bind_fails {A B} (m : session A) (k : A -> session B) e s s' :
  m s = (Err e, s') -> (m ≫= k) s = (Err e, s').
Proof. intros H1. unfold mbind, session_bind. by rewrite H1. Qed.

(** The operations that send a request. *)
Definition requests_worker (o : operation) : bool :=
  match o with
  | SetProblemDirectory _ | SetScientificDeadline _ | DecideStream _ _ _ => false
  | _ => true
  end.
Lemma run_request_unusable o s :
  usable s = false -> requests_worker o = true -> run o s = (Err (Returned SessionUnusable), s).
Proof.
  intros Hu Ho. destruct o; try done; unfold run; apply bind_fails;
    unfold materialize, prepare_problem, check_applicability, prepare, execute_control,
      execute_buffered, reset, evaluate, start_stream; apply bind_fails; by apply require_role_unusable.
Qed.

Lemma unwrap_unusable {A} (o : option A) s : usable s = false -> usable (unwrap o s).2 = false.
Proof. by destruct o. Qed.
Lemma lift_result_unusable {F A} (f : F -> WorkerSessionError) (m : result F A) s :
  usable s = false -> usable (lift_result f m s).2 = false.
Proof. by destruct m. Qed.
Lemma stream_error_unusable {A} message s : usable (stream_error (A := A) message s).2 = false.
Proof.
  unfold stream_error. unfold mbind at 1, session_bind at 1. cbn [discard modify].
  apply bind_unusable; [apply discarded_unusable|]. intros r s' Hu.
  apply bind_unusable; [|done]. by destruct (Redactor.text r message).
Qed.

Lemma stream_frame_unusable b x s : usable s = false -> usable (stream_frame b x s).2 = false.
Proof. intros Hu. unfold stream_frame. by rewrite unusable_fails. Qed.

Lemma run_unusable o s : usable s = false -> usable (run o s).2 = false.
Proof.
  intros Hu. destruct (requests_worker o) eqn:Ho; [by rewrite run_request_unusable|].
  destruct o as [d| | | | | | | | | | |action reason x]; try done; unfold run.
  - unfold set_problem_directory. apply bind_unusable; [|done]. destruct d; [|done].
    apply bind_unusable; [done|]. intros r s' Hu'. unfold require_capability, selected, negotiated.
    repeat (apply bind_unusable; [|intros]); try done; try (by apply unwrap_unusable).
    unfold require. by destruct a.
  - apply bind_unusable; [|done]. unfold decide_stream. apply bind_unusable; [done|].
    intros st s' Hu'. destruct st as [st|]; [|done]. destruct (_ || _); [apply stream_error_unusable|].
    repeat first [by apply stream_frame_unusable | apply bind_unusable; [|intros]]; try done;
      first [by apply unwrap_unusable | by apply lift_result_unusable].
Qed.

(** ** Which failures a session survives *)

(** [settles keeps m]: [m] ends with a usable session if it succeeds or fails
    with an error of [keeps], and with a discarded one otherwise. *)
Definition settles {A} (keeps : WorkerSessionError -> bool) (m : session A) : Prop :=
  forall s, usable s = true ->
    match m s with
    | (Ok _, s') => usable s' = true
    | (Err Panicked, _) => True
    | (Err (Returned e), s') => usable s' = keeps e
    end.

Lemma settles_bind {A B} keeps (m : session A) (k : A -> session B) :
  settles keeps m -> (forall a, settles keeps (k a)) -> settles keeps (m ≫= k).
Proof.
  intros Hm Hk s Hs. specialize (Hm s Hs). unfold mbind, session_bind.
  destruct (m s) as [[a|e] s']; [|done]. by apply Hk.
Qed.
Lemma settles_ret {A} keeps (a : A) : settles keeps (mret a).
Proof. by intros s Hs. Qed.
Lemma settles_gets {A} keeps (f : WorkerSession -> A) : settles keeps (gets f).
Proof. by intros s Hs. Qed.
Lemma settles_modify keeps f : (forall s, usable (f s) = usable s) -> settles keeps (modify f).
Proof. intros H1 s Hs. cbn. by rewrite H1. Qed.
Lemma settles_throw {A} keeps e : keeps e = true -> settles (A := A) keeps (throw e).
Proof. intros He s Hs. cbn. by rewrite He. Qed.
Lemma settles_discarding {A} keeps e : keeps e = false -> settles (A := A) keeps (fail_discarding e).
Proof. intros He s Hs. change (usable (discarded s) = keeps e). by rewrite He, discarded_unusable. Qed.
Lemma settles_unwrap {A} keeps (o : option A) : settles keeps (unwrap o).
Proof. by destruct o; intros s Hs. Qed.
Lemma settles_panicking {A} keeps (m : result (failure Empty_set) A) : settles keeps (panicking_in m).
Proof. by destruct m; intros s Hs. Qed.
Lemma settles_require keeps b e : keeps e = true -> settles keeps (require b e).
Proof. intros He. destruct b; [apply settles_ret|by apply settles_throw]. Qed.
Lemma settles_weaken {A} keeps keeps' (m : session A) :
  settles keeps m -> (forall e, keeps e = keeps' e) -> settles keeps' m.
Proof.
  intros Hm H1 s Hs. specialize (Hm s Hs). destruct (m s) as [[a|[e|]] s']; try done. by rewrite <-H1.
Qed.

(** The refusals before anything is sent, and the worker's own report. *)
Definition survivable (e : WorkerSessionError) : bool :=
  match e with
  | InvalidRole _ _ | CapabilityNotSelected _ _ | RequestFailed _ _ | WorkerFailed _ _ => true
  | _ => false
  end.
(** A failed reset leaves no clean state. *)
Definition survives (o : operation) (e : WorkerSessionError) : bool :=
  match o, e with
  | Reset _, WorkerFailed _ _ => false
  | _, _ => survivable e
  end.

(** The refusals, and the failures of the transport. *)
Definition refusal (e : WorkerSessionError) : bool :=
  match e with
  | InvalidRole _ _ | CapabilityNotSelected _ _ | RequestFailed _ _ => true
  | _ => false
  end.
Definition reported (e : WorkerSessionError) : bool :=
  match e with WorkerFailed _ _ => true | _ => false end.

Section Transport.
Context (keeps : WorkerSessionError -> bool)
  (Htransport : forall e, refusal e = false -> reported e = false -> keeps e = false)
  (Hreported : forall phase failure, keeps (WorkerFailed phase failure) = true).

Lemma exchange_limit_error phase timeout deadline now :
  keeps (exchange_limit phase timeout deadline now).2 = false.
Proof.
  apply Htransport; unfold exchange_limit; cbn; by destruct (match _ with Some _ => _ | None => _ end).
Qed.

Lemma await_reply_settles phase e sent received :
  keeps e = false -> settles keeps (await_reply phase e sent received).
Proof.
  intros He. unfold await_reply. apply settles_bind; [apply settles_gets|]. intros open.
  destruct (negb open); [done|]. destruct (negb sent); [by apply settles_discarding; auto|].
  destruct received; try (by apply settles_discarding; auto); [apply settles_ret|].
  apply settles_bind; [apply settles_gets|]. intros r. apply settles_discarding.
  apply Htransport; by destruct (Redactor.is_empty r).
Qed.
Lemma verify_controls_settles private : settles keeps (verify_controls private).
Proof.
  unfold verify_controls. apply settles_bind; [apply settles_gets|]. intros p.
  destruct (_ && _); [by apply settles_discarding; auto|apply settles_ret].
Qed.
Lemma finalize_draft_settles request limit e x v :
  keeps e = false -> settles keeps (finalize_draft request limit e x v).
Proof.
  intros He. unfold finalize_draft. apply settles_bind; [apply settles_gets|]. intros n.
  destruct (negb _); [by apply settles_discarding; auto|].
  destruct (ManagedOutputResponse.decode v); [|by apply settles_discarding; auto].
  destruct (negb _); [by apply settles_discarding; auto|].
  destruct (finalize x request v) as [v'|source]; [apply settles_ret|].
  destruct (_ <=? _)%Z; [by apply settles_discarding; auto|].
  intros s Hs. unfold mbind at 1, session_bind at 1. cbn [discard modify].
  pose proof (discarded_unusable s) as Hd. revert Hd. generalize (discarded s). clear s Hs. intros s Hs.
  unfold redacted_source, mbind, session_bind, gets.
  destruct (Redactor.is_empty _); cbn; [by rewrite Htransport|].
  destruct (Redactor.text _ _); [|done]. cbn. by rewrite Htransport.
Qed.

Lemma exchange_settles {Q R} `{WireMessage Q, WireMessage R} phase (request : Q) timeout x :
  settles keeps (exchange (R := R) phase request timeout x).
Proof.
  unfold exchange. apply settles_bind; [apply verify_controls_settles|]. intros u.
  apply settles_bind; [apply settles_gets|]. intros deadline.
  pose proof (exchange_limit_error phase timeout deadline (started x)) as He.
  destruct (exchange_limit _ _ _ _) as [limit e]. cbn in He.
  destruct (limit =? 0)%Z; [by apply settles_discarding; auto|].
  destruct (encode_message request); [|by apply settles_discarding; auto].
  destruct (limit <=? encoded_after x)%Z; [by apply settles_discarding; auto|].
  apply settles_bind; [by apply await_reply_settles|]. intros v.
  apply settles_bind; [apply settles_gets|]. intros r.
  apply settles_bind; [apply settles_panicking|]. intros v1.
  apply settles_bind. { destruct (get_field _ _); [by apply finalize_draft_settles|apply settles_ret]. }
  intros v2. apply settles_bind; [apply settles_gets|]. intros t.
  destruct (decode_operation_response R v2 t) as [decoded t'].
  apply settles_bind; [by apply settles_modify|]. intros u1.
  destruct (limit <=? decoded_after x)%Z; [by apply settles_discarding; auto|].
  apply settles_bind; [apply verify_controls_settles|]. intros u2.
  destruct decoded as [[response|failure]|source];
    [apply settles_ret|apply settles_throw; auto|by apply settles_discarding; auto].
Qed.
End Transport.

Lemma ensure_usable_settles : settles survivable ensure_usable.
Proof. intros s Hs. unfold ensure_usable, mbind, session_bind, gets. by rewrite Hs. Qed.
Lemma require_role_settles phase r : settles survivable (require_role phase r).
Proof.
  unfold require_role. apply settles_bind; [apply ensure_usable_settles|]. intros u.
  apply settles_bind; [apply settles_gets|]. intros r'. by apply settles_require.
Qed.
Lemma selected_settles c : settles survivable (selected c).
Proof.
  unfold selected, negotiated. apply settles_bind.
  - apply settles_bind; [apply settles_gets|]. intros n. apply settles_unwrap.
  - intros n. apply settles_ret.
Qed.
Lemma require_capability_settles phase c : settles survivable (require_capability phase c).
Proof.
  unfold require_capability. apply settles_bind; [apply selected_settles|]. intros b.
  by apply settles_require.
Qed.
Lemma begin_request_settles phase : settles survivable (begin_request phase).
Proof.
  unfold begin_request. apply settles_bind; [apply ensure_usable_settles|]. intros u.
  apply settles_bind; [apply settles_gets|]. intros t. apply settles_bind.
  - unfold lift_result. destruct (Tracker.begin_request t); [apply settles_ret|by apply settles_throw].
  - intros [id t']. apply settles_bind; [by apply settles_modify|]. intros u'. apply settles_ret.
Qed.

(** The operations that exchange one request for one response. *)
Definition one_shot (o : operation) : bool :=
  match o with StartStream _ _ _ | DecideStream _ _ _ => false | _ => true end.

Lemma exchange_survivable {Q R} `{WireMessage Q, WireMessage R} phase (request : Q) timeout x :
  settles survivable (exchange (R := R) phase request timeout x).
Proof. apply exchange_settles; [|done]. by intros []. Qed.

(** Only the worker's report leaves a session usable after an exchange. *)
Lemma exchange_refusal {Q R} `{WireMessage Q, WireMessage R} phase (request : Q) timeout x s e s' :
  usable s = true -> exchange (R := R) phase request timeout x s = (Err (Returned e), s') ->
  refusal e = false.
Proof.
  intros Hu He. pose proof (exchange_survivable (R := R) phase request timeout x s Hu) as Hs1.
  pose proof (exchange_settles reported ltac:(by intros []) ltac:(done) (R := R)
    phase request timeout x s Hu) as Hs2.
  rewrite He in Hs1, Hs2. destruct e; try done; cbn in *; congruence.
Qed.

Lemma reset_settles x : settles refusal (reset x).
Proof.
  assert (forall {A} (m : session A), (forall s e s', usable s = true ->
    m s = (Err (Returned e), s') -> reported e = false) -> settles survivable m -> settles refusal m) as Hr.
  { intros A m Hm Hset s Hs. specialize (Hset s Hs). specialize (Hm s). destruct (m s) as [[a|[e|]] s'];
      try done. specialize (Hm e s' Hs eq_refl). by destruct e. }
  unfold reset. apply settles_bind.
  { apply Hr; [|apply require_role_settles]. intros s e s' Hs.
    unfold require_role, ensure_usable, mbind, session_bind, gets, require. rewrite Hs. cbn.
    destruct (bool_decide_reflect (role s = Implementation)); by intros [= <- <-]. }
  intros u. apply settles_bind.
  { apply Hr; [|apply begin_request_settles]. intros s e s' Hs.
    unfold begin_request, ensure_usable, mbind, session_bind, gets, require. rewrite Hs. cbn.
    destruct (Tracker.begin_request (requests s)) as [[]|]; by intros [= <- <-]. }
  intros id. apply settles_bind; [apply settles_gets|]. intros phases.
  intros s Hs. unfold discarding_on_error.
  match goal with |- context [exchange ?p ?q ?t ?y s] =>
    pose proof (exchange_survivable (R := Acknowledgement.t) p q t y s Hs) as He;
    pose proof (exchange_refusal (R := Acknowledgement.t) p q t y s) as Href;
    destruct (exchange p q t y s) as [[r|[e|]] s'] end; try done.
  rewrite discarded_unusable. symmetry. by eapply Href.
Qed.

Ltac settle :=
  repeat first
    [ apply require_role_settles | apply require_capability_settles | apply begin_request_settles
    | apply selected_settles | apply exchange_survivable | apply settles_gets | apply settles_ret
    | by apply settles_modify | apply settles_bind; [|intros ?] ].

Lemma one_shot_settles o : one_shot o = true -> settles (survives o) (run o).
Proof.
  intros Ho. destruct o as [d|d|? ? ? ? x|? ? ? ? x|? ? ? ? ? x|? ? ? ? ? x|? control x|? ? x|x|? ? ? ? ? ? x| |];
    try done; unfold run.
  1-8: apply settles_weaken with (keeps := survivable); [|by intros []].
  all: unfold set_problem_directory, set_scientific_deadline, materialize, prepare_problem,
    check_applicability, prepare, execute_control, execute_buffered, evaluate.
  - apply settles_bind; [|intros u; by apply settles_modify]. destruct d; settle.
  - by apply settles_modify.
  - settle.
  - settle.
  - settle.
  - settle.
  - settle. destruct (negb _); [by apply settles_discarding|apply settles_ret].
  - settle.
  - apply settles_bind; [|intros a; apply settles_ret].
    eapply settles_weaken; [apply reset_settles|]. by intros [].
  - apply settles_weaken with (keeps := survivable); [|by intros []]. settle.
Qed.
End Ended.

(** ** Whole streams *)

(** The messages of a stream, each with the decision it answers; the first
    answers the request itself. *)
Fixpoint numbered (id : string) (bound n : Z) (steps : list (StreamAction * StreamMessage)) : Prop :=
  match steps with
  | [] => True
  | (action, Checkpoint c) :: steps =>
      action = Continue /\ StreamCheckpoint.id c = id /\ StreamCheckpoint.sequence c = n /\
      (n < bound)%Z /\ StreamCheckpoint.draft c = None /\
      (exists m, StreamCheckpoint.manifest c = Some m /\ validate_relative_path m = Ok m) /\
      numbered id bound (n + 1) steps
  | (_, Finished r) :: steps => ExecuteStreamResponse.checkpoint_count r = n /\ steps = []
  end.

Section Runs.
Context `{ThirdParty}.

Fixpoint decide_all (l : list (StreamAction * option string * StreamExchange))
  : session (list (StreamAction * StreamMessage)) :=
  match l with
  | [] => mret []
  | (action, reason, x) :: l =>
      msg ← decide_stream action reason x;
      steps ← decide_all l;
      mret ((action, msg) :: steps)
  end.
Definition run_stream (root : string) (profile : value) (x : StreamExchange)
    (l : list (StreamAction * option string * StreamExchange))
  : session (list (StreamAction * StreamMessage)) :=
  msg ← start_stream root profile x;
  steps ← decide_all l;
  mret ((Continue, msg) :: steps).

Lemma bind_session_Ok {A B} (m : session A) (k : A -> session B) b s s' :
  (m ≫= k) s = (Ok b, s') -> exists a s1, m s = (Ok a, s1) /\ k a s1 = (Ok b, s').
Proof. unfold mbind, session_bind. destruct (m s) as [[a|e] s1]; [eauto|done]. Qed.

Lemma decide_all_numbered l st id s steps s' :
  Forall (fun d => stream_exchange_ok d.2) l ->
  invariant is_Some s -> stream s = Some st -> pending_request (requests s) = Some id ->
  decide_all l s = (Ok steps, s') -> numbered id (st_bound st) (st_count st) steps.
Proof.
  intros Hl. revert st s steps. induction Hl as [|[[action reason] x] l Hx _ IH];
    intros st s steps Hinv Hst Hp; cbn [decide_all]; [by intros [= <- <-]|].
  intros (msg & s1 & Hmsg & Hrest)%bind_session_Ok.
  apply bind_session_Ok in Hrest as (steps1 & s2 & Hsteps & [= <- <-]).
  pose proof (decide_stream_triple st id action reason x Hx s (conj Hinv (conj Hst Hp))) as Ht.
  rewrite Hmsg in Ht. destruct Ht as (_ & _ & Hinv1 & Hu1 & Ht). destruct msg as [c|r]; cbn [numbered].
  - destruct Ht as (Hstop & Hid & Hseq & Hbound & Hd & Hm & Hst1 & Hp1).
    assert (action = Continue) as Ha by (destruct action; [done|]; by cbn in Hstop).
    repeat split; auto. cbn in Hseq, Hbound.
    by apply (IH (counted (decided st action)) s1).
  - destruct Ht as (Hc & Hst1 & _). split; [done|]. destruct l as [|[[a2 r2] x2] l]; [by injection Hsteps as <-|].
    cbn [decide_all] in Hsteps. apply bind_session_Ok in Hsteps as (m2 & s3 & Hm2 & _).
    unfold decide_stream, mbind at 1, session_bind at 1, gets at 1 in Hm2. by rewrite Hst1 in Hm2.
Qed.

(** C23: the checkpoints of a stream are numbered.  Whatever the worker sends, a
    stream that the session has carried so far consists of checkpoints of one
    request with the sequence numbers 0, 1, 2, and so on, fewer than the profile's
    observation bound and each with a valid relative manifest path and no
    unfinished draft; each further checkpoint answers a decision to continue;
    a terminal response reports exactly the number of checkpoints received, and
    nothing follows it. *)
Theorem stream_checkpoints_numbered s root profile x l steps s' :
  reached s -> stream_exchange_ok x -> Forall (fun d => stream_exchange_ok d.2) l ->
  run_stream root profile x l s = (Ok steps, s') ->
  exists id, numbered id (profile_bound profile "max-observations") 0 steps.
Proof.
  intros Hs Hx Hl. unfold run_stream. intros (msg & s1 & Hmsg & Hrest)%bind_session_Ok.
  apply bind_session_Ok in Hrest as (steps1 & s2 & Hsteps & [= <- <-]).
  apply reached_invariant in Hs. pose proof (start_stream_triple root profile x Hx s Hs) as Ht.
  rewrite Hmsg in Ht. destruct Ht as (id & Hinv1 & Hu1 & Ht). exists id. destruct msg as [c|r]; cbn [numbered].
  - destruct Ht as (Hstop & Hid & Hseq & Hbound & Hd & Hm & Hst1 & Hp1).
    cbn in Hseq, Hbound. repeat split; auto.
    by apply (decide_all_numbered l (counted (opened root profile)) id s1 steps1 s2).
  - destruct Ht as (Hc & Hst1 & _). split; [done|]. destruct l as [|[[a2 r2] x2] l]; [by injection Hsteps as <-|].
    cbn [decide_all] in Hsteps. apply bind_session_Ok in Hsteps as (m2 & s3 & Hm2 & _).
    unfold decide_stream, mbind at 1, session_bind at 1, gets at 1 in Hm2. by rewrite Hst1 in Hm2.
Qed.

(** C18: a session has at most one request in flight and never panics.  In
    every session that connecting and any operations with any worker lead to: a
    usable session owns its process, and a request is pending exactly while its
    stream is active; a discarded session owns nothing, is never usable again,
    and refuses every request without sending it; no operation panics, whatever
    frame, failure or delay the worker produces. *)
Theorem session_serial s :
  reached s ->
  (usable s = true ->
   is_Some (process s) /\ protocol_sender s = true /\
   (is_Some (pending_request (requests s)) <-> is_Some (stream s))) /\
  (usable s = false -> process s = None) /\
  forall o, operation_ok o ->
    (run o s).1 <> Err Panicked /\ reached (run o s).2 /\
    (usable s = false ->
     usable (run o s).2 = false /\
     (requests_worker o = true -> run o s = (Err (Returned SessionUnusable), s))).
Proof.
  intros Hs. pose proof (reached_invariant s Hs) as [Hb Hser]. split; [|split].
  - intros Hu. destruct (base_process _ _ Hb Hu). auto.
  - intros Hu. by apply (base_released _ _ Hb).
  - intros o Ho. split; [by apply triple_run; [|apply reached_invariant]|].
    split; [by apply reached_run|]. intros Hu. split; [by apply run_unusable|].
    by apply run_request_unusable.
Qed.

(** C19: a session survives an operation exactly when the worker can still be
    trusted.  After an operation that exchanges one request for one response, a
    usable session is still usable if and only if the operation succeeded, was
    refused before anything was sent (role, capability, pending request), or
    ended with a failure that the worker itself reported, which a reset does not
    survive.  Every timeout, transport, framing, correlation or shape error
    discards the worker. *)
Theorem session_survival o s :
  reached s -> usable s = true -> one_shot o = true -> operation_ok o ->
  usable (run o s).2 =
    match (run o s).1 with
    | Ok _ => true
    | Err (Returned e) => survives o e
    | Err Panicked => false
    end.
Proof.
  intros Hs Hu Ho Hok. pose proof (one_shot_settles o Ho s Hu) as Hset.
  destruct (triple_run o s Hok (reached_invariant s Hs)) as [Hne _].
  destruct (run o s) as [[u|[e|]] s']; cbn in *; done.
Qed.

(** [reset] fails on a session with an active stream without discarding it. *)
Lemma reset_during_stream s x :
  reached s -> usable s = true -> role s = Implementation -> is_Some (stream s) ->
  exists id, reset x s = (Err (Returned (RequestFailed PhaseReset (RequestAlreadyPending id))), s).
Proof.
  intros Hs Hu Hr Hst. apply reached_invariant in Hs as [_ Hser]. apply (Hser Hu) in Hst as [id Hp].
  exists id. unfold reset.
  assert (require_role PhaseReset Implementation s = (Ok tt, s)) as Hrole.
  { unfold require_role, ensure_usable, mbind, session_bind, gets, require. rewrite Hu. cbn. by rewrite Hr. }
  unfold mbind at 1, session_bind at 1. rewrite Hrole. apply bind_fails.
  unfold begin_request, ensure_usable, mbind, session_bind, gets, require. rewrite Hu. cbn.
  unfold Tracker.begin_request. by rewrite Hp.
Qed.
End Runs.

(** ** A session *)

Definition sample_worker : string :=
  RESOLVED_WORKER_PREFIX +:+ "00112233445566778899aabbccddeeff00112233445566778899aabbccddeeff".
Definition sample_timeouts : PhaseTimeouts := {|
  t_hello := 10; t_materialize := 10; t_prepare := 10; t_execute := 10; t_reset := 10;
  t_evaluate := 10; t_shutdown := 10 |}.
Definition replying (r : Received) : Exchange := {|
  private_before := true; started := 0; encoded_after := 0; sent := true; received := r;
  finalize _ _ := Err "no managed output"; finalized_after := 1; decoded_after := 1;
  private_after := true |}.
Definition streaming_reply (v : value) : StreamExchange := {|
  sx_private_before := true; sx_started := 0; sx_sent := true; sx_received := Frame v;
  sx_snapshot _ _ _ := Err "no draft"; sx_finalize _ _ := Err "no draft"; sx_finalized_after := 1;
  sx_reference _ := Err "no draft"; sx_after := 1; sx_private_after := true |}.
Definition sample_hello : Exchange :=
  replying (Frame (message_value
    (HelloResponse.new "0" sample_worker None [OneShot; StreamingProfile]))).
Definition sample_connect : result (failure WorkerSessionError) WorkerSession :=
  connect_with_deadline (H := model) {| private_working_directory := true |} [bytes_of "hunter2"]
    Implementation sample_worker [OneShot; StreamingProfile] sample_timeouts None sample_hello.
Definition sample_session : WorkerSession :=
  match sample_connect with
  | Ok s => s
  | Err _ => released {| problem_dir := None; stream := None; redactor := []; role := Implementation;
      negotiated_session := None; requests := Tracker.new; timeouts := sample_timeouts;
      scientific_deadline := None; process := None; protocol_sender := false; usable := false |}
  end.

(** A decidable form of [utf8_value]. *)
Fixpoint utf8_check (v : value) : bool :=
  match v with
  | Str s => bool_decide (utf8_error 0 (bytes_of s) = None)
  | Array l => forallb utf8_check l
  | Object m => forallb (fun kv => bool_decide (utf8_error 0 (bytes_of kv.1) = None) && utf8_check kv.2) m
  | _ => true
  end.
Lemma utf8_check_value v : utf8_check v = true -> utf8_value v.
Proof.
  induction v as [| | |s|l IH|m IH] using value_ind'; intros Hv; try done.
  - cbn in Hv. bools. by apply utf8_literal.
  - apply utf8_value_array. cbn in Hv. rewrite forallb_forall in Hv. rewrite Forall_forall in *.
    intros v Hin. apply IH; [done|]. apply Hv. by apply list_elem_of_In.
  - apply utf8_value_object. cbn in Hv. rewrite forallb_forall in Hv. rewrite Forall_forall in *.
    intros kv Hin. specialize (Hv kv (proj1 (list_elem_of_In _ _) Hin)). bools.
    split; [by apply utf8_literal|by apply IH].
Qed.
Lemma replying_ok r : match r with Frame v => utf8_check v = true | _ => True end -> exchange_ok (replying r).
Proof.
  intros Hr. constructor; cbn; [destruct r; cbn; auto using utf8_check_value|].
  intros _ _ e [= <-]. by apply utf8_literal.
Qed.
Lemma streaming_reply_ok v : utf8_check v = true -> stream_exchange_ok (streaming_reply v).
Proof.
  intros Hv. constructor; cbn; try done; [by apply utf8_check_value|..]; intros; simplify_eq;
    by apply utf8_literal.
Qed.

Lemma sample_reached : reached (H := model) sample_session.
Proof.
  apply (reached_connect (H := model)) with
    (p := {| private_working_directory := true |}) (secrets := [bytes_of "hunter2"])
    (r := Implementation) (worker_id := sample_worker) (plan := [OneShot; StreamingProfile])
    (phases := sample_timeouts) (deadline := None) (x := sample_hello).
  - constructor; [|constructor]. split; [done|]. by apply (utf8_error_utf8 0).
  - apply replying_ok. vm_compute. reflexivity.
  - vm_compute. reflexivity.
Qed.

Lemma session_serial_witness :
  let s := sample_session in
  usable s = true /\ is_Some (process s) /\
  reached (H := model) (run (H := model) (Execute "out" None (replying EndOfStream)) s).2.
Proof.
  cbv zeta. pose proof (@session_serial model sample_session sample_reached) as (H1 & _ & H2).
  assert (usable sample_session = true) as Hu by (vm_compute; reflexivity).
  split; [exact Hu|]. split; [apply (H1 Hu)|].
  apply (H2 (Execute "out" None (replying EndOfStream)) (replying_ok EndOfStream Logic.I)).
Defined.

(** The worker reports a failure: the session survives; it closes the pipe: the
    session is discarded. *)
Definition sample_failure : value :=
  message_value {| WorkerFailureResponse.id := "1";
    WorkerFailureResponse.error := {| WorkerFailure.code := OperationFailed;
      WorkerFailure.message := "bad seed hunter2"; WorkerFailure.details := None |} |}.
Lemma session_survival_witness :
  let execute r := run (H := model) (Execute "out" None (replying r)) sample_session in
  usable (execute (Frame sample_failure)).2 = true /\ usable (execute EndOfStream).2 = false.
Proof.
  cbv zeta. assert (usable sample_session = true) as Hu by (vm_compute; reflexivity).
  split.
  - rewrite (@session_survival model (Execute "out" None (replying (Frame sample_failure)))
      sample_session sample_reached Hu eq_refl (replying_ok (Frame sample_failure) ltac:(vm_compute; reflexivity))).
    vm_compute. reflexivity.
  - rewrite (@session_survival model (Execute "out" None (replying EndOfStream))
      sample_session sample_reached Hu eq_refl (replying_ok EndOfStream Logic.I)).
    vm_compute. reflexivity.
Defined.

Definition sample_profile : value :=
  Object [("policy", Object [("max-checkpoint-bytes", json_u64 4096); ("max-observations", json_u64 3)])].
Definition sample_checkpoint (n : Z) : value :=
  message_value (StreamCheckpoint.new "1" n (10 * n) [("iterations", n)] false
    ("checkpoints/" +:+ Tracker.id_string n +:+ "/result.json")).
Definition sample_finish : value :=
  message_value {| ExecuteStreamResponse.id := "1"; ExecuteStreamResponse.checkpoint_count := 2 |}.

Lemma stream_checkpoints_numbered_witness :
  let l := [(Continue, None, streaming_reply (sample_checkpoint 1));
            (Stop, Some "target_reached", streaming_reply sample_finish)] in
  match run_stream (H := model) "root" sample_profile (streaming_reply (sample_checkpoint 0)) l sample_session with
  | (Ok steps, s') => length steps = 3%nat /\ exists id, numbered id 3 0 steps
  | (Err _, _) => False
  end.
Proof.
  cbv zeta.
  destruct (run_stream "root" sample_profile (streaming_reply (sample_checkpoint 0)) _ sample_session)
    as [[steps|e] s'] eqn:E; [|vm_compute in E; discriminate].
  split.
  - vm_compute in E. injection E as <- _. reflexivity.
  - refine (@stream_checkpoints_numbered model sample_session "root" sample_profile
      (streaming_reply (sample_checkpoint 0)) _ steps s' sample_reached _ _ E).
    + apply streaming_reply_ok. vm_compute. reflexivity.
    + constructor; [|constructor; [|constructor]]; apply streaming_reply_ok; vm_compute; reflexivity.
Defined.
