(* ===== verification/Lockstep.v ===== *)
(** * The two ends of a stream agree

    A worker that publishes through [StreamingContext] and the session of the
    orchestrator keep the same count of checkpoints: what the context publishes
    passes every check of the session, the decision the session sends passes
    every check of the context, and the terminal response closes the stream. *)
From S2P Require Import Prelude Json Canonical Identity ThirdPartyModel Manifest Profile Framing Redaction Wire Messages Handshake Session Streaming Sessions.
From stdpp Require Import pretty.
From Stdlib Require Import Ascii.

(** ** Paths of checkpoints *)

Definition bad_part (part : bytes) : bool :=
  bool_decide (part = []) || bool_decide (part = bytes_of ".") || bool_decide (part = bytes_of "..").

Lemma validate_relative_path_spec s :
  validate_relative_path s = Ok s <->
  last (bytes_of s) <> Some "/"%char /\ "\"%char ∉ bytes_of s /\
  is_windows_drive_path (bytes_of s) = false /\
  existsb bad_part (split_slash (bytes_of s)) = false.
Proof.
  unfold validate_relative_path. set (b := bytes_of s). clearbody b.
  change (existsb _ (split_slash b)) with (existsb bad_part (split_slash b)). split.
  - destruct (_ || existsb bad_part _) eqn:Hi; [done|]. intros _. bools. auto.
  - intros (Hl & Hb & Hw & Hp). rewrite Hw, Hp.
    assert (b <> []) as Hne by (by intros ->).
    assert (head b <> Some "/"%char) as Hh.
    { destruct b as [|c b]; [done|]. intros [= ->]. done. }
    rewrite !bool_decide_eq_false_2 by done. done.
Qed.

Lemma split_slash_app a b : split_slash (a ++ "/"%char :: b) = split_slash a ++ split_slash b.
Proof.
  induction a as [|c a IH]; [done|]. cbn [app split_slash]. rewrite IH.
  destruct (Ascii.eqb c "/"); [done|]. destruct (split_slash a) eqn:Ha; [|done].
  exfalso. destruct a as [|d a]; [done|]. cbn in Ha. destruct (Ascii.eqb d "/"); [done|].
  by destruct (split_slash a).
Qed.
Lemma split_slash_none a : "/"%char ∉ a -> split_slash a = [a].
Proof.
  induction a as [|c a IH]; [done|]. intros Hn. cbn. destruct (Ascii.eqb_spec c "/") as [->|]; [set_solver|].
  rewrite IH by set_solver. done.
Qed.

Definition digit_char (c : ascii) : Prop := is_ascii_digit c = true.
Lemma pretty_N_char_digit m : (m < 10)%N -> digit_char (pretty_N_char m).
Proof.
  intros Hm. unfold digit_char.
  assert (m = 0 \/ m = 1 \/ m = 2 \/ m = 3 \/ m = 4 \/ m = 5 \/ m = 6 \/ m = 7 \/ m = 8 \/ m = 9)%N
    as H by lia.
  by repeat destruct H as [->|H]; subst.
Qed.
Lemma pretty_N_go_digits n s :
  Forall digit_char (bytes_of s) -> Forall digit_char (bytes_of (pretty_N_go n s)).
Proof.
  revert s. induction (N.lt_wf_0 n) as [n _ IH]. intros s Hs.
  destruct (decide (n = 0%N)) as [->|Hn]; [by rewrite pretty_N_go_0|].
  rewrite pretty_N_go_step by lia. apply IH; [apply N.div_lt; lia|]. constructor; [|done].
  apply pretty_N_char_digit, N.mod_lt. lia.
Qed.
Lemma id_string_digits n : Forall digit_char (bytes_of (Tracker.id_string n)).
Proof.
  unfold Tracker.id_string, pretty, pretty_N. case_decide; [by repeat constructor|].
  by apply pretty_N_go_digits.
Qed.
Lemma pretty_N_go_nonempty n s : n <> 0%N \/ s <> "" -> pretty_N_go n s <> "".
Proof.
  revert s. induction (N.lt_wf_0 n) as [n _ IH]. intros s Hs.
  destruct (decide (n = 0%N)) as [->|Hn]; [rewrite pretty_N_go_0; by destruct Hs|].
  rewrite pretty_N_go_step by lia. apply IH; [apply N.div_lt; lia|by right].
Qed.
Lemma id_string_nonempty n : Tracker.id_string n <> "".
Proof.
  unfold Tracker.id_string, pretty, pretty_N. case_decide; [done|].
  apply pretty_N_go_nonempty. by left.
Qed.

Lemma bytes_of_nonempty s : s <> "" -> bytes_of s <> [].
Proof. by destruct s. Qed.

Lemma not_digit c s : is_ascii_digit c = false -> Forall digit_char s -> c ∉ s.
Proof.
  intros Hc Hs Hin. rewrite Forall_forall in Hs. apply Hs in Hin. unfold digit_char in Hin. congruence.
Qed.
Lemma digits_good n : bad_part (bytes_of (Tracker.id_string n)) = false.
Proof.
  pose proof (id_string_digits n) as Hd. pose proof (bytes_of_nonempty _ (id_string_nonempty n)) as Hne.
  unfold bad_part. rewrite !bool_decide_eq_false_2; [done|..]; [| |done];
    intros E; rewrite E in Hd; repeat (apply Forall_cons in Hd as [? Hd]; try done).
Qed.

(** The path of a snapshot is a valid relative path if its manifest's is. *)
Lemma reference_bytes n manifest r :
  Context.reference n manifest = Ok r ->
  bytes_of r = bytes_of "checkpoints" ++ "/"%char :: bytes_of (Tracker.id_string n) ++
    "/"%char :: bytes_of manifest.
Proof.
  unfold Context.reference. case_bool_decide; [done|]. intros E.
  assert (r = "checkpoints/" +:+ Tracker.id_string n +:+ "/" +:+ manifest) as -> by congruence.
  by rewrite !bytes_of_app.
Qed.
Lemma reference_valid n manifest r :
  validate_relative_path manifest = Ok manifest -> Context.reference n manifest = Ok r ->
  validate_relative_path r = Ok r /\ r <> "".
Proof.
  intros (Hl & Hb & Hw & Hp)%validate_relative_path_spec Hr%reference_bytes.
  split; [|by intros ->]. apply validate_relative_path_spec.
  pose proof (id_string_digits n) as Hd. pose proof (digits_good n) as Hg. rewrite Hr.
  revert Hd Hg Hl Hb Hp. generalize (bytes_of manifest) as m, (bytes_of (Tracker.id_string n)) as d.
  intros m d Hd Hg Hl Hb Hp. clear Hr Hw.
  assert (m <> []) as Hm by (intros ->; done).
  split; [|split; [|split]].
  - rewrite last_app, last_cons, last_app, last_cons. destruct (last m) eqn:E; [done|].
    by apply last_None in E.
  - rewrite !elem_of_app, !elem_of_cons, !elem_of_app, !elem_of_cons.
    intros [Hc|[?|[Hc|[?|?]]]]; try done.
    + revert Hc. apply (bool_decide_unpack _). vm_compute. exact Logic.I.
    + revert Hc. by apply not_digit.
  - done.
  - rewrite split_slash_app, split_slash_app, (split_slash_none d) by (by apply not_digit).
    rewrite !existsb_app, Hp. cbn [existsb]. by rewrite Hg.
Qed.

(** ** What the worker publishes *)

(** A progress report of the implementation: a [u64] and a map of [u64]s. *)
Definition progress_wf (p : Progress) : Prop :=
  (0 <= check_index p)%Z /\ Forall (fun kv => 0 <= kv.2)%Z (work p) /\ map_collect (work p) = work p.

Record publishing (c : StreamingContext) : Prop := {
  pb_id : cx_id c <> "";
  pb_count : (0 <= cx_count c <= max_observations (sp_policy (cx_profile c)))%Z;
  pb_bound : (max_observations (sp_policy (cx_profile c)) <= MAX_SAFE_INTEGER)%Z;
}.

Lemma prepare_checkpoint_Some c p terminal cap cp :
  Context.prepare_checkpoint c p terminal cap = Ok (Some cp) ->
  cx_stopped c = None /\ (check_index p <= MAX_SAFE_INTEGER)%Z /\
  StreamCheckpoint.safe_work (work p) = true /\
  (cx_count c < max_observations (sp_policy (cx_profile c)))%Z /\
  exists r, cp = StreamCheckpoint.new (cx_id c) (cx_count c) (check_index p) (work p) terminal r /\
    validate_relative_path r = Ok r /\ r <> "".
Proof.
  unfold Context.prepare_checkpoint. destruct (cx_stopped c); [done|].
  unfold Context.progress_rejected. destruct (_ || _ || _) eqn:Hp; [done|].
  destruct (_ && _); [done|]. destruct (_ <=? _)%Z eqn:Hc; [done|]. bools.
  intros (u & _ & (w & _ & (m & Hm & (r & Hr & (u' & _ & [= <-])%bind_Ok)%bind_Ok)%bind_Ok)%bind_Ok)%bind_Ok.
  apply validate_relative_path_Ok in Hm as Heq. subst w. destruct (reference_valid _ _ _ Hm Hr).
  repeat split; auto. by exists r.
Qed.

Lemma published_valid c p terminal cap cp :
  publishing c -> progress_wf p -> Context.prepare_checkpoint c p terminal cap = Ok (Some cp) ->
  valid_message cp = true.
Proof.
  intros [Hid Hn Hb] (Hi & Hw & Hm) (_ & Hmax & Hs & Hc & r & -> & _ & Hr)%prepare_checkpoint_Some.
  unfold valid_message. cbn. fold (map_collect (work p)). unfold RequestId.from_str.
  change (StreamCheckpoint.try_from _) with (negb (negb (StreamCheckpoint.safe_work (work p)))).
  rewrite Hs, !andb_true_iff. cbn.
  repeat split; try (apply Z.leb_le; lia).
  - by destruct (cx_id c).
  - rewrite Forall_forall in Hw. apply forallb_forall. intros kv Hin. apply andb_true_intro.
    assert ((kv.2 <=? MAX_SAFE_INTEGER)%Z = true) as Hle.
    { unfold StreamCheckpoint.safe_work in Hs. rewrite forallb_forall in Hs. by apply Hs. }
    apply list_elem_of_In, Hw in Hin. apply Z.leb_le in Hle.
    unfold MAX_SAFE_INTEGER, u64_max in *. split; apply Z.leb_le; lia.
  - by apply bool_decide_eq_true.
  - by destruct r.
Qed.
Lemma checkpoint_event (cp : StreamCheckpoint.t) :
  get_field "event" (message_value cp) = Some (Str "checkpoint").
Proof. destruct cp as [? ? ? ? ? [] []]; reflexivity. Qed.
Lemma response_event (r : ExecuteStreamResponse.t) : get_field "event" (message_value r) = None.
Proof. by destruct r. Qed.

(** ** The session beside the context *)

(** The session has counted [n] checkpoints of the stream that [c] publishes. *)
Record beside (n : Z) (awaiting : bool) (c : StreamingContext) (s : WorkerSession) : Prop := {
  bs_usable : usable s = true;
  bs_sender : protocol_sender s = true;
  bs_pending : pending_request (requests s) = Some (cx_id c);
  bs_stream : exists root bytes, stream s = Some {|
    st_root := root; st_bound := max_observations (sp_policy (cx_profile c)); st_bytes := bytes;
    st_count := n; st_awaiting := awaiting;
    st_stopped := bool_decide (is_Some (cx_stopped c)) |};
}.

(** *** What any frame can do *)

Record same_limits (s s' : WorkerSession) : Prop := {
  sl_timeouts : timeouts s' = timeouts s;
  sl_deadline : scientific_deadline s' = scientific_deadline s;
  sl_redactor : redactor s' = redactor s;
}.
Lemma same_limits_trans s1 s2 s3 : same_limits s1 s2 -> same_limits s2 s3 -> same_limits s1 s3.
Proof. intros [] []. constructor; congruence. Qed.

(** The session after the terminal response. *)
Record closed (s : WorkerSession) : Prop := {
  cl_usable : usable s = true;
  cl_stream : stream s = None;
  cl_pending : pending_request (requests s) = None;
}.

Lemma verify_controls_cases private s :
  verify_controls private s = (Ok tt, s) \/
  private = false /\ verify_controls private s =
    (Err (Returned (ControlEnforcementLost "private_working_directory")), discarded s).
Proof.
  unfold verify_controls, mbind, session_bind, gets.
  destruct (match process s with Some p => private_working_directory p | None => false end), private;
    [by left|by right|by left..].
Qed.

Ltac checkpoint_field E :=
  match goal with
  | |- context [(map_get ?k ?m ≫= dec ?c) ≫= _] => destruct (map_get k m ≫= dec c) as [?|] eqn:E
  end; cbn [mbind option_bind fmap option_fmap option_map]; [|done].

(** The identity of a decoded checkpoint is read from its keys. *)
Lemma decoded_keys m c :
  decode_message StreamCheckpoint.t (Object m) = Ok c ->
  map_get "id" m ≫= dec request_id = Some (StreamCheckpoint.id c) /\
  map_get "sequence" m ≫= dec safe_u64 = Some (StreamCheckpoint.sequence c).
Proof.
  rewrite decode_checkpoint. intros (_ & Hc & _). revert Hc. unfold checkpoint_fields.
  cbn [from_object StreamCheckpoint.wire_fields].
  checkpoint_field E1. checkpoint_field E2. checkpoint_field E3.
  checkpoint_field E4. checkpoint_field E5. checkpoint_field E6.
  destruct (match map_get "manifest" m with Some v => _ | None => _ end) as [mo|]; [|done].
  cbn [mbind option_bind fmap option_fmap option_map].
  destruct (match map_get "draft" m with Some v => _ | None => _ end) as [dr|]; [|done].
  cbn [mbind option_bind fmap option_fmap option_map]. intros Hc. injection Hc as Hc. by rewrite <-Hc.
Qed.

Lemma gets_Ok {A} (f : WorkerSession -> A) s a s' : gets f s = (Ok a, s') -> a = f s /\ s' = s.
Proof. by intros [= <- <-]. Qed.
Lemma unwrap_Ok {A} (o : option A) s a s' : unwrap o s = (Ok a, s') -> o = Some a /\ s' = s.
Proof. destruct o; [|done]. by intros [= <- <-]. Qed.
Lemma stream_error_fails {A} message s (a : A) s' : stream_error message s <> (Ok a, s').
Proof.
  intros E. apply bind_session_Ok in E as (u & s1 & _ & E).
  apply bind_session_Ok in E as (r & s2 & _ & E). by apply bind_session_Ok in E as (t & s3 & _ & ?).
Qed.

Lemma receive_draft_Ok st c draft limit e x v s v' s' :
  receive_draft st c draft limit e x v s = (Ok v', s') ->
  s' = s /\ exists manifest, v' = with_manifest v manifest.
Proof.
  unfold receive_draft. intros (managed & s1 & Hsel & E)%bind_session_Ok.
  assert (s1 = s) as ->.
  { apply bind_session_Ok in Hsel as (n & s2 & Hn & [= _ <-]).
    by apply bind_session_Ok in Hn as (o & s3 & [-> ->]%gets_Ok & [_ ->]%unwrap_Ok). }
  destruct managed; cbn [negb] in E; [|by apply stream_error_fails in E].
  destruct (sx_snapshot _ _ _ _) as [[directory name]|err]; [|by apply stream_error_fails in E].
  destruct (sx_finalize _ _ _).
  - destruct (sx_reference x draft) as [manifest|err]; [|done].
    cbn in E. injection E as <- <-. split; [done|]. by exists manifest.
  - destruct (_ <=? _)%Z; [done|]. by apply stream_error_fails in E.
Qed.

(** The checkpoint handed on has the identity the session waited for, even when
    its frame was rewritten. *)
Lemma receive_checkpoint_Ok limit e x m s msg st id s' :
  stream s = Some st -> pending_request (requests s) = Some id ->
  receive_checkpoint limit e x (Object m) s = (Ok msg, s') ->
  exists cp, msg = Checkpoint cp /\ StreamCheckpoint.id cp = id /\
    StreamCheckpoint.sequence cp = st_count st /\ st_stopped st = false /\
    s' = set_stream (Some (counted st)) s.
Proof.
  intros Hst Hp. unfold receive_checkpoint.
  destruct (decode_message StreamCheckpoint.t (Object m)) as [c|err] eqn:Hdec;
    [|by intros E%stream_error_fails].
  intros (so & s1 & [-> ->]%gets_Ok & E)%bind_session_Ok.
  apply bind_session_Ok in E as (st' & s1 & [Hst' ->]%unwrap_Ok & E). rewrite Hst in Hst'. injection Hst' as <-.
  apply bind_session_Ok in E as (t & s1 & [-> ->]%gets_Ok & E).
  apply bind_session_Ok in E as (valid & s1 & Hvalid & E).
  destruct valid; cbn [negb] in E; [|by apply stream_error_fails in E].
  destruct (st_stopped st) eqn:Hstop; [done|].
  apply bind_session_Ok in Hvalid as (pending & s2 & [Hp' ->]%unwrap_Ok & Hv).
  rewrite Hp in Hp'. injection Hp' as <-. cbn in Hv. injection Hv as Hv <-.
  apply checkpoint_valid_spec in Hv as (Hid & Hseq & _).
  apply bind_session_Ok in E as (v' & s1 & Hdraft & E).
  assert (s1 = s /\ forall k, k <> "manifest" -> k <> "draft" ->
    exists m', v' = Object m' /\ map_get k m' = map_get k m) as [-> Hkeys].
  { destruct (StreamCheckpoint.draft c) as [d|]; [|cbn in Hdraft; injection Hdraft as <- <-; eauto].
    apply receive_draft_Ok in Hdraft as (-> & manifest & ->). split; [done|]. intros k Hm Hd.
    eexists. split; [reflexivity|]. rewrite map_get_insert_ne, remove_key_get by done.
    by destruct (String.eqb_spec k "draft"). }
  destruct (Hkeys "id") as (m' & -> & Hi); [done..|].
  destruct (Hkeys "sequence") as (? & [= <-] & Hs); [done..|].
  apply bind_session_Ok in E as (c' & s2 & [Hc' ->]%unwrap_Ok & E).
  destruct (decode_message StreamCheckpoint.t (Object m')) as [c2|] eqn:Hdec'; [|done].
  injection Hc' as ->.
  apply decoded_keys in Hdec as [Hi1 Hs1]. apply decoded_keys in Hdec' as [Hi2 Hs2].
  rewrite Hi, Hi1 in Hi2. rewrite Hs, Hs1 in Hs2.
  apply bind_session_Ok in E as (manifest & s3 & [_ ->]%unwrap_Ok & E).
  destruct (validate_relative_path manifest); [|by apply stream_error_fails in E].
  destruct (_ <=? _)%Z; [done|]. cbn in E. injection E as <- <-. exists c'.
  unfold counted. rewrite Hstop. split_and!; congruence.
Qed.

Lemma response_id v id u r :
  from_struct false envelope_fields v = Some (id, u) ->
  decode_message ExecuteStreamResponse.t v = Ok r -> ExecuteStreamResponse.id r = id.
Proof.
  unfold decode_message. change (dec (message_codec ExecuteStreamResponse.t) v) with
    ((fun '(id, (_, (n, _))) => {| ExecuteStreamResponse.id := id; ExecuteStreamResponse.checkpoint_count := n |})
      <$> from_struct true ExecuteStreamResponse.wire_fields v).
  destruct v as [| | | |l|m]; cbn [from_struct andb]; try done.
  - unfold envelope_fields, ExecuteStreamResponse.wire_fields.
    destruct l as [|v1 [|v2 l]]; cbn [from_array]; [done|by destruct (dec request_id v1)|].
    destruct (dec request_id v1); [|done]. cbn [mbind option_bind fmap option_fmap option_map].
    destruct (dec bool_codec v2); [|done]. destruct l; [|done]. by destruct (dec success v2).
  - unfold envelope_fields, ExecuteStreamResponse.wire_fields. cbn [from_object].
    destruct (map_get "id" m ≫= dec request_id) as [i|] eqn:Hi; [|done].
    cbn [mbind option_bind fmap option_fmap option_map].
    destruct (_ ≫= fun a => _) as [w|]; [|done]. cbn [fmap option_fmap option_map].
    intros [= -> _]. destruct (negb _); [done|].
    destruct (_ ≫= fun a => _) as [w'|]; [|done]. cbn. destruct w' as [? [? ?]]. by intros [= <-].
Qed.

Lemma receive_response_Ok private v s msg st id s' :
  usable s = true -> stream s = Some st -> pending_request (requests s) = Some id ->
  receive_response private v s = (Ok msg, s') ->
  exists r, msg = Finished r /\ ExecuteStreamResponse.id r = id /\
    ExecuteStreamResponse.checkpoint_count r = st_count st /\ closed s' /\ same_limits s s'.
Proof.
  intros Hu Hst Hp. unfold receive_response. intros (t & s1 & [-> ->]%gets_Ok & E)%bind_session_Ok.
  destruct (decode_operation_response ExecuteStreamResponse.t v (requests s)) as [decoded t] eqn:Hd.
  apply bind_session_Ok in E as (u & s1 & [= <- <-] & E).
  apply bind_session_Ok in E as (so & s1 & [-> ->]%gets_Ok & E).
  apply bind_session_Ok in E as (st' & s1 & [Hst' ->]%unwrap_Ok & E). cbn in Hst'. rewrite Hst in Hst'.
  injection Hst' as <-. destruct decoded as [[response|failure]|source]; [|done..].
  destruct (Z.eqb_spec (ExecuteStreamResponse.checkpoint_count response) (st_count st)) as [Hc|];
    [|by apply stream_error_fails in E].
  apply bind_session_Ok in E as (u & s1 & Hctl & E).
  destruct (verify_controls_cases private (set_requests t s)) as [Hv|[_ Hv]]; rewrite Hv in Hctl; [|done].
  injection Hctl as _ <-. cbn in E. injection E as <- <-. exists response. split; [done|].
  revert Hd. unfold decode_operation_response. destruct (from_struct _ _ v) as [[i [ok w]]|] eqn:Henv; [|done].
  unfold Tracker.complete_response. rewrite Hp.
  destruct (String.eqb_spec id i) as [<-|]; cbn [negb]; [|done]. destruct ok.
  - destruct (decode_message ExecuteStreamResponse.t v) as [r|] eqn:Hr; [|done]. cbn.
    intros [= -> <-]. split; [by eapply response_id|]. by repeat split.
  - by destruct (decode_message WorkerFailureResponse.t v).
Qed.

(** The session beside a context after a frame it accepted, whatever the worker
    and the outside world did. *)
Lemma stream_frame_Ok stopping x n c s msg s' :
  beside n false c s -> stream_frame stopping x s = (Ok msg, s') ->
  same_limits s s' /\
  match msg with
  | Checkpoint cp => StreamCheckpoint.id cp = cx_id c /\ StreamCheckpoint.sequence cp = n /\
      beside (n + 1) true c s'
  | Finished r => ExecuteStreamResponse.id r = cx_id c /\
      ExecuteStreamResponse.checkpoint_count r = n /\ closed s'
  end.
Proof.
  intros [Hu Hpr Hpe (root & bytes & Hst)]. unfold stream_frame, ensure_usable.
  intros (u & s1 & Hs1 & E)%bind_session_Ok. unfold mbind, session_bind, gets, require in Hs1.
  rewrite Hu in Hs1. injection Hs1 as _ <-. apply bind_session_Ok in E as (u' & s1 & Hctl & E).
  destruct (verify_controls_cases (sx_private_before x) s) as [Hv|[_ Hv]]; rewrite Hv in Hctl; [|done].
  injection Hctl as _ <-. apply bind_session_Ok in E as (phases & s1 & [-> ->]%gets_Ok & E).
  apply bind_session_Ok in E as (deadline & s1 & [-> ->]%gets_Ok & E).
  destruct (exchange_limit _ _ _ _) as [limit e]. destruct (limit =? 0)%Z; [done|].
  apply bind_session_Ok in E as (v & s1 & Hawait & E).
  assert (s1 = s) as ->.
  { apply bind_session_Ok in Hawait as (o & s2 & [-> ->]%gets_Ok & Hawait). rewrite Hpr in Hawait.
    cbn [negb] in Hawait. destruct (sx_sent x); cbn [negb] in Hawait; [|done].
    destruct (sx_received x); try done. by injection Hawait. }
  apply bind_session_Ok in E as (r & s1 & [-> ->]%gets_Ok & E).
  apply bind_session_Ok in E as (v' & s1 & Hred & E).
  destruct (Redactor.value (redactor s) v) as [w|]; [|done]. injection Hred as -> <-.
  destruct (get_field "event" v') as [ev|] eqn:Hev.
  - apply get_field_object in Hev as [m ->].
    apply (receive_checkpoint_Ok _ _ _ _ _ _ _ _ _ Hst Hpe) in E as (cp & -> & Hid & Hseq & Hstop & ->).
    split; [by constructor|]. split; [done|]. split; [done|]. constructor; try done.
    exists root, bytes. cbn. by cbn in Hstop.
  - apply (receive_response_Ok _ _ _ _ _ _ _ Hu Hst Hpe) in E as (r & -> & Hid & Hc & Hcl & Hl). done.
Qed.

(** *** What the frames of the context can meet *)

(** The exchange of one frame in time, on a session that nothing disturbs. *)
Definition in_time (s : WorkerSession) (x : StreamExchange) : Prop :=
  sx_private_before x = true /\ sx_private_after x = true /\ sx_sent x = true /\
  forall stopping : bool,
    let limit := (exchange_limit PhaseExecute
      (if stopping then t_shutdown (timeouts s) else t_execute (timeouts s))
      (if stopping then None else scientific_deadline s) (sx_started x)).1 in
    (0 <= sx_after x < limit)%Z.

(** Redaction changes the frame, as it holds a secret of the session. *)
Definition altered (s : WorkerSession) (frame : value) : Prop :=
  Redactor.value (redactor s) frame <> Ok frame.
#[export] Instance altered_dec s frame : Decision (altered s frame).
Proof.
  unfold altered. destruct (Redactor.value (redactor s) frame) as [v|e]; [|by left].
  destruct (decide (v = frame)) as [->|Hne]; [right; tauto|left; congruence].
Defined.

(** The errors that tell of the world and not of the protocol. *)
Inductive disturbance : WorkerSessionError -> Prop :=
  | lost_control control : disturbance (ControlEnforcementLost control)
  | thread_stopped : disturbance (ProtocolThreadStopped PhaseExecute)
  | deadline_passed : disturbance (ScientificTimeout PhaseExecute)
  | timed_out limit : disturbance (TimeoutExpired PhaseExecute limit).

Definition disturbed {A} (s : WorkerSession) (x : StreamExchange)
    (res : result (failure WorkerSessionError) A * WorkerSession) : Prop :=
  exists e s', res = (Err (Returned e), s') /\ disturbance e /\ usable s' = false /\ ~ in_time s x.

Lemma exchange_limit_disturbance timeout deadline now :
  disturbance (exchange_limit PhaseExecute timeout deadline now).2.
Proof. unfold exchange_limit. cbn. destruct (match _ with Some _ => _ | None => _ end); constructor. Qed.

(** An unaltered frame reaches the branch for its kind, unless the session is
    disturbed. *)
Lemma stream_frame_reaches stopping x s v :
  usable s = true -> protocol_sender s = true -> sx_received x = Frame v -> ~ altered s v ->
  disturbed s x (stream_frame stopping x s) \/
  exists limit e, disturbance e /\ ((limit <= sx_after x)%Z -> ~ in_time s x) /\
    stream_frame stopping x s =
      match get_field "event" v with
      | None => receive_response (sx_private_after x) v s
      | Some _ => receive_checkpoint limit e x v s
      end.
Proof.
  intros Hu Hp Hx Hclean.
  assert (Redactor.value (redactor s) v = Ok v) as Hred.
  { unfold altered in Hclean. destruct (Redactor.value (redactor s) v) as [w|e]; [|by destruct Hclean].
    destruct (decide (w = v)) as [->|Hne]; [done|]. destruct Hclean. congruence. }
  unfold stream_frame, ensure_usable, disturbed. unfold mbind, session_bind, gets, require. rewrite Hu.
  cbn [mret session_ret].
  destruct (verify_controls_cases (sx_private_before x) s) as [-> | [Hb ->]].
  2:{ left. do 2 eexists. split; [reflexivity|]. split; [constructor|]. split; [by apply discarded_unusable|].
      intros (? & _). congruence. }
  pose proof (exchange_limit_disturbance (if stopping then t_shutdown (timeouts s) else t_execute (timeouts s))
    (if stopping then None else scientific_deadline s) (sx_started x)) as He.
  assert (((exchange_limit PhaseExecute (if stopping then t_shutdown (timeouts s) else t_execute (timeouts s))
    (if stopping then None else scientific_deadline s) (sx_started x)).1 <= sx_after x)%Z -> ~ in_time s x) as Hlate.
  { intros Hle (_ & _ & _ & Ht). specialize (Ht stopping). cbv zeta in Ht. lia. }
  assert ((exchange_limit PhaseExecute (if stopping then t_shutdown (timeouts s) else t_execute (timeouts s))
    (if stopping then None else scientific_deadline s) (sx_started x)).1 = 0%Z -> ~ in_time s x) as Hzero.
  { intros Hz (_ & _ & _ & Ht). specialize (Ht stopping). cbv zeta in Ht. lia. }
  destruct (exchange_limit _ _ _ _) as [limit e]. cbn [fst snd] in He, Hlate, Hzero.
  destruct (Z.eqb_spec limit 0) as [->|_].
  { left. do 2 eexists. split; [reflexivity|]. split; [done|]. split; [by apply discarded_unusable|]. by apply Hzero. }
  unfold await_reply. unfold mbind, session_bind, gets. rewrite Hp. cbn [negb].
  destruct (sx_sent x) eqn:Hsent; cbn [negb].
  2:{ left. do 2 eexists. split; [reflexivity|]. split; [constructor|]. split; [by apply discarded_unusable|].
      intros (_ & _ & ? & _). congruence. }
  right. exists limit, e. split; [done|]. split; [done|]. rewrite Hx. cbn [mret session_ret].
  rewrite Hred. cbn [panicking_in mret session_ret]. by destruct (get_field "event" v).
Qed.

(** A published checkpoint passes every check of the session. *)
Lemma publish_received c p terminal cap cp stopping x s :
  publishing c -> progress_wf p -> beside (cx_count c) false c s ->
  Context.prepare_checkpoint c p terminal cap = Ok (Some cp) ->
  sx_received x = Frame (message_value cp) -> ~ altered s (message_value cp) ->
  disturbed s x (stream_frame stopping x s) \/
  exists s', stream_frame stopping x s = (Ok (Checkpoint cp), s').
Proof.
  intros Hc Hp [Hu Hpr Hpe (root & bytes & Hst)] Hprep Hx Hclean.
  destruct (stream_frame_reaches stopping x s _ Hu Hpr Hx Hclean) as [?|(limit & e & He & Hlate & ->)]; [by left|].
  rewrite checkpoint_event. pose proof (published_valid _ _ _ _ _ Hc Hp Hprep) as Hv.
  apply prepare_checkpoint_Some in Hprep as (Hstop & _ & Hs & Hn & r & -> & Hpath & _).
  unfold receive_checkpoint. rewrite decode_message_value by done.
  unfold mbind, session_bind, gets. rewrite Hst. cbn [unwrap mret session_ret st_stopped].
  rewrite Hstop, bool_decide_eq_false_2 by (by intros []). rewrite Hpe. cbn [unwrap mret session_ret].
  assert (checkpoint_valid {| st_root := root; st_bound := max_observations (sp_policy (cx_profile c));
    st_bytes := bytes; st_count := cx_count c; st_awaiting := false; st_stopped := false |} (cx_id c)
    (StreamCheckpoint.new (cx_id c) (cx_count c) (check_index p) (work p) terminal r) = true) as ->.
  { unfold checkpoint_valid. cbn -[StreamCheckpoint.safe_work]. rewrite String.eqb_refl, Z.eqb_refl, Hs.
    by rewrite (proj2 (Z.ltb_lt _ _)) by lia. }
  cbn [negb StreamCheckpoint.draft StreamCheckpoint.new mret session_ret].
  rewrite decode_message_value by done. cbn [unwrap mret session_ret StreamCheckpoint.manifest StreamCheckpoint.new].
  rewrite Hpath. destruct (Z.leb_spec limit (sx_after x)) as [Hle|_]; [left|right; by eexists].
  do 2 eexists. split; [reflexivity|]. split; [done|]. split; [by apply discarded_unusable|]. by apply Hlate.
Qed.

(** What the orchestrator may answer to a checkpoint. *)
Definition decision_ok (terminal : bool) (action : StreamAction) (reason : option string) : Prop :=
  match action with
  | Continue => terminal = false /\ reason = None
  | Stop => is_Some (stop_reason_of reason)
  end.

Definition counting (c : StreamingContext) (i : Z) (stopped : option StopReason) : StreamingContext :=
  {| cx_profile := cx_profile c; cx_id := cx_id c; cx_count := cx_count c + 1; cx_last := Some i;
     cx_stopped := stopped |}.

(** A decision passes every check of the context, and the session then waits for
    the next frame of the context's next state. *)
Lemma decision_applied `{ThirdParty} c p terminal action reason s :
  let d := StreamDecision.new (cx_id c) (cx_count c) action reason in
  (0 <= cx_count c)%Z -> cx_stopped c = None -> beside (cx_count c + 1) true c s ->
  decision_ok terminal action reason -> is_ok (encode_message d) = true ->
  exists decision stopped s',
    Context.apply_decision c p terminal d = (Ok decision, counting c (check_index p) stopped) /\
    (is_Some stopped <-> action = Stop) /\
    (forall x, decide_stream action reason x s = stream_frame (bool_decide (action = Stop)) x s') /\
    beside (cx_count c + 1) false (counting c (check_index p) stopped) s' /\
    same_limits s s'.
Proof.
  intros d Hn Hstop [Hu Hpr Hpe (root & bytes & Hst)] Hd Henc.
  assert (exists decision stopped, Context.apply_decision c p terminal d =
      (Ok decision, counting c (check_index p) stopped) /\ (is_Some stopped <-> action = Stop))
    as (decision & stopped & Ha & Hs).
  { unfold Context.apply_decision. cbn. rewrite String.eqb_refl, Z.eqb_refl. cbn [negb orb].
    destruct action; cbn in Hd.
    - destruct Hd as [-> ->]. cbn. exists KeepGoing, None. rewrite Hstop. split; [done|]. by split; [intros []|].
    - rewrite bool_decide_eq_true_2, andb_false_r by done. destruct Hd as [r Hr']. rewrite Hr'.
      exists (StopBecause r), (Some r). by split. }
  eexists decision, stopped, _. split; [done|]. split; [done|]. split.
  - intros x. unfold decide_stream. unfold mbind at 1, session_bind at 1, gets at 1. rewrite Hst.
    cbn [st_awaiting st_stopped]. rewrite Hstop, bool_decide_eq_false_2 by (by intros []).
    cbn [negb orb]. unfold mbind, session_bind, gets. rewrite Hpe. cbn [unwrap mret session_ret st_count].
    unfold checked_sub. rewrite (proj2 (Z.ltb_ge (cx_count c + 1) 1)) by lia.
    cbn [unwrap mret session_ret]. replace (cx_count c + 1 - 1)%Z with (cx_count c) by lia.
    unfold modify. fold d. destruct (encode_message d); [|done]. reflexivity.
  - split; [|done]. constructor; try done. exists root, bytes. cbn. do 2 f_equal.
    apply bool_decide_ext. by rewrite Hs.
Qed.

(** The terminal response of the worker ([serve_implementation_on]). *)
Definition completion (c : StreamingContext) : ExecuteStreamResponse.t :=
  {| ExecuteStreamResponse.id := cx_id c; ExecuteStreamResponse.checkpoint_count := cx_count c |}.

Lemma completion_valid c : publishing c -> valid_message (completion c) = true.
Proof.
  intros [Hid Hn Hb]. unfold valid_message. cbn. unfold RequestId.from_str.
  rewrite !andb_true_iff. repeat split; try (apply Z.leb_le; lia). by destruct (cx_id c).
Qed.

(** The completion closes the stream. *)
Lemma completion_received c stopping x s :
  publishing c -> beside (cx_count c) false c s ->
  sx_received x = Frame (message_value (completion c)) -> ~ altered s (message_value (completion c)) ->
  disturbed s x (stream_frame stopping x s) \/
  exists s', stream_frame stopping x s = (Ok (Finished (completion c)), s').
Proof.
  intros Hc [Hu Hpr Hpe (root & bytes & Hst)] Hx Hclean.
  destruct (stream_frame_reaches stopping x s _ Hu Hpr Hx Hclean) as [?|(limit & e & He & _ & ->)]; [by left|].
  rewrite response_event. clear Hx Hclean.
  set (answered := set_requests {| next_id := next_id (requests s); pending_request := None |} s).
  assert (receive_response (sx_private_after x) (message_value (completion c)) s =
    (verify_controls (sx_private_after x);; modify (set_stream None);; mret (Finished (completion c))) answered) as ->.
  { unfold receive_response.
    unfold mbind at 1, session_bind at 1, gets at 1. unfold decode_operation_response.
    assert (from_struct false envelope_fields (message_value (completion c)) = Some (cx_id c, (true, tt))) as ->.
    { destruct Hc as [Hid _ _]. cbn. unfold refine_with. cbn. unfold RequestId.from_str. by destruct (cx_id c). }
    unfold Tracker.complete_response. rewrite Hpe, String.eqb_refl. cbn [negb].
    rewrite decode_message_value by (by apply completion_valid). cbn.
    unfold mbind, session_bind, gets, modify. cbn. rewrite Hst. cbn. by rewrite Z.eqb_refl. }
  unfold mbind at 1 3, session_bind at 1 3.
  destruct (verify_controls_cases (sx_private_after x) answered) as [-> | [Hb ->]].
  - right. eexists. reflexivity.
  - left. do 2 eexists. split; [reflexivity|]. split; [constructor|].
    split; [by apply discarded_unusable|]. intros (_ & ? & _). congruence.
Qed.

(** ** A whole dialogue *)

(** One checkpoint: what the implementation reports and writes, what the
    orchestrator answers, and the world while its frame travels. *)
Record Turn := {
  turn_progress : Progress;
  turn_terminal : bool;
  turn_capture : Capture;
  turn_action : StreamAction;
  turn_reason : option string;
  turn_exchange : StreamExchange;
}.

Definition with_frame (v : value) (x : StreamExchange) : StreamExchange := {|
  sx_private_before := sx_private_before x; sx_started := sx_started x; sx_sent := sx_sent x;
  sx_received := Frame v; sx_snapshot := sx_snapshot x; sx_finalize := sx_finalize x;
  sx_finalized_after := sx_finalized_after x; sx_reference := sx_reference x;
  sx_after := sx_after x; sx_private_after := sx_private_after x |}.

Inductive outcome :=
  (** The session received the terminal response of the worker's last context. *)
  | Completed (c : StreamingContext) (r : ExecuteStreamResponse.t)
  (** The capture failed in the worker, before anything was published. *)
  | CaptureFailed (e : string)
  (** The context rejected a decision of the session. *)
  | DecisionRejected (e : string)
  (** The session failed on a frame that the worker wrote. *)
  | SessionFailed (frame : value) (x : StreamExchange) (e : failure WorkerSessionError)
  (** The session took a frame for one of the other kind. *)
  | Misread (frame : value).

Section Dialogue.
Context `{ThirdParty}.

(** The session waits in [call]; the worker captures, and the frame it writes is
    what [call] receives. *)
Fixpoint dialogue (call : StreamExchange -> session StreamMessage) (c : StreamingContext)
    (turns : list Turn) (last : StreamExchange) (s : WorkerSession) : outcome * WorkerSession :=
  match turns with
  | [] =>
      let frame := message_value (completion c) in
      match call (with_frame frame last) s with
      | (Ok (Finished r), s) => (Completed c r, s)
      | (Ok (Checkpoint _), s) => (Misread frame, s)
      | (Err e, s) => (SessionFailed frame last e, s)
      end
  | t :: turns =>
      let p := turn_progress t in
      match Context.prepare_checkpoint c p (turn_terminal t) (turn_capture t) with
      | Err e => (CaptureFailed e, s)
      | Ok None => dialogue call c turns last s
      | Ok (Some cp) =>
          let frame := message_value cp in
          match call (with_frame frame (turn_exchange t)) s with
          | (Ok (Checkpoint received), s) =>
              let d := StreamDecision.new (StreamCheckpoint.id received)
                         (StreamCheckpoint.sequence received) (turn_action t) (turn_reason t) in
              match Context.apply_decision c p (turn_terminal t) d with
              | (Ok _, c) => dialogue (decide_stream (turn_action t) (turn_reason t)) c turns last s
              | (Err e, _) => (DecisionRejected e, s)
              end
          | (Ok (Finished _), s) => (Misread frame, s)
          | (Err e, s) => (SessionFailed frame (turn_exchange t) e, s)
          end
      end
  end.

(** The report of the implementation has the types of the code, the orchestrator
    keeps to its own rules, and its decisions can be encoded. *)
Definition turn_ok (c : StreamingContext) (t : Turn) : Prop :=
  progress_wf (turn_progress t) /\ decision_ok (turn_terminal t) (turn_action t) (turn_reason t) /\
  forall n, (0 <= n < max_observations (sp_policy (cx_profile c)))%Z ->
    is_ok (encode_message (StreamDecision.new (cx_id c) n (turn_action t) (turn_reason t))) = true.

(** How a dialogue of the session [s] can end. *)
Definition agreed (s : WorkerSession) (c : StreamingContext) (turns : list Turn) (last : StreamExchange)
    (res : outcome * WorkerSession) : Prop :=
  match res.1 with
  | Completed c' r =>
      ExecuteStreamResponse.id r = cx_id c /\ cx_id c' = cx_id c /\
      ExecuteStreamResponse.checkpoint_count r = cx_count c' /\
      (cx_count c <= cx_count c' <= max_observations (sp_policy (cx_profile c)))%Z /\
      closed res.2
  | CaptureFailed e => exists c' t, t ∈ turns /\
      Context.prepare_checkpoint c' (turn_progress t) (turn_terminal t) (turn_capture t) = Err e
  | DecisionRejected _ => False
  | SessionFailed frame x e =>
      x ∈ last :: (turn_exchange <$> turns) /\
      (altered s frame \/
       usable res.2 = false /\ ~ in_time s x /\ exists w, e = Returned w /\ disturbance w)
  | Misread frame => altered s frame
  end.

Lemma in_time_same s s' x : same_limits s s' -> in_time s x -> in_time s' x.
Proof. intros [Ht Hd _]. unfold in_time. by rewrite Ht, Hd. Qed.
Lemma altered_same s s' frame : same_limits s s' -> altered s' frame -> altered s frame.
Proof. intros [_ _ Hr]. unfold altered. by rewrite Hr. Qed.
Lemma turn_ok_eq c c' t :
  cx_id c' = cx_id c -> cx_profile c' = cx_profile c -> turn_ok c t -> turn_ok c' t.
Proof. intros Hi Hp (? & ? & ?). unfold turn_ok. by rewrite Hi, Hp. Qed.

Lemma agreed_later s s' c c' t turns last res :
  same_limits s s' ->
  cx_id c' = cx_id c -> cx_profile c' = cx_profile c -> (cx_count c <= cx_count c')%Z ->
  agreed s' c' turns last res -> agreed s c (t :: turns) last res.
Proof.
  unfold agreed. intros Hl -> -> Hn. destruct res.1 as [c1 r|e|e|frame x e|frame].
  - intros (? & ? & ? & ? & ?). split_and!; [done..|lia|lia|done].
  - intros (c1 & t1 & Hin & He). exists c1, t1. split; [by right|done].
  - done.
  - intros [Hin He]. split; [rewrite fmap_cons; set_solver|]. destruct He as [?|(Hu & Ht & He)].
    + left. by eapply altered_same.
    + right. split; [done|]. split; [|done]. intros Hi. apply Ht. by eapply in_time_same.
  - by apply altered_same.
Qed.

Lemma dialogue_agreed turns : forall call c last s stopping s1,
  publishing c -> (forall x, call x s = stream_frame stopping x s1) ->
  beside (cx_count c) false c s1 -> Forall (turn_ok c) turns ->
  agreed s1 c turns last (dialogue call c turns last s).
Proof.
  induction turns as [|t turns IH]; intros call c last s stopping s1 Hc Hcall Hb Hturns; cbn [dialogue]; cbv zeta.
  - rewrite Hcall. set (frame := message_value (completion c)).
    pose proof (completion_received c stopping (with_frame frame last) s1 Hc Hb eq_refl) as Hclean.
    pose proof (fun msg s' => stream_frame_Ok stopping (with_frame frame last) _ c s1 msg s' Hb) as Hok.
    destruct (stream_frame _ _ s1) as [[[cp|r]|e] s2].
    + cbn. destruct (decide (altered s1 frame)) as [?|Hn]; [done|].
      destruct (Hclean Hn) as [(? & ? & [=] & _)|(? & [=])].
    + destruct (Hok _ _ eq_refl) as (_ & Hid & Hn & Hcl). destruct Hc. cbn. split_and!; [done..|lia|lia|done].
    + cbn. split; [by left|]. destruct (decide (altered s1 frame)) as [?|Hn]; [by left|right].
      destruct (Hclean Hn) as [(w & ? & [= -> ->] & Hw & Hu & Ht)|(? & [=])]. eauto.
  - apply Forall_cons in Hturns as [(Hp & Hd & Henc) Hturns].
    destruct (Context.prepare_checkpoint _ _ _ _) as [[cp|]|e] eqn:Hprep.
    + rewrite Hcall. set (frame := message_value cp).
      pose proof (publish_received c _ _ _ cp stopping (with_frame frame (turn_exchange t)) s1 Hc Hp Hb Hprep
        eq_refl) as Hclean.
      pose proof (fun msg s' => stream_frame_Ok stopping (with_frame frame (turn_exchange t)) _ c s1 msg s' Hb) as Hok.
      destruct (stream_frame _ _ s1) as [[[received|r]|e] s2].
      * destruct (Hok _ _ eq_refl) as (Hl & -> & -> & Hb2).
        apply prepare_checkpoint_Some in Hprep as (Hstop & _ & _ & Hn & _). destruct Hc as [Hid Hcount Hmax].
        destruct (decision_applied c (turn_progress t) (turn_terminal t) (turn_action t) (turn_reason t) s2)
          as (decision & stopped & s3 & -> & _ & Hcall3 & Hb3 & Hl3); [lia|done..|apply Henc; lia|].
        eapply (agreed_later s1 s3 c (counting c (check_index (turn_progress t)) stopped));
          [by eapply same_limits_trans|done..|cbn; lia|].
        eapply (IH _ _ _ _ _ s3); [|exact Hcall3|exact Hb3|].
        -- constructor; cbn; [done|lia..].
        -- eapply Forall_impl; [exact Hturns|]. intros t'. by apply turn_ok_eq.
      * cbn. destruct (decide (altered s1 frame)) as [?|Hn]; [done|].
        destruct (Hclean Hn) as [(? & ? & [=] & _)|(? & [=])].
      * cbn. split; [right; left|]. destruct (decide (altered s1 frame)) as [?|Hn]; [by left|right].
        destruct (Hclean Hn) as [(w & ? & [= -> ->] & Hw & Hu & Ht)|(? & [=])]. eauto.
    + eapply agreed_later, IH; eauto; [by constructor|lia].
    + exists c, t. split; [by left|done].
Qed.

End Dialogue.

(** ** An example *)

Definition plain_session : WorkerSession :=
  match connect_with_deadline (H := model) {| private_working_directory := true |} []
    Implementation sample_worker [OneShot; StreamingProfile] sample_timeouts None sample_hello with
  | Ok s => s
  | Err _ => sample_session
  end.
Definition streaming_policy : ProfilePolicy := {|
  metric := None; direction := None; threshold := None; record_thresholds := [];
  max_observations := 3; max_checkpoint_bytes := 4096; max_trace_points := 0; max_buffer_bytes := 0;
  terminal_reserve_bytes := 0; max_active_time := "10s" |}.
Definition streaming_selection : SelectedStreamingProfile := {|
  sp_policy := streaming_policy; sp_check_schedule := Explicit [1; 5; 9]%Z |}.
Definition sample_turn (i : Z) (terminal : bool) (action : StreamAction) (reason : option string) : Turn := {|
  turn_progress := {| check_index := i; work := [("iterations", i)] |};
  turn_terminal := terminal;
  turn_capture := {| create_dir_all := Ok tt; writer := Ok "result.json";
                     snapshot_directory _ _ := Ok tt |};
  turn_action := action; turn_reason := reason;
  turn_exchange := streaming_reply Null |}.
Definition sample_context : StreamingContext := {|
  cx_profile := streaming_selection; cx_id := "1"; cx_count := 0; cx_last := None; cx_stopped := None |}.

Lemma below_three n (P : Z -> Prop) : P 0%Z -> P 1%Z -> P 2%Z -> (0 <= n < 3)%Z -> P n.
Proof. intros. assert (n = 0 \/ n = 1 \/ n = 2)%Z as [->|[->| ->]] by lia; done. Qed.

Lemma sample_turn_ok i terminal action reason :
  (0 <= i)%Z -> decision_ok terminal action reason ->
  (forall n, (0 <= n < 3)%Z ->
     is_ok (encode_message (H := model) (StreamDecision.new "1" n action reason)) = true) ->
  turn_ok (H := model) sample_context (sample_turn i terminal action reason).
Proof. intros Hi Hd He. split; [split; [done|by repeat constructor]|]. by split. Qed.

