(* ===== verification/Buffered.v ===== *)
(** * Buffered profiles (src/runtime/buffered.rs)

    The collector that an instrumented implementation records its trajectory
    with, the buffer it writes, and the validation of a completed buffer before
    any of its snapshots becomes an observation.  The two share no code: the
    validator replays the policy over the files. *)
From S2P Require Import Prelude Json Canonical Identity Profile Records Manifest Framing Redaction Wire Messages Handshake Session Streaming.
From Stdlib Require Import Ascii Floats.SpecFloat.
From stdpp Require Import pretty.

(** ** Data (core/profile.rs) *)

Record SelectedBufferedProfile := {
  bp_policy : ProfilePolicy;
  bp_instrumented_scope : string;
  bp_scope : InstrumentedScope;
  bp_instrumentation : value;
  bp_check_schedule : CheckSchedule;
}.
Record TracePoint := {
  tp_check_index : Z;
  tp_work : BTreeMap Z;
  tp_metrics : value;
  tp_time : Z;
  tp_terminal : bool;
}.
Record BufferedSnapshot := {
  bs_ordinal : Z;
  bs_trace_index : Z;
  bs_thresholds : list spec_float;
  bs_manifest : string;
}.
Record BufferFile := { bf_path : string; bf_sha256 : string; bf_size : Z }.
Record BufferedManifest := {
  bm_schema_version : Z;
  bm_complete : bool;
  bm_clock : string;
  bm_scope : string;
  bm_total : Z;
  bm_stop_reason : StopReason;
  bm_trace : string;
  bm_snapshots : list BufferedSnapshot;
  bm_files : list BufferFile;
}.

(** [serde_json::to_value] of the serialized ones. *)
Definition point_value (p : TracePoint) : value := object [
  ("check_index", json_u64 (tp_check_index p));
  ("work", Object (map_collect (map (fun kv => (kv.1, json_u64 kv.2)) (tp_work p))));
  ("provisional_metrics", tp_metrics p);
  ("instrumented_time_ns", json_u64 (tp_time p));
  ("terminal", Bool (tp_terminal p))].
Definition snapshot_value (s : BufferedSnapshot) : value := object [
  ("capture_ordinal", json_u64 (bs_ordinal s));
  ("trace_index", json_u64 (bs_trace_index s));
  ("thresholds", Array (map json_f64 (bs_thresholds s)));
  ("manifest", Str (bs_manifest s))].
Definition file_value (f : BufferFile) : value := object [
  ("path", Str (bf_path f)); ("sha256", Str (bf_sha256 f)); ("size_bytes", json_u64 (bf_size f))].
Definition manifest_value (m : BufferedManifest) : value := object [
  ("schema_version", json_u64 (bm_schema_version m));
  ("complete", Bool (bm_complete m));
  ("clock", Str (bm_clock m));
  ("instrumented_scope", Str (bm_scope m));
  ("instrumented_total_time_ns", json_u64 (bm_total m));
  ("stop_reason", Str (stop_reason_name (bm_stop_reason m)));
  ("trace", Str (bm_trace m));
  ("snapshots", Array (map snapshot_value (bm_snapshots m)));
  ("files", Array (map file_value (bm_files m)))].

(** ** Failures of a worker (worker_sdk.rs) *)

(** [WorkerError], the newtype of a [WorkerFailure]. *)
Abbreviation WorkerError := WorkerFailure.t (only parsing).
Definition worker_failure (code : WorkerFailureCode) (message : string) : WorkerError :=
  {| WorkerFailure.code := code; WorkerFailure.message := message; WorkerFailure.details := None |}.
Definition operation_failed (message : string) : WorkerError :=
  worker_failure OperationFailed (if String.eqb message "" then "Worker operation failed." else message).
Definition invalid (message : string) : WorkerError := operation_failed message.
Definition limit (message : string) : WorkerError := worker_failure ResourceLimit message.

(** [value.get(key).and_then(Value::as_f64)]. *)
Definition metric_f64 (metrics : value) (m : string) : option spec_float :=
  get_field m metrics ≫= value_f64.
Definition contains (t : spec_float) (l : list spec_float) : bool := existsb (SFeqb t) l.

(** ** The collector *)

Record BufferedTrace := {
  profile : SelectedBufferedProfile;
  points : list TracePoint;
  snapshots : list (BufferedSnapshot * bytes);
  trace_bytes : Z;
  snapshot_bytes : Z;
  reached : list spec_float;
  stopped : option StopReason;
  finished : bool;
  total : Z;
  adopted : option string;
}.
Abbreviation Collected A := (result WorkerFailure.t A) (only parsing).

Definition snapshot_path (ordinal : Z) : string :=
  "snapshots/" +:+ Tracker.id_string ordinal +:+ "/result.json".
Definition count {A} (l : list A) : Z := Z.of_nat (length l).
(** The counters of [a] all appear in [b], none of them lower. *)
Definition work_regressed (a b : BTreeMap Z) : bool :=
  existsb (fun kv => match map_get kv.1 b with Some n => (n <? kv.2)%Z | None => true end) a.

(** What a check that records will add to the buffer. *)
Record Recording := {
  rc_point : TracePoint;
  rc_encoded : bytes;
  rc_captured : option bytes;
  rc_crossed : list spec_float;
  rc_reason : option StopReason;
}.

Section Collector.
Context `{ThirdParty}.
(** The texts of the errors of other modules. *)
Context (violation_text : CanonicalValueViolation -> string) (serializer_text : string)
  (policy_text : PolicyError -> string) (schedule_text : ScheduleError -> string).

(** [bytes]: the canonical bytes of a value. *)
Definition encoded (v : value) : Collected bytes :=
  v ← map_err (fun e => operation_failed (violation_text e)) (Canonical.try_from v);
  ok_or (to_vec v) (operation_failed serializer_text).

Definition with_clock (p : SelectedBufferedProfile) : Collected BufferedTrace :=
  _ ← map_err (fun e => invalid (policy_text e)) (Policy.validate (bp_policy p));
  _ ← map_err (fun e => invalid (policy_text e)) (Policy.validate_buffered (bp_policy p));
  _ ← map_err (fun e => invalid (schedule_text e)) (Check.validate (bp_check_schedule p));
  Ok {| profile := p; points := []; snapshots := []; trace_bytes := 0; snapshot_bytes := 0;
        reached := []; stopped := None; finished := false; total := 0; adopted := None |}.

Definition active_time (t : BufferedTrace) : Collected Z :=
  map_err (fun e => invalid (policy_text e)) (Policy.active_time_ns (bp_policy (profile t))).

Definition manifest (t : BufferedTrace) (total : Z) (reason : StopReason) (files : list BufferFile)
  : BufferedManifest := {|
  bm_schema_version := 1; bm_complete := true; bm_clock := "monotonic_ns";
  bm_scope := bp_instrumented_scope (profile t); bm_total := total; bm_stop_reason := reason;
  bm_trace := "trace.jsonl"; bm_snapshots := map fst (snapshots t); bm_files := files |}.

Definition zero_digest : string := string_of (repeat "0"%char 64).

(** The size of the buffer if the collection ended here, with one more line of
    the trace and possibly one more snapshot. *)
Definition estimated_bytes (t : BufferedTrace) (extra_trace : Z) (extra_snapshot : option bytes)
  : Collected Z :=
  let estimate path size := {| bf_path := path; bf_sha256 := zero_digest; bf_size := size |} in
  let files := estimate "trace.jsonl" (trace_bytes t + extra_trace)%Z
    :: map (fun sb => estimate (bs_manifest sb.1) (count sb.2)) (snapshots t) in
  let m := manifest t MAX_SAFE_INTEGER ImplementationStopped files in
  let m := match extra_snapshot with
    | Some data =>
        let ordinal := count (snapshots t) in
        let path := snapshot_path ordinal in
        {| bm_schema_version := bm_schema_version m; bm_complete := bm_complete m;
           bm_clock := bm_clock m; bm_scope := bm_scope m; bm_total := bm_total m;
           bm_stop_reason := bm_stop_reason m; bm_trace := bm_trace m;
           bm_snapshots := bm_snapshots m ++ [{|
             bs_ordinal := ordinal; bs_trace_index := count (points t);
             bs_thresholds := Policy.thresholds (bp_policy (profile t)); bs_manifest := path |}];
           bm_files := bm_files m ++ [estimate path (count data)] |}
    | None => m
    end in
  data ← encoded (manifest_value m);
  Ok (trace_bytes t + extra_trace + snapshot_bytes t
      + match extra_snapshot with Some b => count b | None => 0 end + count data)%Z.

(** The result document around the data of a snapshot. *)
Definition snapshot_document (data : value) : value :=
  object [("schema_version", json_u64 1); ("data", data); ("files", Array [])].

(** The guards on a progress report; whether a check is due. *)
Definition admission (t : BufferedTrace) (p : Progress) (terminal : bool) (now : Z) : Collected bool :=
  if finished t || bool_decide (is_Some (stopped t)) || bool_decide (is_Some (adopted t))
  then Err (invalid "recording after stop or finish violates the buffered contract")
  else
    let previous := last (points t) in
    let expected := Check.next_after (bp_check_schedule (profile t)) (tp_check_index <$> previous) in
    if (MAX_SAFE_INTEGER <? check_index p)%Z || negb (StreamCheckpoint.safe_work (work p))
    then Err (invalid "progress must contain safe integers")
    else if match previous with
            | Some q => (check_index p <=? tp_check_index q)%Z || work_regressed (tp_work q) (work p)
            | None => false
            end
    then Err (invalid "progress and work counts must increase monotonically")
    else if match expected with Some n => (n <? check_index p)%Z | None => false end
    then Err (invalid "a scheduled check was skipped")
    else
      active ← active_time t;
      let expired := (active <=? now)%Z in
      Ok (terminal || expired || bool_decide (expected = Some (check_index p))).

(** The metrics of a due check, its time, and the value of the target metric. *)
Definition observed (t : BufferedTrace) (measure : Collected value) (elapsed : Z)
  : Collected (value * option spec_float) :=
  metrics ← measure;
  if negb (is_object metrics) then Err (invalid "provisional metrics must be an object")
  else
    _ ← map_err (fun e => operation_failed (violation_text e)) (Canonical.try_from metrics);
    if (MAX_SAFE_INTEGER <? elapsed)%Z
       || match last (points t) with Some q => (elapsed <? tp_time q)%Z | None => false end
    then Err (invalid "instrumented clock must be monotonic safe nanoseconds")
    else match metric (bp_policy (profile t)) with
    | None => Ok (metrics, None)
    | Some m =>
        match metric_f64 metrics m with
        | Some v =>
            if is_finite v then Ok (metrics, Some v)
            else Err (invalid "provisional target metric must be finite and numeric")
        | None => Err (invalid "provisional target metric must be finite and numeric")
        end
    end.

(** The recorded thresholds that this check reaches first. *)
Definition crossed (t : BufferedTrace) (target : option spec_float) : list spec_float :=
  List.filter (fun th => negb (contains th (reached t)) &&
      match target with Some v => Policy.reaches (bp_policy (profile t)) v th | None => false end)
    (Policy.thresholds (bp_policy (profile t))).

Definition target_reached (t : BufferedTrace) (target : option spec_float) : bool :=
  match target, threshold (bp_policy (profile t)) with
  | Some v, Some th => Policy.reaches (bp_policy (profile t)) v th
  | _, _ => false
  end.

(** Why this check stops the run, before the byte limits are looked at. *)
Definition stop_reason (t : BufferedTrace) (terminal : bool) (elapsed : Z) (target : option spec_float)
  : Collected (option StopReason) :=
  if target_reached t target then Ok (Some StopTargetReached)
  else if terminal then Ok (Some ImplementationStopped)
  else
    active ← active_time t;
    Ok (if (active <=? elapsed)%Z then Some StopActiveTimeLimit
        else if (max_trace_points (bp_policy (profile t)) <=? count (points t) + 1)%Z
        then Some TraceLimit else None).

(** Whether the iterate is saved, and the reason when it is the last that fits. *)
Definition capture_reason (t : BufferedTrace) (crossings : list spec_float) (reason : option StopReason)
  : bool * option StopReason :=
  let policy := bp_policy (profile t) in
  let capture := bool_decide (metric policy = None) || negb (bool_decide (crossings = []))
                 || bool_decide (is_Some reason) in
  (capture,
   if capture && (max_observations policy <=? count (snapshots t) + 1)%Z && bool_decide (reason = None)
   then Some (if bool_decide (metric policy = None) then StopFixedCount else ObservationLimit)
   else reason).

Definition regular_limit (t : BufferedTrace) : Z :=
  (max_buffer_bytes (bp_policy (profile t)) - terminal_reserve_bytes (bp_policy (profile t)))%Z.
Definition point (p : Progress) (metrics : value) (elapsed : Z) (reason : option StopReason)
  : TracePoint := {|
  tp_check_index := check_index p; tp_work := work p; tp_metrics := metrics; tp_time := elapsed;
  tp_terminal := bool_decide (is_Some reason) |}.

(** An undecided check that exceeds the regular allowance becomes the last. *)
Definition limit_bytes (t : BufferedTrace) (p : Progress) (metrics : value) (elapsed : Z)
    (captured : option bytes) (reason : option StopReason) (line : bytes)
  : Collected (option StopReason * bytes) :=
  match reason with
  | Some _ => Ok (reason, line)
  | None =>
      size ← estimated_bytes t (count line + 1) captured;
      if (regular_limit t <? size)%Z
      then
        line ← encoded (point_value (point p metrics elapsed (Some ByteLimit)));
        Ok (Some ByteLimit, line)
      else Ok (None, line)
  end.

Definition record_check (t : BufferedTrace) (p : Progress) (metrics : value)
    (target : option spec_float) (snapshot : Collected value) (terminal : bool) (elapsed : Z)
  : Collected Recording :=
  let crossings := crossed t target in
  reason ← stop_reason t terminal elapsed target;
  let '(capture, reason) := capture_reason t crossings reason in
  line ← encoded (point_value (point p metrics elapsed reason));
  '(reason, line) ← limit_bytes t p metrics elapsed None reason line;
  captured ← (if capture || bool_decide (is_Some reason) then
                data ← snapshot;
                bytes ← encoded (snapshot_document data);
                if is_object data then Ok (Some bytes)
                else Err (invalid "snapshot data must be an object")
              else Ok None);
  '(reason, line) ← limit_bytes t p metrics elapsed captured reason line;
  size ← estimated_bytes t (count line + 1) captured;
  if (max_buffer_bytes (bp_policy (profile t)) <? size)%Z
  then Err (limit "terminal check and snapshot exceed max-buffer-bytes")
  else Ok {| rc_point := point p metrics elapsed reason; rc_encoded := line;
             rc_captured := captured; rc_crossed := crossings; rc_reason := reason |}.

(** The state after a recording.  The trace has grown even if the snapshot is
    refused. *)
Definition commit (t : BufferedTrace) (r : Recording) : Collected Streaming.Decision * BufferedTrace :=
  let points := points t ++ [rc_point r] in
  let grown snapshots snapshot_bytes reached stopped := {|
    profile := profile t; points := points; snapshots := snapshots;
    trace_bytes := trace_bytes t + (count (rc_encoded r) + 1); snapshot_bytes := snapshot_bytes;
    reached := reached; stopped := stopped; finished := finished t; total := total t;
    adopted := adopted t |} in
  let done snapshots snapshot_bytes :=
    (Ok (match rc_reason r with Some reason => StopBecause reason | None => KeepGoing end),
     grown snapshots snapshot_bytes (reached t ++ rc_crossed r) (rc_reason r)) in
  match rc_captured r with
  | Some data =>
      let ordinal := count (snapshots t) in
      if (max_observations (bp_policy (profile t)) <=? ordinal)%Z
      then (Err (limit "terminal snapshot exceeds max-observations"),
            grown (snapshots t) (snapshot_bytes t) (reached t) (stopped t))
      else done (snapshots t ++ [({| bs_ordinal := ordinal; bs_trace_index := count points - 1;
                                     bs_thresholds := rc_crossed r;
                                     bs_manifest := snapshot_path ordinal |}, data)])
                (snapshot_bytes t + count data)%Z
  | None => done (snapshots t) (snapshot_bytes t)
  end.

(** [observe], [record] and the terminal check.  The clock is read twice. *)
Definition check (t : BufferedTrace) (p : Progress) (measure snapshot : Collected value)
    (terminal : bool) (now elapsed : Z) : Collected Streaming.Decision * BufferedTrace :=
  match admission t p terminal now with
  | Err e => (Err e, t)
  | Ok false => (Ok KeepGoing, t)
  | Ok true =>
      match
        '(metrics, target) ← observed t measure elapsed;
        record_check t p metrics target snapshot terminal elapsed
      with
      | Err e => (Err e, t)
      | Ok r => commit t r
      end
  end.

Definition with_terminal_point (t : BufferedTrace) (q : TracePoint)
    (snapshots : list (BufferedSnapshot * bytes)) (snapshot_bytes : Z) : BufferedTrace := {|
  profile := profile t;
  points := removelast (points t) ++ [{|
    tp_check_index := tp_check_index q; tp_work := tp_work q; tp_metrics := tp_metrics q;
    tp_time := tp_time q; tp_terminal := true |}];
  snapshots := snapshots; trace_bytes := trace_bytes t; snapshot_bytes := snapshot_bytes;
  reached := reached t; stopped := stopped t; finished := finished t; total := total t;
  adopted := adopted t |}.

(** The last check becomes the terminal one; its iterate is saved unless it was. *)
Definition finish_last (t : BufferedTrace) (q : TracePoint) (p : Progress) (snapshot : Collected value)
  : Collected unit * BufferedTrace :=
  if negb (bool_decide (tp_work q = work p))
  then (Err (invalid "terminal work changed without advancing progress"), t)
  else if match last (snapshots t) with
          | Some sb => (bs_trace_index sb.1 =? count (points t) - 1)%Z
          | None => false
          end
  then (Ok tt, with_terminal_point t q (snapshots t) (snapshot_bytes t))
  else
    match
      data ← snapshot;
      data ← encoded (snapshot_document data);
      size ← estimated_bytes t 0 (Some data);
      if (max_buffer_bytes (bp_policy (profile t)) <? size)%Z
      then Err (limit "terminal snapshot does not fit")
      else if (max_observations (bp_policy (profile t)) <=? count (snapshots t))%Z
      then Err (limit "terminal snapshot count exceeded")
      else Ok data
    with
    | Err e => (Err e, t)
    | Ok data =>
        let ordinal := count (snapshots t) in
        (Ok tt, with_terminal_point t q
           (snapshots t ++ [({| bs_ordinal := ordinal; bs_trace_index := count (points t) - 1;
                                bs_thresholds := []; bs_manifest := snapshot_path ordinal |}, data)])
           (snapshot_bytes t + count data))
    end.

Definition closed_trace (t : BufferedTrace) (total : Z) (finished : bool) : BufferedTrace := {|
  profile := profile t; points := points t; snapshots := snapshots t;
  trace_bytes := trace_bytes t; snapshot_bytes := snapshot_bytes t; reached := reached t;
  stopped := Some (default ImplementationStopped (stopped t)); finished := finished; total := total;
  adopted := adopted t |}.

Definition finish (t : BufferedTrace) (p : Progress) (measure snapshot : Collected value)
    (now elapsed duration : Z) : result (failure WorkerFailure.t) unit * BufferedTrace :=
  if finished t || bool_decide (is_Some (adopted t))
  then (Err (Returned (invalid "buffer was already finished")), t)
  else
    let '(res, t) :=
      match last (points t) with
      | Some q =>
          if (tp_check_index q =? check_index p)%Z then finish_last t q p snapshot
          else let '(res, t) := check t p measure snapshot true now elapsed in
               ((fun _ => tt) <$> res, t)
      | None => let '(res, t) := check t p measure snapshot true now elapsed in
                ((fun _ => tt) <$> res, t)
      end in
    match res with
    | Err e => (Err (Returned e), t)
    | Ok _ =>
        match last (points t) with
        | None => (Err Panicked, closed_trace t duration false)
        | Some q =>
            if (MAX_SAFE_INTEGER <? duration)%Z || (duration <? tp_time q)%Z
            then (Err (Returned (invalid "invalid total instrumented duration")),
                  closed_trace t duration false)
            else (Ok tt, closed_trace t duration true)
        end
    end.

Definition file (path : string) (data : bytes) : BufferFile :=
  {| bf_path := path; bf_sha256 := string_of (hex (sha256 data)); bf_size := count data |}.

(** The file system under the directory of the buffer. *)
Record BufferWriter := {
  bw_create_dir_all : string -> Collected unit;
  bw_write : string -> bytes -> Collected unit;
}.

Definition trace_text (t : BufferedTrace) : Collected bytes :=
  lines ← mapM (fun p => encoded (point_value p)) (points t);
  Ok (concat (map (fun line => line ++ [newline]) lines)).

Definition write (fs : BufferWriter) (t : BufferedTrace) : result (failure WorkerFailure.t) string :=
  if negb (finished t)
  then Err (Returned (invalid "execute_buffered must finish the terminal check before returning"))
  else match adopted t with
  | Some manifest => Ok manifest
  | None =>
      _ ← map_err Returned (bw_create_dir_all fs "");
      trace ← map_err Returned (trace_text t);
      _ ← map_err Returned (bw_write fs "trace.jsonl" trace);
      _ ← map_err Returned (for_each (fun sb => bw_write fs (bs_manifest sb.1) sb.2) (snapshots t));
      reason ← ok_or (stopped t) Panicked;
      let files := file "trace.jsonl" trace
        :: map (fun sb => file (bs_manifest sb.1) sb.2) (snapshots t) in
      map_err Returned (
        data ← encoded (manifest_value (manifest t (total t) reason files));
        if (max_buffer_bytes (bp_policy (profile t)) <? count trace + snapshot_bytes t + count data)%Z
        then Err (limit "completed buffer exceeds byte bound")
        else
          _ ← bw_write fs "buffer.json" data;
          Ok "buffer.json")
  end.
End Collector.
