(* ===== verification/BufferValidation.v ===== *)
(** * Validation of a completed buffer (src/runtime/buffered.rs)

    [validate_buffer] reads a buffer that a collector or native code left in a
    directory: the inventory of its files, the manifest, the trace, the claims of
    the snapshots, the reason to stop, and the bytes that were still free before
    every check but the last. *)
From S2P Require Import Prelude Json Canonical Identity Profile Records Manifest Framing Redaction Wire Messages Handshake Session Streaming Buffered.
From Stdlib Require Import Ascii Floats.SpecFloat.

#[local] Obligation Tactic := cbn beta.
#[local] Unset Program Cases.

Abbreviation Validated A := (result string A) (only parsing).
(** [if rejected { return Err(message) }]. *)
Definition reject_if (b : bool) (message : string) : Validated unit := ensure (negb b) message.

(** ** Paths

    A [Path] compares by its components: the root, and the names between
    slashes without the empty ones and, except at the start, ["."]. *)
Definition components (path : string) : list bytes :=
  let parts := split_slash (bytes_of path) in
  let kept := List.filter (fun part => negb (bool_decide (part = []))) parts in
  let tail := List.filter (fun part => negb (bool_decide (part = bytes_of "."))) in
  match parts with
  | [] :: _ :: _ => ["/"%char] :: tail kept
  | _ => match kept with [] => [] | first :: rest => first :: tail rest end
  end.
Definition path_eqb (a b : string) : bool := bool_decide (components a = components b).
(** [a.starts_with(p)] for the components [p]. *)
Definition starts_with_path (a : string) (p : list bytes) : bool :=
  bool_decide (take (length p) (components a) = p).

Definition safe_path (path : string) : Validated unit :=
  let b := bytes_of path in
  reject_if
    (bool_decide (b = []) || bool_decide (head b = Some "/"%char)
     || bool_decide ("\"%char ∈ b) || bool_decide (NUL ∈ b)
     || existsb (fun part => bool_decide (part = []) || bool_decide (part = bytes_of ".")
                             || bool_decide (part = bytes_of "..") || bool_decide (":"%char ∈ part))
          (split_slash b))
    "buffer path must be normalized and relative".

(** ** Decoding *)

Definition all_reasons_decode (r : StopReason) :
  variant_of (map (fun r => (stop_reason_name r, r)) all_stop_reasons) (Str (stop_reason_name r)) = Some r.
Proof. by destruct r. Defined.
Definition stop_reason_codec : codec StopReason :=
  enum_codec stop_reason_name all_stop_reasons all_reasons_decode.

Definition point_fields :=
  FReq "check_index" u64_codec (FReq "work" (map_codec u64_codec)
  (FReq "provisional_metrics" value_codec (FReq "instrumented_time_ns" u64_codec
  (FReq "terminal" bool_codec FNil)))).
Definition decode_point (v : value) : option TracePoint :=
  (fun '(i, (w, (m, (t, (b, _))))) => {|
     tp_check_index := i; tp_work := w; tp_metrics := m; tp_time := t; tp_terminal := b |}) <$>
  from_struct true point_fields v.

Program Definition snapshot_codec : codec BufferedSnapshot :=
  through (struct_codec
      (FReq "capture_ordinal" u64_codec (FReq "trace_index" u64_codec
      (FReq "thresholds" (vec_codec f64_codec) (FReq "manifest" string_codec FNil)))) eq_refl)
    (fun s => (bs_ordinal s, (bs_trace_index s, (bs_thresholds s, (bs_manifest s, tt)))))
    (fun '(o, (i, (t, (m, _)))) => {|
       bs_ordinal := o; bs_trace_index := i; bs_thresholds := t; bs_manifest := m |}) _ _.
Next Obligation. by intros []. Qed.
Next Obligation. by intros (o & i & t & m & []). Qed.
Program Definition file_codec : codec BufferFile :=
  through (struct_codec
      (FReq "path" string_codec (FReq "sha256" string_codec (FReq "size_bytes" u64_codec FNil))) eq_refl)
    (fun f => (bf_path f, (bf_sha256 f, (bf_size f, tt))))
    (fun '(p, (d, (n, _))) => {| bf_path := p; bf_sha256 := d; bf_size := n |}) _ _.
Next Obligation. by intros []. Qed.
Next Obligation. by intros (p & d & n & []). Qed.

Definition manifest_fields :=
  FReq "schema_version" (unsigned_codec (2 ^ 32 - 1)) (FReq "complete" bool_codec
  (FReq "clock" string_codec (FReq "instrumented_scope" string_codec
  (FReq "instrumented_total_time_ns" u64_codec (FReq "stop_reason" stop_reason_codec
  (FReq "trace" string_codec (FReq "snapshots" (vec_codec snapshot_codec)
  (FReq "files" (vec_codec file_codec) FNil)))))))).
Definition decode_manifest (v : value) : option BufferedManifest :=
  (fun '(v, (c, (k, (s, (t, (r, (tr, (sn, (f, _))))))))) => {|
     bm_schema_version := v; bm_complete := c; bm_clock := k; bm_scope := s; bm_total := t;
     bm_stop_reason := r; bm_trace := tr; bm_snapshots := sn; bm_files := f |}) <$>
  from_struct true manifest_fields v.

(** ** The rules of a trajectory *)

(** [metric.as_ref().and_then(|m| point.provisional_metrics[m].as_f64())]. *)
Definition point_metric (policy : ProfilePolicy) (p : TracePoint) : option spec_float :=
  metric policy ≫= fun m => value_f64 (index (tp_metrics p) m).
Definition point_reaches (policy : ProfilePolicy) (p : TracePoint) (th : spec_float) : bool :=
  match point_metric policy p with Some v => Policy.reaches policy v th | None => false end.
Definition point_reaches_target (policy : ProfilePolicy) (p : TracePoint) : bool :=
  match threshold policy with Some th => point_reaches policy p th | None => false end.

Definition terminal_at_end (points : list TracePoint) : bool :=
  match last points with
  | Some p => tp_terminal p && negb (existsb tp_terminal (removelast points))
  | None => false
  end.

(** One step of the loop over the trace, after [previous]. *)
Definition check_point (profile : SelectedBufferedProfile) (total active : Z)
    (previous : option TracePoint) (expected : option Z) (p : TracePoint) : Validated unit :=
  let policy := bp_policy profile in
  _ ← reject_if
    ((MAX_SAFE_INTEGER <? tp_check_index p)%Z || (total <? tp_time p)%Z
     || negb (is_object (tp_metrics p))
     || negb (tp_terminal p) && negb (bool_decide (Some (tp_check_index p) = expected))
     || tp_terminal p && match expected with Some n => (n <? tp_check_index p)%Z | None => false end
     || negb (StreamCheckpoint.safe_work (tp_work p)))
    "invalid trace clock, progress, metrics, or check schedule";
  _ ← reject_if
    match previous with
    | Some q => (tp_check_index p <=? tp_check_index q)%Z || (tp_time p <? tp_time q)%Z
                || work_regressed (tp_work q) (tp_work p)
    | None => false
    end
    "trace progress, times, and work counts must be monotonic";
  _ ← reject_if
    match metric policy with
    | Some m => match metric_f64 (tp_metrics p) m with Some v => negb (is_finite v) | None => true end
    | None => false
    end
    "trace target metric must be finite and numeric";
  reject_if
    (negb (tp_terminal p) && ((active <=? tp_time p)%Z || point_reaches_target policy p))
    "execution continued after a required local stop".

(** The loop itself. *)
Fixpoint check_points (profile : SelectedBufferedProfile) (total active : Z)
    (previous : option TracePoint) (expected : option Z) (points : list TracePoint) : Validated unit :=
  match points with
  | [] => Ok tt
  | p :: points =>
      _ ← check_point profile total active previous expected p;
      check_points profile total active (Some p)
        (Check.next_after (bp_check_schedule profile) (Some (tp_check_index p))) points
  end.

(** One threshold that a snapshot claims to be the first to reach. *)
Definition check_claim (policy : ProfilePolicy) (points : list TracePoint) (index : nat)
    (thresholds : list spec_float) (th : spec_float) : Validated (list spec_float) :=
  let reaches := match points !! index with Some p => point_reaches policy p th | None => false end in
  _ ← reject_if
    (negb (contains th (Policy.thresholds policy)) || contains th thresholds || negb reaches
     || existsb (fun p => point_reaches policy p th) (take index points))
    "invalid first-observed threshold claim";
  Ok (thresholds ++ [th]).

(** The loop over the snapshots: [i] is the ordinal of the next one, [seen] the
    trace indices so far, [thresholds] the claims so far. *)
Fixpoint check_snapshots (policy : ProfilePolicy) (points : list TracePoint) (declared : list string)
    (i : Z) (previous : option Z) (seen : list Z) (thresholds : list spec_float)
    (l : list BufferedSnapshot) : Validated (list spec_float) :=
  match l with
  | [] => Ok thresholds
  | s :: l =>
      let trace_index := bs_trace_index s in
      _ ← reject_if
        (negb (bs_ordinal s =? i)%Z || (count points <=? trace_index)%Z
         || bool_decide (trace_index ∈ seen)
         || negb (existsb (path_eqb (bs_manifest s)) declared)
         || match previous with Some j => (trace_index <=? j)%Z | None => false end)
        "invalid snapshot ordinal, order, or trace reference";
      thresholds ← try_fold (check_claim policy points (Z.to_nat trace_index)) thresholds (bs_thresholds s);
      check_snapshots policy points declared (i + 1) (Some trace_index) (trace_index :: seen) thresholds l
  end.

(** From the number of snapshots to the crossings that were not saved. *)
Definition check_claims (policy : ProfilePolicy) (points : list TracePoint) (declared : list string)
    (snapshots : list BufferedSnapshot) : Validated unit :=
  _ ← reject_if (bool_decide (snapshots = []) || (max_observations policy <? count snapshots)%Z)
        "snapshot count is empty or exceeds bound";
  _ ← reject_if (bool_decide (metric policy = None) && negb (count snapshots =? count points)%Z)
        "fixed-count profiles must save every checked iterate";
  thresholds ← check_snapshots policy points declared 0 None [] [] snapshots;
  _ ← reject_if match last snapshots with
                | Some s => negb (bs_trace_index s =? count points - 1)%Z
                | None => true
                end
        "terminal iterate requires a snapshot";
  for_each (fun th =>
      reject_if (existsb (fun p => point_reaches policy p th) points && negb (contains th thresholds))
        "first threshold crossing was not saved") (Policy.thresholds policy).

Definition check_stop (policy : ProfilePolicy) (active : Z) (points : list TracePoint)
    (snapshots : list BufferedSnapshot) (reason : StopReason) : Validated unit :=
  let last_point f := match last points with Some p => f p | None => false end in
  match reason with
  | StopTargetReached =>
      reject_if (negb (last_point (point_reaches_target policy))) "unsubstantiated local target stop"
  | StopFixedCount =>
      reject_if (bool_decide (is_Some (metric policy)) || negb (count snapshots =? max_observations policy)%Z)
        "unsubstantiated fixed-count stop"
  | TraceLimit =>
      reject_if (negb (count points =? max_trace_points policy)%Z) "unsubstantiated trace-limit stop"
  | ObservationLimit =>
      reject_if (negb (count snapshots =? max_observations policy)%Z)
        "unsubstantiated observation-limit stop"
  | StopActiveTimeLimit =>
      reject_if (last_point (fun p => (tp_time p <? active)%Z)) "unsubstantiated active-time stop"
  | ByteLimit | ImplementationStopped => Ok tt
  end.

(** ** The whole validation *)

(** What the directory of the buffer holds: the sizes found by
    [inventory_files], the digest of [hash_local_tree] before and after, and the
    contents of its files. *)
Record BufferDirectory := {
  bd_inventory : Validated (list (string * Z));
  bd_tree_before : Validated bytes;
  bd_tree_after : Validated bytes;
  bd_read : string -> Validated bytes;
}.

(** [slice.split(|b| *b == b'\n')]. *)
Fixpoint split_lines (b : bytes) : list bytes :=
  match b with
  | [] => [[]]
  | c :: b =>
      if Ascii.eqb c newline then [] :: split_lines b
      else match split_lines b with
           | line :: lines => (c :: line) :: lines
           | [] => [[c]]
           end
  end.
Definition trace_lines (trace : bytes) : list bytes :=
  List.filter (fun l => negb (bool_decide (l = []))) (split_lines trace).

Definition lookup_path {A} (path : string) (l : list (string * A)) : option A :=
  snd <$> List.find (fun kv => path_eqb path kv.1) l.

Section Validation.
Context `{ThirdParty}.
Context (document : bytes -> raw * bool).
Context (json_text : InputError -> string) (serde_text serializer_text : string)
  (policy_text : PolicyError -> string) (violation_text : CanonicalValueViolation -> string).

(** [CanonicalValue::from_slice], then [serde_json::from_value]. *)
Definition parse_as {A} (decode : value -> option A) (b : bytes) : Validated A :=
  let '(r, at_end) := document b in
  v ← map_err json_text (from_slice r at_end);
  ok_or (decode v) serde_text.

(** The checked sum of the sizes. *)
Definition total_size (actual : list (string * Z)) : Validated Z :=
  try_fold (fun sum kv => ok_or (checked_add_u64 sum kv.2) "buffer size overflow") 0%Z actual.

Definition check_file (dir : BufferDirectory) (actual : list (string * Z)) (declared : list string)
    (entry : BufferFile) : Validated (list string) :=
  _ ← safe_path (bf_path entry);
  _ ← reject_if
    (existsb (path_eqb (bf_path entry)) declared
     || negb (bool_decide (lookup_path (bf_path entry) actual = Some (bf_size entry))))
    "duplicate, missing, or incorrectly sized buffer file";
  data ← bd_read dir (bf_path entry);
  _ ← reject_if (negb (String.eqb (bf_sha256 (file (bf_path entry) data)) (bf_sha256 entry)))
        "buffer file hash mismatch";
  Ok (declared ++ [bf_path entry]).

Definition parse_trace (profile : SelectedBufferedProfile) (trace : bytes) : Validated (list TracePoint) :=
  try_fold (fun points line =>
      p ← parse_as decode_point line;
      let points := points ++ [p] in
      _ ← reject_if (max_trace_points (bp_policy profile) <? count points)%Z "trace point bound exceeded";
      Ok points) [] (trace_lines trace).

(** The size of the buffer after the check [index], with its shortest end. *)
Definition prefix_size (m : BufferedManifest) (index prefix_trace_bytes : Z) : Validated Z :=
  let snapshots := List.filter (fun s => (bs_trace_index s <=? index)%Z) (bm_snapshots m) in
  let parents := map (fun s => removelast (components (bs_manifest s))) snapshots in
  let files := List.filter (fun f => path_eqb (bf_path f) (bm_trace m)
                                     || existsb (starts_with_path (bf_path f)) parents) (bm_files m) in
  let files := map (fun f => if path_eqb (bf_path f) (bm_trace m)
                             then {| bf_path := bf_path f; bf_sha256 := bf_sha256 f;
                                     bf_size := prefix_trace_bytes |} else f) files in
  let prefix := {|
    bm_schema_version := bm_schema_version m; bm_complete := bm_complete m; bm_clock := bm_clock m;
    bm_scope := bm_scope m; bm_total := MAX_SAFE_INTEGER; bm_stop_reason := ImplementationStopped;
    bm_trace := bm_trace m; bm_snapshots := snapshots; bm_files := files |} in
  v ← map_err violation_text (Canonical.try_from (manifest_value prefix));
  data ← ok_or (to_vec v) serializer_text;
  Ok (foldr Z.add 0 (map bf_size files) + count data)%Z.

Fixpoint check_reserve (policy : ProfilePolicy) (m : BufferedManifest) (index prefix_trace_bytes : Z)
    (lines : list bytes) : Validated unit :=
  match lines with
  | [] => Ok tt
  | line :: lines =>
      let prefix_trace_bytes := (prefix_trace_bytes + (count line + 1))%Z in
      size ← prefix_size m index prefix_trace_bytes;
      _ ← reject_if (max_buffer_bytes policy - terminal_reserve_bytes policy <? size)%Z
            "regular collection consumed the terminal byte reserve";
      check_reserve policy m (index + 1) prefix_trace_bytes lines
  end.

Definition validate_buffer (dir : BufferDirectory) (path : string) (profile : SelectedBufferedProfile)
  : Validated (BufferedManifest * list TracePoint) :=
  let policy := bp_policy profile in
  _ ← map_err policy_text (Policy.validate policy);
  _ ← map_err policy_text (Policy.validate_buffered policy);
  actual ← bd_inventory dir;
  total ← total_size actual;
  _ ← reject_if (max_buffer_bytes policy <? total)%Z "buffer exceeds max-buffer-bytes";
  inventory ← bd_tree_before dir;
  _ ← safe_path path;
  data ← bd_read dir path;
  m ← parse_as decode_manifest data;
  _ ← reject_if
    (negb (bm_schema_version m =? 1)%Z || negb (bm_complete m)
     || negb (String.eqb (bm_clock m) "monotonic_ns")
     || negb (String.eqb (bm_scope m) (bp_instrumented_scope profile))
     || (MAX_SAFE_INTEGER <? bm_total m)%Z)
    "invalid buffer version, completion, clock, scope, or total duration";
  let actual := List.filter (fun kv => negb (path_eqb path kv.1)) actual in
  declared ← try_fold (check_file dir actual) [] (bm_files m);
  _ ← reject_if (negb (forallb (fun kv => existsb (path_eqb kv.1) declared) actual))
        "buffer contains undeclared files";
  _ ← reject_if (negb (existsb (path_eqb (bm_trace m)) declared)) "trace is not declared";
  trace ← bd_read dir (bm_trace m);
  _ ← reject_if (negb (bool_decide (last trace = Some newline)))
        "trace must end with a complete JSONL row";
  points ← parse_trace profile trace;
  _ ← reject_if (negb (terminal_at_end points))
        "buffer requires exactly one terminal check at its end";
  active ← map_err policy_text (Policy.active_time_ns policy);
  _ ← check_points profile (bm_total m) active None (Check.next_after (bp_check_schedule profile) None) points;
  _ ← check_claims policy points declared (bm_snapshots m);
  _ ← check_stop policy active points (bm_snapshots m) (bm_stop_reason m);
  _ ← check_reserve policy m 0 0 (take (length points - 1) (trace_lines trace));
  after ← bd_tree_after dir;
  _ ← reject_if (negb (bool_decide (after = inventory))) "buffer changed during validation";
  Ok (m, points).

(** [adopt_buffer]: native code wrote the buffer. *)
Definition adopt_buffer (t : BufferedTrace) (dir : BufferDirectory) (path : string)
  : Collected unit * BufferedTrace :=
  if negb (bool_decide (points t = [])) || finished t
  then (Err (invalid "cannot combine a native buffer with another trajectory"), t)
  else match validate_buffer dir path (profile t) with
  | Err e => (Err (invalid e), t)
  | Ok _ =>
      (Ok tt, {| profile := profile t; points := points t; snapshots := snapshots t;
                 trace_bytes := trace_bytes t; snapshot_bytes := snapshot_bytes t;
                 reached := reached t; stopped := stopped t; finished := true; total := total t;
                 adopted := Some path |})
  end.
End Validation.
