(* ===== verification/Trajectory.v ===== *)
(** * What the collector records, the validator accepts

    The trajectory rules of [validate_buffer] hold of every buffer that a
    [BufferedTrace] finishes: its points, the claims of its snapshots and its
    reason to stop. *)
From S2P Require Import Prelude Json Canonical Identity ThirdPartyModel Profile Records Manifest Framing Redaction Wire Messages Handshake Session Streaming Buffered BufferValidation.
From Stdlib Require Import Ascii Floats.SpecFloat.

(** ** Thresholds of a validated policy *)

Lemma SFleb_antisym a b : SFleb a b = true -> SFleb b a = true -> SFeqb a b = true.
Proof.
  unfold SFleb, SFeqb, SFcompare.
  destruct a as [[]|[]| |[] ma ea], b as [[]|[]| |[] mb eb]; try done;
    change (Pos.compare_cont Eq ?x ?y) with (Pos.compare x y);
    destruct (Z.compare_spec ea eb), (Z.compare_spec eb ea); try done; try lia;
    destruct (Pos.compare_spec ma mb), (Pos.compare_spec mb ma); simpl; try done; lia.
Qed.
Lemma SFeqb_leb a b : SFeqb a b = true -> SFleb a b = true /\ SFleb b a = true.
Proof.
  unfold SFleb, SFeqb, SFcompare.
  destruct a as [[]|[]| |[] ma ea], b as [[]|[]| |[] mb eb]; try done;
    change (Pos.compare_cont Eq ?x ?y) with (Pos.compare x y);
    destruct (Z.compare_spec ea eb), (Z.compare_spec eb ea); try done; try lia;
    destruct (Pos.compare_spec ma mb), (Pos.compare_spec mb ma); simpl; try done; lia.
Qed.
Lemma SFeqb_refl a : is_finite a = true -> SFeqb a a = true.
Proof. intros Ha. apply SFleb_antisym; by apply Policy.SFleb_refl. Qed.

Lemma contains_elem th l : is_finite th = true -> th ∈ l -> contains th l = true.
Proof.
  intros Hf Hin. apply existsb_exists. exists th. split; [by apply list_elem_of_In|by apply SFeqb_refl].
Qed.
Lemma contains_app th k l : contains th (k ++ l) = contains th k || contains th l.
Proof. apply existsb_app. Qed.

(** No threshold is recorded twice. *)
Fixpoint distinct (l : list spec_float) : Prop :=
  match l with
  | [] => True
  | th :: l => contains th l = false /\ distinct l
  end.
Lemma unordered_distinct p l : Policy.unordered p l = false -> distinct l.
Proof.
  induction l as [|a l IH]; [done|]. intros Hu. pose proof Hu as Hall.
  destruct l as [|b l]; [done|]. cbn [Policy.unordered] in Hu. bools.
  split; [|by apply IH].
  apply not_true_is_false. intros (c & Hc & Hac)%existsb_exists. apply list_elem_of_In in Hc.
  apply list_elem_of_lookup in Hc as [j Hj].
  assert (Policy.reaches p a b = true) as Hab.
  { destruct j as [|j]; [injection Hj as <-; congruence|].
    pose proof (Policy.unordered_suffix p (b :: l) 0 (S j) b c) as Hbc.
    specialize (Hbc ltac:(assumption) ltac:(lia) eq_refl Hj).
    revert Hbc. apply SFeqb_leb in Hac as [? ?].
    unfold Policy.reaches. destruct (direction p) as [[]|]; [| |done]; eauto using Policy.SFleb_trans. }
  assert (SFeqb a b = true); [|congruence].
  unfold Policy.reaches in *. destruct (direction p) as [[]|]; [| |done]; by apply SFleb_antisym.
Qed.

Record policy_facts (p : ProfilePolicy) : Prop := {
  pf_finite : Forall (fun th => is_finite th = true) (Policy.thresholds p);
  pf_distinct : distinct (Policy.thresholds p);
  pf_metric : metric p = None -> Policy.thresholds p = [];
}.
Lemma validated_policy p : Policy.validate p = Ok tt -> policy_facts p.
Proof.
  unfold Policy.validate. destruct (_ || _); [done|]. intros (u & _ & (n & _ & Hp)%bind_Ok)%bind_Ok.
  destruct (metric p) as [m|] eqn:Em.
  - destruct (direction p); [|done]. destruct (threshold p); [|done]. destruct (_ && _); [|done].
    destruct (_ || _ || _ || _) eqn:Hbad; [done|]. bools.
    constructor; [|by eapply unordered_distinct|by rewrite Em].
    apply Forall_forall. intros x Hx. apply not_false_is_true. intros Hf.
    match goal with H : existsb _ _ = false |- _ =>
      apply not_true_iff_false in H; apply H, existsb_exists end.
    exists x. split; [by apply list_elem_of_In|]. by rewrite Hf.
  - destruct (direction p); [done|]. destruct (threshold p) eqn:Et; [done|].
    destruct (record_thresholds p) eqn:Er; [|done].
    assert (Policy.thresholds p = []) as E by (unfold Policy.thresholds; by rewrite Er, Et).
    constructor; rewrite E; [constructor|done|done].
Qed.

(** ** The trace *)

Lemma reject_if_Ok b message : reject_if b message = Ok tt <-> b = false.
Proof. unfold reject_if, ensure. by destruct b. Qed.
Lemma reject_bind_Ok {A} b message (k : unit -> Validated A) x :
  (reject_if b message ≫= k) = Ok x <-> b = false /\ k tt = Ok x.
Proof. unfold reject_if, ensure. by destruct b; naive_solver. Qed.

Lemma and_iff_compat A B C D : (A <-> B) -> (C <-> D) -> (A /\ C <-> B /\ D).
Proof. tauto. Qed.

Section Trace.
Context (sel : SelectedBufferedProfile) (total active : Z).

Definition next_check (previous : option TracePoint) : option Z :=
  Check.next_after (bp_check_schedule sel) (tp_check_index <$> previous).
Definition admissible (previous : option TracePoint) (p : TracePoint) : Prop :=
  check_point sel total active previous (next_check previous) p = Ok tt.
Fixpoint trace_ok (previous : option TracePoint) (l : list TracePoint) : Prop :=
  match l with
  | [] => True
  | p :: l => admissible previous p /\ trace_ok (Some p) l
  end.

Lemma check_points_trace previous l :
  check_points sel total active previous (next_check previous) l = Ok tt <-> trace_ok previous l.
Proof.
  revert previous. induction l as [|p l IH]; intros previous; [done|].
  cbn [check_points trace_ok]. rewrite <-(IH (Some p)). unfold admissible.
  destruct (check_point _ _ _ _ _ p) as [[]|e]; cbn; naive_solver.
Qed.

Definition last_from (previous : option TracePoint) (l : list TracePoint) : option TracePoint :=
  match last l with Some q => Some q | None => previous end.
Lemma trace_ok_snoc previous l p :
  trace_ok previous (l ++ [p]) <-> trace_ok previous l /\ admissible (last_from previous l) p.
Proof.
  revert previous. induction l as [|q l IH]; intros previous; [cbn; tauto|].
  cbn [app trace_ok]. rewrite IH. unfold last_from. rewrite last_cons.
  destruct (last l); tauto.
Qed.

(** What [check_point] accepts, guard by guard. *)
Lemma admissible_spec previous p :
  admissible previous p <->
  ((tp_check_index p <= MAX_SAFE_INTEGER)%Z /\ (tp_time p <= total)%Z /\ is_object (tp_metrics p) = true /\
   (tp_terminal p = false -> next_check previous = Some (tp_check_index p)) /\
   (forall n, tp_terminal p = true -> next_check previous = Some n -> (tp_check_index p <= n)%Z) /\
   StreamCheckpoint.safe_work (tp_work p) = true) /\
  (forall q, previous = Some q -> (tp_check_index q < tp_check_index p)%Z /\ (tp_time q <= tp_time p)%Z /\
     work_regressed (tp_work q) (tp_work p) = false) /\
  (forall m, metric (bp_policy sel) = Some m ->
     exists v, metric_f64 (tp_metrics p) m = Some v /\ is_finite v = true) /\
  (tp_terminal p = false ->
     (tp_time p < active)%Z /\ point_reaches_target (bp_policy sel) p = false).
Proof.
  unfold admissible, check_point. rewrite !reject_bind_Ok, reject_if_Ok.
  apply and_iff_compat; [|apply and_iff_compat; [|apply and_iff_compat]].
  - rewrite !orb_false_iff, !negb_false_iff, !Z.ltb_ge.
    destruct (tp_terminal p); cbn [negb andb]; [|rewrite negb_false_iff, bool_decide_eq_true];
      destruct (next_check previous) as [n|]; rewrite ?Z.ltb_ge; naive_solver congruence.
  - destruct previous as [q|]; [|naive_solver].
    rewrite !orb_false_iff, Z.leb_gt, Z.ltb_ge. naive_solver lia.
  - destruct (metric (bp_policy sel)) as [m|]; [|naive_solver].
    destruct (metric_f64 (tp_metrics p) m) as [v|] eqn:E; rewrite ?negb_false_iff; split.
    + intros Hf m' [= <-]. by exists v.
    + intros Hm. destruct (Hm m eq_refl) as (w & Hw & Hf). congruence.
    + done.
    + intros Hm. destruct (Hm m eq_refl) as (w & Hw & Hf). congruence.
  - destruct (tp_terminal p); cbn [negb andb]; [naive_solver|].
    rewrite orb_false_iff, Z.leb_gt. naive_solver.
Qed.
End Trace.

Lemma trace_ok_total sel total total' active previous l :
  trace_ok sel total active previous l -> Forall (fun p => tp_time p <= total')%Z l ->
  trace_ok sel total' active previous l.
Proof.
  revert previous. induction l as [|p l IH]; intros previous; [done|].
  intros [Hp Hl] [Ht Hts]%Forall_cons. split; [|by apply IH].
  apply admissible_spec. apply admissible_spec in Hp. tauto.
Qed.
Lemma trace_ok_times sel total active l q :
  trace_ok sel total active None l -> last l = Some q -> Forall (fun p => tp_time p <= tp_time q)%Z l.
Proof.
  revert q. induction l as [|p l IH] using rev_ind; intros q; [done|].
  rewrite trace_ok_snoc, last_snoc. intros [Hl Hp] [= <-]. apply Forall_app. split; [|by repeat constructor].
  apply admissible_spec in Hp as (_ & Hprev & _). unfold last_from in Hprev.
  destruct (last l) as [r|] eqn:E; [|by apply last_None in E as ->].
  destruct (Hprev r eq_refl) as (_ & Htime & _).
  eapply Forall_impl; [by apply IH|]. cbn. lia.
Qed.

(** ** The claims of the snapshots *)

Lemma existsb_metrics policy th l :
  existsb (fun p => point_reaches policy p th) l =
  existsb (fun m => match metric policy ≫= fun k => value_f64 (index m k) with
                    | Some v => Policy.reaches policy v th | None => false end) (map tp_metrics l).
Proof. induction l as [|p l IH]; cbn; [done|]. by rewrite IH. Qed.

(** The claims about the first points only read their metrics. *)
Lemma check_claim_prefix policy P P' k i ths th :
  map tp_metrics P' = map tp_metrics P ++ k -> (i < length P)%nat ->
  check_claim policy P' i ths th = check_claim policy P i ths th.
Proof.
  intros Hp Hi. unfold check_claim. rewrite !existsb_metrics, <-!firstn_map, Hp.
  rewrite take_app_le by (rewrite length_map; lia).
  assert (tp_metrics <$> P' !! i = tp_metrics <$> P !! i) as Hl.
  { rewrite <-!list_lookup_fmap. change (tp_metrics <$> P') with (map tp_metrics P').
    rewrite Hp. rewrite lookup_app_l by (rewrite length_map; lia). done. }
  unfold point_reaches, point_metric.
  destruct (P' !! i) as [p'|], (P !! i) as [p|]; try done. injection Hl as ->. done.
Qed.

Lemma check_snapshots_prefix policy P P' k declared l : forall i prev seen ths,
  map tp_metrics P' = map tp_metrics P ++ k ->
  Forall (fun s => 0 <= bs_trace_index s < count P)%Z l ->
  check_snapshots policy P' declared i prev seen ths l = check_snapshots policy P declared i prev seen ths l.
Proof.
  intros i prev seen ths Hp Hl. revert i prev seen ths. induction Hl as [|s l Hs _ IH]; intros i prev seen ths; [done|].
  assert (length P <= length P')%nat as Hlen.
  { apply (f_equal length) in Hp. rewrite length_app, !length_map in Hp. lia. }
  cbn [check_snapshots]. unfold count in *. rewrite !(proj2 (Z.leb_gt _ (bs_trace_index s))) by lia.
  assert (try_fold (check_claim policy P' (Z.to_nat (bs_trace_index s))) ths (bs_thresholds s) =
          try_fold (check_claim policy P (Z.to_nat (bs_trace_index s))) ths (bs_thresholds s)) as ->.
  { apply try_fold_ext. intros acc th. eapply check_claim_prefix; [done|lia]. }
  destruct (reject_if _ _); [|done]. cbn.
  destruct (try_fold _ ths (bs_thresholds s)); [|done]. cbn. apply IH.
Qed.

Lemma check_snapshots_snoc policy P declared s l out out' : forall i prev seen ths,
  check_snapshots policy P declared i prev seen ths l = Ok out ->
  bs_ordinal s = (i + count l)%Z -> (bs_trace_index s < count P)%Z ->
  (forall j, prev = Some j \/ j ∈ seen \/ j ∈ map bs_trace_index l -> j < bs_trace_index s)%Z ->
  existsb (path_eqb (bs_manifest s)) declared = true ->
  try_fold (check_claim policy P (Z.to_nat (bs_trace_index s))) out (bs_thresholds s) = Ok out' ->
  check_snapshots policy P declared i prev seen ths (l ++ [s]) = Ok out'.
Proof.
  induction l as [|x l IH]; intros i prev seen ths; cbn [app check_snapshots].
  - intros [= <-] Hi Hs Hj Hd Hf. unfold count in Hi. cbn in Hi. rewrite Hi, Hd.
    rewrite (proj2 (Z.eqb_eq _ _)) by lia. rewrite (proj2 (Z.leb_gt _ _)) by lia.
    rewrite bool_decide_eq_false_2 by (intros Hin; specialize (Hj _ (or_intror (or_introl Hin))); lia).
    assert (match prev with Some j => (bs_trace_index s <=? j)%Z | None => false end = false) as ->.
    { destruct prev as [j|]; [|done]. apply Z.leb_gt. apply Hj. by left. }
    cbn. by rewrite Hf.
  - intros Hx Hi Hs Hj Hd Hf. destruct (reject_if _ _) as [[]|]; [|done]. cbn in Hx |- *.
    destruct (try_fold _ ths (bs_thresholds x)) as [ths'|]; [|done]. cbn in Hx |- *.
    apply (IH (i + 1)%Z (Some (bs_trace_index x)) (bs_trace_index x :: seen) ths'); auto.
    + unfold count in *. cbn in Hi. lia.
    + intros j [[= <-]|[Hin|Hin]]; apply Hj; cbn [map]; set_solver.
Qed.

(** The thresholds that a check crosses are first claims. *)
Lemma crossed_claims policy P i p ths l :
  P !! i = Some p -> policy_facts policy -> distinct l ->
  Forall (fun th => th ∈ Policy.thresholds policy /\ point_reaches policy p th = true /\
    contains th ths = false /\ existsb (fun p => point_reaches policy p th) (take i P) = false) l ->
  try_fold (check_claim policy P i) ths l = Ok (ths ++ l).
Proof.
  intros Hp Hfacts. revert ths. induction l as [|th l IH]; intros ths; [by rewrite app_nil_r|].
  intros [Hc Hd] [(Hin & Hr & Hn & He) Hl]%Forall_cons. cbn [try_fold].
  assert (check_claim policy P i ths th = Ok (ths ++ [th])) as ->.
  { unfold check_claim. rewrite Hp, Hr, Hn, He.
    pose proof (pf_finite _ Hfacts) as Hf. rewrite Forall_forall in Hf.
    by rewrite contains_elem by auto. }
  cbn [mbind result_bind]. rewrite IH; [by rewrite <-app_assoc|done|].
  rewrite Forall_forall in Hl |- *. intros th' Hth'. destruct (Hl th' Hth') as (Hin' & Hr' & Hn' & He').
  repeat split; auto. rewrite contains_app, Hn'. cbn. rewrite orb_false_r.
  destruct (SFeqb th' th) eqn:E; [|done].
  assert (contains th l = true); [|congruence].
  apply existsb_exists. exists th'. split; [by apply list_elem_of_In|].
  apply SFeqb_leb in E as [? ?]. by apply SFleb_antisym.
Qed.
Lemma distinct_filter f l : distinct l -> distinct (List.filter f l).
Proof.
  induction l as [|th l IH]; [done|]. intros [Hc Hd]. cbn. destruct (f th); [|by apply IH].
  split; [|by apply IH]. apply not_true_is_false. intros (x & Hx & E)%existsb_exists.
  apply filter_In in Hx as [Hx _].
  assert (contains th l = true); [|congruence]. apply existsb_exists. eauto.
Qed.

(** ** One check of the collector *)

Section Collector.
Context `{ThirdParty}.
Context (violation_text : CanonicalValueViolation -> string) (serializer_text : string)
  (policy_text : PolicyError -> string) (schedule_text : ScheduleError -> string).
Abbreviation check := (check violation_text serializer_text policy_text).
Abbreviation finish := (finish violation_text serializer_text policy_text).
Abbreviation record_check := (record_check violation_text serializer_text policy_text).

(** Why a check may stop the run. *)
Definition justified (t : BufferedTrace) (active elapsed : Z) (target : option spec_float)
    (reason : StopReason) : Prop :=
  let policy := bp_policy (profile t) in
  match reason with
  | StopTargetReached => target_reached t target = true
  | StopActiveTimeLimit => (active <= elapsed)%Z
  | TraceLimit => (max_trace_points policy <= count (points t) + 1)%Z
  | StopFixedCount => metric policy = None /\ (max_observations policy <= count (snapshots t) + 1)%Z
  | ObservationLimit => (max_observations policy <= count (snapshots t) + 1)%Z
  | ByteLimit | ImplementationStopped => True
  end.

Lemma active_time_eq t active :
  Policy.active_time_ns (bp_policy (profile t)) = Ok active -> active_time policy_text t = Ok active.
Proof. unfold active_time. by intros ->. Qed.

Lemma stop_reason_spec t terminal elapsed target active reason :
  Policy.active_time_ns (bp_policy (profile t)) = Ok active ->
  stop_reason policy_text t terminal elapsed target = Ok reason ->
  match reason with
  | Some r => justified t active elapsed target r
  | None => terminal = false /\ target_reached t target = false /\ (elapsed < active)%Z /\
            (count (points t) + 1 < max_trace_points (bp_policy (profile t)))%Z
  end.
Proof.
  intros Ha. unfold stop_reason. rewrite (active_time_eq t active Ha).
  destruct (target_reached t target) eqn:Ht; [by intros [= <-]|].
  destruct terminal; [by intros [= <-]|]. cbn.
  destruct (active <=? elapsed)%Z eqn:E1; [intros [= <-]; by bools|].
  destruct (max_trace_points _ <=? _)%Z eqn:E2; intros [= <-]; bools; [exact E2|auto].
Qed.

Lemma limit_bytes_spec t p metrics elapsed captured reason line reason' line' :
  limit_bytes violation_text serializer_text t p metrics elapsed captured reason line = Ok (reason', line') ->
  (reason' = reason /\ line' = line /\
     (reason = None -> limit_bytes violation_text serializer_text t p metrics elapsed captured reason line
                       = Ok (reason, line))) \/
  (reason = None /\ reason' = Some ByteLimit).
Proof.
  intros E. pose proof E as E'. revert E'. unfold limit_bytes. destruct reason as [r|].
  - intros [= <- <-]. by left.
  - intros (size & _ & Hs)%bind_Ok. destruct (_ <? size)%Z.
    + apply bind_Ok in Hs as (l & _ & [= <- <-]). by right.
    + injection Hs as <- <-. left. auto.
Qed.

(** What [record_check] puts into a recording. *)
Record recorded (t : BufferedTrace) (p : Progress) (metrics : value) (target : option spec_float)
    (terminal : bool) (active elapsed : Z) (r : Recording) : Prop := {
  rd_point : rc_point r = point p metrics elapsed (rc_reason r);
  rd_crossed : rc_crossed r = crossed t target;
  rd_reason reason : rc_reason r = Some reason ->
    justified t active elapsed target reason /\ is_Some (rc_captured r);
  rd_continue : rc_reason r = None ->
    terminal = false /\ target_reached t target = false /\ (elapsed < active)%Z /\
    (count (points t) + 1 < max_trace_points (bp_policy (profile t)))%Z /\
    (is_Some (rc_captured r) -> (count (snapshots t) + 1 < max_observations (bp_policy (profile t)))%Z);
  rd_captured : rc_captured r = None ->
    metric (bp_policy (profile t)) <> None /\ crossed t target = [];
}.

Lemma capture_reason_spec t crossings reason capture reason' :
  capture_reason t crossings reason = (capture, reason') ->
  (reason' = reason \/ (reason = None /\ exists r, reason' = Some r /\ (r = StopFixedCount \/ r = ObservationLimit) /\
     (r = StopFixedCount -> metric (bp_policy (profile t)) = None) /\
     (max_observations (bp_policy (profile t)) <= count (snapshots t) + 1)%Z)) /\
  (is_Some reason' -> capture = true) /\
  (reason' = None -> capture = true ->
     (count (snapshots t) + 1 < max_observations (bp_policy (profile t)))%Z) /\
  (capture = false -> metric (bp_policy (profile t)) <> None /\ crossings = []).
Proof.
  unfold capture_reason. intros [= <- <-].
  set (capture := bool_decide (metric _ = None) || _ || _).
  assert (is_Some reason -> capture = true) as Hr.
  { intros Hr. unfold capture. rewrite (bool_decide_eq_true_2 (is_Some reason)) by done. by rewrite orb_true_r. }
  destruct capture eqn:Hc; cbn [andb].
  - destruct (max_observations _ <=? _)%Z eqn:Hm; cbn [andb]; bools.
    + destruct reason as [r|]; [rewrite bool_decide_eq_false_2 by done; split; [by left|naive_solver]|].
      rewrite bool_decide_eq_true_2 by done. split; [|naive_solver]. right. split; [done|].
      eexists. split; [done|]. case_bool_decide; naive_solver.
    + split; [by left|]. repeat split; intros; try done; try lia.
  - unfold capture in Hc. bools. split; [by left|]. repeat split; intros; try done; auto.
Qed.

Lemma record_check_spec t p metrics target snapshot terminal elapsed active r :
  Policy.active_time_ns (bp_policy (profile t)) = Ok active ->
  record_check t p metrics target snapshot terminal elapsed = Ok r ->
  recorded t p metrics target terminal active elapsed r.
Proof.
  intros Ha. unfold Buffered.record_check.
  intros (reason & Hreason & Hrest)%bind_Ok.
  apply (stop_reason_spec _ _ _ _ _ _ Ha) in Hreason.
  destruct (capture_reason t (crossed t target) reason) as [capture reason1] eqn:Hcap.
  apply capture_reason_spec in Hcap as (H1 & Hc1 & Hc2 & Hc3).
  apply bind_Ok in Hrest as (line & _ & Hrest).
  apply bind_Ok in Hrest as ([reason2 line2] & Hl2 & Hrest).
  apply bind_Ok in Hrest as (captured & Hcaptured & Hrest).
  apply bind_Ok in Hrest as ([reason3 line3] & Hl3 & Hrest).
  apply bind_Ok in Hrest as (size & _ & Hrest). destruct (_ <? size)%Z; [done|].
  injection Hrest as <-.
  (* the snapshot is taken exactly when it is due or the run ends *)
  assert (is_Some captured <-> capture = true \/ is_Some reason2) as Hsome.
  { destruct (capture || bool_decide (is_Some reason2)) eqn:E.
    - apply bind_Ok in Hcaptured as (d & _ & (b & _ & Hb)%bind_Ok).
      destruct (is_object d); [|done]. injection Hb as <-.
      apply orb_true_iff in E as [->|E%bool_decide_eq_true]; naive_solver.
    - injection Hcaptured as <-. bools. split; [by intros []|naive_solver]. }
  (* an undecided check without a snapshot fits, and is not looked at again *)
  assert (is_Some reason3 -> is_Some captured) as Hended.
  { intros Hr3. apply Hsome. destruct capture eqn:Ec; [by left|]. right.
    apply limit_bytes_spec in Hl2 as [(-> & -> & Hsame)|[_ ->]]; [|done].
    destruct reason1 as [r1|]; [done|]. specialize (Hsame eq_refl).
    rewrite bool_decide_eq_false_2 in Hcaptured by (by intros []). injection Hcaptured as <-.
    rewrite Hsame in Hl3. injection Hl3 as <- <-. by destruct Hr3. }
  assert (reason3 = reason1 \/ reason1 = None /\ reason3 = Some ByteLimit) as H3.
  { apply limit_bytes_spec in Hl2 as [(-> & _ & _)|[-> ->]];
      apply limit_bytes_spec in Hl3 as [(-> & _ & _)|[? ->]]; auto; done. }
  constructor; cbn [rc_point rc_crossed rc_reason rc_captured]; [done|done| | |].
  - intros re ->. split; [|by apply Hended].
    destruct H3 as [<-|[_ [= ->]]]; [|done].
    destruct H1 as [<-|(-> & r & [= ->] & Hr & Hr1 & Hr2)]; [done|].
    destruct Hr as [->| ->]; [|done]. split; auto.
  - intros ->. destruct H3 as [<-|[_ ?]]; [|done].
    destruct H1 as [<-|(-> & r & ? & _)]; [|done]. destruct Hreason as (? & ? & ? & ?).
    repeat split; auto. intros Hs. apply Hsome in Hs as [Hs|Hs]; [auto|].
    apply limit_bytes_spec in Hl2 as [(-> & _ & _)|[_ ->]]; [by destruct Hs|].
    by apply limit_bytes_spec in Hl3 as [(? & _ & _)|[? ?]].
  - intros ->. apply Hc3. destruct capture; [|done]. by destruct (proj2 Hsome (or_introl eq_refl)).
Qed.

Lemma observed_spec t measure elapsed metrics target :
  observed violation_text t measure elapsed = Ok (metrics, target) ->
  is_object metrics = true /\ (elapsed <= MAX_SAFE_INTEGER)%Z /\
  (forall q, last (points t) = Some q -> (tp_time q <= elapsed)%Z) /\
  (forall m, metric (bp_policy (profile t)) = Some m ->
     exists v, metric_f64 metrics m = Some v /\ is_finite v = true) /\
  target = metric (bp_policy (profile t)) ≫= fun m => value_f64 (index metrics m).
Proof.
  unfold observed. intros (v & _ & Hv)%bind_Ok. destruct (is_object v) eqn:Ho; [|done].
  apply bind_Ok in Hv as (c & _ & Hv). destruct (_ || _) eqn:Hg; [done|]. bools.
  assert (forall m, metric_f64 v m = value_f64 (index v m)) as Hm.
  { intros m. destruct v as [| | | | |o]; try done. unfold metric_f64, get_field. cbn.
    by destruct (map_get m o). }
  assert (forall q, last (points t) = Some q -> (tp_time q <= elapsed)%Z) as Hlast.
  { intros q Hq. rewrite Hq in *. by bools. }
  destruct (metric (bp_policy (profile t))) as [m|].
  - destruct (metric_f64 v m) as [w|] eqn:Ew; [|done]. destruct (is_finite w) eqn:Ef; [|done].
    injection Hv as <- <-. repeat split; auto; [intros m' [= <-]; eauto|]. cbn. by rewrite <-Hm.
  - injection Hv as <- <-. by repeat split.
Qed.

Lemma admit_spec t p terminal now active :
  Policy.active_time_ns (bp_policy (profile t)) = Ok active ->
  admission policy_text t p terminal now = Ok true ->
  stopped t = None /\ (check_index p <= MAX_SAFE_INTEGER)%Z /\
  StreamCheckpoint.safe_work (work p) = true /\
  (forall q, last (points t) = Some q ->
     (tp_check_index q < check_index p)%Z /\ work_regressed (tp_work q) (work p) = false) /\
  (forall n, next_check (profile t) (last (points t)) = Some n -> (check_index p <= n)%Z) /\
  (terminal = true \/ (active <= now)%Z \/ next_check (profile t) (last (points t)) = Some (check_index p)).
Proof.
  intros Ha. unfold admission.
  change (Check.next_after _ _) with (next_check (profile t) (last (points t))).
  destruct (finished t || _ || _) eqn:H1; [done|].
  destruct ((MAX_SAFE_INTEGER <? _)%Z || _) eqn:H2; [done|].
  destruct (match last (points t) with
            | Some q => (check_index p <=? tp_check_index q)%Z || work_regressed (tp_work q) (work p)
            | None => false
            end) eqn:H3; [done|].
  destruct (match next_check (profile t) (last (points t)) with
            | Some n => (n <? check_index p)%Z
            | None => false
            end) eqn:H4; [done|].
  rewrite (active_time_eq t active Ha). cbn. intros [= Hdue]. bools.
  split; [destruct (stopped t); [|done]; exfalso; eauto|]. split; [done|]. split; [done|].
  split; [intros q Hq; rewrite Hq in H3; by bools|].
  split; [intros n Hn; rewrite Hn in H4; by bools|].
  apply orb_true_iff in Hdue as [Hdue|Hdue]; [apply orb_true_iff in Hdue as [?|?]|]; bools; auto.
Qed.

(** ** The invariant of a collector *)

Definition saved (t : BufferedTrace) : list BufferedSnapshot := map fst (snapshots t).

(** The state that a recording leaves: still open, or stopped for a reason that
    the validator accepts. *)
Definition state_ok (policy : ProfilePolicy) (active : Z) (points : list TracePoint)
    (saved : list BufferedSnapshot) (stopped : option StopReason) : Prop :=
  match stopped with
  | None =>
      Forall (fun p => tp_terminal p = false) points /\
      (count points < max_trace_points policy)%Z /\ (count saved < max_observations policy)%Z
  | Some reason =>
      terminal_at_end points = true /\
      (count points <= max_trace_points policy)%Z /\ (count saved <= max_observations policy)%Z /\
      (exists s, last saved = Some s /\ bs_trace_index s = (count points - 1)%Z) /\
      check_stop policy active points saved reason = Ok tt
  end.

Record sound (sel : SelectedBufferedProfile) (active : Z) (t : BufferedTrace) : Prop := {
  so_profile : profile t = sel;
  so_trace : trace_ok sel MAX_SAFE_INTEGER active None (points t);
  so_claims declared :
    Forall (fun s => existsb (path_eqb (bs_manifest s)) declared = true) (saved t) ->
    check_snapshots (bp_policy sel) (points t) declared 0 None [] [] (saved t) = Ok (reached t);
  so_indices : Forall (fun s => 0 <= bs_trace_index s < count (points t))%Z (saved t);
  so_last s : last (saved t) = Some s ->
    Forall (fun s' => bs_trace_index s' <= bs_trace_index s)%Z (saved t);
  so_fixed : metric (bp_policy sel) = None ->
    length (saved t) = length (points t) /\
    forall s, last (saved t) = Some s -> bs_trace_index s = (count (points t) - 1)%Z;
  so_reached p th : p ∈ points t -> th ∈ Policy.thresholds (bp_policy sel) ->
    point_reaches (bp_policy sel) p th = true -> contains th (reached t) = true;
  so_state : state_ok (bp_policy sel) active (points t) (saved t) (stopped t);
}.

Lemma terminal_at_end_snoc l p :
  Forall (fun p => tp_terminal p = false) l -> tp_terminal p = true -> terminal_at_end (l ++ [p]) = true.
Proof.
  intros Hl Hp. unfold terminal_at_end. rewrite last_snoc, removelast_last, Hp. cbn.
  apply negb_true_iff, not_true_is_false. intros (q & Hq & Ht)%existsb_exists.
  rewrite Forall_forall in Hl. specialize (Hl q (proj2 (list_elem_of_In _ _) Hq)). congruence.
Qed.
Lemma count_snoc {A} (l : list A) x : count (l ++ [x]) = (count l + 1)%Z.
Proof. unfold count. rewrite length_app. cbn. lia. Qed.
Lemma saved_count t : count (saved t) = count (snapshots t).
Proof. unfold saved, count. by rewrite length_map. Qed.

(** The point of a recording continues the trace. *)
Lemma recorded_admissible sel active t p terminal now elapsed measure metrics target r :
  profile t = sel -> Policy.active_time_ns (bp_policy sel) = Ok active -> (now <= elapsed)%Z ->
  admission policy_text t p terminal now = Ok true ->
  observed violation_text t measure elapsed = Ok (metrics, target) ->
  recorded t p metrics target terminal active elapsed r ->
  admissible sel MAX_SAFE_INTEGER active (last (points t)) (rc_point r).
Proof.
  intros <- Ha Hnow (_ & Hi & Hs & Hlast & Hn & Hdue)%(admit_spec _ _ _ _ _ Ha)
    (Ho & He & Ht & Hm & ->)%observed_spec Hr.
  rewrite (rd_point _ _ _ _ _ _ _ _ Hr). apply admissible_spec.
  assert (bool_decide (is_Some (rc_reason r)) = false -> terminal = false /\
    target_reached t (metric (bp_policy (profile t)) ≫= fun m => value_f64 (index metrics m)) = false /\
    (elapsed < active)%Z) as Hcont.
  { intros E%bool_decide_eq_false. destruct (rc_reason r) eqn:Er; [exfalso; eauto|].
    by destruct (rd_continue _ _ _ _ _ _ _ _ Hr Er) as (? & ? & ? & _). }
  unfold point at 1 2 3 4 5 6 7 8 9 10 11. cbn [tp_check_index tp_time tp_metrics tp_terminal tp_work].
  split; [|split; [|split]].
  - repeat split; auto. intros E. destruct (Hcont E) as (-> & _ & ?).
    destruct Hdue as [?|[?|?]]; [done|lia|done].
  - intros q Hq. destruct (Hlast q Hq). auto.
  - done.
  - intros E. destruct (Hcont E) as (_ & Htr & ?). split; [done|].
    revert Htr. unfold target_reached, point_reaches_target, point_reaches, point_metric. cbn.
    destruct (metric _ ≫= _), (threshold _); auto.
Qed.

Lemma point_reaches_point sel p metrics elapsed reason th :
  point_reaches (bp_policy sel) (point p metrics elapsed reason) th =
  match metric (bp_policy sel) ≫= fun m => value_f64 (index metrics m) with
  | Some v => Policy.reaches (bp_policy sel) v th
  | None => false
  end.
Proof. done. Qed.

(** The snapshot of a recording. *)
Definition snapshot_of (t : BufferedTrace) (r : Recording) : list BufferedSnapshot :=
  match rc_captured r with
  | Some _ => [{| bs_ordinal := count (snapshots t); bs_trace_index := count (points t);
                  bs_thresholds := rc_crossed r; bs_manifest := snapshot_path (count (snapshots t)) |}]
  | None => []
  end.

Lemma commit_spec t r :
  (count (snapshots t) < max_observations (bp_policy (profile t)))%Z ->
  let t' := (commit t r).2 in
  is_ok (commit t r).1 = true /\ profile t' = profile t /\ points t' = points t ++ [rc_point r] /\
  saved t' = saved t ++ snapshot_of t r /\ reached t' = reached t ++ rc_crossed r /\
  stopped t' = rc_reason r.
Proof.
  intros Hn. unfold commit, snapshot_of, saved. destruct (rc_captured r) as [data|]; cbn.
  - rewrite (proj2 (Z.leb_gt _ _)) by lia. cbn. rewrite map_app. cbn.
    rewrite (count_snoc (points t)). rewrite Z.add_simpl_r. by repeat split.
  - rewrite app_nil_r. by repeat split.
Qed.

Lemma claims_commit sel active t p metrics target terminal elapsed r declared :
  sound sel active t -> policy_facts (bp_policy sel) ->
  target = (metric (bp_policy sel) ≫= fun m => value_f64 (index metrics m)) ->
  recorded t p metrics target terminal active elapsed r ->
  Forall (fun s => existsb (path_eqb (bs_manifest s)) declared = true) (saved t ++ snapshot_of t r) ->
  check_snapshots (bp_policy sel) (points t ++ [rc_point r]) declared 0 None [] []
    (saved t ++ snapshot_of t r) = Ok (reached t ++ rc_crossed r).
Proof.
  intros Ht Hf Htarget Hr [Hd Hds]%Forall_app.
  assert (check_snapshots (bp_policy sel) (points t ++ [rc_point r]) declared 0 None [] [] (saved t)
          = Ok (reached t)) as Hold.
  { rewrite (check_snapshots_prefix _ (points t) _ [tp_metrics (rc_point r)]).
    - by apply (so_claims _ _ _ Ht).
    - by rewrite map_app.
    - apply (so_indices _ _ _ Ht). }
  unfold snapshot_of in *. destruct (rc_captured r) as [data|] eqn:Hc.
  - apply Forall_cons in Hds as [Hdecl _].
    eapply check_snapshots_snoc; [exact Hold| | | |exact Hdecl|]; cbn.
    + by rewrite saved_count.
    + rewrite count_snoc. lia.
    + intros j [?|[?|Hin]]; [done|set_solver|].
      apply list_elem_of_fmap in Hin as (s & -> & Hs).
      pose proof (so_indices _ _ _ Ht) as Hi. rewrite Forall_forall in Hi. by apply Hi.
    + rewrite (rd_crossed _ _ _ _ _ _ _ _ Hr). unfold count. rewrite Nat2Z.id.
      rewrite <-(so_profile _ _ _ Ht) in *.
      eapply crossed_claims; [by apply list_lookup_middle|done|by apply distinct_filter, Hf|].
      apply Forall_forall. intros th [Hin Hcross]%list_elem_of_In%filter_In. bools.
      apply list_elem_of_In in Hin. split; [done|].
      rewrite (rd_point _ _ _ _ _ _ _ _ Hr), point_reaches_point, <-Htarget.
      split; [done|]. split; [done|]. rewrite take_app_length.
      apply not_true_is_false. intros (q & Hq%list_elem_of_In & Hqr)%existsb_exists.
      assert (contains th (reached t) = true); [|congruence].
      eapply so_reached; [exact Ht|done|by rewrite (so_profile _ _ _ Ht) in Hin|].
      by rewrite (so_profile _ _ _ Ht) in Hqr.
  - rewrite app_nil_r, (rd_crossed _ _ _ _ _ _ _ _ Hr).
    destruct (rd_captured _ _ _ _ _ _ _ _ Hr Hc) as [_ ->]. by rewrite app_nil_r.
Qed.

Lemma commit_state sel active t p metrics target terminal elapsed r :
  profile t = sel -> state_ok (bp_policy sel) active (points t) (saved t) None ->
  target = (metric (bp_policy sel) ≫= fun m => value_f64 (index metrics m)) ->
  recorded t p metrics target terminal active elapsed r ->
  state_ok (bp_policy sel) active (points t ++ [rc_point r]) (saved t ++ snapshot_of t r) (rc_reason r).
Proof.
  intros Hsel (Hopen & Hpoints & Hsaved) Htarget Hr. rewrite saved_count in Hsaved.
  pose proof (rd_point _ _ _ _ _ _ _ _ Hr) as Hpoint. unfold state_ok.
  destruct (rc_reason r) as [re|] eqn:Ere.
  - destruct (rd_reason _ _ _ _ _ _ _ _ Hr re Ere) as [Hj [data Hc]].
    unfold snapshot_of. rewrite Hc, !count_snoc, saved_count, Z.add_simpl_r.
    split; [apply terminal_at_end_snoc; [done|by rewrite Hpoint]|].
    split; [lia|]. split; [lia|]. split; [eexists; by rewrite last_snoc|].
    revert Hj. unfold justified, check_stop. rewrite Hsel, last_snoc, !count_snoc, saved_count, Hpoint.
    destruct re; rewrite ?reject_if_Ok; try done; cbn [tp_time point].
    + intros Htr. apply negb_false_iff. unfold point_reaches_target. revert Htr.
      unfold target_reached. rewrite Hsel, Htarget.
      destruct (metric _ ≫= _) eqn:Em, (threshold _); try done.
      by rewrite point_reaches_point, Em.
    + intros [-> ?]. cbn. apply negb_false_iff, Z.eqb_eq. lia.
    + intros ?. apply negb_false_iff, Z.eqb_eq. lia.
    + intros ?. apply negb_false_iff, Z.eqb_eq. lia.
    + intros ?. apply Z.ltb_ge. lia.
  - destruct (rd_continue _ _ _ _ _ _ _ _ Hr Ere) as (_ & _ & _ & Hp & Hs).
    rewrite Hsel in *. rewrite count_snoc. split; [|split; [lia|]].
    + apply Forall_app. split; [done|]. repeat constructor. by rewrite Hpoint.
    + unfold snapshot_of. destruct (rc_captured r); [|rewrite app_nil_r, saved_count; lia].
      rewrite count_snoc, saved_count. auto.
Qed.

(** A recording keeps the invariant, and is never refused. *)
Lemma commit_sound sel active t p metrics target terminal elapsed r :
  sound sel active t -> policy_facts (bp_policy sel) -> stopped t = None ->
  target = (metric (bp_policy sel) ≫= fun m => value_f64 (index metrics m)) ->
  recorded t p metrics target terminal active elapsed r ->
  admissible sel MAX_SAFE_INTEGER active (last (points t)) (rc_point r) ->
  sound sel active (commit t r).2 /\ is_ok (commit t r).1 = true.
Proof.
  intros Ht Hf Hstop Htarget Hr Hadm.
  pose proof (so_state _ _ _ Ht) as Hstate. rewrite Hstop in Hstate. pose proof Hstate as (_ & _ & Hsaved).
  rewrite saved_count in Hsaved. pose proof (so_profile _ _ _ Ht) as Hsel.
  destruct (commit_spec t r ltac:(by rewrite Hsel)) as (Hok & Hprofile & HP & HS & HR & Hre).
  split; [|done]. set (t' := (commit t r).2) in *. clearbody t'. clear Hok.
  pose proof (rd_point _ _ _ _ _ _ _ _ Hr) as Hpoint.
  assert (Forall (fun s => 0 <= bs_trace_index s < count (points t'))%Z (saved t')) as Hind.
  { rewrite HS, HP, count_snoc. apply Forall_app. split.
    - eapply Forall_impl; [apply (so_indices _ _ _ Ht)|]. cbn. lia.
    - unfold snapshot_of. destruct (rc_captured r); repeat constructor; cbn; unfold count; lia. }
  constructor.
  - congruence.
  - rewrite HP. apply trace_ok_snoc. split; [apply Ht|]. unfold last_from.
    destruct (last (points t)); done.
  - intros declared Hd. rewrite HS in Hd. rewrite HP, HS, HR. by eapply claims_commit.
  - done.
  - intros s Hs. rewrite HS in Hs |- *. revert Hs. unfold snapshot_of.
    destruct (rc_captured r) as [data|]; [|rewrite app_nil_r; apply Ht].
    rewrite last_snoc. intros [= <-]. apply Forall_app. split; [|by repeat constructor].
    eapply Forall_impl; [apply (so_indices _ _ _ Ht)|]. cbn. lia.
  - intros Hm. destruct (so_fixed _ _ _ Ht Hm) as [Hlen _]. rewrite HS, HP, !length_app, Hlen.
    unfold snapshot_of. destruct (rc_captured r) eqn:Hc.
    + split; [done|]. intros s. rewrite last_snoc, count_snoc. intros [= <-]. cbn. lia.
    + destruct (rd_captured _ _ _ _ _ _ _ _ Hr Hc) as [? _]. by rewrite Hsel in *.
  - intros q th Hq Hth Hreach. rewrite HR, contains_app. rewrite HP in Hq.
    apply elem_of_app in Hq as [Hq|Hq%list_elem_of_singleton].
    + by rewrite (so_reached _ _ _ Ht q th Hq Hth Hreach).
    + subst q. apply orb_true_iff. destruct (contains th (reached t)) eqn:Hin; [by left|right].
      rewrite Hpoint, point_reaches_point, <-Htarget in Hreach.
      apply contains_elem; [by eapply (proj1 (Forall_forall _ _) (pf_finite _ Hf))|].
      rewrite (rd_crossed _ _ _ _ _ _ _ _ Hr). apply list_elem_of_In, filter_In.
      rewrite Hsel. split; [by apply list_elem_of_In|]. by rewrite Hin, Hreach.
  - rewrite HP, HS, Hre. by eapply commit_state.
Qed.

Lemma check_sound sel active t p measure snapshot terminal now elapsed :
  sound sel active t -> policy_facts (bp_policy sel) ->
  Policy.active_time_ns (bp_policy sel) = Ok active -> (now <= elapsed)%Z ->
  let '(res, t') := check t p measure snapshot terminal now elapsed in
  sound sel active t' /\
  (terminal = true -> is_ok res = true -> is_Some (stopped t') /\ is_Some (last (points t'))).
Proof.
  intros Ht Hf Ha Hnow. unfold Buffered.check. pose proof (so_profile _ _ _ Ht) as Hsel.
  assert (Policy.active_time_ns (bp_policy (profile t)) = Ok active) as Ha' by (by rewrite Hsel).
  destruct (admission _ t p terminal now) as [[]|e] eqn:Hadm; [|split; [done|]|by split].
  2:{ intros ->. exfalso. revert Hadm. unfold admission. destruct (_ || _ || _); [done|].
      destruct ((MAX_SAFE_INTEGER <? _)%Z || _); [done|].
      destruct (match last (points t) with Some q => _ | None => _ end); [done|].
      destruct (match Check.next_after _ _ with Some n => _ | None => _ end); [done|].
      by rewrite (active_time_eq t active Ha'). }
  destruct ('(metrics, target) ← observed _ t measure elapsed; _) as [r|e] eqn:Hr; [|by split].
  apply bind_Ok in Hr as ([metrics target] & Hobs & Hrec).
  pose proof (record_check_spec _ _ _ _ _ _ _ _ _ Ha' Hrec) as Hspec.
  pose proof (admit_spec _ _ _ _ _ Ha' Hadm) as (Hstop & _).
  pose proof (observed_spec _ _ _ _ _ Hobs) as (_ & _ & _ & _ & Htarget). rewrite Hsel in Htarget.
  destruct (commit_sound sel active t p metrics target terminal elapsed r Ht Hf Hstop Htarget Hspec) as [Hs Hok].
  { by eapply recorded_admissible. }
  destruct (commit_spec t r) as (_ & _ & HP & _ & _ & Hre).
  { pose proof (so_state _ _ _ Ht) as Hstate. rewrite Hstop in Hstate.
    destruct Hstate as (_ & _ & ?). by rewrite Hsel, <-saved_count. }
  destruct (commit t r) as [res t']. cbn [fst snd] in *. split; [done|]. intros Hterm _.
  rewrite Hre, HP, last_snoc. split; [|done]. destruct (rc_reason r) eqn:Ere; [done|].
  destruct (rd_continue _ _ _ _ _ _ _ _ Hspec Ere) as [? _]. congruence.
Qed.

Definition terminal_point (q : TracePoint) : TracePoint := {|
  tp_check_index := tp_check_index q; tp_work := tp_work q; tp_metrics := tp_metrics q;
  tp_time := tp_time q; tp_terminal := true |}.

Lemma admissible_terminal sel active previous q :
  admissible sel MAX_SAFE_INTEGER active previous q ->
  admissible sel MAX_SAFE_INTEGER active previous (terminal_point q).
Proof.
  rewrite !admissible_spec. cbn [terminal_point tp_check_index tp_time tp_metrics tp_work tp_terminal].
  intros ((? & ? & ? & Hopen & Hend & ?) & ? & ? & _).
  split; [|split; [done|split; [done|by intros]]].
  do 3 (split; [done|]). split; [done|]. split; [|done].
  intros n _ Hn. destruct (tp_terminal q) eqn:E; [by apply Hend|].
  specialize (Hopen eq_refl). rewrite Hopen in Hn. injection Hn as ->. lia.
Qed.

Lemma terminal_point_id q : tp_terminal q = true -> terminal_point q = q.
Proof. destruct q. cbn. by intros ->. Qed.

Lemma closing_state policy active l q saved extra stopped :
  state_ok policy active (l ++ [q]) saved stopped ->
  (exists s, last (saved ++ extra) = Some s /\ bs_trace_index s = (count (l ++ [q]) - 1)%Z) ->
  extra = [] \/ stopped = None /\ count extra = 1%Z ->
  state_ok policy active (l ++ [terminal_point q]) (saved ++ extra)
    (Some (default ImplementationStopped stopped)).
Proof.
  intros Hstate Hlast Hextra. destruct stopped as [r|]; cbn [default].
  - destruct Hextra as [->|[? _]]; [|done]. rewrite app_nil_r.
    pose proof Hstate as [Hend _]. unfold terminal_at_end in Hend. rewrite last_snoc in Hend. bools.
    by rewrite terminal_point_id.
  - destruct Hstate as (Hopen & Hpoints & Hsaved). apply Forall_app in Hopen as [Hopen _].
    rewrite count_snoc in *. unfold state_ok. rewrite count_snoc.
    split; [by apply terminal_at_end_snoc|]. split; [lia|]. split; [|by split].
    destruct Hextra as [->|[_ He]]; [rewrite app_nil_r; lia|].
    unfold count in *. rewrite length_app. lia.
Qed.

(** The collector closed over its last point, with the snapshots [extra] added. *)
Lemma closing_sound sel active t t' l q extra :
  sound sel active t -> policy_facts (bp_policy sel) -> points t = l ++ [q] ->
  profile t' = profile t -> points t' = l ++ [terminal_point q] -> saved t' = saved t ++ extra ->
  reached t' = reached t -> stopped t' = Some (default ImplementationStopped (stopped t)) ->
  (exists s, last (saved t ++ extra) = Some s /\ bs_trace_index s = (count (points t) - 1)%Z) ->
  (extra = [] \/
   Forall (fun s => bs_trace_index s < count (points t) - 1)%Z (saved t) /\ stopped t = None /\
   extra = [{| bs_ordinal := count (saved t); bs_trace_index := count (points t) - 1; bs_thresholds := [];
               bs_manifest := snapshot_path (count (saved t)) |}]) ->
  sound sel active t'.
Proof.
  intros Ht Hf HP Hprofile HP' HS HR Hre Hlast Hextra.
  assert (map tp_metrics (points t') = map tp_metrics (points t)) as Hmetrics
    by (by rewrite HP, HP', !map_app).
  assert (count (points t') = count (points t)) as Hcount by (by rewrite HP, HP', !count_snoc).
  assert (0 < count (points t))%Z as Hpos by (rewrite HP, count_snoc; unfold count; lia).
  assert (forall declared, check_snapshots (bp_policy sel) (points t') declared 0 None [] [] (saved t)
          = check_snapshots (bp_policy sel) (points t) declared 0 None [] [] (saved t)) as Hold.
  { intros declared. apply (check_snapshots_prefix _ (points t) _ []); [by rewrite app_nil_r|apply Ht]. }
  constructor.
  - by rewrite Hprofile, (so_profile _ _ _ Ht).
  - pose proof (so_trace _ _ _ Ht) as Htr. rewrite HP in Htr. rewrite HP'.
    apply trace_ok_snoc in Htr as [? ?]. apply trace_ok_snoc. split; [done|]. by apply admissible_terminal.
  - intros declared Hd. rewrite HS in Hd |- *. apply Forall_app in Hd as [Hd Hde]. rewrite HR.
    pose proof (so_claims _ _ _ Ht declared Hd) as Hc. rewrite <-Hold in Hc.
    destruct Hextra as [->|(Hlow & _ & ->)]; [by rewrite app_nil_r|].
    apply Forall_cons in Hde as [Hde _].
    eapply check_snapshots_snoc; [exact Hc|done|cbn; lia| |done|done].
    intros j [?|[?|Hin]]; [done|set_solver|]. apply list_elem_of_fmap in Hin as (s & -> & Hin).
    rewrite Forall_forall in Hlow. by apply Hlow.
  - rewrite HS, Hcount. apply Forall_app. split; [apply Ht|].
    destruct Hextra as [->|(_ & _ & ->)]; repeat constructor; cbn; lia.
  - intros s. rewrite HS. destruct Hextra as [->|(Hlow & _ & ->)]; [rewrite app_nil_r; apply Ht|].
    rewrite last_snoc. intros [= <-]. apply Forall_app. split; [|by repeat constructor].
    eapply Forall_impl; [exact Hlow|]. cbn. lia.
  - intros Hm. destruct (so_fixed _ _ _ Ht Hm) as [Hlen Hidx]. rewrite HS, Hcount.
    assert (length (points t') = length (points t)) as -> by (unfold count in Hcount; lia).
    destruct Hextra as [->|(Hlow & _ & ->)]; [by rewrite app_nil_r|].
    exfalso. destruct (last (saved t)) as [s|] eqn:E.
    + rewrite Forall_forall in Hlow. specialize (Hidx s eq_refl).
      apply last_Some_elem_of in E. specialize (Hlow s E). lia.
    + apply last_None in E. rewrite E in Hlen. unfold count in Hpos. cbn in Hlen. lia.
  - intros p th Hp. rewrite HP' in Hp. rewrite HR. apply elem_of_app in Hp as [Hp|Hp%list_elem_of_singleton].
    + apply (so_reached _ _ _ Ht). rewrite HP. set_solver.
    + subst p. intros Hth Hreach. apply (so_reached _ _ _ Ht q th); [|done|exact Hreach].
      rewrite HP. set_solver.
  - rewrite Hre, HP', HS. apply closing_state; [by rewrite <-HP; apply Ht|by rewrite <-HP|].
    destruct Hextra as [->|(_ & ? & ->)]; [by left|by right].
Qed.

(** An unsaved last check is later than every snapshot, and stopped nothing. *)
Lemma unsaved_last sel active t :
  sound sel active t ->
  match last (snapshots t) with
  | Some sb => (bs_trace_index sb.1 =? count (points t) - 1)%Z
  | None => false
  end = false ->
  Forall (fun s => bs_trace_index s < count (points t) - 1)%Z (saved t) /\ stopped t = None.
Proof.
  intros Ht Hlast.
  assert (forall s, last (saved t) = Some s -> (bs_trace_index s < count (points t) - 1)%Z) as Hlt.
  { intros s Hs. pose proof (so_indices _ _ _ Ht) as Hi. rewrite Forall_forall in Hi.
    specialize (Hi s (last_Some_elem_of _ _ Hs)).
    unfold saved in Hs. change (map fst ?l) with (fst <$> l) in Hs. rewrite fmap_last in Hs.
    destruct (last (snapshots t)) as [sb|]; [|done]. injection Hs as <-. bools. lia. }
  split.
  - destruct (last (saved t)) as [s|] eqn:E; [|by apply last_None in E as ->].
    eapply Forall_impl; [by apply (so_last _ _ _ Ht)|]. cbn. intros s'. specialize (Hlt s eq_refl). lia.
  - pose proof (so_state _ _ _ Ht) as Hstate. destruct (stopped t) as [r|]; [|done].
    destruct Hstate as (_ & _ & _ & (s & Hs & E) & _). specialize (Hlt s Hs). lia.
Qed.

(** The end of a collection on a check that was already recorded. *)
Lemma finish_last_sound sel active t q p snapshot total closed :
  sound sel active t -> policy_facts (bp_policy sel) -> last (points t) = Some q ->
  let '(res, t') := finish_last violation_text serializer_text t q p snapshot in
  match res with
  | Ok _ => sound sel active (closed_trace t' total closed) /\ last (points t') = Some (terminal_point q)
  | Err _ => t' = t
  end.
Proof.
  intros Ht Hf Hq. apply last_Some in Hq as [l HP]. unfold finish_last.
  destruct (negb _); [done|].
  destruct (match last (snapshots t) with Some sb => _ | None => false end) eqn:Esaved.
  - destruct (last (snapshots t)) as [sb|] eqn:El; [|done]. bools. cbn. split; [|by rewrite last_snoc].
    eapply (closing_sound _ _ t _ l q []); cbn; try done; rewrite ?app_nil_r; auto.
    + by rewrite HP, removelast_last.
    + exists sb.1. split; [|done]. unfold saved. change (map fst ?l) with (fst <$> l).
      by rewrite fmap_last, El.
  - destruct (data ← snapshot; _) as [data|e]; [|done]. cbn. split; [|by rewrite last_snoc].
    set (new := {| bs_ordinal := _; bs_trace_index := _; bs_thresholds := _; bs_manifest := _ |}).
    eapply (closing_sound _ _ t _ l q [new]); cbn; try done.
    + by rewrite HP, removelast_last.
    + unfold saved. cbn. by rewrite map_app.
    + exists new. by rewrite last_snoc.
    + right. destruct (unsaved_last _ _ _ Ht Esaved). by rewrite saved_count.
Qed.

Lemma closed_sound sel active t total closed :
  sound sel active t -> is_Some (stopped t) -> sound sel active (closed_trace t total closed).
Proof.
  intros Ht [r Hr]. constructor; try apply Ht. cbn. rewrite Hr. cbn.
  pose proof (so_state _ _ _ Ht) as Hstate. by rewrite Hr in Hstate.
Qed.

(** What a call of [finish] leaves, whatever it returns. *)
Lemma finish_sound sel active t p measure snapshot now elapsed duration :
  sound sel active t -> policy_facts (bp_policy sel) ->
  Policy.active_time_ns (bp_policy sel) = Ok active -> (now <= elapsed)%Z ->
  let '(res, t') := finish t p measure snapshot now elapsed duration in
  sound sel active t' /\ res <> Err Panicked /\
  (res = Ok tt -> finished t' = true /\ is_Some (stopped t') /\ (total t' <= MAX_SAFE_INTEGER)%Z /\
     exists q, last (points t') = Some q /\ (tp_time q <= total t')%Z).
Proof.
  intros Ht Hf Ha Hnow. unfold Buffered.finish. destruct (_ || _); [by split|].
  pose proof (check_sound sel active t p measure snapshot true now elapsed Ht Hf Ha Hnow) as Hcheck.
  set (outcome := match last (points t) with Some q => _ | None => _ end).
  assert (let '(res, t') := outcome in
    match res with
    | Ok _ => (forall closed, sound sel active (closed_trace t' duration closed)) /\ is_Some (last (points t'))
    | Err _ => sound sel active t'
    end) as Hout.
  { unfold outcome. destruct (last (points t)) as [q|] eqn:Hq; [destruct (_ =? _)%Z|].
    - pose proof (fun b => finish_last_sound sel active t q p snapshot duration b Ht Hf Hq) as Hl.
      destruct (finish_last _ _ t q p snapshot) as [[u|e] t']; [|by rewrite (Hl true)].
      split; [intros b; apply Hl|]. destruct (Hl true) as [_ ->]. done.
    - destruct (check t p measure snapshot true now elapsed) as [[d|e] t']; [|apply Hcheck].
      destruct Hcheck as [Hs Hc]. destruct (Hc eq_refl eq_refl). split; [|done]. intros b. by apply closed_sound.
    - destruct (check t p measure snapshot true now elapsed) as [[d|e] t']; [|apply Hcheck].
      destruct Hcheck as [Hs Hc]. destruct (Hc eq_refl eq_refl). split; [|done]. intros b. by apply closed_sound. }
  destruct outcome as [[u|e] t']; [|by split]. destruct Hout as [Hs [q Hq]]. rewrite Hq.
  destruct (_ || _) eqn:Hd; (split; [apply Hs|]); (split; [done|]); [done|]. bools.
  intros _. cbn. split; [done|]. split; [by destruct (stopped t')|]. split; [done|]. by exists q.
Qed.

(** ** Collections *)

(** The states of a collector: its creation, checks that the program asks for,
    and calls of [finish], accepted or not, with a clock that does not run
    backwards between the two readings of a check. *)
Inductive collecting (sel : SelectedBufferedProfile) : BufferedTrace -> Prop :=
| collecting_new t : with_clock policy_text schedule_text sel = Ok t -> collecting sel t
| collecting_check t p measure snapshot now elapsed :
    collecting sel t -> (now <= elapsed)%Z ->
    collecting sel (check t p measure snapshot false now elapsed).2
| collecting_finish t p measure snapshot now elapsed duration :
    collecting sel t -> (now <= elapsed)%Z ->
    collecting sel (finish t p measure snapshot now elapsed duration).2.

(** What a finished collector adds to a sound one. *)
Definition closed (t : BufferedTrace) : Prop :=
  is_Some (stopped t) /\ (total t <= MAX_SAFE_INTEGER)%Z /\
  exists q, last (points t) = Some q /\ (tp_time q <= total t)%Z.

Lemma commit_finished t r : finished (commit t r).2 = finished t.
Proof. unfold commit. destruct (rc_captured r); [destruct (_ <=? _)%Z|]; done. Qed.
Lemma check_finished t p measure snapshot terminal now elapsed :
  finished t = true -> (check t p measure snapshot terminal now elapsed).2 = t.
Proof. intros Hf. unfold Buffered.check, admission. by rewrite Hf. Qed.
Lemma check_open t p measure snapshot terminal now elapsed :
  finished (check t p measure snapshot terminal now elapsed).2 = finished t.
Proof.
  unfold Buffered.check. destruct (admission _ _ _ _ _) as [[]|]; [|done|done].
  destruct ('(_, _) ← _; _); [apply commit_finished|done].
Qed.

Lemma finish_refused t p measure snapshot now elapsed duration :
  let '(res, t') := finish t p measure snapshot now elapsed duration in
  finished t' = true -> res = Ok tt \/ t' = t.
Proof.
  unfold Buffered.finish. destruct (finished t || _) eqn:Hf; [by right|]. bools.
  set (outcome := match last (points t) with Some q => _ | None => _ end).
  assert (finished outcome.2 = finished t) as Ho.
  { unfold outcome. destruct (last (points t)) as [q|]; [destruct (_ =? _)%Z|].
    - unfold finish_last. destruct (negb _); [done|]. destruct (match last (snapshots t) with Some sb => _ | None => _ end); [done|].
      by destruct (data ← snapshot; _).
    - rewrite <-(check_open t p measure snapshot true now elapsed).
      by destruct (check t p measure snapshot true now elapsed).
    - rewrite <-(check_open t p measure snapshot true now elapsed).
      by destruct (check t p measure snapshot true now elapsed). }
  destruct outcome as [[u|e] t']; cbn in Ho; [|congruence].
  destruct (last (points t')); [|done]. destruct (_ || _); cbn; [done|by left].
Qed.

(** A validated profile starts a sound collector. *)
Lemma with_clock_sound sel t :
  with_clock policy_text schedule_text sel = Ok t ->
  (0 <= max_observations (bp_policy sel))%Z -> (0 <= max_trace_points (bp_policy sel))%Z ->
  policy_facts (bp_policy sel) /\ (exists active, Policy.active_time_ns (bp_policy sel) = Ok active) /\
  (forall active, sound sel active t) /\ finished t = false.
Proof.
  intros (u1 & Hv%map_err_Ok & (u2 & Hb%map_err_Ok & (u3 & _ & [= <-])%bind_Ok)%bind_Ok)%bind_Ok Ho Hp.
  destruct u1, u2. split; [by apply validated_policy|].
  unfold Policy.validate in Hv. destruct (_ || _) eqn:Hobs; [done|]. bools.
  apply bind_Ok in Hv as (u & _ & (active & Ha & _)%bind_Ok). split; [by exists active|].
  split; [|done]. intros active'. unfold Policy.validate_buffered in Hb.
  destruct (_ || _) eqn:Hbuf; [done|]. cbn in Hbuf. bools.
  constructor; cbn; try done; try (by constructor).
  - intros p th Hin. by apply elem_of_nil in Hin.
  - split; [constructor|]. unfold count. cbn. lia.
Qed.

Lemma collecting_sound sel t :
  (0 <= max_observations (bp_policy sel))%Z -> (0 <= max_trace_points (bp_policy sel))%Z ->
  collecting sel t ->
  policy_facts (bp_policy sel) /\ exists active, Policy.active_time_ns (bp_policy sel) = Ok active /\
    sound sel active t /\ (finished t = true -> closed t).
Proof.
  intros Ho Hp Hc. induction Hc as [t Ht|t p m s now elapsed _ IH Hnow|t p m s now elapsed d _ IH Hnow].
  - destruct (with_clock_sound _ _ Ht Ho Hp) as (Hf & (active & Ha) & Hs & Hfin).
    split; [done|]. exists active. split; [done|]. split; [apply Hs|]. congruence.
  - destruct IH as (Hf & active & Ha & Hs & Hfin). split; [done|]. exists active. split; [done|].
    pose proof (check_sound sel active t p m s false now elapsed Hs Hf Ha Hnow) as Hcheck.
    pose proof (check_open t p m s false now elapsed) as Hopen.
    pose proof (check_finished t p m s false now elapsed) as Hsame.
    destruct (check t p m s false now elapsed) as [res t']. cbn in *. split; [apply Hcheck|].
    rewrite Hopen. intros Ht. rewrite (Hsame Ht). auto.
  - destruct IH as (Hf & active & Ha & Hs & Hfin). split; [done|]. exists active. split; [done|].
    pose proof (finish_sound sel active t p m s now elapsed d Hs Hf Ha Hnow) as Hfinish.
    pose proof (finish_refused t p m s now elapsed d) as Href.
    destruct (finish t p m s now elapsed d) as [res t']. cbn in *.
    destruct Hfinish as (Hs' & _ & Hok). split; [done|]. intros Ht.
    destruct (Href Ht) as [->| ->]; [|auto]. destruct (Hok eq_refl) as (_ & ? & ? & ?). done.
Qed.

(** The claims of a collector with a saved last point. *)
Lemma sound_claims sel active t declared :
  sound sel active t -> policy_facts (bp_policy sel) ->
  (count (saved t) <= max_observations (bp_policy sel))%Z ->
  (exists s, last (saved t) = Some s /\ bs_trace_index s = (count (points t) - 1)%Z) ->
  Forall (fun s => existsb (path_eqb (bs_manifest s)) declared = true) (saved t) ->
  check_claims (bp_policy sel) (points t) declared (saved t) = Ok tt.
Proof.
  intros Hs Hf Hcount (s & Hlast & Hidx) Hd. unfold check_claims.
  apply reject_bind_Ok. split.
  { rewrite bool_decide_eq_false_2 by (intros E; by rewrite E in Hlast). apply Z.ltb_ge. lia. }
  apply reject_bind_Ok. split.
  { case_bool_decide as Hm; [|done]. destruct (so_fixed _ _ _ Hs Hm) as [Hlen _].
    unfold count. rewrite Hlen. by rewrite Z.eqb_refl. }
  rewrite (so_claims _ _ _ Hs declared Hd). cbn [mbind result_bind].
  apply reject_bind_Ok. rewrite Hlast, Hidx, Z.eqb_refl. split; [done|].
  apply for_each_Ok, Forall_forall. intros th Hth. apply reject_if_Ok.
  destruct (existsb _ _) eqn:Hr; [|done]. cbn. apply negb_false_iff.
  apply existsb_exists in Hr as (p & Hin & Hr). eapply so_reached; [exact Hs| |done|exact Hr].
  by apply list_elem_of_In.
Qed.

(** C21: The validator accepts every trajectory that the collector finishes: its
    trace follows the check schedule, the clock and the limits of the policy, its
    snapshots claim exactly the thresholds that the trace reaches first, and its
    reason to stop is substantiated. *)
Theorem collected_buffer_accepted sel t declared :
  (0 <= max_observations (bp_policy sel))%Z -> (0 <= max_trace_points (bp_policy sel))%Z ->
  collecting sel t -> finished t = true ->
  Forall (fun s => existsb (path_eqb (bs_manifest s)) declared = true) (saved t) ->
  exists active reason,
    Policy.active_time_ns (bp_policy sel) = Ok active /\ stopped t = Some reason /\
    (total t <= MAX_SAFE_INTEGER)%Z /\ (count (points t) <= max_trace_points (bp_policy sel))%Z /\
    terminal_at_end (points t) = true /\
    check_points sel (total t) active None (Check.next_after (bp_check_schedule sel) None) (points t) = Ok tt /\
    check_claims (bp_policy sel) (points t) declared (saved t) = Ok tt /\
    check_stop (bp_policy sel) active (points t) (saved t) reason = Ok tt.
Proof.
  intros Ho Hp Hc Hfin Hd.
  destruct (collecting_sound sel t Ho Hp Hc) as (Hf & active & Ha & Hs & Hclosed).
  destruct (Hclosed Hfin) as ([reason Hr] & Htotal & q & Hq & Hqt). exists active, reason.
  pose proof (so_state _ _ _ Hs) as Hstate. rewrite Hr in Hstate.
  destruct Hstate as (Hend & Hpoints & Hsaved & Hlast & Hstop).
  do 5 (split; [done|]). split; [|split; [by apply (sound_claims sel active)|done]].
  apply (check_points_trace sel (total t) active None).
  apply (trace_ok_total _ MAX_SAFE_INTEGER); [apply Hs|].
  eapply Forall_impl; [by eapply trace_ok_times; [apply Hs|]|]. cbn. lia.
Qed.
End Collector.

(** Two checks and a finish: the second check reaches the target. *)
Definition sample_profile : SelectedBufferedProfile := {|
  bp_policy := {|
    metric := Some "loss"; direction := Some AtMost;
    threshold := Some (S754_finite false 4503599627370496 (-53)); record_thresholds := [];
    max_observations := 3; max_checkpoint_bytes := 0; max_trace_points := 10;
    max_buffer_bytes := 100000; terminal_reserve_bytes := 10000; max_active_time := "60s" |};
  bp_instrumented_scope := "solver";
  bp_scope := {| clock_origin := ""; included_work := ""; excluded_preparation := ""; metric_agreement := [] |};
  bp_instrumentation := Null; bp_check_schedule := Periodic 1 0 |}.
Definition sample_start : BufferedTrace := {|
  profile := sample_profile; points := []; snapshots := []; trace_bytes := 0; snapshot_bytes := 0;
  reached := []; stopped := None; finished := false; total := 0; adopted := None |}.
Definition sample_check (t : BufferedTrace) (i loss now : Z) : BufferedTrace :=
  (@Buffered.check model (fun _ => "") "" (fun _ => "") t {| check_index := i; work := [] |}
     (Ok (object [("loss", json_u64 loss)])) (Ok (object [])) false now (now + 1)).2.
Definition sample_end : BufferedTrace :=
  (@Buffered.finish model (fun _ => "") "" (fun _ => "")
     (sample_check (sample_check sample_start 0 3 5) 1 0 7) {| check_index := 1; work := [] |}
     (Ok Null) (Ok Null) 9 9 9).2.

Lemma collected_buffer_accepted_witness :
  length (points sample_end) = 2%nat /\
  exists active reason,
    Policy.active_time_ns (bp_policy sample_profile) = Ok active /\ stopped sample_end = Some reason /\
    (total sample_end <= MAX_SAFE_INTEGER)%Z /\
    (count (points sample_end) <= max_trace_points (bp_policy sample_profile))%Z /\
    terminal_at_end (points sample_end) = true /\
    check_points sample_profile (total sample_end) active None
      (Check.next_after (bp_check_schedule sample_profile) None) (points sample_end) = Ok tt /\
    check_claims (bp_policy sample_profile) (points sample_end) ["snapshots/0/result.json"]
      (saved sample_end) = Ok tt /\
    check_stop (bp_policy sample_profile) active (points sample_end) (saved sample_end) reason = Ok tt.
Proof.
  split; [by vm_compute|].
  apply (@collected_buffer_accepted model (fun _ => "") "" (fun _ => "") (fun _ => "") sample_profile sample_end).
  - by vm_compute.
  - by vm_compute.
  - apply collecting_finish; [|lia]. unfold sample_check.
    apply collecting_check; [|lia]. apply collecting_check; [|lia]. by apply collecting_new.
  - by vm_compute.
  - vm_compute. repeat constructor.
Defined.
