(* ===== verification/Archive.v ===== *)
(** * Archived evidence (src/core/archive.rs, src/runtime/evidence.rs)

    The committed coordination evidence that a result archive carries: one
    record type per table of the run store, and the JSON row of each. *)
From S2P Require Import Prelude Json Canonical Identity Profile Records Store Wire.
From Stdlib Require Import Ascii Floats.SpecFloat.

#[local] Obligation Tactic := cbn beta.
#[local] Unset Program Cases.

Definition RESULT_ARCHIVE_VERSION : Z := 1.

(** ** Evidence *)

Record ApplicabilityEvidence := {
  ap_id : string; ap_candidate_id : string; ap_applicable : bool; ap_definition : value }.
Record ResolvedSpecificationEvidence := {
  rs_id : string; rs_logical_specification_id : string; rs_candidate_id : string;
  rs_applicability_id : string; rs_definition : value }.
Record AttemptSlotEvidence := {
  se_id : string; se_logical_slot_id : string; se_resolved_run_id : string; se_role : string;
  se_kind : string; se_definition : value }.
Record ObservationSlotEvidence := {
  oe_id : string; oe_logical_slot_id : string; oe_resolved_run_id : string; oe_definition : value }.
Record SlotMembershipEvidence := {
  sm_attempt_slot_id : string; sm_observation_slot_id : string; sm_resolved_run_id : string }.
Record AttemptEvidence := {
  ae_id : string; ae_slot_id : string; ae_retry_index : Z; ae_state : string; ae_revision : Z;
  ae_started_at_ns : string; ae_updated_at_ns : string; ae_finished_at_ns : option string;
  ae_failure_code : option string; ae_artifact_id : option string;
  ae_lease_expires_at_ns : option string }.
Record TransitionEvidence := {
  te_attempt_id : string; te_revision : Z; te_previous_revision : option Z;
  te_from_state : option string; te_to_state : string; te_occurred_at_ns : string;
  te_event_sequence : Z }.
Record ObservationEvidence := {
  ov_id : string; ov_slot_id : string; ov_attempt_id : string; ov_attempt_slot_id : string;
  ov_artifact_id : string; ov_valid : bool; ov_completion : string; ov_selected : bool;
  ov_definition : value }.
Record SelectionEvidence := {
  sl_slot_id : string; sl_observation_id : string; sl_selected_at_ns : string }.
Record StoredArtifactEvidence := {
  sa_id : string; sa_kind : string; sa_path : string; sa_sha256 : string; sa_storage_kind : string;
  sa_manifest_sha256 : option string; sa_verified_at_ns : string }.
Record AttemptArtifactEvidence := { aa_attempt_id : string; aa_role : string; aa_artifact_id : string }.
Record ObservationArtifactEvidence := {
  oa_observation_id : string; oa_role : string; oa_artifact_id : string }.
Record EventEvidence := {
  ee_sequence : Z; ee_attempt_id : option string; ee_occurred_at_ns : string; ee_kind : string;
  ee_payload : value }.
Record FreshMemberEvidence := {
  me_slot_id : string; me_resolved_run_id : string; me_measurement_index : Z; me_schedule_index : Z;
  me_control : value; me_observation_slot_id : string }.
Record FreshBudgetEvidence := { be_attempt_id : string; be_reserved_ns : Z; be_charged_ns : option Z }.
Record FreshDispositionEvidence := {
  de_slot_id : string; de_reason : string; de_causing_attempt_id : string }.
Record FreshPolicyEvidence := {
  pe_resolved_run_id : string; pe_measurement_index : Z; pe_policy : value }.
(** [profile::FreshSequenceProgress]; an archive may hold any status. *)
Record FreshSequenceEvidence := {
  qe_resolved_specification_id : string; qe_logical_specification_id : string;
  qe_measurement_index : Z; qe_scheduled_points : Z; qe_accepted_points : Z;
  qe_consumed_time_ns : Z; qe_conservative_time_ns : Z; qe_status : string;
  qe_reason : option string }.

Inductive ArchiveRecord :=
  | ApplicabilityRecord (r : ApplicabilityEvidence)
  | ResolvedSpecificationRecord (r : ResolvedSpecificationEvidence)
  | ResolvedAttemptSlotEntry (r : AttemptSlotEvidence)
  | ResolvedObservationSlotEntry (r : ObservationSlotEvidence)
  | SlotMembershipRecord (r : SlotMembershipEvidence)
  | AttemptRecord (r : AttemptEvidence)
  | AttemptTransitionRecord (r : TransitionEvidence)
  | ObservationRecord (r : ObservationEvidence)
  | ObservationSelectionRecord (r : SelectionEvidence)
  | StoredArtifactRecord (r : StoredArtifactEvidence)
  | AttemptArtifactRecord (r : AttemptArtifactEvidence)
  | ObservationArtifactRecord (r : ObservationArtifactEvidence)
  | EventRecord (r : EventEvidence)
  | FreshMemberRecord (r : FreshMemberEvidence)
  | FreshBudgetRecord (r : FreshBudgetEvidence)
  | FreshDispositionRecord (r : FreshDispositionEvidence)
  | FreshPolicyRecord (r : FreshPolicyEvidence)
  | FreshSequenceRecord (r : FreshSequenceEvidence).

Record ArchiveEvidence := { schema_version : Z; records : list ArchiveRecord }.

Definition record_kind (r : ArchiveRecord) : string :=
  match r with
  | ApplicabilityRecord _ => "applicability"
  | ResolvedSpecificationRecord _ => "resolved-specification"
  | ResolvedAttemptSlotEntry _ => "resolved-attempt-slot"
  | ResolvedObservationSlotEntry _ => "resolved-observation-slot"
  | SlotMembershipRecord _ => "slot-membership"
  | AttemptRecord _ => "attempt"
  | AttemptTransitionRecord _ => "attempt-transition"
  | ObservationRecord _ => "observation"
  | ObservationSelectionRecord _ => "observation-selection"
  | StoredArtifactRecord _ => "stored-artifact"
  | AttemptArtifactRecord _ => "attempt-artifact"
  | ObservationArtifactRecord _ => "observation-artifact"
  | EventRecord _ => "event"
  | FreshMemberRecord _ => "fresh-member"
  | FreshBudgetRecord _ => "fresh-budget"
  | FreshDispositionRecord _ => "fresh-disposition"
  | FreshPolicyRecord _ => "fresh-policy"
  | FreshSequenceRecord _ => "fresh-sequence"
  end.

(** ** Rows *)

Definition optional_text (o : option string) : value := optional Str o.
Definition optional_number (o : option Z) : value := optional json_u64 o.

Definition applicability_value (r : ApplicabilityEvidence) : value := object [
  ("id", Str (ap_id r)); ("candidate_id", Str (ap_candidate_id r));
  ("applicable", Bool (ap_applicable r)); ("definition", ap_definition r)].
Definition resolved_specification_value (r : ResolvedSpecificationEvidence) : value := object [
  ("id", Str (rs_id r)); ("logical_specification_id", Str (rs_logical_specification_id r));
  ("candidate_id", Str (rs_candidate_id r)); ("applicability_id", Str (rs_applicability_id r));
  ("definition", rs_definition r)].
Definition attempt_slot_value (r : AttemptSlotEvidence) : value := object [
  ("id", Str (se_id r)); ("logical_slot_id", Str (se_logical_slot_id r));
  ("resolved_run_id", Str (se_resolved_run_id r)); ("role", Str (se_role r));
  ("kind", Str (se_kind r)); ("definition", se_definition r)].
Definition observation_slot_value (r : ObservationSlotEvidence) : value := object [
  ("id", Str (oe_id r)); ("logical_slot_id", Str (oe_logical_slot_id r));
  ("resolved_run_id", Str (oe_resolved_run_id r)); ("definition", oe_definition r)].
Definition slot_membership_value (r : SlotMembershipEvidence) : value := object [
  ("attempt_slot_id", Str (sm_attempt_slot_id r));
  ("observation_slot_id", Str (sm_observation_slot_id r));
  ("resolved_run_id", Str (sm_resolved_run_id r))].
Definition attempt_value (r : AttemptEvidence) : value := object [
  ("id", Str (ae_id r)); ("slot_id", Str (ae_slot_id r)); ("retry_index", json_u64 (ae_retry_index r));
  ("state", Str (ae_state r)); ("revision", json_u64 (ae_revision r));
  ("started_at_ns", Str (ae_started_at_ns r)); ("updated_at_ns", Str (ae_updated_at_ns r));
  ("finished_at_ns", optional_text (ae_finished_at_ns r));
  ("failure_code", optional_text (ae_failure_code r)); ("artifact_id", optional_text (ae_artifact_id r));
  ("lease_expires_at_ns", optional_text (ae_lease_expires_at_ns r))].
Definition transition_value (r : TransitionEvidence) : value := object [
  ("attempt_id", Str (te_attempt_id r)); ("revision", json_u64 (te_revision r));
  ("previous_revision", optional_number (te_previous_revision r));
  ("from_state", optional_text (te_from_state r)); ("to_state", Str (te_to_state r));
  ("occurred_at_ns", Str (te_occurred_at_ns r)); ("event_sequence", json_u64 (te_event_sequence r))].
Definition observation_value (r : ObservationEvidence) : value := object [
  ("id", Str (ov_id r)); ("slot_id", Str (ov_slot_id r)); ("attempt_id", Str (ov_attempt_id r));
  ("attempt_slot_id", Str (ov_attempt_slot_id r)); ("artifact_id", Str (ov_artifact_id r));
  ("valid", Bool (ov_valid r)); ("completion", Str (ov_completion r));
  ("selected", Bool (ov_selected r)); ("definition", ov_definition r)].
Definition selection_value (r : SelectionEvidence) : value := object [
  ("slot_id", Str (sl_slot_id r)); ("observation_id", Str (sl_observation_id r));
  ("selected_at_ns", Str (sl_selected_at_ns r))].
Definition stored_artifact_value (r : StoredArtifactEvidence) : value := object [
  ("id", Str (sa_id r)); ("kind", Str (sa_kind r)); ("path", Str (sa_path r));
  ("sha256", Str (sa_sha256 r)); ("storage_kind", Str (sa_storage_kind r));
  ("manifest_sha256", optional_text (sa_manifest_sha256 r));
  ("verified_at_ns", Str (sa_verified_at_ns r))].
Definition attempt_artifact_value (r : AttemptArtifactEvidence) : value := object [
  ("attempt_id", Str (aa_attempt_id r)); ("role", Str (aa_role r));
  ("artifact_id", Str (aa_artifact_id r))].
Definition observation_artifact_value (r : ObservationArtifactEvidence) : value := object [
  ("observation_id", Str (oa_observation_id r)); ("role", Str (oa_role r));
  ("artifact_id", Str (oa_artifact_id r))].
Definition event_value (r : EventEvidence) : value := object [
  ("sequence", json_u64 (ee_sequence r)); ("attempt_id", optional_text (ee_attempt_id r));
  ("occurred_at_ns", Str (ee_occurred_at_ns r)); ("kind", Str (ee_kind r));
  ("payload", ee_payload r)].
Definition fresh_member_value (r : FreshMemberEvidence) : value := object [
  ("slot_id", Str (me_slot_id r)); ("resolved_run_id", Str (me_resolved_run_id r));
  ("measurement_index", json_u64 (me_measurement_index r));
  ("schedule_index", json_u64 (me_schedule_index r)); ("control", me_control r);
  ("observation_slot_id", Str (me_observation_slot_id r))].
Definition fresh_budget_value (r : FreshBudgetEvidence) : value := object [
  ("attempt_id", Str (be_attempt_id r)); ("reserved_ns", json_u64 (be_reserved_ns r));
  ("charged_ns", optional_number (be_charged_ns r))].
Definition fresh_disposition_value (r : FreshDispositionEvidence) : value := object [
  ("slot_id", Str (de_slot_id r)); ("reason", Str (de_reason r));
  ("causing_attempt_id", Str (de_causing_attempt_id r))].
Definition fresh_policy_value (r : FreshPolicyEvidence) : value := object [
  ("resolved_run_id", Str (pe_resolved_run_id r));
  ("measurement_index", json_u64 (pe_measurement_index r)); ("policy", pe_policy r)].
Definition fresh_sequence_value (r : FreshSequenceEvidence) : value := object [
  ("resolved_specification_id", Str (qe_resolved_specification_id r));
  ("logical_specification_id", Str (qe_logical_specification_id r));
  ("measurement_index", json_u64 (qe_measurement_index r));
  ("scheduled_points", json_u64 (qe_scheduled_points r));
  ("accepted_points", json_u64 (qe_accepted_points r));
  ("consumed_time_ns", json_u64 (qe_consumed_time_ns r));
  ("conservative_time_ns", json_u64 (qe_conservative_time_ns r));
  ("status", Str (qe_status r)); ("reason", optional_text (qe_reason r))].

(** [ArchiveRecord::value]. *)
Definition record_value (r : ArchiveRecord) : value :=
  match r with
  | ApplicabilityRecord r => applicability_value r
  | ResolvedSpecificationRecord r => resolved_specification_value r
  | ResolvedAttemptSlotEntry r => attempt_slot_value r
  | ResolvedObservationSlotEntry r => observation_slot_value r
  | SlotMembershipRecord r => slot_membership_value r
  | AttemptRecord r => attempt_value r
  | AttemptTransitionRecord r => transition_value r
  | ObservationRecord r => observation_value r
  | ObservationSelectionRecord r => selection_value r
  | StoredArtifactRecord r => stored_artifact_value r
  | AttemptArtifactRecord r => attempt_artifact_value r
  | ObservationArtifactRecord r => observation_artifact_value r
  | EventRecord r => event_value r
  | FreshMemberRecord r => fresh_member_value r
  | FreshBudgetRecord r => fresh_budget_value r
  | FreshDispositionRecord r => fresh_disposition_value r
  | FreshPolicyRecord r => fresh_policy_value r
  | FreshSequenceRecord r => fresh_sequence_value r
  end.

(** ** Stored policies *)

(** [Deserialize for ProfilePolicy]: an absent bound is zero, and a present one
    is positive. *)
Definition bound_codec : codec Z := refined (unsigned_codec MAX_SAFE_INTEGER) (fun n => negb (n =? 0)%Z).
Definition direction_codec : codec Direction.
Proof. refine (enum_codec direction_name [AtMost; AtLeast] _). by intros []. Defined.
Definition thresholds_codec : codec (list spec_float) :=
  refined (vec_codec f64_codec) (fun l => negb (bool_decide (l = []))).
Definition policy_wire :=
  FDef "metric" (present string_codec) (FDef "direction" (present direction_codec)
  (FDef "threshold" (present f64_codec) (FDef "record-thresholds" (present thresholds_codec)
  (FReq "max-observations" u64_codec (FDef "max-checkpoint-bytes" (present bound_codec)
  (FDef "max-trace-points" (present bound_codec) (FDef "max-buffer-bytes" (present bound_codec)
  (FDef "terminal-reserve-bytes" (present bound_codec)
  (FReq "max-active-time" string_codec FNil))))))))).
Definition decode_policy (v : value) : option ProfilePolicy :=
  (fun '(m, (d, (t, (r, (o, (c, (p, (b, (e, (a, _)))))))))) => {|
     metric := m; direction := d; threshold := t; record_thresholds := default [] r;
     max_observations := o; max_checkpoint_bytes := default 0%Z c; max_trace_points := default 0%Z p;
     max_buffer_bytes := default 0%Z b; terminal_reserve_bytes := default 0%Z e;
     max_active_time := a |}) <$> from_struct true policy_wire v.
