(* ===== verification/ArchiveValidation.v ===== *)
(** * Validation of archived evidence (src/core/archive/validation.rs)

    The coordination relationships an archive must preserve.  The rows are JSON
    values, read by key as the source reads them. *)
From S2P Require Import Prelude Json Canonical Identity Profile Records Store Recovery Wire Archive.
From Stdlib Require Import Ascii.

Inductive ArchiveEvidenceError :=
  | UnsupportedVersion
  | Unsettled
  | Invalid (message : string).
Abbreviation Checked A := (result ArchiveEvidenceError A) (only parsing).
Definition refuse {A} (message : string) : Checked A := Err (Invalid message).
(** [if rejected { return Err(invalid(message)) }]. *)
Definition refuse_if (b : bool) (message : string) : Checked unit := ensure (negb b) (Invalid message).

(** ** Rows and indexes *)

(** A [BTreeMap<&str, &Value>]. *)
Definition Index : Type := list (string * value).
(** [rows(kind)]: the rows of a table in the order of the records. *)
Definition Tables : Type := string -> list value.
Definition tables (records : list ArchiveRecord) : Tables := fun kind =>
  map record_value (List.filter (fun r => String.eqb (record_kind r) kind) records).

Definition value_u64 (v : value) : option Z := match v with Number n => as_u64 n | _ => None end.
(** [names.iter().any(|name| v == *name)]. *)
Definition one_of (v : value) (names : list string) : bool := existsb (fun s => bool_decide (v = Str s)) names.
(** [row[a] == other[b]]. *)
Definition same (row : value) (a : string) (other : value) (b : string) : bool :=
  bool_decide (index row a = index other b).
Definition field_is (row : value) (key : string) (v : value) : bool := bool_decide (index row key = v).
Definition is_null (row : value) (key : string) : bool := field_is row key Null.

Definition text (row : value) (key : string) : Checked string :=
  ok_or (as_str (index row key)) (Invalid ("missing string evidence field: " +:+ key)).
Definition integer (row : value) (key : string) : Checked Z :=
  ok_or (value_u64 (index row key)) (Invalid ("missing integer evidence field: " +:+ key)).
Definition time_of (row : value) (key : string) : Checked Z :=
  t ← text row key;
  ok_or (parse_u64 t) (Invalid "invalid evidence timestamp").

Definition index_step (key : string) (output : Index) (row : value) : Checked Index :=
  k ← text row key;
  match map_get k output with
  | Some _ => refuse "duplicate evidence identity or coordination key"
  | None => Ok (map_insert k row output)
  end.
Definition index_rows (rows : list value) (key : string) : Checked Index :=
  try_fold (index_step key) [] rows.

(** Two values have the same text exactly if they are equal. *)
Definition unique_step (keys : list string) (seen : list (list value)) (row : value)
  : Checked (list (list value)) :=
  let key := map (index row) keys in
  if bool_decide (key ∈ seen) then refuse "duplicate evidence coordination key" else Ok (key :: seen).
Definition unique (rows : list value) (keys : list string) : Checked unit :=
  _ ← try_fold (unique_step keys) [] rows; Ok tt.

Definition reference (idx : Index) (row : value) (key : string) : Checked value :=
  t ← text row key;
  ok_or (map_get t idx) (Invalid ("missing referenced evidence: " +:+ key)).
Definition referenced (idx : Index) (row : value) (key : string) : Checked unit :=
  _ ← reference idx row key; Ok tt.
(** [for row in index.values()]. *)
Definition each (idx : Index) (f : value -> Checked unit) : Checked unit := for_each f (map snd idx).

(** The edges between states, by their names. *)
Definition allowed_transition (from to : string) : bool :=
  let is_one l s := existsb (String.eqb s) l in
  match from, to with
  | "reserved", "materializing" | "materializing", "starting" | "starting", "preparing"
  | "preparing", "executing" | "executing", "checkpointing" | "executing", "validating"
  | "checkpointing", "validating" | "validating", "evaluating" | "evaluating", "executing" => true
  | _, _ =>
      is_one ["reserved"; "materializing"; "starting"; "preparing"; "executing"; "checkpointing";
              "validating"; "evaluating"] from && String.eqb to "finalizing"
      || String.eqb from "finalizing" && is_one ["accepted"; "censored"; "superseded"; "failed"] to
  end%string.
Definition SETTLED : list string := ["accepted"; "failed"; "censored"; "superseded"].

Section Validation.
Context `{ThirdParty}.
(** The texts of the errors of other modules. *)
Context (id_text : RecordIdParseError -> string) (identity_text : IdentityError -> string)
  (violation_text : CanonicalValueViolation -> string) (serializer_text serde_text : string)
  (policy_text : PolicyError -> string).

Definition verify_identity (t : IdentityType) (id : string) (representation : value) : Checked unit :=
  _ ← refuse_if (negb (field_is representation "version" (json_u64 IDENTITY_VERSION)))
        "unsupported canonical identity version";
  expected ← map_err (fun e => Invalid (id_text e)) (from_str t id);
  v ← map_err (fun e => Invalid (violation_text e)) (Canonical.try_from representation);
  canonical ← ok_or (to_vec v) (Invalid serializer_text);
  refuse_if (negb (bool_decide (expected = from_digest (hash_identity t canonical))))
    "canonical identity does not match its recorded representation".

(** The closure [duration]. *)
Definition duration_of (document : value) (key : string) : Checked value :=
  let timing := index document "timing" in
  if is_null timing key then Ok Null
  else
    ns ← integer timing key;
    Ok (object [("seconds", json_u64 (ns / 1000000000)); ("nanoseconds", json_u64 (ns mod 1000000000))]).

Definition verify_observation (row : value) : Checked unit :=
  let document := index row "definition" in
  let validity := index document "validity" in
  let timing := index document "timing" in
  _ ← refuse_if
    (negb (same document "id" row "id") || negb (same document "slot_id" row "slot_id")
     || negb (same document "attempt_id" row "attempt_id")
     || negb (same validity "valid" row "valid") || negb (same validity "completion" row "completion"))
    "observation projection disagrees with its document";
  timed ← duration_of document "timed_wall_time_ns";
  implementation ← duration_of document "implementation_time_ns";
  evaluation ← duration_of document "evaluation_time_ns";
  cpu ← duration_of document "cpu_time_ns";
  let fields := [
    ("version", json_u64 IDENTITY_VERSION); ("slot", index row "slot_id");
    ("producing_attempt", index row "attempt_id"); ("result", index document "result");
    ("metrics", index document "metrics"); ("completion", index row "completion");
    ("timing", object [
      ("primary_time", index timing "primary_time"); ("timed_wall_time", timed);
      ("implementation_time", implementation); ("evaluation_time", evaluation);
      ("cpu_time", cpu); ("peak_rss_bytes", index timing "peak_rss_bytes")])] in
  let representation := object (fields ++
    match (as_object document ≫= map_get "profile") with Some p => [("profile", p)] | None => [] end) in
  id ← text row "id";
  verify_identity ObservationType id representation.

(** ** Artifacts, decisions, runs and slots *)

Definition check_artifact (artifact : value) : Checked unit :=
  let unsupported := "unsupported or incomplete artifact registration" in
  kind ← text artifact "kind";
  _ ← refuse_if
    (negb (existsb (String.eqb kind) ["attempt"; "observation"; "result"; "metrics"; "dataset"; "source";
                                      "environment"; "other"])) unsupported;
  storage ← text artifact "storage_kind";
  _ ← refuse_if
    (negb (existsb (String.eqb storage) ["file"; "directory"])
     || String.eqb storage "directory" && is_null artifact "manifest_sha256") unsupported;
  id ← text artifact "id";
  match strip_prefix "run-store-v1:" id with
  | None => Ok tt
  | Some _ =>
      digest ← text artifact "sha256";
      refuse_if (negb (String.eqb id ("run-store-v1:" +:+ kind +:+ "-" +:+ digest)))
        "stored artifact identity disagrees with its content hash"
  end.

Definition check_decision (decision : value) : Checked unit :=
  let definition := index decision "definition" in
  outcome ← text definition "outcome";
  _ ← refuse_if (negb (existsb (String.eqb outcome) ["applicable"; "excluded"]))
        "unsupported persisted applicability outcome";
  id ← text decision "id";
  _ ← match strip_prefix "run-store-v1:unconditional:" id with
      | Some _ =>
          candidate ← text decision "candidate_id";
          refuse_if (negb (String.eqb id ("run-store-v1:unconditional:" +:+ candidate))
                     || negb (field_is decision "applicable" (Bool true)))
            "invalid legacy unconditional applicability"
      | None => verify_identity ApplicabilityType id definition
      end;
  refuse_if
    (negb (same definition "candidate_id" decision "candidate_id")
     || negb (bool_decide (String.eqb outcome "applicable" = field_is decision "applicable" (Bool true))))
    "applicability projection disagrees with its definition".

Definition check_run (applicability : Index) (run : value) : Checked unit :=
  let definition := index run "definition" in
  id ← text run "id";
  _ ← verify_identity ResolvedSpecificationType id definition;
  _ ← refuse_if
    (negb (same definition "logical_specification" run "logical_specification_id")
     || negb (is_null definition "applicability")
        && negb (same definition "applicability" run "applicability_id"))
    "resolved run projection disagrees with its definition";
  decision ← reference applicability run "applicability_id";
  refuse_if (negb (field_is decision "applicable" (Bool true)) || negb (same decision "candidate_id" run "candidate_id"))
    "resolved run has inconsistent applicability evidence".

Definition check_slot (runs : Index) (slot : value) : Checked unit :=
  let definition := index slot "definition" in
  _ ← reference runs slot "resolved_run_id";
  refuse_if (negb (same definition "logical_slot" slot "logical_slot_id")
             || negb (same definition "specification" slot "resolved_run_id"))
    "slot projection disagrees with its definition".
Definition check_observation_slot (slot : value) : Checked unit :=
  id ← text slot "id";
  verify_identity ResolvedObservationSlotType id (index slot "definition").
Definition check_attempt_slot (slot : value) : Checked unit :=
  id ← text slot "id";
  _ ← verify_identity ResolvedAttemptSlotType id (index slot "definition");
  refuse_if (negb (one_of (index slot "role") ["measurement"; "warmup"])
             || negb (one_of (index slot "kind") ["one_shot"; "buffered"; "fresh_observation"; "stream"]))
    "unsupported attempt slot role or delivery kind".

Definition check_member (slots observation_slots : Index) (member : value) : Checked unit :=
  slot ← reference slots member "attempt_slot_id";
  observation ← reference observation_slots member "observation_slot_id";
  refuse_if (negb (same slot "resolved_run_id" member "resolved_run_id")
             || negb (same observation "resolved_run_id" member "resolved_run_id"))
    "observation membership crosses resolved runs".

(** ** Attempts and their histories *)

(** One step of the loop over the transitions of an attempt, after [previous]. *)
Definition check_transition (events : list value) (attempt : value) (start revision : Z)
    (previous : option value) (transition : value) : Checked unit :=
  r ← integer transition "revision";
  _ ← refuse_if (negb (r =? revision)%Z) "attempt revisions are not contiguous";
  _ ← match previous with
      | Some previous =>
          from ← text previous "to_state";
          to ← text transition "to_state";
          _ ← refuse_if (negb (allowed_transition from to)) "unsupported attempt state transition";
          let unordered := "attempt transitions do not form an ordered chain" in
          _ ← refuse_if (negb (same transition "previous_revision" previous "revision")
                         || negb (same transition "from_state" previous "to_state")) unordered;
          now ← time_of transition "occurred_at_ns";
          before ← time_of previous "occurred_at_ns";
          refuse_if (now <? before)%Z unordered
      | None =>
          let unreserved := "attempt history does not start with its reservation" in
          _ ← refuse_if (negb (field_is transition "to_state" (Str "reserved"))
                         || negb (is_null transition "from_state")
                         || negb (is_null transition "previous_revision")) unreserved;
          now ← time_of transition "occurred_at_ns";
          refuse_if (negb (now =? start)%Z) unreserved
      end;
  event ← ok_or (List.find (fun event => same event "sequence" transition "event_sequence") events)
            (Invalid "attempt transition lacks its event");
  refuse_if (negb (same event "attempt_id" attempt "id")
             || negb (same event "occurred_at_ns" transition "occurred_at_ns"))
    "attempt transition disagrees with its event".

(** The loop; the last transition. *)
Fixpoint check_history (events : list value) (attempt : value) (start revision : Z)
    (previous : option value) (transitions : list value) : Checked (option value) :=
  match transitions with
  | [] => Ok previous
  | transition :: transitions =>
      _ ← check_transition events attempt start revision previous transition;
      check_history events attempt start (revision + 1) (Some transition) transitions
  end.

(** [sort_by_key(|row| row["revision"].as_u64())]; [None] is the least. *)
Definition revision_le (a b : value) : Prop :=
  match value_u64 (index a "revision"), value_u64 (index b "revision") with
  | None, _ => True
  | Some _, None => False
  | Some m, Some n => (m <= n)%Z
  end.
#[export] Instance revision_le_dec : RelDecision revision_le.
Proof. intros a b. unfold revision_le. destruct (value_u64 (index a "revision")), (value_u64 (index b "revision")); apply _. Defined.

Definition attempt_transitions_of (rows : Tables) (attempt : value) : list value :=
  merge_sort revision_le
    (List.filter (fun r => same r "attempt_id" attempt "id") (rows "attempt-transition")).

(** The terminal row of an attempt; when it started. *)
Definition check_terminal (slots artifacts : Index) (attempt : value) : Checked Z :=
  _ ← reference slots attempt "slot_id";
  _ ← ensure (one_of (index attempt "state") SETTLED && negb (is_null attempt "finished_at_ns")) Unsettled;
  artifact ← reference artifacts attempt "artifact_id";
  _ ← refuse_if (negb (field_is artifact "kind" (Str "attempt")))
        "terminal attempt references the wrong artifact kind";
  _ ← refuse_if (negb (bool_decide (field_is attempt "state" (Str "failed")
                                    = negb (is_null attempt "failure_code"))))
        "failure code disagrees with the attempt state";
  start ← time_of attempt "started_at_ns";
  finished ← time_of attempt "finished_at_ns";
  _ ← refuse_if ((finished <? start)%Z || negb (same attempt "updated_at_ns" attempt "finished_at_ns"))
        "inconsistent terminal attempt timestamps";
  Ok start.
(** The slots that have an accepted attempt. *)
Definition claim_slot (accepted_slots : list string) (attempt : value) : Checked (list string) :=
  if field_is attempt "state" (Str "accepted") then
    slot ← text attempt "slot_id";
    if bool_decide (slot ∈ accepted_slots)
    then refuse "several accepted attempts occupy one slot"
    else Ok (slot :: accepted_slots)
  else Ok accepted_slots.
Definition check_attempt_identity (attempt : value) : Checked unit :=
  slot ← text attempt "slot_id";
  match from_str ResolvedAttemptSlotType slot with
  | Err _ => Ok tt
  | Ok slot =>
      retry ← integer attempt "retry_index";
      expected ← map_err (fun e => Invalid (identity_text e)) (run_attempt_id slot retry);
      id ← text attempt "id";
      refuse_if (negb (String.eqb (to_string expected) id))
        "attempt identity disagrees with its slot and retry index"
  end.
Definition check_transitions (rows : Tables) (start : Z) (attempt : value) : Checked unit :=
  let transitions := attempt_transitions_of rows attempt in
  revision ← integer attempt "revision";
  expected ← ok_or (checked_add_u64 revision 1) (Invalid "attempt revision overflows");
  _ ← refuse_if (negb (Z.of_nat (length transitions) =? expected)%Z)
        "attempt transition history is incomplete";
  last ← check_history (rows "event") attempt start 0 None transitions;
  refuse_if
    match last with
    | Some last => negb (same last "to_state" attempt "state")
                   || negb (same last "occurred_at_ns" attempt "finished_at_ns")
    | None => true
    end
    "attempt projection disagrees with its transition history".
Definition check_attempt (rows : Tables) (slots artifacts : Index) (accepted_slots : list string)
    (attempt : value) : Checked (list string) :=
  start ← check_terminal slots artifacts attempt;
  accepted_slots ← claim_slot accepted_slots attempt;
  _ ← check_attempt_identity attempt;
  _ ← check_transitions rows start attempt;
  Ok accepted_slots.

(** ** Observations *)

Definition check_observation (attempts members artifacts selections : Index) (observation : value)
  : Checked unit :=
  _ ← verify_observation observation;
  attempt ← reference attempts observation "attempt_id";
  member ← reference members observation "slot_id";
  artifact ← reference artifacts observation "artifact_id";
  _ ← refuse_if
    (negb (same attempt "slot_id" observation "attempt_slot_id")
     || negb (same member "attempt_slot_id" observation "attempt_slot_id")
     || negb (field_is artifact "kind" (Str "observation"))
     || negb (field_is observation "valid" (Bool true)))
    "observation disagrees with its producing attempt, slot, or artifact";
  if field_is observation "selected" (Bool true) then
    selection ← reference selections observation "id";
    refuse_if (negb (same selection "slot_id" observation "slot_id")
               || negb (field_is attempt "state" (Str "accepted")))
      "selected observation has no accepted producing attempt"
  else
    id ← text observation "id";
    refuse_if (bool_decide (is_Some (map_get id selections)))
      "observation selection flag disagrees with the selection record".

(** An accepted attempt of a measured slot. *)
Definition check_accepted (slots observations : Index) (attempt : value) : Checked unit :=
  slot ← reference slots attempt "slot_id";
  if field_is slot "role" (Str "measurement") then
    let produced := List.filter (fun o => same o "attempt_id" attempt "id") (map snd observations) in
    refuse_if (bool_decide (produced = [])
               || existsb (fun o => negb (field_is o "selected" (Bool true))) produced)
      "accepted measurement lacks its selected observations"
  else Ok tt.

(** ** Fresh sequences *)

Definition check_fresh_member (rows : Tables) (slots memberships : Index) (member : value) : Checked unit :=
  slot ← reference slots member "slot_id";
  membership ← reference memberships member "observation_slot_id";
  _ ← refuse_if
    (negb (same slot "resolved_run_id" member "resolved_run_id")
     || negb (field_is slot "kind" (Str "fresh_observation"))
     || negb (same membership "attempt_slot_id" member "slot_id"))
    "inconsistent fresh-sequence membership";
  refuse_if (negb (existsb (fun p => same p "resolved_run_id" member "resolved_run_id"
                                     && same p "measurement_index" member "measurement_index")
                     (rows "fresh-policy")))
    "fresh member has no sequence policy".

Definition check_budget (attempts members : Index) (budget : value) : Checked unit :=
  attempt ← reference attempts budget "attempt_id";
  _ ← reference members attempt "slot_id";
  refuse_if
    (match value_u64 (index budget "charged_ns") with
     | Some charged => (default 0 (value_u64 (index budget "reserved_ns")) <? charged)%Z
     | None => false
     end || field_is budget "reserved_ns" (json_u64 0))
    "fresh time charge exceeds its reservation".

Definition check_disposition (attempts members : Index) (disposition : value) : Checked unit :=
  member ← reference members disposition "slot_id";
  cause ← reference attempts disposition "causing_attempt_id";
  causing_member ← reference members cause "slot_id";
  refuse_if
    (negb (same member "resolved_run_id" causing_member "resolved_run_id")
     || negb (same member "measurement_index" causing_member "measurement_index")
     || negb (one_of (index disposition "reason") ["skipped_target_reached"; "active_time_limit"]))
    "fresh stopping disposition crosses sequences or has an unsupported reason".

(** The policy of the sequence that [row] names by [run]. *)
Definition same_sequence (p row : value) (run : string) : bool :=
  same p "resolved_run_id" row run && same p "measurement_index" row "measurement_index".

Definition check_policy (rows : Tables) (runs : Index) (policy : value) : Checked unit :=
  _ ← reference runs policy "resolved_run_id";
  refuse_if (negb (existsb (fun p => same p "resolved_specification_id" policy "resolved_run_id"
                                     && same p "measurement_index" policy "measurement_index")
                     (rows "fresh-sequence")))
    "fresh policy lacks its progress record".

(** The time charged to a sequence and the part of it that is only reserved. *)
Definition charge_step (attempts : Index) (sequence_members : list value) (totals : Z * Z) (budget : value)
  : Checked (Z * Z) :=
  let '(consumed, conservative) := totals in
  attempt ← reference attempts budget "attempt_id";
  if existsb (fun member => same member "slot_id" attempt "slot_id") sequence_members then
    reserved ← integer budget "reserved_ns";
    let charged := default reserved (value_u64 (index budget "charged_ns")) in
    consumed ← ok_or (checked_add_u64 consumed charged) (Invalid "fresh time total overflows");
    conservative ← (if is_null budget "charged_ns"
      then ok_or (checked_add_u64 conservative reserved) (Invalid "fresh conservative total overflows")
      else Ok conservative);
    Ok (consumed, conservative)
  else Ok totals.

(** The status a sequence must have. *)
Definition expected_status (target fixed limit exhausted : bool) : string * option string :=
  if target then ("accepted", Some "target_reached")
  else if fixed then ("accepted", Some "fixed_count")
  else if limit then ("censored", Some "active_time_limit")
  else if exhausted then ("censored", Some "schedule_exhausted")
  else ("partial", None).

Definition check_progress (rows : Tables) (runs attempts members : Index) (progress : value) : Checked unit :=
  let unmatched := "fresh progress lacks a matching run and policy" in
  run ← reference runs progress "resolved_specification_id";
  _ ← refuse_if (negb (same progress "logical_specification_id" run "logical_specification_id")) unmatched;
  policy ← ok_or (List.find (fun p => same_sequence p progress "resolved_specification_id")
                    (rows "fresh-policy")) (Invalid unmatched);
  let sequence_members :=
    List.filter (fun m => same_sequence m progress "resolved_specification_id") (map snd members) in
  let in_sequence attempt := existsb (fun m => same m "slot_id" attempt "slot_id") sequence_members in
  let is_accepted attempt := field_is attempt "state" (Str "accepted") in
  let count := Z.of_nat (length sequence_members) in
  let accepted := Z.of_nat (length
    (List.filter (fun a => is_accepted a && in_sequence a) (map snd attempts))) in
  let miscounted := "fresh progress counts disagree with committed attempts" in
  scheduled_points ← integer progress "scheduled_points";
  _ ← refuse_if (negb (scheduled_points =? count)%Z) miscounted;
  accepted_points ← integer progress "accepted_points";
  _ ← refuse_if (negb (accepted_points =? accepted)%Z) miscounted;
  '(consumed, conservative) ← try_fold (charge_step attempts sequence_members) (0, 0)%Z (rows "fresh-budget");
  policy ← ok_or (decode_policy (index policy "policy")) (Invalid serde_text);
  _ ← map_err (fun e => Invalid (policy_text e)) (Policy.validate policy);
  limit ← map_err (fun e => Invalid (policy_text e)) (Policy.active_time_ns policy);
  let target := existsb (fun o => field_is o "completion" (Str "reached")
    && match map_get (default "" (as_str (index o "attempt_id"))) attempts with
       | Some attempt => is_accepted attempt && in_sequence attempt
       | None => false
       end) (rows "observation") in
  let attempted := Z.of_nat (length (List.filter (fun m =>
    existsb (fun a => same a "slot_id" m "slot_id") (map snd attempts)) sequence_members)) in
  let '(status, reason) := expected_status target
    (bool_decide (metric policy = None) && (accepted =? count)%Z)
    (limit <=? consumed)%Z (attempted =? count)%Z in
  _ ← refuse_if (negb (field_is progress "status" (Str status))
                 || negb (field_is progress "reason" (optional_text reason)))
        "fresh progress status disagrees with its committed observations and policy";
  let unaccounted := "fresh progress accounting disagrees with its reservations" in
  consumed_time ← integer progress "consumed_time_ns";
  _ ← refuse_if (negb (consumed_time =? consumed)%Z) unaccounted;
  conservative_time ← integer progress "conservative_time_ns";
  refuse_if (negb (conservative_time =? conservative)%Z) unaccounted.

Definition validate_fresh (rows : Tables) (runs slots attempts memberships : Index) : Checked unit :=
  members ← index_rows (rows "fresh-member") "slot_id";
  _ ← unique (rows "fresh-member") ["resolved_run_id"; "measurement_index"; "schedule_index"];
  _ ← unique (rows "fresh-budget") ["attempt_id"];
  _ ← unique (rows "fresh-disposition") ["slot_id"];
  _ ← unique (rows "fresh-policy") ["resolved_run_id"; "measurement_index"];
  _ ← unique (rows "fresh-sequence") ["resolved_specification_id"; "measurement_index"];
  _ ← each members (check_fresh_member rows slots memberships);
  _ ← for_each (fun slot => referenced members slot "id")
        (List.filter (fun slot => field_is slot "kind" (Str "fresh_observation")) (map snd slots));
  _ ← for_each (check_budget attempts members) (rows "fresh-budget");
  _ ← for_each (check_disposition attempts members) (rows "fresh-disposition");
  _ ← for_each (check_policy rows runs) (rows "fresh-policy");
  for_each (check_progress rows runs attempts members) (rows "fresh-sequence").

(** ** The whole validation *)

(** A record that may not be archived: an attempt that is still open. *)
Definition check_record (r : ArchiveRecord) : Checked unit :=
  match r with
  | AttemptRecord a =>
      ensure (bool_decide (is_Some (ae_finished_at_ns a)) && existsb (String.eqb (ae_state a)) SETTLED)
        Unsettled
  | _ => Ok tt
  end.

(** The uniqueness checks before the rows are looked at. *)
Definition unique_keys : list (string * list string) := [
  ("stored-artifact", ["path"]);
  ("resolved-attempt-slot", ["logical_slot_id"; "resolved_run_id"]);
  ("resolved-observation-slot", ["logical_slot_id"; "resolved_run_id"]);
  ("attempt", ["slot_id"; "retry_index"]);
  ("observation-selection", ["slot_id"]);
  ("event", ["sequence"]);
  ("attempt-transition", ["attempt_id"; "revision"]);
  ("attempt-transition", ["event_sequence"]);
  ("attempt-artifact", ["attempt_id"; "role"; "artifact_id"]);
  ("observation-artifact", ["observation_id"; "role"; "artifact_id"])].

(** From the attempts to the events that refer to them. *)
Definition validate_attempts (rows : Tables) (slots artifacts attempts : Index) : Checked unit :=
  _ ← try_fold (check_attempt rows slots artifacts) [] (map snd attempts);
  _ ← for_each (fun t => referenced attempts t "attempt_id") (rows "attempt-transition");
  for_each (fun e => if is_null e "attempt_id" then Ok tt else referenced attempts e "attempt_id")
    (rows "event").

Definition validate (evidence : ArchiveEvidence) : Checked unit :=
  _ ← ensure (schema_version evidence =? RESULT_ARCHIVE_VERSION)%Z UnsupportedVersion;
  _ ← for_each check_record (records evidence);
  let rows := tables (records evidence) in
  applicability ← index_rows (rows "applicability") "id";
  runs ← index_rows (rows "resolved-specification") "id";
  slots ← index_rows (rows "resolved-attempt-slot") "id";
  observation_slots ← index_rows (rows "resolved-observation-slot") "id";
  attempts ← index_rows (rows "attempt") "id";
  observations ← index_rows (rows "observation") "id";
  artifacts ← index_rows (rows "stored-artifact") "id";
  members ← index_rows (rows "slot-membership") "observation_slot_id";
  selections ← index_rows (rows "observation-selection") "observation_id";
  _ ← for_each (fun '(kind, keys) => unique (rows kind) keys) unique_keys;
  _ ← each artifacts check_artifact;
  _ ← each applicability check_decision;
  _ ← each runs (check_run applicability);
  _ ← each slots (check_slot runs);
  _ ← each observation_slots (check_slot runs);
  _ ← each observation_slots check_observation_slot;
  _ ← each slots check_attempt_slot;
  _ ← each members (check_member slots observation_slots);
  _ ← each observation_slots (fun slot => referenced members slot "id");
  _ ← validate_attempts rows slots artifacts attempts;
  _ ← each observations (check_observation attempts members artifacts selections);
  _ ← each selections (fun s => referenced observations s "observation_id");
  _ ← for_each (check_accepted slots observations)
        (List.filter (fun a => field_is a "state" (Str "accepted")) (map snd attempts));
  _ ← for_each (fun e => _ ← referenced attempts e "attempt_id"; referenced artifacts e "artifact_id")
        (rows "attempt-artifact");
  _ ← for_each (fun e => _ ← referenced observations e "observation_id"; referenced artifacts e "artifact_id")
        (rows "observation-artifact");
  validate_fresh rows runs slots attempts members.
End Validation.
