(* ===== verification/Reader.v ===== *)
(** * The committed evidence of a store (src/runtime/run_store/reader.rs, evidence.rs)

    The rows that inspection reads from a store, table by table, and the archive
    evidence that is built from them. *)
From S2P Require Import Prelude Json Canonical Identity Profile Records Store Attempts Fresh RunStore Publisher Wire Archive.
From Stdlib Require Import Ascii.

(** Names of the enumerations; the other ones are those of the outcome document. *)
Definition status_name (s : ProgressStatus) : string :=
  match s with PAccepted => "accepted" | PPartial => "partial" | PCensored => "censored" end.
Definition reason_name (r : ProgressReason) : string :=
  match r with
  | TargetReached => "target_reached" | FixedCount => "fixed_count"
  | ActiveTimeLimitReached => "active_time_limit" | ScheduleExhausted => "schedule_exhausted"
  end.
Definition digest_text (b : bytes) : string := string_of (hex b).

(** [ORDER BY id] over a whole table. *)
Definition table_rows {A} (m : gmap string A) : list (string * A) := rows_by_id (fun _ _ => true) m.

(** ** One function per query *)

Definition applicability_rows (d : db) : list ApplicabilityEvidence :=
  map (fun '(id, r) => {| ap_id := id; ap_candidate_id := dec_candidate r;
    ap_applicable := dec_applicable r; ap_definition := dec_record r |})
    (table_rows (applicability_decisions d)).
Definition specification_rows (d : db) : list ResolvedSpecificationEvidence :=
  map (fun '(id, r) => {| rs_id := id; rs_logical_specification_id := run_logical r;
    rs_candidate_id := run_candidate r; rs_applicability_id := run_applicability r;
    rs_definition := run_record r |}) (table_rows (resolved_runs d)).
Definition attempt_slot_rows (d : db) : list AttemptSlotEvidence :=
  map (fun '(id, r) => {| se_id := id; se_logical_slot_id := as_logical r;
    se_resolved_run_id := as_run r; se_role := Publisher.role_name (as_role r);
    se_kind := kind_name (as_kind r); se_definition := as_record r |})
    (table_rows (attempt_slots d)).
Definition observation_slot_rows (d : db) : list ObservationSlotEvidence :=
  map (fun '(id, r) => {| oe_id := id; oe_logical_slot_id := os_logical r;
    oe_resolved_run_id := os_run r; oe_definition := os_record r |})
    (table_rows (observation_slots d)).

(** [ORDER BY attempt_slot_id, observation_slot_id]. *)
Definition membership_le (a b : SlotMembershipEvidence) : Prop :=
  reference_le (sm_attempt_slot_id a, sm_observation_slot_id a) (sm_attempt_slot_id b, sm_observation_slot_id b).
#[export] Instance membership_le_dec : RelDecision membership_le.
Proof. intros a b. unfold membership_le. apply _. Defined.
Definition membership_rows (d : db) : list SlotMembershipEvidence :=
  merge_sort membership_le
    (map (fun '(o, r) => {| sm_attempt_slot_id := mem_attempt_slot r; sm_observation_slot_id := o;
       sm_resolved_run_id := mem_run r |}) (map_to_list (attempt_observation_slots d))).

(** [max(expires_at_ns)] of the reservation leases that are held. *)
Definition lease_expiry (d : db) (id : string) : option Z :=
  let held := List.filter (fun kv => bool_decide (le_attempt kv.2 = Some id)
    && bool_decide (le_purpose kv.2 = Reservation) && bool_decide (le_released kv.2 = None))
    (map_to_list (leases d)) in
  foldr (fun kv acc => Some (match acc with Some m => Z.max (le_expires kv.2) m | None => le_expires kv.2 end))
    None held.
Definition attempt_evidence (d : db) (id : string) (a : attempt_row) : AttemptEvidence := {|
  ae_id := id; ae_slot_id := att_slot a; ae_retry_index := att_retry_index a;
  ae_state := state_name (att_state a); ae_revision := att_revision a;
  ae_started_at_ns := decimal (att_started a); ae_updated_at_ns := decimal (att_updated a);
  ae_finished_at_ns := decimal <$> att_finished a; ae_failure_code := att_failure_code a;
  ae_artifact_id := att_final_artifact a;
  ae_lease_expires_at_ns := decimal <$> lease_expiry d id |}.
(** [ORDER BY a.slot_id, a.retry_index, a.id]. *)
Definition attempt_le (a b : AttemptEvidence) : Prop :=
  match String.compare (ae_slot_id a) (ae_slot_id b) with
  | Lt => True
  | Gt => False
  | Eq => (ae_retry_index a < ae_retry_index b)%Z \/
          (ae_retry_index a = ae_retry_index b /\ string_le (ae_id a) (ae_id b))
  end.
#[export] Instance attempt_le_dec : RelDecision attempt_le.
Proof. intros a b. unfold attempt_le. destruct (String.compare _ _); apply _. Defined.
Definition attempt_rows (d : db) : list AttemptEvidence :=
  merge_sort attempt_le (map (fun kv => attempt_evidence d kv.1 kv.2) (map_to_list (attempts d))).

Definition transition_evidence (t : transition_row) : TransitionEvidence := {|
  te_attempt_id := tr_attempt t; te_revision := tr_revision t; te_previous_revision := tr_previous t;
  te_from_state := state_name <$> tr_from t; te_to_state := state_name (tr_to t);
  te_occurred_at_ns := decimal (tr_at t); te_event_sequence := tr_event t |}.
(** [ORDER BY attempt_id, revision]. *)
Definition transition_le (a b : transition_row) : Prop :=
  match String.compare (tr_attempt a) (tr_attempt b) with
  | Lt => True | Gt => False | Eq => (tr_revision a <= tr_revision b)%Z
  end.
#[export] Instance transition_le_dec : RelDecision transition_le.
Proof. intros a b. unfold transition_le. destruct (String.compare _ _); apply _. Defined.
Definition transition_rows (d : db) : list TransitionEvidence :=
  map transition_evidence (merge_sort transition_le (attempt_transitions d)).

Definition selected_ids (d : db) : list string :=
  map (fun kv => sel_observation kv.2) (map_to_list (selected_observations d)).
Definition observation_rows (d : db) : list ObservationEvidence :=
  map (fun '(id, o) => {| ov_id := id; ov_slot_id := ob_slot o; ov_attempt_id := ob_attempt o;
    ov_attempt_slot_id := ob_attempt_slot o; ov_artifact_id := ob_artifact o; ov_valid := ob_valid o;
    ov_completion := completion_name (ob_completion o);
    ov_selected := existsb (String.eqb id) (selected_ids d); ov_definition := ob_record o |})
    (table_rows (observations d)).
Definition selection_rows (d : db) : list SelectionEvidence :=
  map (fun '(slot, s) => {| sl_slot_id := slot; sl_observation_id := sel_observation s;
    sl_selected_at_ns := decimal (sel_at s) |}) (table_rows (selected_observations d)).
Definition artifact_rows (d : db) : list StoredArtifactEvidence :=
  map (fun '(id, r) => {| sa_id := id; sa_kind := artifact_kind_name (art_kind r); sa_path := art_path r;
    sa_sha256 := digest_text (art_content r);
    sa_storage_kind := if art_directory r then "directory" else "file";
    sa_manifest_sha256 := digest_text <$> art_manifest r; sa_verified_at_ns := decimal (art_verified r) |})
    (table_rows (artifacts d)).
(** [ORDER BY attempt_id, role, artifact_id]. *)
Definition edge_le (a b : string * string * string) : Prop :=
  match String.compare a.1.1 b.1.1 with
  | Lt => True | Gt => False | Eq => reference_le (a.1.2, a.2) (b.1.2, b.2)
  end.
#[export] Instance edge_le_dec : RelDecision edge_le.
Proof. intros a b. unfold edge_le. destruct (String.compare _ _); apply _. Defined.
Definition attempt_artifact_rows (d : db) : list AttemptArtifactEvidence :=
  map (fun '(a, role, artifact) => {| aa_attempt_id := a; aa_role := role; aa_artifact_id := artifact |})
    (merge_sort edge_le (attempt_artifacts d)).
Definition event_evidence (i : nat) (e : event_row) : EventEvidence := {|
  ee_sequence := Z.of_nat (S i); ee_attempt_id := ev_attempt e; ee_occurred_at_ns := decimal (ev_at e);
  ee_kind := ev_kind e; ee_payload := ev_payload e |}.
Definition event_rows (d : db) : list EventEvidence := imap event_evidence (events d).

(** The tables of version 3. *)
Definition policy_rows (d : db) : list FreshPolicyEvidence :=
  map (fun '(run, index, policy) => {| pe_resolved_run_id := run; pe_measurement_index := index;
    pe_policy := policy_value policy |}) (merge_sort sequence_le (map_to_list (fresh_sequences d))).
(** The observation slot of a member; a member without one has no row. *)
Definition member_slot (d : db) (slot : string) : option string :=
  fst <$> List.find (fun kv => String.eqb (mem_attempt_slot kv.2) slot)
            (map_to_list (attempt_observation_slots d)).
Definition member_evidence (d : db) (slot : string) (m : member_row) : option FreshMemberEvidence :=
  o ← member_slot d slot;
  Some {| me_slot_id := slot; me_resolved_run_id := fm_run m; me_measurement_index := fm_measurement m;
          me_schedule_index := fm_schedule m; me_control := fm_control m; me_observation_slot_id := o |}.
Definition budget_rows (d : db) : list FreshBudgetEvidence :=
  map (fun '(a, b) => {| be_attempt_id := a; be_reserved_ns := bu_reserved b; be_charged_ns := bu_charged b |})
    (table_rows (fresh_budget d)).
Definition disposition_rows (d : db) : list FreshDispositionEvidence :=
  map (fun '(slot, r) => {| de_slot_id := slot; de_reason := disposition_name (di_reason r);
    de_causing_attempt_id := di_attempt r |}) (table_rows (fresh_dispositions d)).
Definition sequence_evidence (p : FreshSequenceProgress) : FreshSequenceEvidence := {|
  qe_resolved_specification_id := fp_resolved_specification_id p;
  qe_logical_specification_id := fp_logical_specification_id p;
  qe_measurement_index := fp_measurement_index p; qe_scheduled_points := fp_scheduled_points p;
  qe_accepted_points := fp_accepted_points p; qe_consumed_time_ns := fp_consumed_time_ns p;
  qe_conservative_time_ns := fp_conservative_time_ns p; qe_status := status_name (fp_status p);
  qe_reason := reason_name <$> fp_reason p |}.

(** ** The evidence *)

Inductive EvidenceError :=
  | StoreFailure (e : RunStoreError)
  | NotEvidence.

(** [StoreSnapshot::read], then [archive_evidence]: the records by the name of
    their kind, and within a kind in the order of the query.  Nothing inserts
    into [observation_artifacts]. *)
Definition archive_evidence (d : db) : result EvidenceError ArchiveEvidence :=
  members ← (if supported d
    then ok_or (mapM (fun kv => member_evidence d kv.1 kv.2) (table_rows (fresh_members d))) NotEvidence
    else Ok []);
  sequences ← map_err StoreFailure (progress d);
  let version_3 {A} (rows : list A) := if supported d then rows else [] in
  Ok {| schema_version := RESULT_ARCHIVE_VERSION; records :=
    map ApplicabilityRecord (applicability_rows d) ++
    map AttemptRecord (attempt_rows d) ++
    map AttemptArtifactRecord (attempt_artifact_rows d) ++
    map AttemptTransitionRecord (transition_rows d) ++
    map EventRecord (event_rows d) ++
    map FreshBudgetRecord (version_3 (budget_rows d)) ++
    map FreshDispositionRecord (version_3 (disposition_rows d)) ++
    map FreshMemberRecord members ++
    map FreshPolicyRecord (version_3 (policy_rows d)) ++
    map FreshSequenceRecord (map sequence_evidence sequences) ++
    map ObservationRecord (observation_rows d) ++
    map ObservationSelectionRecord (selection_rows d) ++
    map ResolvedAttemptSlotEntry (attempt_slot_rows d) ++
    map ResolvedObservationSlotEntry (observation_slot_rows d) ++
    map ResolvedSpecificationRecord (specification_rows d) ++
    map SlotMembershipRecord (membership_rows d) ++
    map StoredArtifactRecord (artifact_rows d) |}.
