(* ===== verification/Archival.v ===== *)
(** * What every store keeps for its archive

    The facts about attempts, transitions and events that the validation of an
    archive looks for, as an invariant of the statements. *)
From S2P Require Import Prelude Json Canonical Identity Profile Records RunDocuments Store Attempts Fresh RunStore Publisher Recovery Coordination Statements History Claims.
From Stdlib Require Import Ascii.

(** Rows of the plan and registered artifacts stay as they are. *)
Record keeps (d d' : db) : Prop := {
  ke_slots : attempt_slots d ⊆ attempt_slots d';
  ke_artifacts : artifacts d ⊆ artifacts d';
}.
#[export] Instance keeps_preorder : PreOrder keeps.
Proof. split; [by intros d; constructor|]. intros a b c [] []. constructor; by etrans. Qed.

Record archival `{ThirdParty} (d : db) : Prop := {
  ac_distinct : NoDup (attempt_transitions d);
  ac_row t : t ∈ attempt_transitions d ->
    (0 <= tr_at t)%Z /\ (1 <= tr_event t)%Z /\
    tr_previous t = (if (tr_revision t =? 0)%Z then None else Some (tr_revision t - 1)%Z);
  ac_start t a : t ∈ attempt_transitions d -> tr_revision t = 0%Z ->
    attempts d !! tr_attempt t = Some a -> tr_at t = att_started a;
  ac_slot id a : attempts d !! id = Some a -> is_Some (attempt_slots d !! att_slot a);
  ac_identity id a : attempts d !! id = Some a ->
    exists slot i, to_string slot = att_slot a /\ run_attempt_id slot (att_retry_index a) = Ok i /\
      to_string i = id;
  ac_artifact id a k : attempts d !! id = Some a -> att_final_artifact a = Some k ->
    exists r, artifacts d !! k = Some r /\ art_kind r = AttemptArtifact;
  ac_event e k : e ∈ events d -> ev_attempt e = Some k -> is_Some (attempts d !! k);
}.

Section Invariant.
Context `{ThirdParty}.

Lemma set_preserves (d d' : db) :
  attempt_slots d = attempt_slots d' -> artifacts d = artifacts d' -> keeps d d'.
Proof. intros E1 E2. constructor; by rewrite ?E1, ?E2. Qed.

Lemma transition_keeps g from to now details terminal d g' d' :
  transition g from to now details terminal d = Ok (g', d') -> keeps d d'.
Proof.
  intros E. apply transition_Ok in E as (old & e & t & Heff & _ & _).
  destruct Heff as [_ _ _ _ -> _ _ _ _ _ _ _]. by apply set_preserves.
Qed.

Lemma stmt_keeps d d' : stmt d d' -> keeps d d'.
Proof.
  destruct 1.
  1: { match goal with E1 : insert_attempt _ _ _ = Ok _, E2 : insert_lease _ _ _ _ _ = Ok _,
      E3 : append_transition _ _ _ _ _ _ _ = Ok _ |- _ =>
      destruct (reserved_Ok _ _ _ _ _ _ _ _ _ _ E1 E2 E3)
        as (l & e & t & _ & _ & _ & _ & _ & _ & _ & _ & _ & _ & _ & _ & _ & _ & _ & -> & _) end.
    by apply set_preserves. }
  1: by eapply transition_keeps.
  1: { etrans; [by eapply transition_keeps|]. unfold delete_claims, release_leases in *. op_inv.
    by apply set_preserves. }
  all: unfold insert_event, insert_lease_row, update_lease, insert_claim, release_one,
    insert_attempt_artifact, insert_leased_artifact, insert_observation, select_observation,
    insert_decision, insert_run, insert_observation_slot, insert_membership, insert_sequence,
    insert_member, insert_budget, charge_budget, insert_dispositions in *;
    try (op_inv; by apply set_preserves).
  - unfold insert_artifact in *. op_inv. constructor; [done|]. by apply insert_subseteq, has_key_false, negb_true_iff.
  - unfold insert_attempt_slot in *. op_inv; [done|]. constructor; [|done]. by apply insert_subseteq, has_key_false.
Qed.

(** The events of a statement other than the two composite ones. *)
Lemma stmt_events d d' :
  stmt d d' ->
  (exists id a purpose lease now details d1 d2,
     att_state a = Reserved /\ att_final_artifact a = None /\ entitled d id a /\
     insert_attempt id a d = Ok d1 /\ insert_lease id purpose lease now d1 = Ok d2 /\
     append_transition id None Reserved 0 (att_started a) details d2 = Ok d') \/
  (exists g from to now details terminal g' d1,
     transition g from to now details terminal d = Ok (g', d1) /\
     attempts d' = attempts d1 /\ attempt_transitions d' = attempt_transitions d1 /\ events d' = events d1 /\
     attempt_slots d' = attempt_slots d1 /\ artifacts d' = artifacts d1) \/
  (attempts d' = attempts d /\ attempt_transitions d' = attempt_transitions d /\
   forall e k, e ∈ events d' -> ev_attempt e = Some k -> e ∈ events d \/ is_Some (attempts d !! k)).
Proof.
  destruct 1.
  1: { left. unfold entitled. eauto 25. }
  1: { right; left. eauto 20. }
  1: { right; left. do 8 eexists. split; [eassumption|].
    unfold delete_claims, release_leases in *. op_inv. by split_and!. }
  1: { do 2 right. unfold insert_event in *. op_inv. split; [done|]. split; [done|]. simpl.
    intros e k [He|He%list_elem_of_singleton]%elem_of_app; [by left|].
    subst e. simpl. intros [= <-]. right. by apply has_key_spec. }
  all: do 2 right; unfold insert_lease_row, update_lease, insert_claim, release_one, insert_artifact,
    insert_attempt_artifact, insert_leased_artifact, insert_observation, select_observation,
    insert_decision, insert_run, insert_attempt_slot, insert_observation_slot, insert_membership,
    insert_sequence, insert_member, insert_budget, charge_budget, insert_dispositions in *;
    op_inv; (split; [done|]; split; [done|]; by left).
Qed.

Lemma archival_same d d' :
  keeps d d' -> attempts d' = attempts d -> attempt_transitions d' = attempt_transitions d ->
  (forall e k, e ∈ events d' -> ev_attempt e = Some k -> e ∈ events d \/ is_Some (attempts d !! k)) ->
  archival d -> archival d'.
Proof.
  intros [Hslots Hart] Ha Ht He Hd. constructor; rewrite ?Ha, ?Ht; try apply Hd.
  - intros id a Hid. destruct (ac_slot _ Hd _ _ Hid) as [r Hr]. exists r. by eapply lookup_weaken.
  - intros id a k Hid Hk. destruct (ac_artifact _ Hd _ _ _ Hid Hk) as (r & Hr & ?).
    exists r. split; [by eapply lookup_weaken|done].
  - intros e k Hin Hk. destruct (He e k Hin Hk); [by eapply ac_event|done].
Qed.

Lemma insert_new (d : db) t :
  (forall u, u ∈ attempt_transitions d -> tr_attempt u = tr_attempt t -> tr_revision u <> tr_revision t) ->
  NoDup (attempt_transitions d) -> NoDup (attempt_transitions d ++ [t]).
Proof.
  intros Hn Hd. apply NoDup_app. split; [done|]. split; [|apply NoDup_singleton].
  intros u Hu ->%list_elem_of_singleton. by apply (Hn t Hu).
Qed.

Lemma archival_reserved id a purpose lease now details d d1 d2 d' :
  att_state a = Reserved -> att_final_artifact a = None -> entitled d id a ->
  insert_attempt id a d = Ok d1 -> insert_lease id purpose lease now d1 = Ok d2 ->
  append_transition id None Reserved 0 (att_started a) details d2 = Ok d' ->
  history d -> archival d -> archival d'.
Proof.
  intros Hs Hf [_ Hid] E1 E2 E3 Hh Hd.
  unfold insert_attempt, constraint in E1. op_inv. bools.
  match goal with E : has_key id _ = false |- _ => apply has_key_false in E; rename E into Hnew end.
  apply insert_lease_Ok in E2 as (_ & -> & _).
  apply append_transition_Ok in E3
    as (e & t & -> & He1 & He2 & _ & Hta & Htr & Htt & Htf & Htat & Hte & Hpos & Hins).
  destruct Hins as [Hfind _ Hedge _]. cbn in Hfind.
  assert (tr_previous t = None) as Hprev.
  { destruct Hedge as [(? & _)|(f & q & _ & _ & Hp & _)]; [done|]. lia. }
  constructor; cbn.
  - apply insert_new; [|apply Hd]. intros u Hu Ha Hr. by eapply find_transition_None.
  - intros u [Hu|Hu%list_elem_of_singleton]%elem_of_app; [by apply (ac_row _ Hd)|].
    subst u. rewrite Hprev, Htr. cbn. split; [by rewrite Htat|]. split; [lia|done].
  - intros u b [Hu|Hu%list_elem_of_singleton]%elem_of_app Hr.
    + destruct (hi_bound _ Hh u Hu) as (x & Hx & _).
      rewrite lookup_insert_ne by (intros Heq; by rewrite <-Heq, Hnew in Hx).
      by apply (ac_start _ Hd).
    + subst u. rewrite Hta, lookup_insert_eq. by intros [= <-].
  - intros k b. destruct (decide (k = id)) as [->|Hne].
    + rewrite lookup_insert_eq. intros [= <-]. by apply has_key_spec.
    + rewrite lookup_insert_ne by done. apply (ac_slot _ Hd).
  - intros k b. destruct (decide (k = id)) as [->|Hne].
    + rewrite lookup_insert_eq. intros [= <-]. done.
    + rewrite lookup_insert_ne by done. apply (ac_identity _ Hd).
  - intros k b x. destruct (decide (k = id)) as [->|Hne].
    + rewrite lookup_insert_eq. intros [= <-]. congruence.
    + rewrite lookup_insert_ne by done. apply (ac_artifact _ Hd).
  - intros x k [Hx|Hx%list_elem_of_singleton]%elem_of_app Hk.
    + destruct (ac_event _ Hd x k Hx Hk) as [b Hb].
      destruct (decide (k = id)) as [->|Hne]; [rewrite lookup_insert_eq|rewrite lookup_insert_ne by done]; by eexists.
    + subst x. rewrite He1 in Hk. injection Hk as <-. rewrite lookup_insert_eq. by eexists.
Qed.

(** The artifact of a terminal projection is registered as one. *)
Lemma transition_artifact g from to now details terminal d g' d' tp :
  transition g from to now details terminal d = Ok (g', d') -> terminal = Some tp ->
  exists r, artifacts d !! tp_artifact_id tp = Some r /\ art_kind r = AttemptArtifact.
Proof.
  intros E ->. unfold transition in E.
  apply bind_Ok in E as (revision & _ & E). apply bind_Ok in E as (updated & _ & E).
  apply bind_Ok in E as (d1 & Happ & E). apply bind_Ok in E as (stored & _ & E).
  apply bind_Ok in E as (expected & _ & E). apply bind_Ok in E as ([d2 n] & Hup & E).
  apply append_transition_Ok in Happ as (e & t & -> & _).
  unfold update_attempt, constraint in Hup. cbn in Hup. op_inv.
  all: try done.
  assert (match artifacts d !! tp_artifact_id tp with
          | Some r => bool_decide (art_kind r = AttemptArtifact) | None => false end = true) as Hk by done.
  destruct (artifacts d !! tp_artifact_id tp) as [r|]; [|done]. exists r. by bools.
Qed.

Lemma archival_transition g from to now details terminal d g' d' :
  transition g from to now details terminal d = Ok (g', d') -> history d -> archival d -> archival d'.
Proof.
  intros E Hh Hd. pose proof (fun tp => transition_artifact _ _ _ _ _ _ _ _ _ tp E) as Hart.
  apply transition_Ok in E as (old & e & t & [Hrow Hrev _ _ -> [He1 _] Htr Hins _ _ _ _] & _ & _).
  destruct Htr as (Hta & Htrev & Hto & Htf & Htat & Hte). destruct Hins as [Hfind Hat Hedge _].
  destruct (hi_row _ Hh _ _ Hrow) as (Hr0 & _).
  assert (tr_previous t = Some (oa_revision g)) as Hprev.
  { destruct Hedge as [(_ & Hn & _)|(f & q & -> & _)]; [congruence|]. f_equal. lia. }
  constructor; cbn.
  - apply insert_new; [|apply Hd]. intros u Hu Ha Hr. by eapply find_transition_None.
  - intros u [Hu|Hu%list_elem_of_singleton]%elem_of_app; [by apply (ac_row _ Hd)|].
    subst u. rewrite Hprev, Htrev, (proj2 (Z.eqb_neq _ 0)) by lia.
    split; [done|]. split; [lia|]. f_equal. lia.
  - intros u b [Hu|Hu%list_elem_of_singleton]%elem_of_app Hr; [|subst u; lia].
    destruct (decide (tr_attempt u = id_text g)) as [Heq|Hne].
    + rewrite Heq, lookup_insert_eq. intros [= <-]. cbn.
      apply (ac_start _ Hd u old Hu Hr). by rewrite Heq.
    + rewrite lookup_insert_ne by done. by apply (ac_start _ Hd).
  - intros k b. destruct (decide (k = id_text g)) as [->|Hne].
    + rewrite lookup_insert_eq. intros [= <-]. cbn. by eapply (ac_slot _ Hd).
    + rewrite lookup_insert_ne by done. apply (ac_slot _ Hd).
  - intros k b. destruct (decide (k = id_text g)) as [->|Hne].
    + rewrite lookup_insert_eq. intros [= <-]. cbn. by apply (ac_identity _ Hd).
    + rewrite lookup_insert_ne by done. apply (ac_identity _ Hd).
  - intros k b x. destruct (decide (k = id_text g)) as [->|Hne].
    + rewrite lookup_insert_eq. intros [= <-]. cbn.
      intros (tp & Htp & ->)%fmap_Some. by apply Hart.
    + rewrite lookup_insert_ne by done. apply (ac_artifact _ Hd).
  - intros x k [Hx|Hx%list_elem_of_singleton]%elem_of_app Hk.
    + destruct (ac_event _ Hd x k Hx Hk) as [b Hb].
      destruct (decide (k = id_text g)) as [->|Hne]; [rewrite lookup_insert_eq|rewrite lookup_insert_ne by done]; by eexists.
    + subst x. rewrite He1 in Hk. injection Hk as <-. rewrite lookup_insert_eq. by eexists.
Qed.

Lemma archival_stmt d d' : stmt d d' -> history d -> archival d -> archival d'.
Proof.
  intros Hst Hh Hd. pose proof (stmt_keeps _ _ Hst) as Hk.
  apply stmt_events in Hst as
    [(id & a & purpose & lease & now & details & d1 & d2 & ? & ? & ? & ? & ? & ?)
    |[(g & from & to & now & details & terminal & g' & d1 & E & Ha & Ht & He & Hs & Hart)|(Ha & Ht & He)]].
  - by eapply archival_reserved.
  - eapply (archival_same d1); [by apply set_preserves|done|done| |by eapply archival_transition].
    intros e k. rewrite He. by left.
  - by eapply archival_same.
Qed.

Lemma archival_empty version : archival (empty_store version).
Proof. constructor; simpl; try set_solver; try done. by apply NoDup_nil. Qed.

Lemma reachable_archival d : reachable d -> archival d.
Proof.
  intros (version & Hs). apply steps_stmts in Hs.
  assert (history d /\ archival d) as [_ ?]; [|done].
  revert Hs. generalize (history_empty version), (archival_empty version).
  generalize (empty_store version). intros d0 Hh Ha Hs. induction Hs as [d0|d0 d1 d2 Hst _ IH]; [done|].
  apply IH; [by eapply history_stmt|by eapply archival_stmt].
Qed.
End Invariant.
