(* ===== verification/ArchiveRows.v ===== *)
(** * Reading evidence back

    What the validation reads from the rows of evidence records, and the indexes
    it builds over them. *)
From S2P Require Import Prelude Json Canonical Identity Profile Records Store Publisher Recovery Wire Archive ArchiveValidation.
From stdpp Require Import pretty sorting.
From Stdlib Require Import Ascii.

(** ** Numbers and times *)

Lemma digit_char y : (y < 10)%N ->
  Duration.digit (pretty_N_char y) = Z.of_N y /\ is_ascii_digit (pretty_N_char y) = true.
Proof.
  intros Hy. assert (y = 0 \/ y = 1 \/ y = 2 \/ y = 3 \/ y = 4 \/ y = 5 \/ y = 6 \/ y = 7 \/ y = 8 \/ y = 9)%N
    by lia. by destruct_or!; subst.
Qed.
Lemma decimal_go x s :
  Duration.decimal 0 (bytes_of (pretty_N_go x s)) = Duration.decimal (Z.of_N x) (bytes_of s).
Proof.
  revert s. induction (N.lt_wf_0 x) as [x _ IH]; intros s.
  assert (x = 0 \/ 0 < x)%N as [->|Hx] by lia; [by rewrite pretty_N_go_0|].
  rewrite pretty_N_go_step by done. rewrite IH by (apply N.div_lt; lia).
  pose proof (N.div_mod' x 10) as E. pose proof (N.mod_lt x 10 ltac:(lia)) as Hlt.
  change (bytes_of (String ?c ?s)) with (c :: bytes_of s). cbn [Duration.decimal].
  rewrite (proj1 (digit_char _ Hlt)). f_equal. rewrite E at 3. lia.
Qed.
Lemma digits_go x s :
  (0 < x)%N \/ bytes_of s <> [] -> forallb is_ascii_digit (bytes_of s) = true ->
  forallb is_ascii_digit (bytes_of (pretty_N_go x s)) = true /\ bytes_of (pretty_N_go x s) <> [].
Proof.
  revert s. induction (N.lt_wf_0 x) as [x _ IH]; intros s Hs Hd.
  assert (x = 0 \/ 0 < x)%N as [->|Hx] by lia; [rewrite pretty_N_go_0; destruct Hs; [lia|done]|].
  rewrite pretty_N_go_step by done.
  apply IH; [apply N.div_lt; lia|by right|].
  change (bytes_of (String ?c ?s)) with (c :: bytes_of s). cbn [forallb].
  by rewrite (proj2 (digit_char _ (N.mod_lt x 10 ltac:(lia)))).
Qed.

(** [CAST(... AS TEXT)] and back. *)
Lemma parse_decimal n : (0 <= n <= u64_max)%Z -> parse_u64 (decimal n) = Some n.
Proof.
  intros [Hn Hm]. unfold decimal.
  assert (pretty n = pretty (Z.to_N n)) as -> by (by destruct n).
  unfold pretty, pretty_N. destruct (decide (Z.to_N n = 0)%N) as [E|E].
  { assert (n = 0%Z) as -> by lia. reflexivity. }
  destruct (digits_go (Z.to_N n) "" ltac:(lia) eq_refl) as [Hd Hne].
  pose proof (decimal_go (Z.to_N n) "") as Hv. cbn [bytes_of String.list_ascii_of_string Duration.decimal] in Hv.
  unfold parse_u64. destruct (bytes_of (pretty_N_go (Z.to_N n) "")) as [|c b] eqn:Eb; [done|].
  assert (Ascii.eqb c "+"%char = false) as ->.
  { cbn [forallb] in Hd. apply andb_true_iff in Hd as [Hc _]. apply not_true_is_false.
    intros ->%Ascii.eqb_eq. done. }
  rewrite bool_decide_eq_false_2, Hd by done. cbn [orb negb]. unfold Duration.parse_u64.
  rewrite Hv, Z2N.id by done. by rewrite (proj2 (Z.leb_le _ _)).
Qed.

(** ** Tables *)

Lemma tables_app l1 l2 kind : tables (l1 ++ l2) kind = tables l1 kind ++ tables l2 kind.
Proof. unfold tables. by rewrite List.filter_app, map_app. Qed.
Lemma tables_map {A} (mk : A -> ArchiveRecord) (row : A -> value) name kind l :
  (forall x, record_kind (mk x) = name) -> (forall x, record_value (mk x) = row x) ->
  tables (map mk l) kind = if String.eqb name kind then map row l else [].
Proof.
  intros Hk Hv. unfold tables. induction l as [|x l IH]; cbn; [by destruct (String.eqb name kind)|].
  rewrite Hk. destruct (String.eqb name kind); cbn; [by rewrite Hv, IH|done].
Qed.
Lemma tables_elem records kind row :
  row ∈ tables records kind <-> exists r, r ∈ records /\ record_kind r = kind /\ record_value r = row.
Proof.
  unfold tables. rewrite list_elem_of_In, in_map_iff. split.
  - intros (r & Hv & [Hr Hk]%filter_In). exists r. apply String.eqb_eq in Hk.
    by rewrite list_elem_of_In.
  - intros (r & Hr & Hk & Hv). exists r. split; [done|]. apply filter_In.
    split; [by apply list_elem_of_In|]. by apply String.eqb_eq.
Qed.

(** ** Indexes *)

Lemma text_Ok row key t : text row key = Ok t <-> index row key = Str t.
Proof. unfold text. destruct (index row key); cbn; split; congruence. Qed.

(** The index over the rows of a list with distinct keys. *)
Definition index_of {A} (k : A -> string) (row : A -> value) (l : list A) : Index :=
  map_collect (map (fun x => (k x, row x)) l).

Lemma index_of_perm {A} (k : A -> string) row (l : list A) :
  NoDup (map k l) -> map snd (index_of k row l) ≡ₚ map row l.
Proof.
  intros Hnd. unfold index_of. rewrite map_collect_perm.
  - rewrite map_map. done.
  - change (NoDup (map fst (map (fun x => (k x, row x)) l))). by rewrite map_map.
Qed.
Lemma index_of_get {A} (k : A -> string) row (l : list A) x :
  NoDup (map k l) -> x ∈ l -> map_get (k x) (index_of k row l) = Some (row x).
Proof.
  intros Hnd Hx. unfold index_of. rewrite map_get_collect.
  2:{ change (NoDup (map fst (map (fun x => (k x, row x)) l))). by rewrite map_map. }
  induction l as [|y l IH]; [by apply elem_of_nil in Hx|]. cbn.
  destruct (String.eqb_spec (k x) (k y)) as [E|E].
  - apply NoDup_cons in Hnd as [Hy _]. apply elem_of_cons in Hx as [->|Hx]; [done|].
    destruct Hy. rewrite <-E. apply list_elem_of_fmap. eauto.
  - apply NoDup_cons in Hnd as [_ Hnd]. apply elem_of_cons in Hx as [->|Hx]; [done|]. by apply IH.
Qed.
Lemma index_of_inv {A} (k : A -> string) row (l : list A) key v :
  NoDup (map k l) -> map_get key (index_of k row l) = Some v -> exists x, x ∈ l /\ k x = key /\ v = row x.
Proof.
  intros Hnd Hg. apply map_get_elem in Hg. unfold index_of in Hg. rewrite map_collect_perm in Hg.
  - apply list_elem_of_fmap in Hg as (x & [= -> ->] & Hx). eauto.
  - change (NoDup (map fst (map (fun x => (k x, row x)) l))). by rewrite map_map.
Qed.

Lemma index_rows_of {A} (k : A -> string) row (l : list A) key :
  (forall x, index (row x) key = Str (k x)) -> NoDup (map k l) ->
  index_rows (map row l) key = Ok (index_of k row l).
Proof.
  intros Hk Hnd. unfold index_rows. induction l as [|x l IH] using rev_ind; [done|].
  rewrite map_app in *. apply NoDup_app in Hnd as (Hl & Hx & _). unfold index_of.
  rewrite map_app, try_fold_app, IH by done. cbn. unfold index_step.
  rewrite (proj2 (text_Ok _ _ _) (Hk x)). cbn.
  destruct (map_get (k x) (index_of k row l)) eqn:Hg.
  - apply index_of_inv in Hg as (y & Hy & E & _); [|done].
    destruct (Hx (k x)); [rewrite <-E; apply list_elem_of_fmap; eauto|set_solver].
  - by rewrite map_collect_app.
Qed.

(** ** Fields *)

Lemma attempt_value_id r : index (attempt_value r) "id" = Str (ae_id r). Proof. done. Qed.
Lemma attempt_value_slot_id r : index (attempt_value r) "slot_id" = Str (ae_slot_id r). Proof. done. Qed.
Lemma attempt_value_retry_index r : index (attempt_value r) "retry_index" = json_u64 (ae_retry_index r). Proof. done. Qed.
Lemma attempt_value_state r : index (attempt_value r) "state" = Str (ae_state r). Proof. done. Qed.
Lemma attempt_value_revision r : index (attempt_value r) "revision" = json_u64 (ae_revision r). Proof. done. Qed.
Lemma attempt_value_started_at_ns r : index (attempt_value r) "started_at_ns" = Str (ae_started_at_ns r). Proof. done. Qed.
Lemma attempt_value_updated_at_ns r : index (attempt_value r) "updated_at_ns" = Str (ae_updated_at_ns r). Proof. done. Qed.
Lemma attempt_value_finished_at_ns r : index (attempt_value r) "finished_at_ns" = optional_text (ae_finished_at_ns r). Proof. done. Qed.
Lemma attempt_value_failure_code r : index (attempt_value r) "failure_code" = optional_text (ae_failure_code r). Proof. done. Qed.
Lemma attempt_value_artifact_id r : index (attempt_value r) "artifact_id" = optional_text (ae_artifact_id r). Proof. done. Qed.
Lemma transition_value_attempt_id r : index (transition_value r) "attempt_id" = Str (te_attempt_id r). Proof. done. Qed.
Lemma transition_value_revision r : index (transition_value r) "revision" = json_u64 (te_revision r). Proof. done. Qed.
Lemma transition_value_previous_revision r : index (transition_value r) "previous_revision" = optional_number (te_previous_revision r). Proof. done. Qed.
Lemma transition_value_from_state r : index (transition_value r) "from_state" = optional_text (te_from_state r). Proof. done. Qed.
Lemma transition_value_to_state r : index (transition_value r) "to_state" = Str (te_to_state r). Proof. done. Qed.
Lemma transition_value_occurred_at_ns r : index (transition_value r) "occurred_at_ns" = Str (te_occurred_at_ns r). Proof. done. Qed.
Lemma transition_value_event_sequence r : index (transition_value r) "event_sequence" = json_u64 (te_event_sequence r). Proof. done. Qed.
Lemma event_value_sequence r : index (event_value r) "sequence" = json_u64 (ee_sequence r). Proof. done. Qed.
Lemma event_value_attempt_id r : index (event_value r) "attempt_id" = optional_text (ee_attempt_id r). Proof. done. Qed.
Lemma event_value_occurred_at_ns r : index (event_value r) "occurred_at_ns" = Str (ee_occurred_at_ns r). Proof. done. Qed.
Lemma attempt_slot_value_id r : index (attempt_slot_value r) "id" = Str (se_id r). Proof. done. Qed.
Lemma attempt_slot_value_role r : index (attempt_slot_value r) "role" = Str (se_role r). Proof. done. Qed.
Lemma attempt_slot_value_kind r : index (attempt_slot_value r) "kind" = Str (se_kind r). Proof. done. Qed.
Lemma stored_artifact_value_id r : index (stored_artifact_value r) "id" = Str (sa_id r). Proof. done. Qed.
Lemma stored_artifact_value_kind r : index (stored_artifact_value r) "kind" = Str (sa_kind r). Proof. done. Qed.
Create HintDb rows.
#[export] Hint Rewrite attempt_value_id attempt_value_slot_id attempt_value_retry_index attempt_value_state attempt_value_revision attempt_value_started_at_ns attempt_value_updated_at_ns attempt_value_finished_at_ns attempt_value_failure_code attempt_value_artifact_id transition_value_attempt_id transition_value_revision transition_value_previous_revision transition_value_from_state transition_value_to_state transition_value_occurred_at_ns transition_value_event_sequence event_value_sequence event_value_attempt_id event_value_occurred_at_ns attempt_slot_value_id attempt_slot_value_role attempt_slot_value_kind stored_artifact_value_id stored_artifact_value_kind : rows.
