(* ===== verification/StoreArchive.v ===== *)
(** * The attempts of a settled store can be archived

    The evidence that is read from a store whose attempts have all ended passes
    the checks of the archive on attempts, their histories and their events. *)
From S2P Require Import Prelude Json Canonical Identity ThirdPartyModel Profile Records RunDocuments Store Attempts Fresh RunStore Publisher Recovery Coordination Statements History Claims Scenario Lifecycle Wire Archive ArchiveValidation Reader Archival ArchiveRows.
From stdpp Require Import sorting.
From Stdlib Require Import Ascii.

(** Every attempt has ended. *)
Definition settled (d : db) : Prop :=
  forall id a, attempts d !! id = Some a -> is_terminal (att_state a) = true.
(** SQLite stores an [INTEGER] in 64 bits. *)
Definition stored_integers (d : db) : Prop :=
  (forall t, t ∈ attempt_transitions d -> (tr_at t <= i64_max)%Z) /\
  (forall id a, attempts d !! id = Some a -> (att_revision a <= i64_max)%Z).

(** ** The rows of the evidence *)

Ltac table_of :=
  rewrite !tables_app, (tables_map ApplicabilityRecord applicability_value "applicability"),
    (tables_map AttemptRecord attempt_value "attempt"),
    (tables_map AttemptArtifactRecord attempt_artifact_value "attempt-artifact"),
    (tables_map AttemptTransitionRecord transition_value "attempt-transition"),
    (tables_map EventRecord event_value "event"),
    (tables_map FreshBudgetRecord fresh_budget_value "fresh-budget"),
    (tables_map FreshDispositionRecord fresh_disposition_value "fresh-disposition"),
    (tables_map FreshMemberRecord fresh_member_value "fresh-member"),
    (tables_map FreshPolicyRecord fresh_policy_value "fresh-policy"),
    (tables_map FreshSequenceRecord fresh_sequence_value "fresh-sequence"),
    (tables_map ObservationRecord observation_value "observation"),
    (tables_map ObservationSelectionRecord selection_value "observation-selection"),
    (tables_map ResolvedAttemptSlotEntry attempt_slot_value "resolved-attempt-slot"),
    (tables_map ResolvedObservationSlotEntry observation_slot_value "resolved-observation-slot"),
    (tables_map ResolvedSpecificationRecord resolved_specification_value "resolved-specification"),
    (tables_map SlotMembershipRecord slot_membership_value "slot-membership"),
    (tables_map StoredArtifactRecord stored_artifact_value "stored-artifact") by done;
  cbn [String.eqb Ascii.eqb Bool.eqb app]; rewrite ?app_nil_r; reflexivity.

Lemma evidence_rows d e :
  archive_evidence d = Ok e ->
  tables (records e) "attempt" = map attempt_value (attempt_rows d) /\
  tables (records e) "attempt-transition" = map transition_value (transition_rows d) /\
  tables (records e) "event" = map event_value (event_rows d) /\
  tables (records e) "resolved-attempt-slot" = map attempt_slot_value (attempt_slot_rows d) /\
  tables (records e) "stored-artifact" = map stored_artifact_value (artifact_rows d).
Proof.
  unfold archive_evidence. intros (members & _ & (sequences & _ & [= <-])%bind_Ok)%bind_Ok.
  cbn [records]. split_and!; table_of.
Qed.

Lemma table_rows_perm {A} (m : gmap string A) : table_rows m ≡ₚ map_to_list m.
Proof.
  unfold table_rows, rows_by_id. rewrite merge_sort_Permutation.
  induction (map_to_list m) as [|kv l IH]; [done|]. cbn. by rewrite IH.
Qed.
Lemma table_rows_elem {A} (m : gmap string A) k x : (k, x) ∈ table_rows m <-> m !! k = Some x.
Proof. by rewrite table_rows_perm, elem_of_map_to_list. Qed.
Lemma table_rows_keys {A} (m : gmap string A) : NoDup (map fst (table_rows m)).
Proof. rewrite (Permutation_map fst (table_rows_perm m)). apply NoDup_fst_map_to_list. Qed.

Lemma attempt_rows_perm d : attempt_rows d ≡ₚ map (fun kv => attempt_evidence d kv.1 kv.2) (map_to_list (attempts d)).
Proof. apply merge_sort_Permutation. Qed.
Lemma attempt_rows_keys d : NoDup (map ae_id (attempt_rows d)).
Proof.
  rewrite (Permutation_map ae_id (attempt_rows_perm d)), map_map. apply NoDup_fst_map_to_list.
Qed.
Lemma attempt_rows_elem d id a : attempts d !! id = Some a -> attempt_evidence d id a ∈ attempt_rows d.
Proof.
  intros Ha. rewrite attempt_rows_perm. apply list_elem_of_fmap. exists (id, a).
  by rewrite elem_of_map_to_list.
Qed.

(** ** The indexes of the evidence *)

Definition slot_index (d : db) : Index := index_of se_id attempt_slot_value (attempt_slot_rows d).
Definition artifact_index (d : db) : Index := index_of sa_id stored_artifact_value (artifact_rows d).
Definition attempt_index (d : db) : Index := index_of ae_id attempt_value (attempt_rows d).

Lemma slot_keys d : NoDup (map se_id (attempt_slot_rows d)).
Proof.
  unfold attempt_slot_rows. rewrite map_map.
  rewrite (map_ext _ fst); [apply table_rows_keys|]. by intros [].
Qed.
Lemma artifact_keys d : NoDup (map sa_id (artifact_rows d)).
Proof.
  unfold artifact_rows. rewrite map_map.
  rewrite (map_ext _ fst); [apply table_rows_keys|]. by intros [].
Qed.

Lemma slot_found d k r : attempt_slots d !! k = Some r -> is_Some (map_get k (slot_index d)).
Proof.
  intros Hk. eexists. unfold slot_index.
  eapply (index_of_get se_id _ _ {| se_id := k |}); [apply slot_keys|].
  apply list_elem_of_fmap. exists (k, r). split; [done|]. by apply table_rows_elem.
Qed.
Lemma artifact_found d k r : artifacts d !! k = Some r ->
  exists v, map_get k (artifact_index d) = Some v /\ index v "kind" = Str (artifact_kind_name (art_kind r)).
Proof.
  intros Hk. eexists. split.
  - eapply (index_of_get sa_id _ _ {| sa_id := k |}); [apply artifact_keys|].
    apply list_elem_of_fmap. exists (k, r). split; [done|]. by apply table_rows_elem.
  - done.
Qed.
Lemma attempt_found d id a : attempts d !! id = Some a ->
  map_get id (attempt_index d) = Some (attempt_value (attempt_evidence d id a)).
Proof.
  intros Ha. apply (index_of_get ae_id _ _ (attempt_evidence d id a)); [apply attempt_rows_keys|].
  by apply attempt_rows_elem.
Qed.

(** ** Events and transitions *)

Lemma json_u64_eq m n : bool_decide (json_u64 m = json_u64 n) = (m =? n)%Z.
Proof. destruct (Z.eqb_spec m n) as [->|Hne]; [by apply bool_decide_eq_true|]. apply bool_decide_eq_false. by intros [= ?]. Qed.

Lemma find_event l n t : forall k : nat,
  index t "event_sequence" = json_u64 n -> (Z.of_nat k + 1 <= n)%Z ->
  List.find (fun event => same event "sequence" t "event_sequence")
    (map event_value (imap (fun i => event_evidence (k + i)) l)) =
  (fun e => event_value (event_evidence (Z.to_nat (n - 1)) e)) <$> l !! (Z.to_nat (n - 1) - k)%nat.
Proof.
  induction l as [|e l IH]; intros k Ht Hn; [done|]. cbn [imap map List.find].
  unfold same at 1. rewrite event_value_sequence, Ht, json_u64_eq. cbn [event_evidence ee_sequence].
  rewrite Nat.add_0_r. destruct (Z.eqb_spec (Z.of_nat (S k)) n) as [<-|Hne].
  - replace (Z.to_nat (Z.of_nat (S k) - 1)) with k by lia. by rewrite Nat.sub_diag.
  - replace (Z.to_nat (n - 1) - k)%nat with (S (Z.to_nat (n - 1) - S k)) by lia.
    change ((e :: l) !! S ?m) with (l !! m). etrans; [|apply (IH (S k) Ht); lia].
    do 2 f_equal. apply imap_ext. intros i x _. cbn [compose]. by rewrite Nat.add_succ_r.
Qed.

Definition recorded_transition (t : transition_row) : value := transition_value (transition_evidence t).

Lemma transition_event d t e :
  (1 <= tr_event t)%Z -> events d !! Z.to_nat (tr_event t - 1) = Some e ->
  List.find (fun event => same event "sequence" (recorded_transition t) "event_sequence")
    (map event_value (event_rows d)) =
  Some (event_value (event_evidence (Z.to_nat (tr_event t - 1)) e)).
Proof.
  intros Hn He. unfold event_rows. rewrite (find_event _ (tr_event t) _ 0); [|done|lia].
  by rewrite Nat.sub_0_r, He.
Qed.

(** The edges of the archive are those of the store. *)
Lemma allowed_transition_names a b : allowed_transition (state_name a) (state_name b) = allowed_edge a b.
Proof. destruct a as [|[]| | | |], b as [|[]| | | |]; vm_compute; reflexivity. Qed.

Lemma i64_decimal n : (0 <= n <= i64_max)%Z -> parse_u64 (decimal n) = Some n.
Proof. intros Hn. apply parse_decimal. unfold i64_max, u64_max in *. lia. Qed.
Lemma time_of_Ok row key n : index row key = Str (decimal n) -> (0 <= n <= i64_max)%Z -> time_of row key = Ok n.
Proof. intros E Hn. unfold time_of. rewrite (proj2 (text_Ok _ _ _) E). cbn. by rewrite i64_decimal. Qed.
Lemma refuse_if_Ok b message : refuse_if b message = Ok tt <-> b = false.
Proof. unfold refuse_if, ensure. by destruct b. Qed.

Lemma transition_at t : index (recorded_transition t) "occurred_at_ns" = Str (decimal (tr_at t)).
Proof. done. Qed.

(** The event behind a recorded transition. *)
Lemma check_event d t attempt e :
  (1 <= tr_event t)%Z -> events d !! Z.to_nat (tr_event t - 1) = Some e ->
  ev_attempt e = Some (tr_attempt t) -> ev_at e = tr_at t -> index attempt "id" = Str (tr_attempt t) ->
  (event ← ok_or (List.find (fun event => same event "sequence" (recorded_transition t) "event_sequence")
                    (map event_value (event_rows d))) (Invalid "attempt transition lacks its event");
   refuse_if (negb (same event "attempt_id" attempt "id")
              || negb (same event "occurred_at_ns" (recorded_transition t) "occurred_at_ns"))
     "attempt transition disagrees with its event") = Ok tt.
Proof.
  intros Hn He Ha Hat Hid. rewrite (transition_event d t e Hn He). cbn [ok_or mbind result_bind].
  apply refuse_if_Ok. unfold same. rewrite Hid, transition_at. autorewrite with rows.
  cbn [event_evidence ee_attempt_id ee_occurred_at_ns optional_text optional]. rewrite Ha, Hat. cbn.
  by rewrite !bool_decide_eq_true_2.
Qed.

(** What is known of the transitions of an attempt. *)
Record chained (d : db) (id : string) (start : Z) (ts : list transition_row) : Prop := {
  cd_event t : t ∈ ts -> (1 <= tr_event t)%Z /\ tr_attempt t = id /\ (0 <= tr_at t <= i64_max)%Z /\
    exists e, events d !! Z.to_nat (tr_event t - 1) = Some e /\ ev_attempt e = Some id /\ ev_at e = tr_at t;
  cd_revision i t : ts !! i = Some t -> tr_revision t = Z.of_nat i;
  cd_previous t : t ∈ ts ->
    tr_previous t = if (tr_revision t =? 0)%Z then None else Some (tr_revision t - 1)%Z;
  cd_first t : ts !! 0%nat = Some t -> tr_to t = Reserved /\ tr_from t = None /\ tr_at t = start;
  cd_next i u v : ts !! i = Some u -> ts !! S i = Some v ->
    tr_from v = Some (tr_to u) /\ allowed_edge (tr_to u) (tr_to v) = true /\ (tr_at u <= tr_at v)%Z;
}.

Lemma chained_step d id start ts attempt i t :
  chained d id start ts -> index attempt "id" = Str id -> ts !! i = Some t ->
  check_transition (map event_value (event_rows d)) attempt start (Z.of_nat i)
    (recorded_transition <$> match i with O => None | S j => ts !! j end) (recorded_transition t) = Ok tt.
Proof.
  intros Hc Hid Ht. pose proof (list_elem_of_lookup_2 _ _ _ Ht) as Hin.
  destruct (cd_event _ _ _ _ Hc t Hin) as (Hn & Hta & Hat & e & He & Hea & Heat).
  pose proof (cd_revision _ _ _ _ Hc i t Ht) as Hrev. pose proof (cd_previous _ _ _ _ Hc t Hin) as Hprev.
  pose proof (check_event d t attempt e Hn He ltac:(congruence) Heat ltac:(congruence)) as Hevent.
  unfold check_transition. cbv zeta.
  assert (integer (recorded_transition t) "revision" = Ok (Z.of_nat i)) as -> by (rewrite <-Hrev; done).
  cbn [mbind result_bind]. rewrite Z.eqb_refl. cbn [negb refuse_if ensure mbind result_bind].
  rewrite (time_of_Ok (recorded_transition t) "occurred_at_ns" (tr_at t)) by done.
  match goal with |- (?m ≫= _) = _ => assert (m = Ok tt) as ->; [|exact Hevent] end.
  unfold is_null, field_is, same.
  destruct i as [|j]; cbn [fmap option_fmap option_map];
    change (index (recorded_transition t) "to_state") with (Str (state_name (tr_to t)));
    change (index (recorded_transition t) "from_state") with (optional_text (state_name <$> tr_from t));
    change (index (recorded_transition t) "previous_revision") with (optional_number (tr_previous t)).
  - destruct (cd_first _ _ _ _ Hc t Ht) as (-> & -> & ->). rewrite Hprev, Hrev. cbn.
    by rewrite Z.eqb_refl.
  - destruct (lookup_lt_is_Some_2 ts j) as [u Hu]; [apply lookup_lt_Some in Ht; lia|].
    rewrite Hu. cbn [fmap option_fmap option_map].
    destruct (cd_next _ _ _ _ Hc j u t Hu Ht) as (Hfrom & Hall & Hle).
    pose proof (cd_revision _ _ _ _ Hc j u Hu) as Hru.
    destruct (cd_event _ _ _ _ Hc u (list_elem_of_lookup_2 _ _ _ Hu)) as (_ & _ & Hau & _).
    rewrite (proj2 (text_Ok (recorded_transition u) "to_state" (state_name (tr_to u))) eq_refl),
      (proj2 (text_Ok (recorded_transition t) "to_state" (state_name (tr_to t))) eq_refl).
    cbn [mbind result_bind]. rewrite allowed_transition_names, Hall.
    change (index (recorded_transition u) "revision") with (json_u64 (tr_revision u)).
    change (index (recorded_transition u) "to_state") with (Str (state_name (tr_to u))).
    rewrite Hfrom, Hprev, Hrev, Hru, (proj2 (Z.eqb_neq _ 0)) by lia. cbn [fmap option_fmap option_map optional_text
      optional_number optional]. replace (Z.of_nat (S j) - 1)%Z with (Z.of_nat j) by lia.
    rewrite !bool_decide_eq_true_2 by done. cbn [negb orb refuse_if ensure mbind result_bind].
    rewrite (time_of_Ok (recorded_transition u) "occurred_at_ns" (tr_at u)) by done. cbn [mbind result_bind].
    apply refuse_if_Ok, Z.ltb_ge. done.
Qed.

(** The loop over a whole history. *)
Lemma chained_history d id start ts attempt :
  chained d id start ts -> index attempt "id" = Str id ->
  check_history (map event_value (event_rows d)) attempt start 0 None (map recorded_transition ts) =
  Ok (recorded_transition <$> last ts).
Proof.
  intros Hc Hid.
  assert (forall l i, drop i ts = l -> (i <= length ts)%nat ->
    check_history (map event_value (event_rows d)) attempt start (Z.of_nat i)
      (recorded_transition <$> match i with O => None | S j => ts !! j end) (map recorded_transition l) =
    Ok (recorded_transition <$> last ts)) as Hall.
  { induction l as [|t l IH]; intros i Hl Hi.
    - cbn. assert (i = length ts) as ->.
      { apply (f_equal length) in Hl. rewrite length_drop in Hl. cbn in Hl. lia. }
      rewrite last_lookup. clear. by destruct ts.
    - assert (ts !! i = Some t) as Ht by (rewrite <-(Nat.add_0_r i), <-lookup_drop, Hl; done).
      cbn [map check_history]. rewrite (chained_step d id start ts attempt i t Hc Hid Ht).
      cbn [mbind result_bind]. replace (Z.of_nat i + 1)%Z with (Z.of_nat (S i)) by lia.
      rewrite <-(IH (S i)).
      + by rewrite Ht.
      + rewrite (drop_S _ _ _ Ht) in Hl. by injection Hl.
      + apply lookup_lt_Some in Ht. lia. }
  exact (Hall ts 0%nat eq_refl (Nat.le_0_l _)).
Qed.

(** ** The history of an attempt *)

#[local] Instance revision_le_total : Total revision_le.
Proof. intros a b. unfold revision_le. destruct (value_u64 (index a "revision")), (value_u64 (index b "revision")); auto. lia. Qed.
#[local] Instance revision_le_trans : Transitive revision_le.
Proof.
  intros a b c. unfold revision_le.
  destruct (value_u64 (index a "revision")), (value_u64 (index b "revision")), (value_u64 (index c "revision"));
    try done. lia.
Qed.
Lemma revision_le_recorded t u : revision_le (recorded_transition t) (recorded_transition u) <-> (tr_revision t <= tr_revision u)%Z.
Proof. done. Qed.

Lemma revisions_sorted l : forall k : nat,
  (forall i t, l !! i = Some t -> tr_revision t = Z.of_nat (k + i)) ->
  StronglySorted revision_le (map recorded_transition l).
Proof.
  induction l as [|t l IH]; intros k Hk; [constructor|]. cbn [map]. constructor.
  - apply (IH (S k)). intros i u Hu. rewrite (Hk (S i) u Hu). lia.
  - apply Forall_forall. intros x (u & -> & [i Hu]%list_elem_of_lookup)%list_elem_of_fmap.
    apply revision_le_recorded. rewrite (Hk 0%nat t eq_refl), (Hk (S i) u Hu). lia.
Qed.

Section Histories.
Context `{ThirdParty}.

Lemma attempt_chained d id a :
  history d -> archival d -> stored_integers d -> attempts d !! id = Some a ->
  exists ts, chained d id (att_started a) ts /\ Z.of_nat (length ts) = (att_revision a + 1)%Z /\
    (forall u, u ∈ ts <-> u ∈ attempt_transitions d /\ tr_attempt u = id) /\
    exists t, last ts = Some t /\ tr_to t = att_state a /\ tr_at t = att_updated a.
Proof.
  intros Hh Hd [Hints _] Ha.
  destruct (attempt_trace d id a Hh Ha) as (ts & Hlen & Hin & Hrev & (t0 & Ht0 & Hres) & Hstep & Hlast).
  exists ts. split; [|done]. constructor.
  - intros t Ht. pose proof (proj1 (Hin t) Ht) as [Htin Hta].
    destruct (ac_row _ Hd t Htin) as (Hat & Hn & _). destruct (hi_event _ Hh t Htin) as (e & He & Hea & Heat).
    split; [done|]. split; [done|]. split; [by auto|]. exists e. by rewrite Hea, Hta.
  - intros i t Ht. apply (Hrev i t Ht).
  - intros t Ht. apply (ac_row _ Hd t). by apply Hin.
  - intros t Ht. rewrite Ht0 in Ht. injection Ht as ->.
    destruct (Hrev _ _ Ht0) as [Hr0 _]. pose proof (proj1 (Hin t) (list_elem_of_lookup_2 _ _ _ Ht0)) as [Htin Hta].
    split; [done|]. split.
    + destruct (hi_edge _ Hh t Htin) as [(_ & ? & _)|(q & Hpos & _)]; [done|lia].
    + apply (ac_start _ Hd t a Htin Hr0). by rewrite Hta.
  - exact Hstep.
Qed.

Lemma recorded_history d id a ts (rows : Tables) :
  history d -> archival d -> chained d id (att_started a) ts ->
  (forall u, u ∈ ts <-> u ∈ attempt_transitions d /\ tr_attempt u = id) ->
  rows "attempt-transition" = map transition_value (transition_rows d) ->
  attempt_transitions_of rows (attempt_value (attempt_evidence d id a)) = map recorded_transition ts.
Proof.
  intros Hh Hd Hc Hin Hrows. unfold attempt_transitions_of. rewrite Hrows. unfold transition_rows.
  rewrite map_map. change (fun x => transition_value (transition_evidence x)) with recorded_transition.
  set (l := merge_sort transition_le (attempt_transitions d)).
  assert (List.filter (fun r => same r "attempt_id" (attempt_value (attempt_evidence d id a)) "id")
            (map recorded_transition l) =
          map recorded_transition (List.filter (fun t => String.eqb (tr_attempt t) id) l)) as ->.
  { induction l as [|t l IH]; [done|]. cbn [map List.filter]. rewrite IH. unfold same at 1.
    change (index (recorded_transition t) "attempt_id") with (Str (tr_attempt t)).
    rewrite attempt_value_id. cbn [attempt_evidence ae_id].
    destruct (String.eqb_spec (tr_attempt t) id) as [->|Hne];
      [by rewrite bool_decide_eq_true_2|rewrite bool_decide_eq_false_2 by congruence; done]. }
  assert (List.filter (fun t => String.eqb (tr_attempt t) id) l ≡ₚ ts) as Hperm.
  { apply NoDup_Permutation.
    - apply NoDup_ListNoDup, List.NoDup_filter, NoDup_ListNoDup. unfold l. rewrite merge_sort_Permutation. apply Hd.
    - apply NoDup_alt. intros i j t Hi Hj.
      pose proof (cd_revision _ _ _ _ Hc i t Hi). pose proof (cd_revision _ _ _ _ Hc j t Hj). lia.
    - intros t. rewrite Hin, list_elem_of_In, filter_In, String.eqb_eq, <-list_elem_of_In.
      unfold l. by rewrite merge_sort_Permutation. }
  apply (StronglySorted_unique_strong revision_le).
  - intros x y Hx Hy Hxy Hyx. rewrite merge_sort_Permutation in Hx.
    apply list_elem_of_fmap in Hx as (t & -> & Ht), Hy as (u & -> & Hu).
    rewrite Hperm in Ht. apply Hin in Ht as [Ht Hta], Hu as [Hu Hua].
    rewrite revision_le_recorded in Hxy, Hyx. f_equal.
    eapply (hi_unique _ Hh); [done|done|congruence|lia].
  - apply StronglySorted_merge_sort; apply _.
  - apply (revisions_sorted _ 0). intros i t Ht. apply (cd_revision _ _ _ _ Hc i t Ht).
  - rewrite merge_sort_Permutation. by apply Permutation_map.
Qed.

(** ** One attempt *)

Lemma chained_times d id start ts :
  chained d id start ts -> ts <> [] ->
  (0 <= start <= i64_max)%Z /\ forall t, last ts = Some t -> (0 <= tr_at t <= i64_max)%Z.
Proof.
  intros Hc Hne. split.
  - assert (is_Some (ts !! 0%nat)) as [t Ht] by (apply lookup_lt_is_Some_2; destruct ts; [done|cbn; lia]).
    destruct (cd_event _ _ _ _ Hc t (list_elem_of_lookup_2 _ _ _ Ht)) as (_ & _ & ? & _).
    destruct (cd_first _ _ _ _ Hc t Ht) as (_ & _ & <-). done.
  - intros t Ht. by apply (cd_event _ _ _ _ Hc t (last_Some_elem_of _ _ Ht)).
Qed.


Lemma reference_Ok idx row key t v :
  index row key = Str t -> map_get t idx = Some v -> reference idx row key = Ok v.
Proof. intros Ht Hv. unfold reference. rewrite (proj2 (text_Ok _ _ _) Ht). cbn. by rewrite Hv. Qed.
Lemma state_is s t : bool_decide (Str (state_name s) = Str (state_name t)) = bool_decide (s = t).
Proof. destruct s as [|[]| | | |], t as [|[]| | | |]; reflexivity. Qed.

Lemma terminal_archived d id a ts :
  history d -> archival d -> chained d id (att_started a) ts ->
  (exists t, last ts = Some t /\ tr_at t = att_updated a) ->
  attempts d !! id = Some a -> is_terminal (att_state a) = true ->
  check_terminal (slot_index d) (artifact_index d) (attempt_value (attempt_evidence d id a)) = Ok (att_started a).
Proof.
  intros Hh Hd Hc (t & Hlast & Hat) Ha Hterm. set (v := attempt_value (attempt_evidence d id a)).
  destruct (hi_row _ Hh _ _ Ha) as (_ & _ & Hstart & Hfin & Hfail). rewrite Hterm in Hfin.
  destruct Hfin as [Hfin [art Hart]].
  destruct (ac_slot _ Hd _ _ Ha) as [s Hs]. destruct (slot_found _ _ _ Hs) as [sv Hsv].
  destruct (ac_artifact _ Hd _ _ _ Ha Hart) as (r & Hr & Hkind).
  destruct (artifact_found _ _ _ Hr) as (av & Hav & Havk). rewrite Hkind in Havk.
  destruct (chained_times d id _ ts Hc) as [Hst Hup]; [by intros ->|].
  specialize (Hup t Hlast). rewrite Hat in Hup.
  unfold check_terminal.
  rewrite (reference_Ok (slot_index d) v "slot_id" (att_slot a) sv) by done. cbn [mbind result_bind].
  assert (one_of (index v "state") SETTLED && negb (is_null v "finished_at_ns") = true) as ->.
  { unfold one_of, is_null, field_is, v. autorewrite with rows. cbn [attempt_evidence ae_state ae_finished_at_ns].
    rewrite Hfin. by destruct (att_state a) as [|[]| | | |]. }
  cbn [ensure mbind result_bind].
  rewrite (reference_Ok (artifact_index d) v "artifact_id" art av); [|by unfold v; rewrite attempt_value_artifact_id;
    cbn; rewrite Hart|done]. cbn [mbind result_bind].
  rewrite (proj2 (refuse_if_Ok _ "terminal attempt references the wrong artifact kind"));
    [|unfold field_is; by rewrite Havk]. cbn [mbind result_bind].
  rewrite (proj2 (refuse_if_Ok _ "failure code disagrees with the attempt state")).
  2:{ apply negb_false_iff, bool_decide_eq_true. unfold is_null, field_is, v. autorewrite with rows.
      cbn [attempt_evidence ae_state ae_failure_code]. change "failed" with (state_name Failed). rewrite state_is.
      destruct (att_failure_code a); cbn; [rewrite bool_decide_eq_true_2; [done|by apply Hfail]|].
      rewrite bool_decide_eq_false_2; [done|]. by intros [? ?]%Hfail. }
  cbn [mbind result_bind]. rewrite (time_of_Ok v "started_at_ns" (att_started a)) by done. cbn [mbind result_bind].
  rewrite (time_of_Ok v "finished_at_ns" (att_updated a));
    [|by unfold v; rewrite attempt_value_finished_at_ns; cbn; rewrite Hfin|done]. cbn [mbind result_bind].
  rewrite (proj2 (refuse_if_Ok _ "inconsistent terminal attempt timestamps")); [done|].
  unfold same, v. autorewrite with rows. cbn [attempt_evidence ae_updated_at_ns ae_finished_at_ns].
  rewrite Hfin. cbn. rewrite bool_decide_eq_true_2 by done. rewrite orb_false_r. apply Z.ltb_ge. done.
Qed.

Lemma claim_archived d id a acc :
  (att_state a = Accepted -> att_slot a ∉ acc) ->
  claim_slot acc (attempt_value (attempt_evidence d id a)) =
  Ok (if bool_decide (att_state a = Accepted) then att_slot a :: acc else acc).
Proof.
  intros Hacc. unfold claim_slot, field_is. rewrite attempt_value_state. cbn [attempt_evidence ae_state].
  change "accepted" with (state_name Accepted). rewrite state_is.
  case_bool_decide as E; [|done].
  rewrite (proj2 (text_Ok _ "slot_id" (att_slot a))) by done. cbn [mbind result_bind].
  rewrite bool_decide_eq_false_2 by auto. done.
Qed.

Lemma identity_archived d id a (identity_text : IdentityError -> string) :
  archival d -> attempts d !! id = Some a ->
  check_attempt_identity identity_text (attempt_value (attempt_evidence d id a)) = Ok tt.
Proof.
  intros Hd Ha. destruct (ac_identity _ Hd _ _ Ha) as (slot & i & Hslot & Hrun & Hi).
  unfold check_attempt_identity. rewrite (proj2 (text_Ok _ "slot_id" (att_slot a))) by done.
  cbn [mbind result_bind]. destruct (from_str ResolvedAttemptSlotType (att_slot a)) as [slot'|] eqn:Hs; [|done].
  apply from_str_inv in Hs as [Hs _].
  assert (slot' = slot) as -> by (apply to_string_inj; congruence).
  assert (integer (attempt_value (attempt_evidence d id a)) "retry_index" = Ok (att_retry_index a)) as -> by done.
  cbn [mbind result_bind]. rewrite Hrun. cbn [map_err mbind result_bind].
  rewrite (proj2 (text_Ok _ "id" id)) by done. cbn [mbind result_bind].
  apply refuse_if_Ok, negb_false_iff, String.eqb_eq. done.
Qed.

Lemma transitions_archived d id a ts rows :
  history d -> archival d -> stored_integers d -> chained d id (att_started a) ts ->
  rows "attempt-transition" = map transition_value (transition_rows d) ->
  rows "event" = map event_value (event_rows d) ->
  Z.of_nat (length ts) = (att_revision a + 1)%Z ->
  (forall u, u ∈ ts <-> u ∈ attempt_transitions d /\ tr_attempt u = id) ->
  (exists t, last ts = Some t /\ tr_to t = att_state a /\ tr_at t = att_updated a) ->
  attempts d !! id = Some a -> is_terminal (att_state a) = true ->
  check_transitions rows (att_started a) (attempt_value (attempt_evidence d id a)) = Ok tt.
Proof.
  intros Hh Hd [_ Hints] Hc Htr Hev Hlen Hin (t & Hlast & Hto & Hat) Ha Hterm.
  destruct (hi_row _ Hh _ _ Ha) as (Hr0 & _ & _ & Hfin & _). rewrite Hterm in Hfin.
  destruct Hfin as [Hfin _]. pose proof (Hints _ _ Ha) as Hr1.
  unfold check_transitions. rewrite (recorded_history d id a ts rows) by done.
  assert (integer (attempt_value (attempt_evidence d id a)) "revision" = Ok (att_revision a)) as -> by done.
  cbn [mbind result_bind]. unfold checked_add_u64.
  rewrite (proj2 (Z.leb_le _ _)) by (unfold i64_max, u64_max in *; lia). cbn [ok_or mbind result_bind].
  rewrite length_map, Hlen, Z.eqb_refl. cbn [negb refuse_if ensure mbind result_bind].
  rewrite Hev, (chained_history d id (att_started a) ts) by done. rewrite Hlast. cbn.
  apply refuse_if_Ok. unfold same. autorewrite with rows.
  change (index (recorded_transition t) "to_state") with (Str (state_name (tr_to t))).
  rewrite transition_at. cbn [attempt_evidence ae_state ae_finished_at_ns].
  rewrite Hfin, Hto, Hat. cbn. by rewrite !bool_decide_eq_true_2.
Qed.

Lemma attempt_archived d id a rows acc (identity_text : IdentityError -> string) :
  history d -> archival d -> stored_integers d ->
  rows "attempt-transition" = map transition_value (transition_rows d) ->
  rows "event" = map event_value (event_rows d) ->
  attempts d !! id = Some a -> is_terminal (att_state a) = true ->
  (att_state a = Accepted -> att_slot a ∉ acc) ->
  check_attempt identity_text rows (slot_index d) (artifact_index d) acc
    (attempt_value (attempt_evidence d id a)) =
  Ok (if bool_decide (att_state a = Accepted) then att_slot a :: acc else acc).
Proof.
  intros Hh Hd Hints Htr Hev Ha Hterm Hacc.
  destruct (attempt_chained d id a Hh Hd Hints Ha) as (ts & Hc & Hlen & Hin & Hlast).
  unfold check_attempt. rewrite (terminal_archived d id a ts) by naive_solver. cbn [mbind result_bind].
  rewrite claim_archived, identity_archived by done. cbn [mbind result_bind].
  by rewrite (transitions_archived d id a ts).
Qed.

(** ** All attempts *)

Lemma attempts_fold d (identity_text : IdentityError -> string) rows :
  history d -> archival d -> claims_ok d -> stored_integers d -> settled d ->
  rows "attempt-transition" = map transition_value (transition_rows d) ->
  rows "event" = map event_value (event_rows d) ->
  forall l acc, NoDup (map fst l) -> (forall kv, kv ∈ l -> attempts d !! kv.1 = Some kv.2) ->
  (forall kv, kv ∈ l -> att_state kv.2 = Accepted -> att_slot kv.2 ∉ acc) ->
  is_ok (try_fold (check_attempt identity_text rows (slot_index d) (artifact_index d)) acc
    (map (fun kv => attempt_value (attempt_evidence d kv.1 kv.2)) l)) = true.
Proof.
  intros Hh Hd Hcl Hints Hset Htr Hev. induction l as [|[id a] l IH]; intros acc Hnd Hl Hacc; [done|].
  apply NoDup_cons in Hnd as [Hid Hnd]. cbn [map try_fold fst snd].
  assert (attempts d !! id = Some a) as Ha by (apply (Hl (id, a)); set_solver).
  rewrite attempt_archived; [cbn [mbind result_bind]|done..|by eapply Hset|by apply (Hacc (id, a)); set_solver].
  apply IH; [done|set_solver|]. intros [j b] Hj Hb. pose proof (Hl (j, b) ltac:(set_solver)) as Hjb.
  pose proof (Hacc (j, b) ltac:(set_solver) Hb) as Hnot. case_bool_decide as E; [|done].
  apply not_elem_of_cons. split; [|done]. intros Hslot.
  assert (j = id) as -> by (by eapply (co_unique _ Hcl)).
  destruct Hid. apply list_elem_of_fmap. by exists (id, b).
Qed.

Lemma attempt_index_values d :
  exists l, l ≡ₚ map_to_list (attempts d) /\
    map snd (attempt_index d) = map (fun kv => attempt_value (attempt_evidence d kv.1 kv.2)) l.
Proof.
  pose proof (index_of_perm ae_id attempt_value (attempt_rows d) (attempt_rows_keys d)) as Hp.
  rewrite (Permutation_map attempt_value (attempt_rows_perm d)), map_map in Hp.
  apply Permutation_map_inv in Hp as (l & Hl & Hp). by exists l.
Qed.

Lemma references_archived d rows :
  history d -> archival d ->
  rows "attempt-transition" = map transition_value (transition_rows d) ->
  rows "event" = map event_value (event_rows d) ->
  for_each (fun t => referenced (attempt_index d) t "attempt_id") (rows "attempt-transition") = Ok tt /\
  for_each (fun e => if is_null e "attempt_id" then Ok tt else referenced (attempt_index d) e "attempt_id")
    (rows "event") = Ok tt.
Proof.
  intros Hh Hd -> ->. split; apply for_each_Ok, Forall_forall; intros x.
  - intros (t & -> & (u & -> & Hu)%list_elem_of_fmap)%list_elem_of_fmap.
    rewrite merge_sort_Permutation in Hu. destruct (hi_bound _ Hh u Hu) as (a & Ha & _).
    unfold referenced. change (transition_value _) with (recorded_transition u).
    by rewrite (reference_Ok _ (recorded_transition u) "attempt_id" (tr_attempt u) _ eq_refl (attempt_found d _ a Ha)).
  - intros (ev & -> & Hev)%list_elem_of_fmap. unfold event_rows in Hev.
    apply elem_of_lookup_imap in Hev as (i & e & -> & He). unfold is_null, field_is.
    rewrite event_value_attempt_id. cbn [event_evidence ee_attempt_id].
    destruct (ev_attempt e) as [k|] eqn:Ek; [|done]. cbn [optional_text optional].
    rewrite bool_decide_eq_false_2 by done.
    destruct (ac_event _ Hd e k (list_elem_of_lookup_2 _ _ _ He) Ek) as [a Ha].
    unfold referenced. erewrite (reference_Ok (attempt_index d) (event_value (event_evidence i e)) "attempt_id" k);
      [done| |by apply attempt_found].
    rewrite event_value_attempt_id. cbn [event_evidence ee_attempt_id]. by rewrite Ek.
Qed.

Lemma records_settled d e :
  history d -> settled d -> archive_evidence d = Ok e -> for_each check_record (records e) = Ok tt.
Proof.
  intros Hh Hset. unfold archive_evidence.
  intros (members & _ & (sequences & _ & [= <-])%bind_Ok)%bind_Ok. cbn [records].
  apply for_each_Ok. rewrite !Forall_app, !Forall_map. split_and!; apply Forall_forall; try done.
  intros x Hx. rewrite attempt_rows_perm in Hx.
  apply list_elem_of_fmap in Hx as ([id a] & -> & Ha%elem_of_map_to_list). cbn.
  pose proof (Hset _ _ Ha) as Hterm. destruct (hi_row _ Hh _ _ Ha) as (_ & _ & _ & Hfin & _).
  rewrite Hterm in Hfin. destruct Hfin as [-> _]. rewrite bool_decide_eq_true_2 by (by eexists).
  by destruct (att_state a) as [|[]| | | |].
Qed.

(** C22: the evidence of a settled store passes the archive's checks on attempts:
    whatever happened to the store, once all its attempts have ended, the
    evidence read from it contains no open attempt, the indexes over its slots,
    artifacts and attempts can be built, and every attempt, its chain of
    transitions with their events, and every reference to an attempt are
    accepted by the validation. *)
Theorem store_attempts_archived d e (identity_text : IdentityError -> string) :
  reachable d -> settled d -> stored_integers d -> archive_evidence d = Ok e ->
  let rows := tables (records e) in
  for_each check_record (records e) = Ok tt /\
  exists slots artifacts attempts,
    index_rows (rows "resolved-attempt-slot") "id" = Ok slots /\
    index_rows (rows "stored-artifact") "id" = Ok artifacts /\
    index_rows (rows "attempt") "id" = Ok attempts /\
    validate_attempts identity_text rows slots artifacts attempts = Ok tt.
Proof.
  intros Hreach Hset Hints He rows. pose proof (reachable_history _ Hreach) as Hh.
  pose proof (reachable_archival _ Hreach) as Hd. pose proof (reachable_claims _ Hreach) as Hcl.
  destruct (evidence_rows d e He) as (Hattempts & Htr & Hev & Hslots & Hart).
  split; [by eapply records_settled|]. exists (slot_index d), (artifact_index d), (attempt_index d).
  unfold rows. rewrite Hattempts, Hslots, Hart.
  split; [by apply index_rows_of, slot_keys|]. split; [by apply index_rows_of, artifact_keys|].
  split; [by apply index_rows_of, attempt_rows_keys|]. unfold validate_attempts.
  destruct (attempt_index_values d) as (l & Hl & ->).
  pose proof (attempts_fold d identity_text (tables (records e)) Hh Hd Hcl Hints Hset Htr Hev l []) as Hfold.
  destruct (try_fold _ [] _) as [acc|x].
  - cbn [mbind result_bind]. destruct (references_archived d (tables (records e)) Hh Hd Htr Hev) as [-> ->]. done.
  - discriminate Hfold; [|intros [id a]|set_solver].
    + rewrite (Permutation_map fst Hl). apply NoDup_fst_map_to_list.
    + by rewrite Hl, elem_of_map_to_list.
Qed.
End Histories.

(** ** The scenario's run, with its second attempt superseded *)

Lemma forall_rows (p : attempt_row -> bool) d :
  forallb (fun kv => p kv.2) (map_to_list (attempts d)) = true ->
  forall id a, attempts d !! id = Some a -> p a = true.
Proof.
  intros Hall id a Ha%elem_of_map_to_list. rewrite forallb_forall in Hall.
  apply (Hall (id, a)). by apply list_elem_of_In.
Qed.

Lemma forall_transitions (p : transition_row -> bool) d :
  forallb p (attempt_transitions d) = true -> forall t, t ∈ attempt_transitions d -> p t = true.
Proof. intros Hall t Ht. rewrite forallb_forall in Hall. by apply Hall, list_elem_of_In. Qed.

#[local] Existing Instance model.
Definition contested : Finalization * db :=
  from_ok ({| fin_attempt := no_guard; fin_disposition := SupersededClaim |}, store0)
    (begin_finalization competing.1 (lease_request "late" 100) 21 accepted.2).
Definition superseded : TerminalAttempt * db :=
  from_ok (accepted.1, store0)
    (commit_finalization (fin_attempt contested.1) Outcome.Superseded (tree "late" "superseded") [] 22 contested.2).
Lemma contested_ok :
  begin_finalization competing.1 (lease_request "late" 100) 21 accepted.2 = Ok (contested.1, contested.2).
Proof. unfold contested. runs. Qed.
Lemma superseded_ok :
  commit_finalization (fin_attempt contested.1) Outcome.Superseded (tree "late" "superseded") [] 22 contested.2
  = Ok (superseded.1, superseded.2).
Proof. unfold superseded. runs. Qed.
#[global] Opaque contested superseded.

Lemma superseded_reachable : reachable superseded.2.
Proof.
  eapply reachable_step; [|by eapply do_commit_finalization, superseded_ok].
  eapply reachable_step; [apply accepted_reachable|by eapply do_begin_finalization, contested_ok].
Qed.
Lemma superseded_settled : settled superseded.2.
Proof. exact (forall_rows (fun a => is_terminal (att_state a)) superseded.2 ltac:(by vm_compute)). Qed.
Lemma superseded_integers : stored_integers superseded.2.
Proof.
  split.
  - intros t Ht. apply Z.leb_le.
    exact (forall_transitions (fun t => tr_at t <=? i64_max)%Z superseded.2 ltac:(by vm_compute) t Ht).
  - intros id a Ha. apply Z.leb_le.
    exact (forall_rows (fun a => att_revision a <=? i64_max)%Z superseded.2 ltac:(by vm_compute) id a Ha).
Qed.

Lemma superseded_evidence :
  match archive_evidence superseded.2 with
  | Ok e => length (tables (records e) "attempt-transition") = 12%nat
  | Err _ => False
  end.
Proof. by vm_compute. Qed.

Lemma store_attempts_archived_witness :
  exists e slots artifacts attempts,
    archive_evidence superseded.2 = Ok e /\ length (tables (records e) "attempt-transition") = 12%nat /\
    index_rows (tables (records e) "resolved-attempt-slot") "id" = Ok slots /\
    index_rows (tables (records e) "stored-artifact") "id" = Ok artifacts /\
    index_rows (tables (records e) "attempt") "id" = Ok attempts /\
    @validate_attempts model (fun _ => "") (tables (records e)) slots artifacts attempts = Ok tt.
Proof.
  destruct (archive_evidence superseded.2) as [e|x] eqn:He.
  - destruct (@store_attempts_archived model superseded.2 e (fun _ => "") superseded_reachable superseded_settled
                superseded_integers He) as (_ & slots & artifacts & attempts & H1 & H2 & H3 & H4).
    exists e, slots, artifacts, attempts. split; [reflexivity|].
    split; [|exact (conj H1 (conj H2 (conj H3 H4)))].
    pose proof superseded_evidence as Hlen. rewrite He in Hlen. exact Hlen.
  - pose proof superseded_evidence as Hlen. rewrite He in Hlen. destruct Hlen.
Defined.
