(* ===== verification/Selection.v ===== *)
(** * Selecting part of a plan (src/runtime/run/selection.rs)

    [preselect] narrows a logical plan to the slots that selected identities
    name.  The selection is by units: one measured attempt with the observation
    slots it fills, or all the points of a fresh specification. *)
From S2P Require Import Prelude Json Canonical Identity Profile Records RecordIdentity ThirdPartyModel Manifest Bindings Parameters Compatibility SampleManifest Expansion Scheduling Planning Plans Store.
From Stdlib Require Import Ascii.

(** The invocation controls (core/run_output.rs). *)
Record RunOptions := {
  locked : bool;
  selected_ids : list string;
  experiment_names : list string;
  max_attempts : option Z;
  resume : bool;
  retry : bool;
}.
(** The errors of a run that the modelled parts return. *)
Inductive RunError :=
  | SelectionError (message : string)
  | StoreError (e : RunStoreError)
  | ProvenanceError (v : CanonicalValueViolation)
  (** No error of the code: the fuel of a loop ran out, which never happens. *)
  | OutOfFuel.

(** ** Selected identities *)

(** [str::rsplit_once]. *)
Fixpoint rsplit_once (c : ascii) (s : string) : option (string * string) :=
  match s with
  | EmptyString => None
  | String d s' =>
      match rsplit_once c s' with
      | Some (a, b) => Some (String d a, b)
      | None => if Ascii.eqb d c then Some (EmptyString, s') else None
      end
  end.

Definition SELECTABLE : list string := [
  "mw1-logical-candidate"; "mw1-logical-specification"; "mw1-logical-observation-slot";
  "mw1-logical-attempt-slot"; "mw1-resolved-specification"; "mw1-resolved-observation-slot";
  "mw1-resolved-attempt-slot"; "mw1-attempt"; "mw1-observation"].
Definition LOGICAL_PREFIXES : list string := [
  "mw1-logical-candidate-"; "mw1-logical-specification-"; "mw1-logical-observation-slot-";
  "mw1-logical-attempt-slot-"].

Definition selectable (id : string) : bool :=
  match rsplit_once "-" (default id (strip_prefix "run-store-v1:unconditional:" id)) with
  | None => false
  | Some (kind, digest) =>
      existsb (String.eqb kind) SELECTABLE && (String.length digest =? 64)%nat
      && forallb is_hex_lower (bytes_of digest)
  end.
Definition is_logical (id : string) : bool :=
  existsb (fun prefix => bool_decide (is_Some (strip_prefix prefix id))) LOGICAL_PREFIXES.
(** [collect::<BTreeSet<_>>()], in iteration order. *)
Definition string_set (l : list string) : list string := sorted_strings (remove_dups l).

(** [slice::chunks(n)]; panics on 0. *)
Fixpoint chunked {A} (fuel n : nat) (l : list A) : list (list A) :=
  match fuel, l with
  | S fuel, _ :: _ => take n l :: chunked fuel n (drop n l)
  | _, _ => []
  end.
Definition chunks {E A} (n : Z) (l : list A) : result (failure E) (list (list A)) :=
  if (n =? 0)%Z then Err Panicked else Ok (chunked (length l) (Z.to_nat n) l).

(** ** The selection *)

Definition ObservationSlot : Type := Identified LogicalObservationSlotRecord.
Definition AttemptSlot : Type := Identified LogicalAttemptSlotRecord.
Definition ObservationSlotId : Type := RecordId LogicalObservationSlotType.

(** The number of observations one attempt captures. *)
Definition capture_bound (experiment : LogicalExperimentPlan) : Z :=
  match op_profile (record (lp_observation_policy experiment)) with
  | Some profile =>
      match index profile "max-observations" with
      | Number n => default 1%Z (as_u64 n)
      | _ => 1%Z
      end
  | None => 1%Z
  end.

(** [captures]: the groups of observation slots by their first slot.  A later
    entry of a map replaces an earlier one. *)
Definition Captures : Type := list (ObservationSlotId * list ObservationSlotId).
Definition captures_of (groups : list (list ObservationSlot)) : result (failure RunError) Captures :=
  mapM (fun group =>
    first ← expect (head group);
    Ok (id first, map id group)) groups.
Definition capture (captures : Captures) (slot : ObservationSlotId) : option (list ObservationSlotId) :=
  snd <$> List.find (fun kv => bool_decide (kv.1 = slot)) (rev captures).

Definition is_fresh (specification : OneShotSpecificationPlan) : bool :=
  existsb (fun slot => bool_decide (is_Some (lo_fresh (record slot)))) (sp_observation_slots specification).

Definition matching (logical ids : list string) : list string :=
  List.filter (fun id => bool_decide (id ∈ ids)) logical.

(** One attempt slot: whether it is retained, the identities it matches and the
    observation slots it keeps. *)
Record Choice := {
  chosen : AttemptSlot;
  retained : bool;
  matches : list string;
  keeps_observations : list ObservationSlotId;
}.
Definition choose (logical : list string) (captures : Captures) (candidate specification : string)
    (slot : AttemptSlot) : result (failure RunError) Choice :=
  match la_role (record slot) with
  | WarmupRole _ =>
      Ok {| chosen := slot; retained := true; matches := []; keeps_observations := [] |}
  | Measured observation_slot =>
      group ← expect (capture captures observation_slot);
      let ids := [candidate; specification; to_string (id slot); to_string observation_slot]
                 ++ map to_string group in
      let selected := matching logical ids in
      let any := negb (bool_decide (selected = [])) in
      Ok {| chosen := slot; retained := any; matches := selected;
            keeps_observations := if any then group else [] |}
  end.

(** One specification of a candidate: what remains of it, and the identities
    that matched. *)
Definition select_specification (logical : list string) (bound : Z) (candidate : string)
    (specification : OneShotSpecificationPlan)
  : result (failure RunError) (OneShotSpecificationPlan * list string) :=
  let name := to_string (id (sp_specification specification)) in
  if is_fresh specification then
    let ids := candidate :: name :: map (fun s => to_string (id s)) (sp_attempt_slots specification)
               ++ map (fun s => to_string (id s)) (sp_observation_slots specification) in
    let selected := matching logical ids in
    Ok (if bool_decide (selected = [])
        then {| sp_specification := sp_specification specification;
                sp_observation_slots := []; sp_attempt_slots := [] |}
        else specification, selected)
  else
    groups ← chunks bound (sp_observation_slots specification);
    captures ← captures_of groups;
    choices ← mapM (choose logical captures candidate name) (sp_attempt_slots specification);
    let observations := concat (map keeps_observations choices) in
    Ok ({| sp_specification := sp_specification specification;
           sp_observation_slots := List.filter (fun slot => bool_decide (id slot ∈ observations))
             (sp_observation_slots specification);
           sp_attempt_slots := map chosen (List.filter retained choices) |},
        concat (map matches choices)).

Definition select_candidate (logical : list string) (bound : Z) (candidate : LogicalCandidatePlan)
  : result (failure RunError) (LogicalCandidatePlan * list string) :=
  selected ← mapM (select_specification logical bound (to_string (id (cp_candidate candidate))))
    (cp_specifications candidate);
  Ok ({| cp_profile_policy := cp_profile_policy candidate; cp_source := cp_source candidate;
         cp_dataset_configuration := cp_dataset_configuration candidate;
         cp_problem_configuration := cp_problem_configuration candidate;
         cp_implementation_configuration := cp_implementation_configuration candidate;
         cp_implementation_capabilities := cp_implementation_capabilities candidate;
         cp_candidate := cp_candidate candidate;
         cp_specifications := List.filter (fun s => negb (bool_decide (sp_observation_slots s = [])))
           (map fst selected) |},
      concat (map snd selected)).

Definition select_experiment (logical : list string) (experiment : LogicalExperimentPlan)
  : result (failure RunError) (LogicalExperimentPlan * list string) :=
  selected ← mapM (select_candidate logical (capture_bound experiment)) (lp_candidates experiment);
  Ok ({| lp_name := lp_name experiment; lp_scheduling_seed := lp_scheduling_seed experiment;
         lp_execution_policy := lp_execution_policy experiment;
         lp_observation_policy := lp_observation_policy experiment;
         lp_candidates := List.filter (fun c => negb (bool_decide (cp_specifications c = [])))
           (map fst selected) |},
      concat (map snd selected)).

Definition unmatched (id : string) : RunError :=
  SelectionError ("selected identity `" +:+ id +:+ "` matches no measured slot").

Definition preselect (plan : LogicalPlan) (options : RunOptions) : result (failure RunError) LogicalPlan :=
  _ ← lift (ensure match max_attempts options with
      | Some bound => negb ((bound =? 0)%Z || (MAX_SAFE_INTEGER <? bound)%Z)
      | None => true
      end (SelectionError "maximum attempts must be a positive safe integer"));
  if bool_decide (selected_ids options = []) then Ok plan
  else
    _ ← lift (for_each (fun id => ensure (selectable id)
          (SelectionError ("invalid selected identity `" +:+ id +:+ "`"))) (selected_ids options));
    let logical := string_set (List.filter is_logical (selected_ids options)) in
    if existsb (fun id => negb (bool_decide (id ∈ logical))) (selected_ids options) then Ok plan
    else
      selected ← mapM (select_experiment logical) (plan_experiments plan);
      let matched := concat (map snd selected) in
      _ ← lift (for_each (fun id => ensure (bool_decide (id ∈ matched)) (unmatched id)) logical);
      Ok {| plan_experiments := List.filter (fun e => negb (bool_decide (lp_candidates e = [])))
              (map fst selected) |}.

(** ** Units of execution *)

(** What one attempt measures: a measured slot with the observation slots it
    captures, or a fresh specification with all of its points. *)
Record SlotUnit := {
  un_candidate : string;
  un_specification : string;
  un_attempts : list string;
  un_observations : list string;
}.
Definition unit_names (u : SlotUnit) : list string :=
  un_candidate u :: un_specification u :: un_attempts u ++ un_observations u.
(** One of the identities names the unit or a part of it. *)
Definition addressed (ids : list string) (u : SlotUnit) : bool :=
  existsb (fun id => bool_decide (id ∈ unit_names u)) ids.

Definition groups_of (bound : Z) (s : OneShotSpecificationPlan) : list (list ObservationSlot) :=
  chunked (length (sp_observation_slots s)) (Z.to_nat bound) (sp_observation_slots s).
Definition group_captures (groups : list (list ObservationSlot)) : Captures :=
  omap (fun group => (fun first => (id first, map id group)) <$> head group) groups.
Definition measured_unit (captures : Captures) (candidate specification : string) (slot : AttemptSlot)
  : option SlotUnit :=
  match la_role (record slot) with
  | WarmupRole _ => None
  | Measured o => Some {|
      un_candidate := candidate; un_specification := specification;
      un_attempts := [to_string (id slot)];
      un_observations := map to_string (default [] (capture captures o)) |}
  end.
Definition specification_units (bound : Z) (candidate : string) (s : OneShotSpecificationPlan)
  : list SlotUnit :=
  let name := to_string (id (sp_specification s)) in
  if is_fresh s then [{|
    un_candidate := candidate; un_specification := name;
    un_attempts := map (fun s => to_string (id s)) (sp_attempt_slots s);
    un_observations := map (fun s => to_string (id s)) (sp_observation_slots s) |}]
  else omap (measured_unit (group_captures (groups_of bound s)) candidate name) (sp_attempt_slots s).
Definition candidate_units (bound : Z) (c : LogicalCandidatePlan) : list SlotUnit :=
  flat_map (specification_units bound (to_string (id (cp_candidate c)))) (cp_specifications c).
Definition experiment_units (e : LogicalExperimentPlan) : list SlotUnit :=
  flat_map (candidate_units (capture_bound e)) (lp_candidates e).
Definition plan_units (plan : LogicalPlan) : list SlotUnit :=
  flat_map experiment_units (plan_experiments plan).

(** The attempt slots of a specification against the groups of its observation
    slots: each measured slot points at the first slot of its group. *)
Inductive paired : list AttemptSlot -> list (list ObservationSlot) -> Prop :=
  | paired_nil : paired [] []
  | paired_warmup slot i slots groups :
      la_role (record slot) = WarmupRole i -> paired slots groups -> paired (slot :: slots) groups
  | paired_measured slot o rest slots groups :
      la_role (record slot) = Measured (id o) -> paired slots groups ->
      paired (slot :: slots) ((o :: rest) :: groups).
Record laid_out (bound : Z) (s : OneShotSpecificationPlan) : Prop := {
  lay_bound : (0 < bound)%Z;
  lay_distinct : NoDup (map id (sp_observation_slots s));
  lay_even : Forall (fun g => length g = Z.to_nat bound) (groups_of bound s);
  lay_paired : paired (sp_attempt_slots s) (groups_of bound s);
}.
(** ** Groups *)

Lemma chunked_concat {A} (groups : list (list A)) n fuel :
  (0 < n)%nat -> Forall (fun g => length g = n) groups -> (length (concat groups) <= fuel)%nat ->
  chunked fuel n (concat groups) = groups.
Proof.
  intros Hn Hg. revert fuel. induction Hg as [|g groups Hg _ IH]; intros fuel Hf; [by destruct fuel|].
  cbn [concat] in *. rewrite length_app in Hf. destruct fuel as [|fuel]; [lia|].
  destruct g as [|x g]; [simpl in Hg; lia|]. cbn [app chunked].
  rewrite (app_comm_cons g (concat groups) x), <-Hg, take_app_length, drop_app_length.
  f_equal. rewrite Hg. apply IH. simpl in Hf. lia.
Qed.

Lemma concat_chunked {A} n fuel (l : list A) :
  (0 < n)%nat -> (length l <= fuel)%nat -> concat (chunked fuel n l) = l.
Proof.
  intros Hn. revert l. induction fuel as [|fuel IH]; intros l Hf; destruct l as [|x l]; try done; [simpl in Hf; lia|].
  cbn [chunked concat]. rewrite IH; [by rewrite take_drop|]. rewrite length_drop. simpl in *. lia.
Qed.

Lemma chunked_even {A} n fuel (l : list A) m :
  (0 < n)%nat -> length l = (m * n)%nat -> Forall (fun g => length g = n) (chunked fuel n l).
Proof.
  intros Hn. revert l m. induction fuel as [|fuel IH]; intros l m Hl; [constructor|].
  destruct l as [|x l]; [constructor|]. destruct m as [|m]; [done|]. cbn [chunked]. constructor.
  - rewrite length_take. lia.
  - apply (IH _ m). rewrite length_drop. lia.
Qed.

Lemma sublist_elem {A} (l k : list A) x : l `sublist_of` k -> x ∈ l -> x ∈ k.
Proof. intros Hs. induction Hs; set_solver. Qed.

(** Keeping the slots of some of the groups keeps those groups. *)
Lemma filter_groups (kept groups : list (list ObservationSlot)) :
  kept `sublist_of` groups -> NoDup (map id (concat groups)) ->
  List.filter (fun slot => bool_decide (id slot ∈ map id (concat kept))) (concat groups) = concat kept.
Proof.
  assert (forall (p q : ObservationSlot -> bool) l, (forall x, x ∈ l -> p x = q x) ->
    List.filter p l = List.filter q l) as Hext.
  { intros p q l Hpq. apply List.filter_ext_in. intros x Hx. by apply Hpq, list_elem_of_In. }
  intros Hs. induction Hs as [|g kept groups Hs IH|g kept groups Hs IH]; intros Hnd; [done|..];
    cbn [concat] in Hnd |- *; rewrite map_app in Hnd; apply NoDup_app in Hnd as (_ & Hdis & Hnd);
    rewrite List.filter_app.
  - f_equal.
    + etrans; [apply (Hext _ (fun _ => true))|].
      * intros x Hx. apply bool_decide_eq_true_2. rewrite map_app. apply elem_of_app. left.
        by apply list_elem_of_fmap_2.
      * clear. induction g as [|x g IHg]; [done|]. cbn. by rewrite IHg.
    + etrans; [apply Hext|exact (IH Hnd)]. intros x Hx. apply bool_decide_ext.
      rewrite map_app, elem_of_app. split; [|tauto].
      intros [Hg|]; [|done]. by destruct (Hdis _ Hg (list_elem_of_fmap_2 id _ _ Hx)).
  - change (concat kept) with ([] ++ concat kept). f_equal; [|exact (IH Hnd)].
    etrans; [apply (Hext _ (fun _ => false))|clear; by induction g].
    intros x Hx. apply bool_decide_eq_false_2. intros (y & Hxy & Hy)%list_elem_of_fmap.
    destruct (Hdis (id x)); [by apply list_elem_of_fmap_2|]. rewrite Hxy. apply list_elem_of_fmap_2.
    apply list_elem_of_In, in_concat in Hy as (h & Hh & Hy).
    apply list_elem_of_In, in_concat. exists h. split; [|done].
    by apply list_elem_of_In, (sublist_elem kept), list_elem_of_In.
Qed.

Lemma group_unique (groups : list (list ObservationSlot)) g h x y :
  NoDup (map id (concat groups)) -> g ∈ groups -> h ∈ groups -> x ∈ g -> y ∈ h -> id x = id y -> g = h.
Proof.
  assert (forall (l : list (list ObservationSlot)) k z, k ∈ l -> z ∈ k -> id z ∈ map id (concat l)) as Hin.
  { intros l k z Hk Hz. apply list_elem_of_fmap_2, list_elem_of_In, in_concat.
    exists k. split; by apply list_elem_of_In. }
  induction groups as [|k groups IH]; intros Hnd Hg Hh Hx Hy Hxy; [by apply not_elem_of_nil in Hg|].
  cbn [concat] in Hnd. rewrite map_app in Hnd. apply NoDup_app in Hnd as (_ & Hdis & Hnd).
  apply elem_of_cons in Hg as [->|Hg]; apply elem_of_cons in Hh as [->|Hh]; [done|..|by apply IH].
  - destruct (Hdis (id x)); [by apply list_elem_of_fmap_2|]. rewrite Hxy. by apply (Hin _ h).
  - destruct (Hdis (id y)); [by apply list_elem_of_fmap_2|]. rewrite <-Hxy. by apply (Hin _ g).
Qed.

Lemma find_key {K V} `{EqDecision K} (l : list (K * V)) k v :
  (k, v) ∈ l -> (forall w, (k, w) ∈ l -> w = v) ->
  List.find (fun kv => bool_decide (kv.1 = k)) l = Some (k, v).
Proof.
  induction l as [|[j w] l IH]; intros Hk Hu; [by apply not_elem_of_nil in Hk|]. cbn [List.find fst].
  case_bool_decide as E.
  - subst j. by rewrite (Hu w) by set_solver.
  - apply IH; [set_solver|]. intros u Hw. apply Hu. set_solver.
Qed.

Lemma group_captured groups o rest :
  NoDup (map id (concat groups)) -> (o :: rest) ∈ groups ->
  capture (group_captures groups) (id o) = Some (map id (o :: rest)).
Proof.
  intros Hnd Hg.
  assert (forall w, (id o, w) ∈ group_captures groups -> w = map id (o :: rest)) as Hu.
  { intros w (h & Hh & E)%list_elem_of_omap. destruct h as [|x h]; [done|]. injection E as Ex <-.
    assert (x :: h = o :: rest) as [= -> ->]; [|done].
    apply (group_unique groups _ _ x o); try done; set_solver. }
  unfold capture. rewrite (find_key _ (id o) (map id (o :: rest))); [done|..].
  - rewrite list_elem_of_In, <-in_rev, <-list_elem_of_In. apply list_elem_of_omap. by exists (o :: rest).
  - intros w. rewrite list_elem_of_In, <-in_rev, <-list_elem_of_In. apply Hu.
Qed.

Lemma captures_of_Ok n groups :
  (0 < n)%nat -> Forall (fun g => length g = n) groups -> captures_of groups = Ok (group_captures groups).
Proof.
  intros Hn Hg. unfold captures_of. induction Hg as [|[|o g] groups Hl _ IH]; [done|simpl in Hl; lia|].
  cbn [mapM]. cbn. cbn in IH. by rewrite IH.
Qed.

Lemma unit_of_warmup c candidate specification slot i :
  la_role (record slot) = WarmupRole i -> measured_unit c candidate specification slot = None.
Proof. unfold measured_unit. by intros ->. Qed.
Lemma unit_of_measured c candidate specification slot o group :
  la_role (record slot) = Measured o -> capture c o = Some group ->
  measured_unit c candidate specification slot =
  Some {| un_candidate := candidate; un_specification := specification;
          un_attempts := [to_string (id slot)]; un_observations := map to_string group |}.
Proof. unfold measured_unit. by intros -> ->. Qed.

(** ** Choosing attempt slots *)

Section Choosing.
Context (ids : list string) (captures : Captures) (candidate specification : string).

Lemma matching_elem l i : i ∈ matching ids l <-> i ∈ ids /\ i ∈ l.
Proof. unfold matching. by rewrite list_elem_of_In, filter_In, <-list_elem_of_In, bool_decide_eq_true. Qed.
Lemma addressed_elem l u : addressed l u = true <-> exists i, i ∈ l /\ i ∈ unit_names u.
Proof.
  unfold addressed. rewrite existsb_exists. split; intros (i & Hi & E); exists i.
  - by rewrite list_elem_of_In, <-(bool_decide_eq_true (_ ∈ _)).
  - by rewrite <-list_elem_of_In, bool_decide_eq_true.
Qed.
(** Some identity is in [l], the names of the unit. *)
Lemma matching_addressed l u :
  (forall i, i ∈ l <-> i ∈ unit_names u) -> negb (bool_decide (matching ids l = [])) = addressed ids u.
Proof.
  intros Hl. apply eq_true_iff_eq. rewrite negb_true_iff, bool_decide_eq_false, addressed_elem.
  split.
  - intros H. destruct (matching ids l) as [|i k] eqn:E; [done|]. exists i. rewrite <-Hl.
    apply matching_elem. rewrite E. set_solver.
  - intros (i & Hi & Hn) E. apply (not_elem_of_nil (A := string) i). rewrite <-E.
    apply matching_elem. by rewrite Hl.
Qed.

(** What a selection by [ids] makes of the units: those that are addressed stay,
    and the matched identities are those that address one. *)
Definition selects (before after : list SlotUnit) (matched : list string) : Prop :=
  after = List.filter (addressed ids) before /\
  forall i, i ∈ matched <-> i ∈ ids /\ exists u, u ∈ before /\ i ∈ unit_names u.

Lemma selects_nil : selects [] [] [].
Proof. split; [done|]. intros i. split; [by intros ?%not_elem_of_nil|]. intros (_ & u & ?%not_elem_of_nil & _). done. Qed.
Lemma selects_app a b m a' b' m' : selects a b m -> selects a' b' m' -> selects (a ++ a') (b ++ b') (m ++ m').
Proof.
  intros [-> Hm] [-> Hm']. split; [by rewrite List.filter_app|]. intros i.
  rewrite elem_of_app, Hm, Hm'. setoid_rewrite elem_of_app. naive_solver.
Qed.
Lemma selects_one l u :
  (forall i, i ∈ l <-> i ∈ unit_names u) ->
  selects [u] (if negb (bool_decide (matching ids l = [])) then [u] else []) (matching ids l).
Proof.
  intros Hl. split; [cbn; by rewrite (matching_addressed l u Hl)|]. intros i. rewrite matching_elem, Hl.
  setoid_rewrite list_elem_of_singleton. naive_solver.
Qed.

Notation units := (omap (measured_unit captures candidate specification)).

Lemma paired_choices slots groups :
  paired slots groups ->
  (forall o rest, (o :: rest) ∈ groups -> capture captures (id o) = Some (map id (o :: rest))) ->
  exists choices kept, mapM (choose ids captures candidate specification) slots = Ok choices /\
    kept `sublist_of` groups /\ paired (map chosen (List.filter retained choices)) kept /\
    concat (map keeps_observations choices) = map id (concat kept) /\
    selects (units slots) (units (map chosen (List.filter retained choices))) (concat (map matches choices)).
Proof.
  intros Hp. induction Hp as [|slot i slots groups Hrole _ IH|slot o rest slots groups Hrole _ IH]; intros Hc.
  - exists [], []. split; [done|]. split; [done|]. split; [apply paired_nil|]. split; [done|apply selects_nil].
  - destruct (IH Hc) as (choices & kept & Hm & Hs & Hpair & Hobs & Hsel).
    exists ({| chosen := slot; retained := true; matches := []; keeps_observations := [] |} :: choices), kept.
    assert (choose ids captures candidate specification slot
            = Ok {| chosen := slot; retained := true; matches := []; keeps_observations := [] |}) as Hch
      by (unfold choose; by rewrite Hrole).
    cbn [mapM]. rewrite Hch. cbn [mbind result_bind]. rewrite Hm. split; [done|]. split; [done|].
    split; [by econstructor|]. split; [done|].
    cbn [map List.filter retained matches chosen concat omap list_omap]. by rewrite (unit_of_warmup _ _ _ _ i).
  - destruct IH as (choices & kept & Hm & Hs & Hpair & Hobs & Hsel); [intros; apply Hc; set_solver|].
    set (l := [candidate; specification; to_string (id slot); to_string (id o)]
              ++ map to_string (map id (o :: rest))).
    set (any := negb (bool_decide (matching ids l = []))).
    assert (choose ids captures candidate specification slot
            = Ok {| chosen := slot; retained := any; matches := matching ids l;
                    keeps_observations := if any then map id (o :: rest) else [] |}) as Hch
      by (unfold choose; by rewrite Hrole, (Hc o rest) by set_solver).
    set (u := {| un_candidate := candidate; un_specification := specification;
                 un_attempts := [to_string (id slot)];
                 un_observations := map to_string (map id (o :: rest)) |}).
    assert (measured_unit captures candidate specification slot = Some u) as Hu.
    { apply (unit_of_measured _ _ _ _ (id o)); [done|]. apply Hc. set_solver. }
    pose proof (selects_one l u ltac:(intros i; unfold l, unit_names, u; cbn; set_solver)) as Hone.
    eexists _, (if any then (o :: rest) :: kept else kept). cbn [mapM]. rewrite Hch. cbn [mbind result_bind].
    rewrite Hm. split; [reflexivity|]. cbn [map List.filter retained matches keeps_observations concat omap list_omap].
    rewrite Hu. fold any in Hone. destruct any; cbn [map chosen concat].
    + split; [by constructor|]. split; [by constructor|]. split; [by rewrite Hobs, map_app|].
      cbn [omap list_omap]. rewrite Hu. exact (selects_app _ _ _ _ _ _ Hone Hsel).
    + split; [by constructor|]. split; [done|]. split; [done|].
      exact (selects_app _ _ _ _ _ _ Hone Hsel).
Qed.
End Choosing.

Definition captured (captures : Captures) (groups : list (list ObservationSlot)) : Prop :=
  forall o rest, (o :: rest) ∈ groups -> capture captures (id o) = Some (map id (o :: rest)).

(** The units depend on the groups only. *)
Lemma paired_units c1 c2 candidate specification slots groups :
  paired slots groups -> captured c1 groups -> captured c2 groups ->
  omap (measured_unit c1 candidate specification) slots = omap (measured_unit c2 candidate specification) slots.
Proof.
  intros Hp. induction Hp as [|slot i slots groups Hrole _ IH|slot o rest slots groups Hrole _ IH];
    intros H1 H2; [done|..]; cbn [omap list_omap].
  - rewrite !(unit_of_warmup _ _ _ _ i) by done. by apply IH.
  - rewrite !(unit_of_measured _ _ _ _ (id o) (map id (o :: rest))) by (done || (by apply H1; set_solver) || by apply H2; set_solver).
    f_equal. apply IH; intros ???; [apply H1|apply H2]; set_solver.
Qed.

Lemma groups_concat bound s : (0 < bound)%Z -> concat (groups_of bound s) = sp_observation_slots s.
Proof. intros Hb. unfold groups_of. apply concat_chunked; [lia|done]. Qed.
Lemma sublist_Forall {A} (P : A -> Prop) l k : l `sublist_of` k -> Forall P k -> Forall P l.
Proof. intros Hs Hk. apply Forall_forall. intros x Hx. rewrite Forall_forall in Hk. by apply Hk, (sublist_elem l). Qed.
Lemma sublist_concat {A} (l k : list (list A)) : l `sublist_of` k -> concat l `sublist_of` concat k.
Proof.
  intros Hs. induction Hs; cbn; [done|by apply sublist_app|].
  etrans; [eassumption|apply sublist_inserts_l; done].
Qed.

Section Selecting.
Context (ids : list string) (candidate : string).

Notation selects := (selects ids).

(** A specification loses exactly the units that are not addressed; with its
    last unit it loses its slots. *)
Definition specification_selected (bound : Z) (s s' : OneShotSpecificationPlan) (matched : list string) : Prop :=
  selects (specification_units bound candidate s) (specification_units bound candidate s') matched /\
  (sp_observation_slots s' = [] -> specification_units bound candidate s' = []) /\
  (sp_observation_slots s' <> [] -> is_fresh s' = false -> laid_out bound s') /\
  sp_specification s' = sp_specification s.

Lemma select_fresh bound s :
  is_fresh s = true ->
  exists s' matched, select_specification ids bound candidate s = Ok (s', matched) /\
    specification_selected bound s s' matched.
Proof.
  intros Hf. unfold select_specification. rewrite Hf. eexists _, _. split; [reflexivity|].
  set (l := candidate :: _). set (u := {| un_candidate := candidate;
    un_specification := to_string (id (sp_specification s));
    un_attempts := map (fun s => to_string (id s)) (sp_attempt_slots s);
    un_observations := map (fun s => to_string (id s)) (sp_observation_slots s) |}).
  assert (specification_units bound candidate s = [u]) as Hu by (unfold specification_units; by rewrite Hf).
  pose proof (selects_one ids l u ltac:(intros i; unfold l, unit_names, u; cbn; set_solver)) as Hone.
  unfold specification_selected. rewrite Hu. destruct (bool_decide (matching ids l = [])); cbn [negb] in Hone.
  - split; [exact Hone|]. by split.
  - rewrite Hu. split; [exact Hone|]. split; [|split; [|done]]; [|intros _; by rewrite Hf].
    intros E. unfold is_fresh in Hf. by rewrite E in Hf.
Qed.

Lemma select_measured bound s :
  is_fresh s = false -> laid_out bound s ->
  exists s' matched, select_specification ids bound candidate s = Ok (s', matched) /\
    specification_selected bound s s' matched.
Proof.
  intros Hf [Hb Hnd Heven Hpair].
  assert (captured (group_captures (groups_of bound s)) (groups_of bound s)) as Hcap.
  { intros o rest. apply group_captured. by rewrite groups_concat. }
  unfold select_specification. rewrite Hf. unfold chunks.
  destruct (bound =? 0)%Z eqn:E; [bools; lia|]. cbn [mbind result_bind]. fold (groups_of bound s).
  rewrite (captures_of_Ok (Z.to_nat bound)) by (done || lia). cbn [mbind result_bind].
  destruct (paired_choices ids _ candidate (to_string (id (sp_specification s))) _ _ Hpair Hcap)
    as (choices & kept & -> & Hsub & Hkept & Hobs & Hsel).
  cbn [mbind result_bind]. eexists _, _. split; [reflexivity|]. rewrite Hobs.
  set (s' := {| sp_specification := _ |}).
  assert (sp_observation_slots s' = concat kept) as Hslots.
  { etrans; [|apply (filter_groups kept (groups_of bound s) Hsub); by rewrite groups_concat].
    by rewrite groups_concat. }
  assert (NoDup (map id (concat kept))) as Hnd'.
  { eapply sublist_NoDup; [exact Hnd|]. apply fmap_sublist. rewrite <-(groups_concat bound s) by done.
    by apply sublist_concat. }
  assert (is_fresh s' = false) as Hf'.
  { apply not_true_iff_false. intros (x & Hx & Hfresh)%existsb_exists. apply not_true_iff_false in Hf. apply Hf.
    apply existsb_exists. exists x. split; [|done]. by apply filter_In in Hx as [Hx _]. }
  assert (groups_of bound s' = kept) as Hgroups.
  { unfold groups_of. rewrite Hslots. apply chunked_concat; [lia|by eapply sublist_Forall|done]. }
  assert (paired (sp_attempt_slots s') kept) as Hpair' by done.
  unfold specification_selected. split; [|split; [|split; [|done]]].
  - unfold specification_units. rewrite Hf, Hf', Hgroups.
    rewrite (paired_units (group_captures kept) (group_captures (groups_of bound s)) _ _ _ kept); [exact Hsel|done|..].
    + intros o rest. by apply group_captured.
    + intros o rest Hin. apply Hcap. by eapply sublist_elem.
  - rewrite Hslots. intros Hnil. unfold specification_units. rewrite Hf', Hgroups.
    clear -Hpair' Hnil. induction Hpair' as [|slot i slots gs Hrole _ IH|]; [done| |done].
    cbn [omap list_omap]. rewrite (unit_of_warmup _ _ _ _ i) by done. by apply IH.
  - intros _ _. split; [done|by rewrite Hslots|by rewrite Hgroups; eapply sublist_Forall|by rewrite Hgroups].
Qed.
End Selecting.

(** ** The whole plan *)

Section Preselecting.
Context (ids : list string).
Notation selects := (selects ids).

Lemma mapM_selects {A B} (f : A -> result (failure RunError) (B * list string))
    (before : A -> list SlotUnit) (after : B -> list SlotUnit) (Q : A -> B -> Prop) l :
  Forall (fun x => exists y matched, f x = Ok (y, matched) /\ selects (before x) (after y) matched /\ Q x y) l ->
  exists ys, mapM f l = Ok ys /\
    selects (flat_map before l) (flat_map after (map fst ys)) (concat (map snd ys)) /\
    Forall2 Q l (map fst ys).
Proof.
  intros Hl. induction Hl as [|x l (y & matched & Hf & Hsel & HQ) _ (ys & Hm & Hsels & HQs)].
  - exists []. split; [done|]. split; [apply selects_nil|constructor].
  - exists ((y, matched) :: ys). cbn [mapM]. rewrite Hf. cbn [mbind result_bind]. rewrite Hm.
    split; [done|]. split; [|by constructor]. cbn [flat_map map concat fst snd]. by apply selects_app.
Qed.

(** Dropping what has no units loses no unit. *)
Lemma flat_map_filter {A} (f : A -> list SlotUnit) (p : A -> bool) l :
  Forall (fun x => p x = false -> f x = []) l -> flat_map f (List.filter p l) = flat_map f l.
Proof.
  intros Hl. induction Hl as [|x l Hx _ IH]; [done|]. cbn. destruct (p x) eqn:E; cbn; rewrite IH; [done|].
  by rewrite (Hx eq_refl).
Qed.
Lemma Forall2_r {A B} (Q : A -> B -> Prop) (P : B -> Prop) l k :
  Forall2 Q l k -> (forall x y, Q x y -> P y) -> Forall P k.
Proof. intros H HP. induction H; constructor; eauto. Qed.

Definition candidate_laid_out (bound : Z) (c : LogicalCandidatePlan) : Prop :=
  Forall (fun s => is_fresh s = false -> laid_out bound s) (cp_specifications c).

Lemma select_candidate_selects bound c :
  candidate_laid_out bound c ->
  exists c' matched, select_candidate ids bound c = Ok (c', matched) /\
    selects (candidate_units bound c) (candidate_units bound c') matched /\ candidate_laid_out bound c'.
Proof.
  intros Hc. set (name := to_string (id (cp_candidate c))).
  destruct (mapM_selects (select_specification ids bound name) (specification_units bound name)
    (specification_units bound name) (fun _ s' =>
      (sp_observation_slots s' = [] -> specification_units bound name s' = []) /\
      (sp_observation_slots s' <> [] -> is_fresh s' = false -> laid_out bound s'))
    (cp_specifications c)) as (ys & Hm & Hsel & HQ).
  { eapply Forall_impl; [exact Hc|]. intros s Hs.
    destruct (is_fresh s) eqn:Hf;
      [destruct (select_fresh ids name bound s Hf) as (s' & m & E & H1 & H2 & H3 & _)
      |destruct (select_measured ids name bound s Hf (Hs Hf)) as (s' & m & E & H1 & H2 & H3 & _)];
      by exists s', m. }
  unfold select_candidate. fold name. rewrite Hm. eexists _, _. split; [reflexivity|].
  unfold candidate_units. cbn [cp_candidate cp_specifications]. fold name. split.
  - rewrite flat_map_filter; [exact Hsel|]. eapply Forall2_r; [exact HQ|]. intros s s' [Hnil _] E.
    apply Hnil. by apply negb_false_iff, bool_decide_eq_true in E.
  - unfold candidate_laid_out. cbn [cp_specifications]. apply Forall_forall.
    intros s (Hin & E%negb_true_iff%bool_decide_eq_false)%list_elem_of_In%filter_In.
    pose proof (Forall2_r _ _ _ _ HQ (fun _ _ H => proj2 H)) as Hl. rewrite Forall_forall in Hl.
    by apply Hl; [apply list_elem_of_In|].
Qed.

Definition experiment_laid_out (e : LogicalExperimentPlan) : Prop :=
  Forall (candidate_laid_out (capture_bound e)) (lp_candidates e).

Lemma select_experiment_selects e :
  experiment_laid_out e ->
  exists e' matched, select_experiment ids e = Ok (e', matched) /\
    selects (experiment_units e) (experiment_units e') matched /\ experiment_laid_out e'.
Proof.
  intros He.
  destruct (mapM_selects (select_candidate ids (capture_bound e)) (candidate_units (capture_bound e))
    (candidate_units (capture_bound e)) (fun _ c' => candidate_laid_out (capture_bound e) c')
    (lp_candidates e)) as (ys & Hm & Hsel & HQ).
  { eapply Forall_impl; [exact He|]. intros c Hc.
    destruct (select_candidate_selects _ c Hc) as (c' & m & E & H1 & H2). by exists c', m. }
  unfold select_experiment. rewrite Hm. eexists _, _. split; [reflexivity|].
  unfold experiment_units, experiment_laid_out.
  change (capture_bound {| lp_name := _ |}) with (capture_bound e) at 1 2. cbn [lp_candidates]. split.
  - rewrite flat_map_filter; [exact Hsel|]. apply Forall_forall.
    intros c _ E%negb_false_iff%bool_decide_eq_true. unfold candidate_units. by rewrite E.
  - apply Forall_forall. intros c (Hin & _)%list_elem_of_In%filter_In.
    pose proof (Forall2_r _ _ _ _ HQ (fun _ _ H => H)) as Hl. rewrite Forall_forall in Hl.
    by apply Hl, list_elem_of_In.
Qed.
End Preselecting.

Lemma string_set_elem l i : i ∈ string_set l <-> i ∈ l.
Proof. unfold string_set, sorted_strings. rewrite merge_sort_Permutation. apply elem_of_remove_dups. Qed.

Lemma addressed_ext l k u : (forall i, i ∈ l <-> i ∈ k) -> addressed l u = addressed k u.
Proof. intros H. apply eq_true_iff_eq. rewrite !addressed_elem. naive_solver. Qed.

(** The checks on the options, and identities that can be looked up in a plan. *)
Definition bounded (options : RunOptions) : Prop :=
  forall bound, max_attempts options = Some bound -> (0 < bound <= MAX_SAFE_INTEGER)%Z.

Definition nameable (id : string) : Prop := selectable id = true /\ is_logical id = true.

Definition logical_ids (options : RunOptions) : list string :=
  string_set (List.filter is_logical (selected_ids options)).
Lemma logical_ids_elem options i :
  Forall nameable (selected_ids options) -> i ∈ logical_ids options <-> i ∈ selected_ids options.
Proof.
  intros Hids. rewrite Forall_forall in Hids. unfold logical_ids.
  rewrite string_set_elem, list_elem_of_In, filter_In, <-list_elem_of_In.
  split; [tauto|]. intros Hi. split; [done|]. by apply Hids.
Qed.

(** Past the checks, only the identities decide. *)
Lemma preselect_runs plan options :
  bounded options -> selected_ids options <> [] -> Forall nameable (selected_ids options) ->
  preselect plan options =
    (selected ← mapM (select_experiment (logical_ids options)) (plan_experiments plan);
     let matched := concat (map snd selected) in
     _ ← lift (for_each (fun id => ensure (bool_decide (id ∈ matched)) (unmatched id)) (logical_ids options));
     Ok {| plan_experiments := List.filter (fun e => negb (bool_decide (lp_candidates e = [])))
             (map fst selected) |}).
Proof.
  intros Hb Hne Hids. unfold preselect. fold (logical_ids options).
  replace (ensure _ _) with (@Ok RunError _ tt).
  2:{ destruct (max_attempts options) as [bound|] eqn:Em; [|done]. destruct (Hb bound Em).
      replace (negb _) with true; [done|]. symmetry. apply negb_true_iff, orb_false_iff. lia. }
  cbn [lift map_err mbind result_bind]. rewrite bool_decide_eq_false_2 by done.
  replace (for_each _ (selected_ids options)) with (@Ok RunError _ tt).
  2:{ symmetry. apply for_each_Ok. eapply Forall_impl; [exact Hids|]. by intros i [-> _]. }
  cbn [lift map_err mbind result_bind]. replace (existsb _ (selected_ids options)) with false; [done|].
  symmetry. apply not_true_iff_false. intros (i & Hi & E%negb_true_iff%bool_decide_eq_false)%existsb_exists.
  by apply E, logical_ids_elem, list_elem_of_In.
Qed.

Lemma for_each_fails {E A} (f : A -> result E unit) l e :
  for_each f l = Err e -> exists x, x ∈ l /\ f x = Err e.
Proof.
  unfold for_each. induction l as [|x l IH]; [done|]. cbn. destruct (f x) as [[]|e'] eqn:Ex; cbn.
  - intros (y & Hy & Ey)%IH. exists y. split; [set_solver|done].
  - intros [= ->]. exists x. split; [set_solver|done].
Qed.

Lemma preselect_laid_out plan options :
  Forall experiment_laid_out (plan_experiments plan) ->
  bounded options -> selected_ids options <> [] -> Forall nameable (selected_ids options) ->
  match preselect plan options with
  | Ok plan' =>
      plan_units plan' = List.filter (addressed (selected_ids options)) (plan_units plan) /\
      forall i, i ∈ selected_ids options -> exists u, u ∈ plan_units plan' /\ i ∈ unit_names u
  | Err (Returned e) => exists i, i ∈ selected_ids options /\ e = unmatched i /\
      forall u, u ∈ plan_units plan -> i ∉ unit_names u
  | Err Panicked => False
  end.
Proof.
  intros Hplan Hb Hne Hids. rewrite preselect_runs by done.
  pose proof (fun i => logical_ids_elem options i Hids) as Hl.
  destruct (mapM_selects (logical_ids options) (select_experiment (logical_ids options)) experiment_units
    experiment_units (fun _ _ => True) (plan_experiments plan)) as (ys & -> & [Hunits Hm] & _).
  { eapply Forall_impl; [exact Hplan|]. intros e He.
    destruct (select_experiment_selects (logical_ids options) e He) as (e' & m & Ee & H1 & _). by exists e', m. }
  cbn [mbind result_bind]. cbv zeta. destruct (for_each _ (logical_ids options)) as [[]|e] eqn:Ef.
  - assert (plan_units {| plan_experiments := List.filter (fun e => negb (bool_decide (lp_candidates e = [])))
              (map fst ys) |} = List.filter (addressed (selected_ids options)) (plan_units plan)) as Hplan'.
    { unfold plan_units at 1. cbn [plan_experiments]. rewrite flat_map_filter.
      - rewrite Hunits. apply List.filter_ext. intros u. by apply addressed_ext.
      - apply Forall_forall. intros x _ Hx%negb_false_iff%bool_decide_eq_true.
        unfold experiment_units. by rewrite Hx. }
    cbn [lift map_err mbind result_bind]. split; [exact Hplan'|]. rewrite Hplan'. intros i Hi.
    apply for_each_Ok in Ef. rewrite Forall_forall in Ef.
    destruct (proj1 (Hm i)) as [_ (u & Hu & Hn)].
    { apply (bool_decide_eq_true (i ∈ _)). eapply ensure_Ok, Ef. by apply Hl. }
    exists u. split; [|done]. rewrite list_elem_of_In, filter_In, <-list_elem_of_In, addressed_elem. eauto.
  - apply for_each_fails in Ef as (i & Hi & E). cbn. exists i. rewrite <-Hl. split; [done|].
    case_bool_decide as Hin; [done|]. injection E as <-. split; [done|]. intros u Hu Hn. apply Hin, Hm. eauto.
Qed.

(** ** The plans of the planner are laid out *)

Lemma normalized_field m w k x :
  normalize_value (Object m) = Ok w -> map_wf m -> map_get k m = Some x ->
  exists y, normalize_value x = Ok y /\ index w k = y.
Proof.
  intros (m' & Hm & ->)%normalize_object_Ok Hwf Hk.
  assert (m'.*1 = m.*1) as Hkeys.
  { clear -Hm. induction Hm as [|[j v] [j' v'] m m' [E _] _ IH]; [done|]. cbn in *. by rewrite IH, E. }
  unfold index. rewrite map_collect_id by (unfold map_wf; by rewrite Hkeys).
  clear Hwf Hkeys. induction Hm as [|[j v] [j' v'] m m' [Ej Ev] _ IH]; [done|]. cbn in *. subst j'.
  destruct (String.eqb k j); [|by apply IH]. injection Hk as <-. by exists v'.
Qed.

Lemma map_get_collect_last {V} (l r : list (string * V)) k v :
  k ∉ r.*1 -> map_get k (map_collect (l ++ (k, v) :: r)) = Some v.
Proof.
  induction r as [|[j w] r IH] using rev_ind; intros Hk.
  - rewrite map_collect_app. apply map_get_insert_eq.
  - rewrite fmap_app in Hk. rewrite app_comm_cons, app_assoc, map_collect_app, map_get_insert_ne.
    + apply IH. set_solver.
    + set_solver.
Qed.

Lemma policy_bound p w :
  profile_parsed p -> try_from (policy_value p) = Ok w ->
  index w "max-observations" = json_u64 (max_observations p).
Proof.
  intros [Hb _ _] Hw. unfold policy_value, object in Hw.
  destruct (normalized_field (map_collect (policy_fields p)) w "max-observations" (json_u64 (max_observations p)) Hw)
    as (y & Hy & ->); [apply map_collect_wf| |].
  - unfold policy_fields.
    rewrite (app_assoc (field_if "metric" _ _)), (app_assoc (_ ++ field_if "direction" _ _)),
      (app_assoc (_ ++ field_if "threshold" _ _)). cbn [app].
    apply map_get_collect_last. unfold field_if, nonzero.
    repeat case_match; cbn; set_solver.
  - apply Forall_cons in Hb as [Hb _]. cbn in Hb.
    rewrite normalize_value_canonical in Hy; [by injection Hy as <-| |done].
    unfold in_domain. cbn. apply andb_true_iff. rewrite !Z.leb_le. exact Hb.
Qed.

Lemma skipping_drop {A} n k (l : list A) : skipping n k l = skipping n 0 (drop k l).
Proof. revert l. induction k as [|k IH]; intros [|x l]; try done. cbn. apply IH. Qed.

Lemma skipping_heads {A} n fuel (l : list A) :
  (0 < n)%nat -> (length l <= fuel)%nat -> skipping n 0 l = omap head (chunked fuel n l).
Proof.
  intros Hn. revert l. induction fuel as [|fuel IH]; intros [|x l] Hf; [done|simpl in Hf; lia|done|].
  destruct n as [|n]; [lia|]. cbn [chunked skipping take drop omap list_omap head Nat.sub].
  rewrite Nat.sub_0_r, skipping_drop, IH; [done|]. rewrite length_drop. simpl in Hf. lia.
Qed.

(** Every specification has slots of different identities: no two of the
    documents of a specification have the same digest. *)
Definition distinct_slots (plan : LogicalPlan) : Prop :=
  Forall (fun e => Forall (fun c => Forall (fun s => NoDup (map id (sp_observation_slots s)))
    (cp_specifications c)) (lp_candidates e)) (plan_experiments plan).

Section Planned.
Context `{ThirdParty}.

Lemma warmups_paired seed specification l warmups measured groups :
  mapM (fun i => plan_attempt_slot seed specification (WarmupRole i)) l = Ok warmups ->
  paired measured groups -> paired (warmups ++ measured) groups.
Proof.
  intros Hw%mapM_Ok_Forall2 Hp. induction Hw as [|i slot l warmups Hslot _ IH]; [done|].
  apply (paired_warmup _ i); [|exact IH]. by rewrite (identify_record_Ok _ _ Hslot).
Qed.
Lemma measured_paired seed specification groups measured :
  Forall (fun g => g <> []) groups ->
  mapM (fun o => plan_attempt_slot seed specification (Measured (id o))) (omap head groups) = Ok measured ->
  paired measured groups.
Proof.
  intros Hg. revert measured. induction Hg as [|[|o rest] groups Hne _ IH]; intros measured Hm; [|done|].
  - injection Hm as <-. constructor.
  - cbn in Hm. apply bind_Ok in Hm as (slot & Hslot & (slots & Hm & [= <-])%bind_Ok).
    constructor; [by rewrite (identify_record_Ok _ _ Hslot)|by apply IH].
Qed.

(** Without controls nothing is fresh; with controls everything is. *)
Lemma planned_fresh specification controls bound n slots :
  mapM (plan_observation_slot specification controls bound) (z_range n) = Ok slots ->
  existsb (fun slot => bool_decide (is_Some (lo_fresh (record slot)))) slots = false ->
  controls = None \/ slots = [].
Proof.
  intros Hm Hf. destruct controls as [cs|]; [right|by left]. destruct slots as [|slot slots]; [done|].
  exfalso. destruct (mapM_lookup _ _ _ 0 slot Hm eq_refl) as (x & Hx & Hs).
  apply z_range_lookup in Hx as [-> _]. apply plan_observation_slot_coordinates in Hs as (_ & _ & c & _ & Hc).
  cbn [existsb] in Hf. apply orb_false_iff in Hf as [Hf%bool_decide_eq_false _]. apply Hf. by eexists.
Qed.

Lemma plan_specification_laid_out experiment candidate dataset problem repetition warmup_runs seed
    profile_bound s :
  plan_specification experiment candidate dataset problem repetition warmup_runs seed profile_bound = Ok s ->
  let bound := match profile_bound with Some (bound, _) => bound | None => 1%Z end in
  (0 < bound)%Z -> NoDup (map id (sp_observation_slots s)) -> is_fresh s = false -> laid_out bound s.
Proof.
  intros (warmups & stepped & measured & _ & Hs & Hw & _ & -> & Hm & Hatt)%plan_specification_inv bound Hb Hnd Hf.
  assert (planned_controls profile_bound = None -> planned_bound profile_bound = bound) as Hbound.
  { unfold planned_bound. by intros ->. }
  assert (exists m, length (sp_observation_slots s) = (m * Z.to_nat bound)%nat /\
    skipping (Z.to_nat (planned_stride profile_bound)) 0 (sp_observation_slots s) = omap head (groups_of bound s)) as (m & Hlen & Hst).
  { destruct (planned_fresh _ _ _ _ _ Hs Hf) as [Hc|Hnil].
    - unfold planned_stride. rewrite Hc, Hbound by done. rewrite Hbound in Hs by done.
      apply mapM_length in Hs. rewrite z_range_length in Hs.
      exists (Z.to_nat (measurement_repetitions experiment)). split; [|by apply skipping_heads; [lia|]].
      rewrite Hs. destruct (Z.le_gt_cases 0 (measurement_repetitions experiment)); [by rewrite Z2Nat.inj_mul by lia|].
      replace (Z.to_nat (measurement_repetitions experiment)) with 0%nat by lia. nia.
    - exists 0%nat. unfold groups_of. by rewrite Hnil. }
  assert (Forall (fun g => length g = Z.to_nat bound) (groups_of bound s)) as Heven
    by (apply (chunked_even _ _ _ m); [lia|done]).
  rewrite Hst in Hm. split; [done|done|done|]. rewrite Hatt. eapply warmups_paired; [exact Hw|].
  eapply measured_paired; [|exact Hm]. eapply Forall_impl; [exact Heven|]. intros [|]; [simpl; lia|done].
Qed.

(** Observations per attempt under a policy. *)
Definition policy_capture (policy : ObservationPolicyDefinition) : Z :=
  match observation_profile policy with Some p => max_observations (profile_policy p) | None => 1 end.
Definition policy_parsed (policy : ObservationPolicyDefinition) : Prop :=
  forall profile, observation_profile policy = Some profile -> profile_parsed (profile_policy profile).

Lemma policy_capture_pos policy : policy_parsed policy -> (0 < policy_capture policy)%Z.
Proof.
  unfold policy_capture. intros Hp. destruct (observation_profile policy) as [p|] eqn:E; [|lia].
  destruct (Hp p E) as [Hb _ Hv]. apply Forall_cons in Hb as [Hb _]. cbn in Hb.
  assert (max_observations (profile_policy p) <> 0)%Z; [|lia].
  intros Hz. unfold Policy.validate in Hv. by rewrite Hz in Hv.
Qed.

Lemma plan_candidate_laid_out manifest catalog experiment execution observation warmups seed expanded policy c :
  map_get (experiment_observation_policy experiment) (observation_policies manifest) = Some policy ->
  policy_parsed policy ->
  plan_candidate manifest catalog experiment execution observation warmups seed expanded = Ok c ->
  Forall (fun s => NoDup (map id (sp_observation_slots s))) (cp_specifications c) ->
  candidate_laid_out (policy_capture policy) c.
Proof.
  intros Hpolicy Hparsed Hc Hnd. unfold plan_candidate in Hc.
  do 9 apply bind_Ok in Hc as (? & _ & Hc). rewrite Hpolicy in Hc. cbn [expect ok_or mbind result_bind] in Hc.
  apply bind_Ok in Hc as (? & _ & Hc). apply bind_Ok in Hc as (? & _ & Hc).
  apply bind_Ok in Hc as (specifications & Hm & [= <-]). cbn [cp_specifications] in *.
  unfold candidate_laid_out. cbn [cp_specifications]. apply Forall_forall. intros s Hs Hf.
  rewrite Forall_forall in Hnd. pose proof (Hnd s Hs) as Hd.
  apply list_elem_of_lookup in Hs as [i Hi]. destruct (mapM_lookup _ _ _ _ _ Hm Hi) as (r & _ & Hr).
  apply bind_Ok in Hr as (pb & Hpb & Hr).
  assert (match pb with Some (bound, _) => bound | None => 1%Z end = policy_capture policy) as Hbound.
  { unfold profile_bound in Hpb. unfold policy_capture. destruct (observation_profile policy); [|by injection Hpb as <-].
    by apply bind_Ok in Hpb as (b & _ & [= <-]). }
  rewrite <-Hbound. eapply plan_specification_laid_out; [exact Hr| |done|done].
  rewrite Hbound. by apply policy_capture_pos.
Qed.

Lemma plan_experiment_laid_out manifest catalog experiment expanded e :
  manifest_parsed manifest -> plan_experiment manifest catalog experiment expanded = Ok e ->
  Forall (fun c => Forall (fun s => NoDup (map id (sp_observation_slots s))) (cp_specifications c)) (lp_candidates e) ->
  experiment_laid_out e.
Proof.
  intros Hparsed He Hnd. unfold plan_experiment in He.
  apply bind_Ok in He as (u & _ & He). apply bind_Ok in He as (d & _ & He). apply bind_Ok in He as (ep & _ & He).
  apply bind_Ok in He as (u' & _ & He). apply bind_Ok in He as (policy & Hpolicy%expect_Ok & He).
  apply bind_Ok in He as (r & Hr & He). apply bind_Ok in He as (o & Ho%lift_Ok%identify_record_Ok & He).
  apply bind_Ok in He as (seed & _ & He). apply bind_Ok in He as (cs & Hm & [= <-]).
  assert (policy_parsed policy) as Hpp.
  { intros profile. by eapply parsed_profile. }
  unfold experiment_laid_out. cbn [lp_candidates] in *.
  assert (capture_bound {| lp_name := expanded_name expanded; lp_scheduling_seed := seed;
    lp_execution_policy := ep; lp_observation_policy := o; lp_candidates := cs |} = policy_capture policy) as ->.
  { unfold capture_bound. cbn [lp_observation_policy]. rewrite Ho. unfold observation_policy_record in Hr.
    unfold policy_capture. apply bind_Ok in Hr as (profile & Hprofile & [= <-]). cbn [op_profile].
    destruct (observation_profile policy) as [p|] eqn:E; [|by injection Hprofile as <-].
    destruct (try_from (policy_value (profile_policy p))) as [w|] eqn:Ew; [|done]. injection Hprofile as <-.
    by rewrite (policy_bound _ _ (Hpp p E) Ew). }
  apply Forall_forall. intros c Hc. rewrite Forall_forall in Hnd. pose proof (Hnd c Hc) as Hd.
  apply list_elem_of_lookup in Hc as [i Hi]. destruct (mapM_lookup _ _ _ _ _ Hm Hi) as (y & _ & Hy).
  by eapply plan_candidate_laid_out.
Qed.

Lemma plan_laid_out pointer manifest contracts schemas catalog plan :
  manifest_parsed manifest ->
  expand_manifest_logical_plan pointer manifest contracts schemas catalog = Ok plan ->
  distinct_slots plan -> Forall experiment_laid_out (plan_experiments plan).
Proof.
  intros Hparsed (expanded & _ & Hp)%bind_Ok Hd. apply bind_Ok in Hp as (ps & Hm & [= <-]).
  unfold distinct_slots in Hd. cbn [plan_experiments] in *. apply Forall_forall. intros e He.
  rewrite Forall_forall in Hd. pose proof (Hd e He) as Hnd.
  apply list_elem_of_lookup in He as [i Hi]. destruct (mapM_lookup _ _ _ _ _ Hm Hi) as ([x y] & _ & Hx).
  by eapply plan_experiment_laid_out.
Qed.

(** C30: selecting by logical identities works on units of execution: a measured
    attempt with all the observations it captures, or a fresh sequence with all
    its points.  On a plan the planner made (its slots having different
    identities) [preselect] never panics; it either keeps exactly the units that
    a selected identity names, whole, so that a capture never loses part of its
    trajectory, and every selected identity names one of them; or it names an
    identity that no unit of the plan has. *)
Theorem preselect_selects_units pointer manifest contracts schemas catalog plan options :
  manifest_parsed manifest ->
  expand_manifest_logical_plan pointer manifest contracts schemas catalog = Ok plan ->
  distinct_slots plan ->
  bounded options -> selected_ids options <> [] -> Forall nameable (selected_ids options) ->
  match preselect plan options with
  | Ok plan' =>
      plan_units plan' = List.filter (addressed (selected_ids options)) (plan_units plan) /\
      forall i, i ∈ selected_ids options -> exists u, u ∈ plan_units plan' /\ i ∈ unit_names u
  | Err (Returned e) => exists i, i ∈ selected_ids options /\ e = unmatched i /\
      forall u, u ∈ plan_units plan -> i ∉ unit_names u
  | Err Panicked => False
  end.
Proof. intros Hparsed Hplan Hd. by eapply preselect_laid_out, plan_laid_out. Qed.
End Planned.

(** ** One capture of a streaming plan *)

#[local] Existing Instance model.

Definition streaming_manifest : Manifest :=
  let m := sample_manifest [sample_experiment "sequence" []] in {|
  manifest_version := 1; manifest_name := "bench"; default_experiment := None;
  worker_timeouts := default_timeouts; datasets := datasets m; problems := problems m;
  implementations := [("slow", {| id_worker := sample_worker; id_problem_contracts := ["fit"];
    id_parameter_schema := Some (schema_at "implementation.json"); id_parameter_defaults := None;
    id_parameter_grids := []; id_capabilities := [CapOneShot; CapStreamingProfile] |})];
  environments := environments m; experiments := experiments m;
  execution_policies := execution_policies m;
  observation_policies := [("sequence", {| observation_version := 1;
    observation_policy_kind := ObserveProfile; observation_profile := Some {|
      profile_policy := sample_policy;
      profile_implementations := [("slow", StreamingProfileBinding (Explicit [1; 2]%Z))] |} |})] |}.
Definition streaming_planned : result (failure LogicalPlanningError) LogicalPlan :=
  expand_manifest_logical_plan (fun _ _ => None) streaming_manifest [("fit", sample_contract)]
    sample_schemas sample_catalog.
Definition streaming_plan : LogicalPlan :=
  match streaming_planned with Ok plan => plan | Err _ => {| plan_experiments := [] |} end.
(** The second capture of the first attempt. *)
Definition second_capture : string :=
  nth 1 (match plan_units streaming_plan with u :: _ => un_observations u | [] => [] end) "".
Definition selecting (ids : list string) : RunOptions := {|
  locked := false; selected_ids := ids; experiment_names := []; max_attempts := Some 4%Z;
  resume := false; retry := false |}.

Lemma streaming_parsed : manifest_parsed streaming_manifest.
Proof.
  constructor; [|constructor]. intros profile E. injection E as <-.
  split; [repeat constructor; vm_compute; discriminate|constructor|vm_compute; reflexivity].
Qed.
Lemma streaming_distinct : distinct_slots streaming_plan.
Proof. apply (bool_decide_unpack _). vm_compute. exact I. Qed.
Lemma streaming_nameable : nameable second_capture.
Proof. split; vm_compute; reflexivity. Qed.
Lemma streaming_selected : is_ok (preselect streaming_plan (selecting [second_capture])) = true.
Proof. vm_compute. reflexivity. Qed.
Lemma captured_together :
  map (fun u => length (un_observations u)) (List.filter (addressed [second_capture]) (plan_units streaming_plan)) = [2%nat].
Proof. vm_compute. reflexivity. Qed.
Lemma selecting_bounded ids : bounded (selecting ids).
Proof. by intros b [= <-]. Qed.

Lemma streaming_plan_ok :
  expand_manifest_logical_plan (fun _ _ => None) streaming_manifest [("fit", sample_contract)]
    sample_schemas sample_catalog = Ok streaming_plan.
Proof. vm_compute. reflexivity. Qed.
Lemma streaming_units : length (plan_units streaming_plan) = 12%nat.
Proof. vm_compute. reflexivity. Qed.
#[local] Opaque streaming_planned streaming_plan second_capture.

Lemma preselect_selects_units_witness :
  length (plan_units streaming_plan) = 12%nat /\
  match preselect streaming_plan (selecting [second_capture]) with
  | Ok plan' => plan_units plan' = List.filter (addressed [second_capture]) (plan_units streaming_plan) /\
      map (fun u => length (un_observations u)) (plan_units plan') = [2%nat]
  | Err _ => False
  end.
Proof.
  split; [exact streaming_units|].
  pose proof (@preselect_selects_units model (fun _ _ => None) streaming_manifest [("fit", sample_contract)]
    sample_schemas sample_catalog streaming_plan (selecting [second_capture])
    streaming_parsed streaming_plan_ok streaming_distinct (selecting_bounded _) ltac:(discriminate)
    (Forall_cons_2 _ _ _ streaming_nameable (Forall_nil_2 _))) as Hsel.
  pose proof streaming_selected as Hok.
  destruct (preselect streaming_plan (selecting [second_capture])) as [plan'|e]; [|discriminate Hok].
  destruct Hsel as [Hunits _]. split; [exact Hunits|]. rewrite Hunits. exact captured_together.
Defined.
