(* ===== verification/Batches.v ===== *)
(** * Dispatch batches (src/runtime/run/selection.rs)

    [rebuild_batches] cuts the schedule of a run into the batches that execute
    together and records each slot's place in its batch. *)
From S2P Require Import Prelude Json Canonical Identity ThirdPartyModel Profile Records Manifest Scenario Scheduling Buffered Streaming Selection.

(** ** A resolved run (runtime/run/resolution.rs), without its sources, workers
    and directories *)

Record ResolvedMeasurement := {
  rm_fresh : option FreshControl;
  rm_observation_slots : list (IdentifiedRecord ResolvedObservationSlotType ResolvedObservationSlotRecord);
  rm_candidate : RecordId LogicalCandidateType;
  rm_specification : IdentifiedRecord ResolvedSpecificationType ResolvedOneShotSpecificationRecord;
  rm_selection_ids : list string;
  rm_scheduling : SchedulingSlot;
  rm_warmups : list (Z * RecordId ResolvedAttemptSlotType);
  rm_logical_slot : RecordId LogicalAttemptSlotType;
  rm_attempt_slot : IdentifiedRecord ResolvedAttemptSlotType ResolvedAttemptSlotRecord;
  rm_observation_slot : IdentifiedRecord ResolvedObservationSlotType ResolvedObservationSlotRecord;
  rm_seed : Z;
  rm_provenance : value;
}.
Record ResolvedCandidate := {
  rc_profile : option SelectedBufferedProfile;
  rc_streaming_profile : option SelectedStreamingProfile;
  rc_fresh_profile : option ProfilePolicy;
  rc_experiment : string;
  rc_logical_selection_ids : list string;
  rc_applicability : IdentifiedRecord ApplicabilityType ApplicabilityDecisionRecord;
  rc_measurements : list ResolvedMeasurement;
  (** [reuse_key.policy]. *)
  rc_policy : ExecutionPolicyRecord;
}.
(** Slots of the schedule: a candidate and one of its measurements. *)
Definition Slot : Type := nat * nat.
Record ResolvedBatch := { batch_start : nat; batch_end : nat; lane_count : nat }.
Record ResolvedRun := {
  rr_candidates : list ResolvedCandidate;
  rr_schedule : list Slot;
  rr_batches : list ResolvedBatch;
}.

Definition slot_at (candidates : list ResolvedCandidate) (slot : Slot) : option ResolvedMeasurement :=
  candidates !! slot.1 ≫= fun c => rc_measurements c !! slot.2.
Definition with_provenance (m : ResolvedMeasurement) (v : value) : ResolvedMeasurement := {|
  rm_fresh := rm_fresh m; rm_observation_slots := rm_observation_slots m; rm_candidate := rm_candidate m;
  rm_specification := rm_specification m; rm_selection_ids := rm_selection_ids m;
  rm_scheduling := rm_scheduling m; rm_warmups := rm_warmups m; rm_logical_slot := rm_logical_slot m;
  rm_attempt_slot := rm_attempt_slot m; rm_observation_slot := rm_observation_slot m;
  rm_seed := rm_seed m; rm_provenance := v |}.
Definition with_measurements (c : ResolvedCandidate) (l : list ResolvedMeasurement) : ResolvedCandidate := {|
  rc_profile := rc_profile c; rc_streaming_profile := rc_streaming_profile c;
  rc_fresh_profile := rc_fresh_profile c; rc_experiment := rc_experiment c;
  rc_logical_selection_ids := rc_logical_selection_ids c; rc_applicability := rc_applicability c;
  rc_measurements := l; rc_policy := rc_policy c |}.
Definition set_provenance (slot : Slot) (v : value) (candidates : list ResolvedCandidate)
  : list ResolvedCandidate :=
  alter (fun c => with_measurements c (alter (fun m => with_provenance m v) slot.2 (rc_measurements c)))
    slot.1 candidates.

(** [value[key] = item]: [Null] becomes an object; other values panic. *)
Definition index_set {E} (v : value) (key : string) (item : value) : result (failure E) value :=
  match v with
  | Object m => Ok (Object (map_insert key item m))
  | Null => Ok (Object [(key, item)])
  | _ => Err Panicked
  end.

(** ** The loops *)

(** The number of leading slots of the experiment. *)
Fixpoint experiment_length (candidates : list ResolvedCandidate) (experiment : string) (slots : list Slot)
  : result (failure RunError) nat :=
  match slots with
  | [] => Ok 0%nat
  | slot :: slots =>
      candidate ← expect (candidates !! slot.1);
      if String.eqb (rc_experiment candidate) experiment
      then S <$> experiment_length candidates experiment slots
      else Ok 0%nat
  end.

Definition repetition_key (m : ResolvedMeasurement) : RecordId ResolvedSpecificationType * Z :=
  (id (rm_specification m), cb_measurement_index (ss_comparison_block (rm_scheduling m))).

(** The slots of one batch: until the lanes are full or a second point of a
    fresh repetition comes. *)
Fixpoint batch_length (candidates : list ResolvedCandidate) (lanes : nat)
    (repetitions : list (RecordId ResolvedSpecificationType * Z)) (slots : list Slot)
  : result (failure RunError) nat :=
  match lanes, slots with
  | S lanes, slot :: slots =>
      m ← expect (slot_at candidates slot);
      match rm_fresh m with
      | Some _ =>
          if bool_decide (repetition_key m ∈ repetitions) then Ok 0%nat
          else S <$> batch_length candidates lanes (repetition_key m :: repetitions) slots
      | None => S <$> batch_length candidates lanes repetitions slots
      end
  | _, _ => Ok 0%nat
  end.

Definition concurrency (bound : Z) (index size lane : nat) : value := object [
  ("max_concurrency", json_u64 bound); ("dispatch", Str "fixed_batches");
  ("batch_index", json_u64 (Z.of_nat index)); ("batch_size", json_u64 (Z.of_nat size));
  ("lane_index", json_u64 (Z.of_nat lane))].
Fixpoint record_lanes (bound : Z) (index size lane : nat) (slots : list Slot)
    (candidates : list ResolvedCandidate) : result (failure RunError) (list ResolvedCandidate) :=
  match slots with
  | [] => Ok candidates
  | slot :: slots =>
      m ← expect (slot_at candidates slot);
      v ← index_set (rm_provenance m) "concurrency" (concurrency bound index size lane);
      provenance ← lift (map_err ProvenanceError (try_from v));
      record_lanes bound index size (S lane) slots (set_provenance slot provenance candidates)
  end.

(** The batches of one experiment, starting at [offset] of the schedule. *)
Fixpoint experiment_batches (fuel : nat) (bound : Z) (lanes offset index : nat) (slots : list Slot)
    (candidates : list ResolvedCandidate)
  : result (failure RunError) (list ResolvedCandidate * list ResolvedBatch) :=
  match slots, fuel with
  | [], _ => Ok (candidates, [])
  | _, O => Err (Returned OutOfFuel)
  | _, S fuel =>
      size ← batch_length candidates lanes [] slots;
      candidates ← record_lanes bound index size 0 (take size slots) candidates;
      '(candidates, batches) ← experiment_batches fuel bound lanes (offset + size) (S index)
        (drop size slots) candidates;
      Ok (candidates, {| batch_start := offset; batch_end := offset + size; lane_count := lanes |} :: batches)
  end.
Fixpoint all_batches (fuel : nat) (offset : nat) (slots : list Slot) (candidates : list ResolvedCandidate)
  : result (failure RunError) (list ResolvedCandidate * list ResolvedBatch) :=
  match slots, fuel with
  | [], _ => Ok (candidates, [])
  | _, O => Err (Returned OutOfFuel)
  | slot :: rest, S fuel =>
      candidate ← expect (candidates !! slot.1);
      more ← experiment_length candidates (rc_experiment candidate) rest;
      let size := S more in
      let bound := ep_max_concurrency (rc_policy candidate) in
      let lanes := Z.to_nat (Z.min bound (Z.of_nat size)) in
      '(candidates, batches) ← experiment_batches size bound lanes offset 0 (take size slots) candidates;
      '(candidates, others) ← all_batches fuel (offset + size) (drop size slots) candidates;
      Ok (candidates, batches ++ others)
  end.
(** The fuel is the length of the schedule: a batch is never empty. *)
Definition rebuild_batches (resolved : ResolvedRun) (schedule : list Slot)
  : result (failure RunError) ResolvedRun :=
  '(candidates, batches) ← all_batches (length schedule) 0 schedule (rr_candidates resolved);
  Ok {| rr_candidates := candidates; rr_schedule := schedule; rr_batches := batches |}.

(** ** Provenance is all that changes *)

Record same_candidate (c c' : ResolvedCandidate) : Prop := {
  sc_fields : c' = with_measurements c (rc_measurements c');
  sc_measurements : Forall2 (fun m m' => m' = with_provenance m (rm_provenance m'))
    (rc_measurements c) (rc_measurements c');
}.
Definition same_slots (l l' : list ResolvedCandidate) : Prop := Forall2 same_candidate l l'.

Lemma Forall2_refl_all {A} (R : A -> A -> Prop) l : (forall x, R x x) -> Forall2 R l l.
Proof. intros H. induction l; constructor; auto. Qed.
Lemma Forall2_through {A} (R : A -> A -> Prop) l k n :
  (forall x y z, R x y -> R y z -> R x z) -> Forall2 R l k -> Forall2 R k n -> Forall2 R l n.
Proof.
  intros HR Hlk. revert n. induction Hlk as [|x y l k Hxy _ IH]; intros n Hkn; inversion Hkn; subst;
    constructor; eauto.
Qed.
#[export] Instance same_slots_preorder : PreOrder same_slots.
Proof.
  assert (forall m, m = with_provenance m (rm_provenance m)) as Hm by (by intros []).
  split.
  - intros l. apply Forall2_refl_all. intros c. split; [by destruct c|]. by apply Forall2_refl_all.
  - intros a b c Hab Hbc. eapply Forall2_through; [|exact Hab|exact Hbc]. clear.
    intros x y z [Hf Hm] [Hf' Hm']. split.
    + rewrite Hf' at 1. by rewrite Hf.
    + eapply Forall2_through; [|exact Hm|exact Hm']. intros m n o Hn Ho. rewrite Ho at 1. by rewrite Hn.
Qed.

Lemma alter_Forall2 {A} (R : A -> A -> Prop) f i l :
  (forall x, R x x) -> (forall x, R x (f x)) -> Forall2 R l (alter f i l).
Proof.
  intros Hr Hf. revert i. induction l as [|x l IH]; intros i; [constructor|].
  destruct i as [|i]; cbn; constructor; auto. by apply Forall2_refl_all.
Qed.
Lemma set_provenance_same slot v candidates : same_slots candidates (set_provenance slot v candidates).
Proof.
  assert (forall m, m = with_provenance m (rm_provenance m)) as Hm by (by intros []).
  apply alter_Forall2; intros c; (split; [by destruct c|]); [by apply Forall2_refl_all|].
  apply alter_Forall2; [done|]. by intros [].
Qed.

Lemma same_candidate_at l l' i c :
  same_slots l l' -> l !! i = Some c -> exists c', l' !! i = Some c' /\ same_candidate c c'.
Proof. intros H Hc. by destruct (Forall2_lookup_l _ _ _ _ _ H Hc) as (c' & ? & ?); exists c'. Qed.
Lemma same_slot_at l l' slot m :
  same_slots l l' -> slot_at l slot = Some m ->
  exists m', slot_at l' slot = Some m' /\ m' = with_provenance m (rm_provenance m').
Proof.
  unfold slot_at. intros H. destruct (l !! slot.1) as [c|] eqn:Ec; [|done]. cbn. intros Em.
  destruct (same_candidate_at _ _ _ _ H Ec) as (c' & -> & _ & Hms). cbn.
  destruct (Forall2_lookup_l _ _ _ _ _ Hms Em) as (m' & ? & ?). by exists m'.
Qed.

Lemma slot_at_set candidates slot v m :
  slot_at candidates slot = Some m ->
  slot_at (set_provenance slot v candidates) slot = Some (with_provenance m v).
Proof.
  unfold slot_at, set_provenance. destruct (candidates !! slot.1) as [c|] eqn:Ec; [|done]. cbn. intros Em.
  rewrite list_lookup_alter_eq, Ec.
  cbn [fmap option_fmap option_map mbind option_bind with_measurements rc_measurements].
  by rewrite list_lookup_alter_eq, Em.
Qed.
Lemma slot_at_set_ne candidates slot slot' v :
  slot <> slot' -> slot_at (set_provenance slot v candidates) slot' = slot_at candidates slot'.
Proof.
  intros Hne. unfold slot_at, set_provenance. destruct (decide (slot.1 = slot'.1)) as [E|E].
  - rewrite <-E, list_lookup_alter_eq. destruct (candidates !! slot.1) as [c|]; [|done].
    cbn [fmap option_fmap option_map mbind option_bind with_measurements rc_measurements].
    rewrite list_lookup_alter_ne; [done|]. intros E'. by apply Hne, (injective_projections slot slot').
  - by rewrite list_lookup_alter_ne.
Qed.

(** ** Recording the lanes *)

Definition plain (v : value) : Prop := exists m, v = Object m /\ in_domain v = true /\ value_wf v.
Definition plain_slots (candidates : list ResolvedCandidate) (slots : list Slot) : Prop :=
  forall slot, slot ∈ slots -> exists m, slot_at candidates slot = Some m /\ plain (rm_provenance m).
Definition small (n : nat) : Prop := (Z.of_nat n <= MAX_SAFE_INTEGER)%Z.

Lemma concurrency_canonical bound index size lane :
  (0 <= bound <= MAX_SAFE_INTEGER)%Z -> small index -> small size -> small lane ->
  in_domain (concurrency bound index size lane) = true /\ value_wf (concurrency bound index size lane).
Proof.
  intros Hb Hi Hs Hl.
  assert (forall z, (0 <= z <= MAX_SAFE_INTEGER)%Z -> in_domain (json_u64 z) = true) as Hz.
  { intros z Hz. unfold in_domain. cbn. apply andb_true_iff. by rewrite !Z.leb_le. }
  unfold small in *. unfold concurrency, object, in_domain. rewrite value_numbers_object, value_wf_object.
  split; [|split; [apply map_collect_wf|]]; apply Forall_forall; intros kv Hkv%map_collect_elem;
    repeat (apply elem_of_cons in Hkv as [->|Hkv]; [first [done | apply Hz; lia]|]); by apply not_elem_of_nil in Hkv.
Qed.

Lemma plain_insert m key item :
  plain (Object m) -> in_domain item = true -> value_wf item -> plain (Object (map_insert key item m)).
Proof.
  intros (m' & [= <-] & Hd & Hw) Hi Hiw. exists (map_insert key item m). split; [done|].
  unfold in_domain in *. rewrite value_numbers_object in *. rewrite value_wf_object in *.
  destruct Hw as [Hs Hw]. rewrite !Forall_forall in *. split; [|split; [by apply map_insert_wf|]];
    intros [k v] [[= -> ->]|Hin]%map_insert_elem; eauto.
Qed.

(** The lanes of [slots] from [lane] on are recorded. *)
Definition lanes_recorded (bound : Z) (index size lane : nat) (slots : list Slot)
    (candidates : list ResolvedCandidate) : Prop :=
  forall i slot, slots !! i = Some slot -> exists m, slot_at candidates slot = Some m /\
    Json.index (rm_provenance m) "concurrency" = concurrency bound index size (lane + i).

Lemma record_lanes_ok bound index size lane slots candidates all :
  (0 <= bound <= MAX_SAFE_INTEGER)%Z -> small index -> small size -> small (lane + length slots) ->
  NoDup slots -> (forall slot, slot ∈ slots -> slot ∈ all) -> plain_slots candidates all ->
  exists candidates', record_lanes bound index size lane slots candidates = Ok candidates' /\
    same_slots candidates candidates' /\ plain_slots candidates' all /\
    lanes_recorded bound index size lane slots candidates' /\
    (forall slot, slot ∉ slots -> slot_at candidates' slot = slot_at candidates slot).
Proof.
  intros Hb Hi Hs. revert lane candidates. induction slots as [|slot slots IH]; intros lane candidates Hl Hnd Hall Hp.
  - exists candidates. split; [done|]. split; [done|]. split; [done|]. split; [|done]. by intros ???.
  - apply NoDup_cons in Hnd as [Hslot Hnd]. destruct (Hp slot ltac:(apply Hall; set_solver)) as (m & Hm & Hplain).
    pose proof Hplain as (o & Eo & _). cbn [record_lanes]. rewrite Hm. cbn [expect ok_or mbind result_bind].
    rewrite Eo. cbn [index_set mbind result_bind]. rewrite Eo in Hplain. cbn [length] in Hl. unfold small in Hl.
    destruct (concurrency_canonical bound index size lane Hb Hi Hs ltac:(unfold small; lia)) as [Hcd Hcw].
    pose proof (plain_insert o "concurrency" _ Hplain Hcd Hcw) as Hnew.
    set (v := Object (map_insert _ _ o)) in *.
    replace (try_from v) with (@Ok CanonicalValueViolation _ v)
      by (destruct Hnew as (? & _ & Hd & Hw); symmetry; by apply normalize_value_canonical).
    cbn [lift map_err mbind result_bind].
    destruct (IH (S lane) (set_provenance slot v candidates)) as (c' & E & Hsame & Hp' & Hrec & Hother).
    + unfold small. lia.
    + done.
    + intros x Hx. apply Hall. set_solver.
    + intros x Hx. destruct (decide (slot = x)) as [<-|Hne].
      * exists (with_provenance m v). split; [by apply slot_at_set|done].
      * rewrite slot_at_set_ne by done. by apply Hp.
    + exists c'. split; [exact E|]. split; [etrans; [apply set_provenance_same|exact Hsame]|]. split; [done|].
      split.
      * intros [|i] x Hx; cbn in Hx.
        -- injection Hx as <-. rewrite Hother, (slot_at_set _ _ _ m) by done. eexists. split; [done|].
           unfold v. cbn. rewrite map_get_insert_eq, Nat.add_0_r. done.
        -- destruct (Hrec i x Hx) as (m' & ? & ?). exists m'. by rewrite Nat.add_succ_r.
      * intros x Hx. rewrite Hother by set_solver. apply slot_at_set_ne. set_solver.
Qed.

(** ** What the batches are *)

Definition known (candidates : list ResolvedCandidate) (slots : list Slot) : Prop :=
  Forall (fun slot => is_Some (slot_at candidates slot)) slots.
Definition fresh_key (candidates : list ResolvedCandidate) (slot : Slot)
  : option (RecordId ResolvedSpecificationType * Z) :=
  m ← slot_at candidates slot; _ ← rm_fresh m; Some (repetition_key m).
(** The fresh repetitions that have a point among the slots. *)
Definition fresh_keys (candidates : list ResolvedCandidate) (slots : list Slot) :=
  omap (fresh_key candidates) slots.
Definition experiment_of (candidates : list ResolvedCandidate) (slot : Slot) : option string :=
  rc_experiment <$> candidates !! slot.1.
Definition bound_of (candidates : list ResolvedCandidate) (slot : Slot) : option Z :=
  (fun c => ep_max_concurrency (rc_policy c)) <$> candidates !! slot.1.

Lemma same_fresh_key l l' slot : same_slots l l' -> fresh_key l' slot = fresh_key l slot.
Proof.
  unfold fresh_key. intros H. destruct (slot_at l slot) as [m|] eqn:Hm.
  - by destruct (same_slot_at _ _ _ _ H Hm) as (m' & -> & ->).
  - replace (slot_at l' slot) with (@None ResolvedMeasurement); [done|]. symmetry. revert Hm. unfold slot_at.
    destruct (l !! slot.1) as [c|] eqn:Ec.
    + destruct (same_candidate_at _ _ _ _ H Ec) as (c' & -> & _ & Hms). cbn.
      rewrite !lookup_ge_None. by rewrite (Forall2_length _ _ _ Hms).
    + apply lookup_ge_None in Ec. rewrite (Forall2_length _ _ _ H) in Ec. by rewrite (lookup_ge_None_2 _ _ Ec).
Qed.
Lemma same_known l l' slots : same_slots l l' -> known l slots -> known l' slots.
Proof.
  intros H Hk. eapply Forall_impl; [exact Hk|]. intros slot [m Hm]. destruct (same_slot_at _ _ _ _ H Hm) as (m' & -> & _). by eexists.
Qed.
Lemma same_fresh_keys l l' slots : same_slots l l' -> fresh_keys l' slots = fresh_keys l slots.
Proof.
  intros H. unfold fresh_keys. induction slots as [|slot slots IH]; [done|]. cbn.
  by rewrite (same_fresh_key l l'), IH.
Qed.
Lemma same_candidate_data l l' slot : same_slots l l' ->
  experiment_of l' slot = experiment_of l slot /\ bound_of l' slot = bound_of l slot.
Proof.
  unfold experiment_of, bound_of. intros H. destruct (l !! slot.1) as [c|] eqn:Ec.
  - destruct (same_candidate_at _ _ _ _ H Ec) as (c' & -> & -> & _). done.
  - apply lookup_ge_None in Ec. rewrite (Forall2_length _ _ _ H) in Ec. by rewrite (lookup_ge_None_2 _ _ Ec).
Qed.
Lemma known_candidate candidates slot : is_Some (slot_at candidates slot) -> is_Some (candidates !! slot.1).
Proof. unfold slot_at. intros [m Hm]. destruct (candidates !! slot.1); [by eexists|done]. Qed.

Lemma batch_length_ok candidates lanes repetitions slots :
  known candidates slots ->
  exists n, batch_length candidates lanes repetitions slots = Ok n /\ (n <= lanes)%nat /\ (n <= length slots)%nat /\
    NoDup (fresh_keys candidates (take n slots)) /\
    (forall k, k ∈ fresh_keys candidates (take n slots) -> k ∉ repetitions) /\
    (n = lanes \/ n = length slots \/ exists next k, slots !! n = Some next /\
       fresh_key candidates next = Some k /\ k ∈ repetitions ++ fresh_keys candidates (take n slots)).
Proof.
  revert repetitions slots. induction lanes as [|lanes IH]; intros repetitions slots Hk.
  { exists 0%nat. split; [by destruct slots|]. split; [lia|]. split; [lia|].
    split; [constructor|]. split; [by intros k ?%not_elem_of_nil|by left]. }
  destruct slots as [|slot slots].
  { exists 0%nat. split; [done|]. split; [lia|]. split; [done|]. split; [constructor|].
    split; [by intros k ?%not_elem_of_nil|by right; left]. }
  apply Forall_cons in Hk as [[m Hm] Hk]. cbn [batch_length]. rewrite Hm. cbn [expect ok_or mbind result_bind].
  assert (fresh_key candidates slot = _ ← rm_fresh m; Some (repetition_key m)) as Hkey
    by (unfold fresh_key; by rewrite Hm).
  destruct (rm_fresh m) as [f|] eqn:Hf; cbn [mbind option_bind] in Hkey.
  - case_bool_decide as Hin.
    + exists 0%nat. split; [done|]. split; [lia|]. split; [simpl; lia|]. split; [constructor|].
      split; [by intros k ?%not_elem_of_nil|]. right; right. exists slot, (repetition_key m).
      split; [done|]. split; [done|]. by apply elem_of_app; left.
    + destruct (IH (repetition_key m :: repetitions) slots Hk) as (n & -> & Hn & Hl & Hnd & Hdis & Hend).
      exists (S n). split; [done|]. split; [lia|]. split; [simpl; lia|]. unfold fresh_keys in *. cbn. rewrite Hkey.
      split; [|split].
      * constructor; [|done]. intros Hx. apply Hdis in Hx. set_solver.
      * intros k [->|Hx]%elem_of_cons; [done|]. apply Hdis in Hx. set_solver.
      * destruct Hend as [->|[->|(next & k & ? & ? & ?)]]; [by left|by right; left|].
        right; right. exists next, k. set_solver.
  - destruct (IH repetitions slots Hk) as (n & -> & Hn & Hl & Hnd & Hdis & Hend).
    exists (S n). split; [done|]. split; [lia|]. split; [simpl; lia|]. unfold fresh_keys in *. cbn. rewrite Hkey.
    split; [done|]. split; [done|].
    destruct Hend as [->|[->|(next & k & ? & ? & ?)]]; [by left|by right; left|].
    right; right. by exists next, k.
Qed.

(** The first batch is not empty. *)
Lemma batch_length_pos candidates lanes slot slots n :
  (0 < lanes)%nat -> batch_length candidates lanes [] (slot :: slots) = Ok n -> (0 < n)%nat.
Proof.
  destruct lanes as [|lanes]; [lia|]. intros _. cbn [batch_length]. intros (m & _ & E)%bind_Ok.
  destruct (rm_fresh m); [rewrite bool_decide_eq_false_2 in E by apply not_elem_of_nil|];
    destruct (batch_length _ _ _ _); by simplify_eq/=; lia.
Qed.

Lemma experiment_length_ok candidates experiment slots :
  known candidates slots ->
  exists n, experiment_length candidates experiment slots = Ok n /\ (n <= length slots)%nat /\
    Forall (fun slot => experiment_of candidates slot = Some experiment) (take n slots) /\
    (forall next, slots !! n = Some next -> experiment_of candidates next <> Some experiment).
Proof.
  intros Hk. induction Hk as [|slot slots Hs Hk (n & IH & Hl & Hall & Hnext)].
  { exists 0%nat. split; [done|]. split; [done|]. split; [constructor|done]. }
  apply known_candidate in Hs as [c Hc]. cbn [experiment_length]. rewrite Hc. cbn [expect ok_or mbind result_bind].
  unfold experiment_of in *. destruct (String.eqb_spec (rc_experiment c) experiment) as [<-|Hne].
  - rewrite IH. exists (S n). split; [done|]. split; [simpl; lia|]. split; [|done].
    cbn. constructor; [by rewrite Hc|done].
  - exists 0%nat. split; [done|]. split; [simpl; lia|]. split; [constructor|].
    intros next [= <-]. rewrite Hc. cbn. by intros [= ?].
Qed.

(** The schedule in consecutive batches; [P] relates the lanes and the slots of
    a batch to what follows it. *)
Inductive tiled (P : nat -> list Slot -> list Slot -> Prop) : nat -> list Slot -> list ResolvedBatch -> Prop :=
  | tiled_nil offset : tiled P offset [] []
  | tiled_cons offset lanes batch rest batches :
      batch <> [] -> P lanes batch rest -> tiled P (offset + length batch) rest batches ->
      tiled P offset (batch ++ rest)
        ({| batch_start := offset; batch_end := offset + length batch; lane_count := lanes |} :: batches).

Lemma tiled_app (P Q : nat -> list Slot -> list Slot -> Prop) offset slots batches others rest :
  tiled P offset slots batches ->
  (forall lanes batch next, batch <> [] -> (forall s, s ∈ batch -> s ∈ slots) ->
     P lanes batch next -> Q lanes batch (next ++ rest)) ->
  tiled Q (offset + length slots) rest others -> tiled Q offset (slots ++ rest) (batches ++ others).
Proof.
  intros Ht HPQ. induction Ht as [offset|offset lanes batch next batches Hne HP _ IH]; intros Hr.
  - cbn in Hr. by rewrite Nat.add_0_r in Hr.
  - rewrite <-app_assoc. cbn. constructor; [done|apply HPQ; [done|set_solver|done]|]. apply IH.
    + intros l b n Hb Hin. apply HPQ; [done|set_solver].
    + by rewrite length_app, Nat.add_assoc in Hr.
Qed.
Lemma tiled_impl (P Q : nat -> list Slot -> list Slot -> Prop) offset slots batches :
  (forall lanes batch next, (forall s, s ∈ batch -> s ∈ slots) -> P lanes batch next -> Q lanes batch next) ->
  tiled P offset slots batches -> tiled Q offset slots batches.
Proof.
  intros HPQ Ht. induction Ht as [|offset lanes batch next batches Hne HP _ IH]; [constructor|].
  constructor; [done|apply HPQ; [set_solver|done]|]. apply IH. intros l b n Hb. apply HPQ. set_solver.
Qed.

(** What [rebuild_batches] promises of a batch: one experiment, within its
    concurrency bound, at most one point of a fresh repetition, as long as it
    can be; and the recorded provenance of its slots. *)
Record batch_formed (before after : list ResolvedCandidate) (lanes : nat) (batch rest : list Slot)
  : Prop := {
  bf_one_experiment : exists experiment bound index,
    Forall (fun slot => experiment_of before slot = Some experiment /\ bound_of before slot = Some bound) batch /\
    (Z.of_nat lanes <= bound)%Z /\
    lanes_recorded bound index (length batch) 0 batch after /\
    (length batch = lanes \/ match rest with
     | [] => True
     | next :: _ => experiment_of before next <> Some experiment \/
         exists key, fresh_key before next = Some key /\ key ∈ fresh_keys before batch
     end);
  bf_lanes : (length batch <= lanes)%nat;
  bf_repetitions : NoDup (fresh_keys before batch);
}.

Lemma batch_formed_before a b after lanes batch rest :
  same_slots a b -> batch_formed b after lanes batch rest -> batch_formed a after lanes batch rest.
Proof.
  intros H [(e & bound & index & Hall & Hb & Hrec & Hend) Hl Hnd].
  rewrite (same_fresh_keys a b) in * by done. split; [|done|done]. exists e, bound, index.
  split; [|split; [done|split; [done|]]].
  - eapply Forall_impl; [exact Hall|]. intros slot. destruct (same_candidate_data a b slot H) as [-> ->]. done.
  - destruct Hend as [|Hend]; [by left|right]. destruct rest as [|next rest]; [done|].
    destruct (same_candidate_data a b next H) as [<- _]. by rewrite <-(same_fresh_key a b).
Qed.
Lemma batch_formed_after before a b lanes batch rest :
  (forall slot, slot ∈ batch -> slot_at b slot = slot_at a slot) ->
  batch_formed before a lanes batch rest -> batch_formed before b lanes batch rest.
Proof.
  intros H [(e & bound & index & Hall & Hb & Hrec & Hend) Hl Hnd]. split; [|done|done]. exists e, bound, index.
  split; [done|]. split; [done|]. split; [|done]. intros i slot Hi. rewrite H by by eapply list_elem_of_lookup_2.
  by apply Hrec.
Qed.

Section Experiment.
Context (all : list Slot) (experiment : string) (bound : Z) (lanes : nat).
Context (Hbound : (0 <= bound <= MAX_SAFE_INTEGER)%Z) (Hlanes : (0 < lanes)%nat) (Hle : (Z.of_nat lanes <= bound)%Z).
Context (Hsmall : small (length all)).

Definition within (candidates : list ResolvedCandidate) (slots : list Slot) : Prop :=
  NoDup slots /\ (forall slot, slot ∈ slots -> slot ∈ all) /\ known candidates slots /\
  Forall (fun slot => experiment_of candidates slot = Some experiment /\ bound_of candidates slot = Some bound) slots.

Lemma within_drop candidates n slots : within candidates slots -> within candidates (drop n slots).
Proof.
  intros (Hnd & Hin & Hk & Hall). split; [eapply sublist_NoDup; [exact Hnd|apply sublist_drop]|].
  split; [intros s Hs; apply Hin; by eapply sublist_elem; [apply sublist_drop|]|].
  split; by apply Forall_drop.
Qed.
Lemma within_same a b slots : same_slots a b -> within a slots -> within b slots.
Proof.
  intros H (Hnd & Hin & Hk & Hall). split; [done|]. split; [done|]. split; [by eapply same_known|].
  eapply Forall_impl; [exact Hall|]. intros s. by destruct (same_candidate_data a b s H) as [-> ->].
Qed.

Lemma experiment_batches_ok fuel offset index slots candidates :
  (length slots <= fuel)%nat -> small (index + length slots) -> within candidates slots ->
  (length slots <= length all)%nat -> plain_slots candidates all ->
  exists candidates' batches, experiment_batches fuel bound lanes offset index slots candidates
      = Ok (candidates', batches) /\
    same_slots candidates candidates' /\ plain_slots candidates' all /\
    tiled (batch_formed candidates candidates') offset slots batches /\
    (forall slot, slot ∉ slots -> slot_at candidates' slot = slot_at candidates slot).
Proof.
  revert offset index slots candidates. induction fuel as [|fuel IH]; intros offset index slots candidates Hf Hi Hw Hn Hp;
    (destruct slots as [|slot slots]; [exists candidates, []; repeat split; try done; constructor|]); [simpl in Hf; lia|].
  remember (slot :: slots) as run eqn:Erun. pose proof Hw as (Hnd & Hin & Hk & Hall).
  destruct (batch_length_ok candidates lanes [] run Hk) as (size & Hsize & Hsl & Hsr & Hndk & _ & Hend).
  assert (0 < size)%nat as Hpos by (subst run; by eapply batch_length_pos).
  assert (length (take size run) = size) as Hts by (rewrite length_take; lia).
  assert (take size run ++ drop size run = run) as Hcut by apply take_drop.
  assert (NoDup (take size run ++ drop size run)) as Hnd2 by by rewrite Hcut.
  apply NoDup_app in Hnd2 as (Hndt & Hdis & _).
  unfold small in *.
  destruct (record_lanes_ok bound index size 0 (take size run) candidates all) as (c1 & Hc1 & Hs1 & Hp1 & Hr1 & Ho1);
    [done|unfold small; lia|unfold small; lia|unfold small; rewrite Hts; lia|done| |done|].
  { intros s Hs. apply Hin. by eapply sublist_elem; [apply sublist_take|]. }
  destruct (IH (offset + size)%nat (S index) (drop size run) c1) as (c2 & bs & Hc2 & Hs2 & Hp2 & Ht2 & Ho2).
  { rewrite length_drop. lia. }
  { rewrite length_drop. lia. }
  { by eapply within_same, within_drop. }
  { rewrite length_drop. lia. }
  { done. }
  exists c2, ({| batch_start := offset; batch_end := offset + size; lane_count := lanes |} :: bs).
  split; [|split; [by etrans|split; [done|split]]].
  - rewrite Erun. cbn [experiment_batches]. rewrite <-Erun, Hsize. cbn [mbind result_bind].
    rewrite Hc1. cbn [mbind result_bind]. by rewrite Hc2.
  - rewrite <-Hcut at 1. rewrite <-Hts at 3. constructor.
    + intros E. rewrite E in Hts. simpl in Hts. lia.
    + apply (batch_formed_after _ c1).
      { intros s Hs. apply Ho2. by apply Hdis. }
      split; [|by rewrite Hts|done]. exists experiment, bound, index. split; [by apply Forall_take|]. split; [done|].
      split; [by rewrite Hts|]. rewrite Hts. destruct Hend as [->|[->|(next & key & Hnext & Hfk & Hkey)]]; [by left| |].
      * right. by rewrite drop_all.
      * right. rewrite (drop_S _ next) by done. right. by exists key.
    + rewrite Hts. eapply tiled_impl; [|exact Ht2]. intros l b n _. by apply batch_formed_before.
  - intros s Hs. rewrite Ho2, Ho1; [done|..]; intros Hin'; apply Hs; rewrite <-Hcut; set_solver.
Qed.
End Experiment.

Lemma batch_formed_extend before a b lanes batch next rest experiment :
  batch <> [] -> Forall (fun slot => experiment_of before slot = Some experiment) batch ->
  (forall slot, slot ∈ batch -> slot_at b slot = slot_at a slot) ->
  (forall slot, head rest = Some slot -> experiment_of before slot <> Some experiment) ->
  batch_formed before a lanes batch next -> batch_formed before b lanes batch (next ++ rest).
Proof.
  intros Hne Hexp Hab Hrest Hf. destruct (batch_formed_after before a b _ _ _ Hab Hf)
    as [(e & bound & index & Hall & Hb & Hrec & Hend) Hl Hnd].
  split; [|done|done]. exists e, bound, index. split; [done|]. split; [done|]. split; [done|].
  destruct Hend as [|Hend]; [by left|right]. destruct next as [|x next]; [|exact Hend].
  cbn. destruct rest as [|y rest]; [done|left]. destruct batch as [|s batch]; [done|].
  apply Forall_inv in Hall as [Hs _]. apply Forall_inv in Hexp. rewrite Hexp in Hs. injection Hs as <-.
  by apply Hrest.
Qed.

(** What the rest of the run guarantees of the slots: known candidates with
    document provenance, and one concurrency bound per experiment. *)
Record dispatchable (candidates : list ResolvedCandidate) (slots : list Slot) : Prop := {
  di_distinct : NoDup slots;
  di_known : known candidates slots;
  di_plain : plain_slots candidates slots;
  di_bound : forall slot, slot ∈ slots -> exists bound,
    bound_of candidates slot = Some bound /\ (0 < bound <= MAX_SAFE_INTEGER)%Z;
  di_uniform : forall slot other, slot ∈ slots -> other ∈ slots ->
    experiment_of candidates slot = experiment_of candidates other ->
    bound_of candidates slot = bound_of candidates other;
  di_small : small (length slots);
}.

Lemma dispatchable_same a b slots :
  same_slots a b -> plain_slots b slots -> dispatchable a slots -> dispatchable b slots.
Proof.
  intros H Hp [Hnd Hk _ Hb Hu Hs]. split; [done|by eapply same_known|done| | |done].
  - intros s Hin. destruct (same_candidate_data a b s H) as [_ ->]. by apply Hb.
  - intros s o Hin Ho. destruct (same_candidate_data a b s H) as [-> ->], (same_candidate_data a b o H) as [-> ->].
    by apply Hu.
Qed.

Definition run_of (size : nat) (slot : Slot) (slots : list Slot) : list Slot := take size (slot :: slots).

(** The slots of the first experiment of what is left of the schedule. *)
Lemma leading_experiment candidates all passed slot slots :
  dispatchable candidates all -> all = passed ++ slot :: slots ->
  exists c more, candidates !! slot.1 = Some c /\
    experiment_length candidates (rc_experiment c) slots = Ok more /\ (more <= length slots)%nat /\
    (0 < ep_max_concurrency (rc_policy c) <= MAX_SAFE_INTEGER)%Z /\
    within all (rc_experiment c) (ep_max_concurrency (rc_policy c)) candidates (run_of (S more) slot slots) /\
    (forall next, head (drop more slots) = Some next ->
       experiment_of candidates next <> Some (rc_experiment c)).
Proof.
  intros [Hnd Hk _ Hb Hu _] Hall. unfold known in Hk.
  assert (forall s, s ∈ slot :: slots -> s ∈ all) as Hin by (rewrite Hall; set_solver).
  rewrite Hall in Hnd, Hk. apply NoDup_app in Hnd as (_ & _ & Hnd). apply Forall_app in Hk as [_ Hk].
  pose proof Hk as [Hs Hks]%Forall_cons. destruct (known_candidate _ _ Hs) as [c Hc].
  assert (experiment_of candidates slot = Some (rc_experiment c)) as He by (unfold experiment_of; by rewrite Hc).
  destruct (experiment_length_ok candidates (rc_experiment c) slots Hks) as (more & Hmore & Hlen & Hexp & Hnext).
  destruct (Hb slot (Hin slot ltac:(set_solver))) as (b & Hbs & Hb0).
  assert (b = ep_max_concurrency (rc_policy c)) as -> by (unfold bound_of in Hbs; rewrite Hc in Hbs; by injection Hbs).
  exists c, more. split; [done|]. split; [done|]. split; [done|]. split; [done|].
  assert (forall s, s ∈ run_of (S more) slot slots -> s ∈ slot :: slots) as Hsub
    by (intros s; apply sublist_elem, sublist_take).
  split; [split; [|split; [|split]]|].
  - eapply sublist_NoDup; [exact Hnd|apply sublist_take].
  - intros s Hs'. by apply Hin, Hsub.
  - by apply Forall_take.
  - apply Forall_forall. intros s Hs'.
    assert (experiment_of candidates s = Some (rc_experiment c)) as Hse.
    { unfold run_of in Hs'. cbn in Hs'. apply elem_of_cons in Hs' as [->|Hs']; [done|].
      rewrite Forall_forall in Hexp. by apply Hexp. }
    split; [done|]. rewrite <-Hbs. apply Hu; [by apply Hin, Hsub|by apply Hin; set_solver|]. by rewrite Hse, He.
  - intros next Hh. apply Hnext. rewrite <-(Nat.add_0_r more), <-lookup_drop.
    by destruct (drop more slots); simplify_eq/=.
Qed.

Lemma all_batches_ok all fuel offset slots candidates :
  dispatchable candidates all -> (exists passed, all = passed ++ slots) -> (length slots <= fuel)%nat ->
  exists candidates' batches, all_batches fuel offset slots candidates = Ok (candidates', batches) /\
    same_slots candidates candidates' /\
    tiled (batch_formed candidates candidates') offset slots batches /\
    (forall slot, slot ∉ slots -> slot_at candidates' slot = slot_at candidates slot).
Proof.
  revert offset slots candidates. induction fuel as [|fuel IH]; intros offset slots candidates Hd [passed Hall] Hf;
    (destruct slots as [|slot slots];
     [exists candidates, []; split; [done|split; [done|split; [constructor|done]]]|]); [simpl in Hf; lia|].
  destruct (leading_experiment _ _ _ _ _ Hd Hall) as (c & more & Hc & Hmore & Hlen & Hb & Hw & Hnext).
  set (size := S more). set (bound := ep_max_concurrency (rc_policy c)) in *.
  set (lanes := Z.to_nat (Z.min bound (Z.of_nat size))).
  set (run := run_of size slot slots). set (rest := drop size (slot :: slots)).
  assert (run ++ rest = slot :: slots) as Hcut by apply take_drop.
  assert (length run = size) as Hsize by (unfold run, run_of; rewrite length_take; unfold size; simpl; lia).
  assert (length run + length rest <= length all)%nat as Hlall
    by (rewrite <-length_app, Hcut, Hall, length_app; lia).
  pose proof (di_small _ _ Hd) as Hsmall. unfold small in Hsmall.
  destruct (experiment_batches_ok all (rc_experiment c) bound lanes ltac:(lia) ltac:(unfold lanes, size; lia)
    ltac:(unfold lanes; lia) Hsmall size offset 0 run candidates) as (c1 & bs & Hc1 & Hs1 & Hp1 & Ht1 & Ho1);
    [lia|unfold small; lia|done|lia|by apply di_plain|].
  destruct (IH (offset + size)%nat rest c1) as (c2 & others & Hc2 & Hs2 & Ht2 & Ho2).
  { by eapply dispatchable_same. }
  { exists (passed ++ run). by rewrite <-app_assoc, Hcut. }
  { unfold rest. rewrite length_drop. simpl in Hf |- *. unfold size. lia. }
  exists c2, (bs ++ others). split; [|split; [by etrans|split]].
  - cbn [all_batches]. rewrite Hc. cbn [expect ok_or mbind result_bind]. rewrite Hmore. cbn [mbind result_bind].
    fold size bound lanes. fold (run_of size slot slots) rest. fold run. rewrite Hc1. cbn [mbind result_bind].
    by rewrite Hc2.
  - rewrite <-Hcut. eapply tiled_app; [exact Ht1| |].
    + intros l batch next Hne Hin Hf1. apply (batch_formed_extend _ c1 _ _ _ _ _ (rc_experiment c)); try done.
      * apply Forall_forall. intros s Hs. destruct Hw as (_ & _ & _ & Hw). rewrite Forall_forall in Hw.
        apply Hw. by apply Hin.
      * intros s Hs. apply Ho2. intros Hr. pose proof (di_distinct _ _ Hd) as Hnd. rewrite Hall, <-Hcut in Hnd.
        apply NoDup_app in Hnd as (_ & _ & Hnd). apply NoDup_app in Hnd as (_ & Hdis & _).
        exact (Hdis s (Hin s Hs) Hr).
    + rewrite Hsize. eapply tiled_impl; [|exact Ht2]. intros l b n _. by apply batch_formed_before.
  - intros s Hs. rewrite <-Hcut in Hs. rewrite Ho2, Ho1; [done|..]; set_solver.
Qed.

(** C31: rebuilding the batches of a run terminates and cuts its schedule, in
    order and without gaps, into nonempty batches: each stays within one
    experiment and its concurrency bound, has at most one point of a fresh
    repetition, and ends only because its lanes are taken, the experiment ends,
    or the next slot is a second point of a repetition.  Nothing but provenance
    changes: every slot records the size of its batch and its lane. *)
Theorem rebuild_batches_tiles resolved schedule :
  dispatchable (rr_candidates resolved) schedule ->
  exists resolved', rebuild_batches resolved schedule = Ok resolved' /\
    rr_schedule resolved' = schedule /\
    same_slots (rr_candidates resolved) (rr_candidates resolved') /\
    tiled (batch_formed (rr_candidates resolved) (rr_candidates resolved')) 0 schedule (rr_batches resolved').
Proof.
  intros Hd. destruct (all_batches_ok schedule (length schedule) 0 schedule (rr_candidates resolved) Hd
    (ex_intro _ [] eq_refl) (le_n _)) as (c & bs & E & Hs & Ht & _).
  unfold rebuild_batches. rewrite E. eexists. split; [reflexivity|]. by split.
Qed.

(** ** Two points of a fresh repetition and a slot beside them *)

#[local] Existing Instance model.

Definition sample_measurement (fresh : option FreshControl) : ResolvedMeasurement := {|
  rm_fresh := fresh; rm_observation_slots := [observation_slot]; rm_candidate := some_id _;
  rm_specification := run; rm_selection_ids := [];
  rm_scheduling := {| ss_observation_round := 0; ss_logical_slot := some_id _;
    ss_comparison_block := some_block 0; ss_scheduling_priority := [] |};
  rm_warmups := []; rm_logical_slot := some_id _; rm_attempt_slot := slot;
  rm_observation_slot := observation_slot; rm_seed := 7; rm_provenance := Object [] |}.
Definition fresh_point (i : Z) : FreshControl := {| schedule_index := i; observation_control := Null |}.
Definition sample_candidate : ResolvedCandidate := {|
  rc_profile := None; rc_streaming_profile := None; rc_fresh_profile := None; rc_experiment := "main";
  rc_logical_selection_ids := [];
  rc_applicability := identified {| ad_candidate_id := some_id _; ad_outcome := Applicable; ad_code := "";
    ad_reason := ""; ad_checked_inputs := None; ad_evidence := None; ad_details := None |};
  rc_measurements := [sample_measurement (Some (fresh_point 0)); sample_measurement (Some (fresh_point 1));
                      sample_measurement None];
  rc_policy := {| ep_name := "two"; ep_cpus := None; ep_threads := None; ep_memory := None;
    ep_network := false; ep_worker_reuse := false; ep_warmup_runs := 0; ep_timeout := None;
    ep_timing_scope := PrepareAndExecute; ep_primary_time := TimedWallTime; ep_run_order := Sequential;
    ep_max_concurrency := 2; ep_enforcement := BestEffort |} |}.
Definition sample_run : ResolvedRun :=
  {| rr_candidates := [sample_candidate]; rr_schedule := []; rr_batches := [] |}.
Definition sample_schedule : list Slot := [(0, 0); (0, 1); (0, 2)]%nat.

Lemma sample_dispatchable : dispatchable (rr_candidates sample_run) sample_schedule.
Proof.
  split.
  - by apply (bool_decide_unpack _).
  - repeat constructor; by eexists.
  - intros s Hs. repeat (apply elem_of_cons in Hs as [->|Hs];
      [eexists; split; [reflexivity|]; exists []; repeat split; constructor|]). by apply not_elem_of_nil in Hs.
  - intros s Hs. exists 2%Z. repeat (apply elem_of_cons in Hs as [->|Hs]; [done|]). by apply not_elem_of_nil in Hs.
  - intros s o Hs Ho _. assert (forall x, x ∈ sample_schedule -> bound_of [sample_candidate] x = Some 2%Z) as Hx
      by (intros x Hx; repeat (apply elem_of_cons in Hx as [->|Hx]; [done|]); by apply not_elem_of_nil in Hx).
    cbn. by rewrite !Hx.
  - done.
Qed.
Lemma sample_batches :
  rr_batches <$> rebuild_batches sample_run sample_schedule
  = Ok [{| batch_start := 0; batch_end := 1; lane_count := 2 |}; {| batch_start := 1; batch_end := 3; lane_count := 2 |}].
Proof. vm_compute. reflexivity. Qed.

Lemma rebuild_batches_tiles_witness :
  exists resolved', rebuild_batches sample_run sample_schedule = Ok resolved' /\
    rr_batches resolved' = [{| batch_start := 0; batch_end := 1; lane_count := 2 |};
                            {| batch_start := 1; batch_end := 3; lane_count := 2 |}] /\
    tiled (batch_formed [sample_candidate] (rr_candidates resolved')) 0 sample_schedule (rr_batches resolved').
Proof.
  destruct (rebuild_batches_tiles sample_run sample_schedule sample_dispatchable) as (r & E & _ & _ & Ht).
  pose proof sample_batches as Hb. exists r. split; [exact E|]. rewrite E in Hb. injection Hb as Hb.
  split; [exact Hb|exact Ht].
Defined.
