(* ===== verification/WorkerReuse.v ===== *)
(** * Reusing workers (src/runtime/worker_reuse.rs)

    A [ReusableWorker] owns at most one implementation process between slots.
    What the process does is observed as a sequence of events: every launch, every
    completed reset with its cleanup, and every call of the warm-up and the
    measured callback. *)
From S2P Require Import Prelude Json Canonical Identity ThirdPartyModel Records Manifest Compatibility Framing Redaction Wire Messages Handshake Session Streaming Sessions.

#[export] Instance primary_time_eq_dec : EqDecision PrimaryTime.
Proof. solve_decision. Defined.
#[export] Instance run_order_eq_dec : EqDecision RunOrder.
Proof. solve_decision. Defined.
#[export] Instance enforcement_eq_dec : EqDecision Enforcement.
Proof. solve_decision. Defined.
#[export] Instance execution_policy_eq_dec : EqDecision ExecutionPolicyRecord.
Proof. solve_decision. Defined.
#[export] Instance resolved_worker_eq_dec : EqDecision ResolvedWorkerRecord.
Proof. solve_decision. Defined.

Record WorkerReuseKey := {
  selected_capabilities : list Capability;
  key_role : WorkerRole;
  key_definition : RecordId ImplementationDefinitionType;
  key_resolved : ResolvedWorkerRecord;
  key_policy : ExecutionPolicyRecord;
}.
#[export] Instance worker_reuse_key_eq_dec : EqDecision WorkerReuseKey.
Proof. solve_decision. Defined.

Definition Specification : Type := option (RecordId ResolvedSpecificationType).

(** The worker kept between slots: [ReusableWorker::retained]. *)
Definition ReusableWorker : Type := option (WorkerReuseKey * Specification * WorkerSession).

Inductive WorkerReuseError (E : Type) :=
  | InvalidPolicy
  | MissingPrivateDirectory
  | Cleanup (source : string)
  | SessionError (source : WorkerSessionError)
  | WarmupFailed (index : Z) (source : E)
  | LaunchFailed (source : E)
  | SlotFailed (source : E).
Arguments InvalidPolicy {E}.
Arguments MissingPrivateDirectory {E}.
Arguments Cleanup {E} source.
Arguments SessionError {E} source.
Arguments WarmupFailed {E} index source.
Arguments LaunchFailed {E} source.
Arguments SlotFailed {E} source.

(** ** Events *)

Inductive Event :=
  | Launched (key : WorkerReuseKey)
  | Cleaned
  | WarmedUp (specification : Specification) (index : Z)
  | Measuring (key : WorkerReuseKey) (specification : Specification).

(** Fallible computations that leave events. *)
Definition tracing (E A : Type) : Type := result (failure (WorkerReuseError E)) A * list Event.
#[export] Instance tracing_ret E : MRet (tracing E) := fun _ a => (Ok a, []).
#[export] Instance tracing_bind E : MBind (tracing E) := fun _ _ k m =>
  match m with
  | (Ok a, t) => let '(r, t') := k a in (r, t ++ t')
  | (Err e, t) => (Err e, t)
  end.
Definition emit {E} (e : Event) : tracing E unit := (Ok tt, [e]).
Definition fallible {E A} (m : result (failure (WorkerReuseError E)) A) : tracing E A := (m, []).

(** ** Slots *)

(** What the system does around one [reset_and_clear]: the exchange, the removal
    of the files of the private directory, whether the process has an environment
    and the re-creation of its private paths. *)
Record Housekeeping := {
  hk_reset : Exchange;
  hk_clear : result string unit;
  hk_environment : bool;
  hk_recreate : result string unit;
}.

(** A call of [run_slot] or [run_slot_for_specification]: the arguments of the
    code, and the housekeeping before each use of the worker. *)
Record SlotRun (E T : Type) := {
  slot_key : WorkerReuseKey;
  slot_specification : Specification;
  slot_launch : result (failure E) WorkerSession;
  slot_warmup : Z -> WorkerSession -> result (failure E) unit * WorkerSession;
  slot_measured : WorkerSession -> result (failure E) T * WorkerSession;
  slot_retained : Housekeeping;
  slot_warmed : Z -> Housekeeping;
}.
Arguments slot_key {E T} s.
Arguments slot_specification {E T} s.
Arguments slot_launch {E T} s.
Arguments slot_warmup {E T} s.
Arguments slot_measured {E T} s.
Arguments slot_retained {E T} s.
Arguments slot_warmed {E T} s.

Section Reuse.
Context `{ThirdParty} {E T : Type}.

Definition reset_and_clear (h : Housekeeping) (s : WorkerSession)
  : result (failure (WorkerReuseError E)) WorkerSession :=
  match (set_scientific_deadline None;; reset (hk_reset h)) s with
  | (Err e, _) => lift_err SessionError (Err e)
  | (Ok _, s) =>
      _ ← lift (ensure match process s with Some p => private_working_directory p | None => false end
            MissingPrivateDirectory);
      _ ← lift (map_err Cleanup (hk_clear h));
      _ ← lift (ensure (hk_environment h && bool_decide (is_Some (process s))) MissingPrivateDirectory);
      _ ← lift (map_err Cleanup (hk_recreate h));
      Ok s
  end.

(** The policies that version 1 of the timing contract permits. *)
Definition valid_policy (key : WorkerReuseKey) : bool :=
  let policy := key_policy key in
  negb (negb (bool_decide (key_role key = Implementation))
        || ((0 <? ep_warmup_runs policy)%Z && negb (ep_worker_reuse policy))
        || (bool_decide (ep_timing_scope policy = ColdEndToEnd)
            && (ep_worker_reuse policy || (0 <? ep_warmup_runs policy)%Z))).

(** [for index in 0..warmup_runs]. *)
Fixpoint warm_ups (slot : SlotRun E T) (n : nat) (index : Z) (s : WorkerSession)
  : tracing E WorkerSession :=
  match n with
  | O => mret s
  | S n =>
      emit (WarmedUp (slot_specification slot) index);;
      let '(warmed, s) := slot_warmup slot index s in
      _ ← fallible (lift_err (WarmupFailed index) warmed);
      s ← fallible (reset_and_clear (slot_warmed slot index) s);
      emit Cleaned;;
      warm_ups slot n (index + 1) s
  end.

(** A replacement process. *)
Definition launch (slot : SlotRun E T) : tracing E (WorkerSession * bool) :=
  emit (Launched (slot_key slot));;
  s ← fallible (lift_err LaunchFailed (slot_launch slot));
  mret (s, true).
(** The session that serves a slot and whether it still needs warm-ups. *)
Definition acquire (slot : SlotRun E T) (previous : ReusableWorker) : tracing E (WorkerSession * bool) :=
  let key := slot_key slot in
  match previous with
  | Some (previous_key, previous_specification, s) =>
      if ep_worker_reuse (key_policy key) && bool_decide (previous_key = key) && usable s
      then
        s ← fallible (reset_and_clear (slot_retained slot) s);
        emit Cleaned;;
        mret (s, negb (bool_decide (previous_specification = slot_specification slot)))
      else launch slot
  | None => launch slot
  end.
Definition ready_worker (slot : SlotRun E T) (previous : ReusableWorker) : tracing E WorkerSession :=
  '(s, needs_warmups) ← acquire slot previous;
  if (needs_warmups : bool)
  then warm_ups slot (Z.to_nat (ep_warmup_runs (key_policy (slot_key slot)))) 0 s
  else mret s.
Definition serve (slot : SlotRun E T) (previous : ReusableWorker) : tracing E (T * WorkerSession) :=
  s ← ready_worker slot previous;
  emit (Measuring (slot_key slot) (slot_specification slot));;
  let '(measured, s) := slot_measured slot s in
  output ← fallible (lift_err SlotFailed measured);
  mret (output, s).

(** [run_slot_scoped]: an early return of the checks leaves the retained worker;
    every later one has taken it. *)
Definition run_slot_scoped (slot : SlotRun E T) (worker : ReusableWorker)
  : result (failure (WorkerReuseError E)) T * ReusableWorker * list Event :=
  let key := slot_key slot in
  if negb (valid_policy key) then (Err (Returned InvalidPolicy), worker, [])
  else
    match serve slot worker with
    | (Ok (output, s), t) =>
        (Ok output,
         if ep_worker_reuse (key_policy key) && usable s
         then Some (key, slot_specification slot, s) else None, t)
    | (Err e, t) => (Err e, None, t)
    end.

(** What the scheduler does with one [ReusableWorker]. *)
Inductive Request := RunSlot (slot : SlotRun E T) | Discard.
Fixpoint run_requests (worker : ReusableWorker) (requests : list Request) : ReusableWorker * list Event :=
  match requests with
  | [] => (worker, [])
  | request :: requests =>
      let '(worker, t) := match request with
        | RunSlot slot => let '(_, worker, t) := run_slot_scoped slot worker in (worker, t)
        | Discard => (None, [])
        end in
      let '(worker, t') := run_requests worker requests in
      (worker, t ++ t')
  end.
End Reuse.

(** ** Clean workers *)

(** The events of complete warm-ups for a specification, from an index on. *)
Fixpoint warmups_from (specification : Specification) (n : nat) (index : Z) : list Event :=
  match n with
  | O => []
  | S n => WarmedUp specification index :: Cleaned :: warmups_from specification n (index + 1)
  end.
Definition warmups (key : WorkerReuseKey) (specification : Specification) : list Event :=
  warmups_from specification (Z.to_nat (ep_warmup_runs (key_policy key))) 0.

(** What a process has done since its launch when it is ready for a measured
    slot of a specification: warm-ups of that specification, each followed by a
    cleanup, then only measured slots of it, each followed by a cleanup. *)
Inductive ready (key : WorkerReuseKey) : Specification -> list Event -> Prop :=
  | ready_launched specification : ready key specification (warmups key specification)
  | ready_again specification since :
      ready key specification since ->
      ready key specification (since ++ [Measuring key specification; Cleaned])
  | ready_switched specification next since :
      ready key specification since -> next <> specification ->
      ready key next (since ++ [Measuring key specification; Cleaned] ++ warmups key next).

Definition measures (e : Event) : bool := match e with Measuring _ _ => true | _ => false end.
(** Every measured slot of a trace ran on a process that was ready for it. *)
Definition disciplined (t : list Event) : Prop :=
  forall pre key specification post, t = pre ++ Measuring key specification :: post ->
    valid_policy key = true /\
    exists before since, pre = before ++ Launched key :: since /\ ready key specification since /\
      (ep_worker_reuse (key_policy key) = false -> since = []).
(** The retained worker has just measured its specification. *)
Definition kept (worker : ReusableWorker) (t : list Event) : Prop :=
  match worker with
  | None => True
  | Some (key, specification, s) =>
      usable s = true /\ valid_policy key = true /\ ep_worker_reuse (key_policy key) = true /\
      exists before since, t = before ++ Launched key :: since ++ [Measuring key specification] /\
        ready key specification since
  end.

Lemma split_app (t u pre post : list Event) e :
  t ++ u = pre ++ e :: post ->
  (exists rest, t = pre ++ e :: rest) \/ (exists pre', pre = t ++ pre' /\ u = pre' ++ e :: post).
Proof.
  revert pre. induction t as [|x t IH]; intros pre Heq; [right; by exists pre|].
  destruct pre as [|y pre]; injection Heq as -> Heq; [left; by exists t|].
  destruct (IH _ Heq) as [(rest & ->)|(pre' & -> & ->)]; [left; by exists rest|right; by exists pre'].
Qed.

Lemma disciplined_quiet t u : disciplined t -> forallb (fun e => negb (measures e)) u = true -> disciplined (t ++ u).
Proof.
  intros Ht Hu pre key sp post Heq. destruct (split_app _ _ _ _ _ Heq) as [(rest & Hr)|(pre' & _ & ->)].
  - by apply (Ht _ _ _ rest).
  - rewrite forallb_app in Hu. apply andb_prop in Hu as [_ Hu]. done.
Qed.

Lemma disciplined_measuring t key sp before since :
  disciplined t -> valid_policy key = true -> t = before ++ Launched key :: since -> ready key sp since ->
  (ep_worker_reuse (key_policy key) = false -> since = []) -> disciplined (t ++ [Measuring key sp]).
Proof.
  intros Ht Hv Hs Hr Hc pre k s post Heq. destruct (split_app _ _ _ _ _ Heq) as [(rest & Hrest)|(pre' & -> & Hp)].
  - by apply (Ht _ _ _ rest).
  - destruct pre' as [|x pre']; [|by destruct pre'].
    injection Hp as -> -> _. rewrite app_nil_r. split; [done|]. by exists before, since.
Qed.

Definition quiet (t : list Event) : Prop := forallb (fun e => negb (measures e)) t = true.
Lemma quiet_app t u : quiet t -> quiet u -> quiet (t ++ u).
Proof. unfold quiet. rewrite forallb_app. by intros -> ->. Qed.

Lemma tracing_bind_inv {E A B} (m : tracing E A) (k : A -> tracing E B) r t :
  (x ← m; k x) = (r, t) ->
  (exists e, m.1 = Err e /\ r = Err e /\ t = m.2) \/
  (exists a u, m.1 = Ok a /\ k a = (r, u) /\ t = m.2 ++ u).
Proof.
  unfold mbind, tracing_bind. destruct m as [[a|e] v]; [destruct (k a) as [q u] eqn:Ek|]; intros [= <- <-]; eauto 10.
Qed.

Section Discipline.
Context `{ThirdParty} {E T : Type}.
Implicit Types (slot : SlotRun E T).

Lemma warm_ups_events slot n index s r t :
  warm_ups slot n index s = (r, t) ->
  quiet t /\ forall s', r = Ok s' -> t = warmups_from (slot_specification slot) n index.
Proof.
  revert index s r t. induction n as [|n IH]; intros index s r t; cbn [warm_ups warmups_from];
    [by intros [= <- <-]|].
  intros Hw. apply tracing_bind_inv in Hw as [(e & [=] & _)|([] & u & _ & Hw & ->)].
  destruct (slot_warmup slot index s) as [warmed s1].
  apply tracing_bind_inv in Hw as [(e & _ & -> & ->)|([] & u1 & _ & Hw & ->)]; [done|].
  apply tracing_bind_inv in Hw as [(e & _ & -> & ->)|(s2 & u2 & _ & Hw & ->)]; [done|].
  apply tracing_bind_inv in Hw as [(e & [=] & _)|([] & u3 & _ & Hw & ->)].
  destruct (IH _ _ _ _ Hw) as (Hq & Ht). split; [exact Hq|]. intros s' Hr. cbn. by rewrite (Ht s' Hr).
Qed.

Lemma launch_events slot r t :
  launch slot = (r, t) -> quiet t /\ forall s needs, r = Ok (s, needs) ->
    t = [Launched (slot_key slot)] /\ needs = true.
Proof.
  intros Hl. apply tracing_bind_inv in Hl as [(e & [=] & _)|([] & u & _ & Hl & ->)].
  apply tracing_bind_inv in Hl as [(e & _ & -> & ->)|(s & u1 & _ & [= <- <-] & ->)]; [done|].
  split; [done|]. by intros ? ? [= _ <-].
Qed.

Lemma acquire_events slot previous r t :
  acquire slot previous = (r, t) ->
  quiet t /\ forall s needs, r = Ok (s, needs) ->
    t = [Launched (slot_key slot)] /\ needs = true \/
    ep_worker_reuse (key_policy (slot_key slot)) = true /\ t = [Cleaned] /\
    exists specification s0, previous = Some (slot_key slot, specification, s0) /\
      needs = negb (bool_decide (specification = slot_specification slot)).
Proof.
  assert (launch slot = (r, t) -> quiet t /\ forall s needs, r = Ok (s, needs) ->
    t = [Launched (slot_key slot)] /\ needs = true \/
    ep_worker_reuse (key_policy (slot_key slot)) = true /\ t = [Cleaned] /\
    exists specification s0, previous = Some (slot_key slot, specification, s0) /\
      needs = negb (bool_decide (specification = slot_specification slot))) as Hlaunch.
  { intros [Hq Ho]%launch_events. split; [done|]. intros s needs Hr. left. by apply (Ho s). }
  unfold acquire. intros Ha. destruct previous as [[[key sp] s0]|]; [|by apply Hlaunch].
  destruct (_ && _) eqn:Hb in Ha; [|by apply Hlaunch]. clear Hlaunch. bools. subst key.
  apply tracing_bind_inv in Ha as [(e & _ & -> & ->)|(s1 & u1 & _ & Ha & ->)]; [done|].
  apply tracing_bind_inv in Ha as [(e & [=] & _)|([] & u2 & _ & [= <- <-] & ->)].
  split; [done|]. intros s needs [= <- <-]. right. eauto 10.
Qed.

Lemma warmups_unused key sp : valid_policy key = true -> ep_worker_reuse (key_policy key) = false -> warmups key sp = [].
Proof.
  unfold valid_policy, warmups. intros Hv Hr. rewrite Hr in Hv.
  rewrite negb_true_iff, !orb_false_iff in Hv. destruct Hv as [[_ Hw] _].
  rewrite andb_true_r in Hw. apply Z.ltb_ge in Hw. by replace (Z.to_nat _) with 0%nat by lia.
Qed.

Lemma ready_worker_events slot previous tr r t :
  valid_policy (slot_key slot) = true -> kept previous tr -> ready_worker slot previous = (r, t) ->
  quiet t /\ forall s, r = Ok s -> exists before since,
    tr ++ t = before ++ Launched (slot_key slot) :: since /\
    ready (slot_key slot) (slot_specification slot) since /\
    (ep_worker_reuse (key_policy (slot_key slot)) = false -> since = []).
Proof.
  set (key := slot_key slot). set (sp := slot_specification slot). intros Hv Hk Hr.
  apply tracing_bind_inv in Hr as [(e & Ha & -> & ->)|([s needs] & tw & Ha & Hr & ->)];
    destruct (acquire slot previous) as [q ta] eqn:Eq; cbn [fst snd] in *; subst q;
    apply acquire_events in Eq as [Hqa Hacq]; [done|].
  assert (quiet tw /\ forall s', r = Ok s' -> tw = if needs then warmups key sp else []) as [Hqw Htw].
  { destruct needs; [exact (warm_ups_events _ _ _ _ _ _ Hr)|]. by injection Hr as <- <-. }
  split; [by apply quiet_app|]. intros s' Hs. specialize (Htw s' Hs).
  destruct (Hacq s needs eq_refl) as [[-> ->]|(Hre & -> & spo & s0 & -> & ->)].
  - exists tr, tw. rewrite Htw. split; [done|]. split; [constructor|]. by apply warmups_unused.
  - destruct Hk as (_ & _ & _ & before & since & -> & Hready). exists before.
    assert (forall l, (before ++ Launched key :: since ++ [Measuring key spo]) ++ [Cleaned] ++ l
      = before ++ Launched key :: since ++ [Measuring key spo; Cleaned] ++ l) as Happ
      by (intros l; rewrite <-!app_assoc; cbn; by rewrite <-app_assoc).
    rewrite Happ. subst tw. eexists. split; [done|]. split; [|intros Hf; unfold key in Hf; by rewrite Hre in Hf].
    case_bool_decide as Hsp; cbn [negb].
    + subst spo. by apply ready_again.
    + apply ready_switched; [done|]. intros He. by apply Hsp.
Qed.

(** A slot that reaches its measured callback runs on a worker that is ready. *)
Lemma serve_disciplined slot previous tr r t :
  valid_policy (slot_key slot) = true -> disciplined tr -> kept previous tr -> serve slot previous = (r, t) ->
  disciplined (tr ++ t) /\
  forall x, r = Ok x -> exists before since,
    tr ++ t = before ++ Launched (slot_key slot) :: since ++ [Measuring (slot_key slot) (slot_specification slot)] /\
    ready (slot_key slot) (slot_specification slot) since.
Proof.
  intros Hv Hd Hk Hs.
  apply tracing_bind_inv in Hs as [(e & Hw & -> & ->)|(s1 & u1 & Hw & Hs & ->)];
    destruct (ready_worker slot previous) as [q tw] eqn:Ew; cbn [fst snd] in *; subst q;
    apply (ready_worker_events slot previous tr) in Ew as [Hq Hready]; try done;
    [split; [by apply disciplined_quiet|done]|].
  destruct (Hready s1 eq_refl) as (before & since & Heq & Hr & Hun). clear Hready.
  apply tracing_bind_inv in Hs as [(e & [=] & _)|([] & u2 & _ & Hs & ->)].
  destruct (slot_measured slot s1) as [measured s2]. cbn [emit snd].
  assert (u2 = []) as ->.
  { by apply tracing_bind_inv in Hs as [(e & _ & _ & ->)|(o & u3 & _ & [= _ <-] & ->)]. }
  rewrite app_nil_r, app_assoc. split.
  - apply (disciplined_measuring _ _ _ before since); try done. by apply disciplined_quiet.
  - intros x _. exists before, since. rewrite Heq, <-app_assoc. done.
Qed.

Lemma run_slot_disciplined slot worker tr r worker' t :
  disciplined tr -> kept worker tr -> run_slot_scoped slot worker = (r, worker', t) ->
  disciplined (tr ++ t) /\ kept worker' (tr ++ t).
Proof.
  unfold run_slot_scoped. intros Hd Hk. destruct (valid_policy (slot_key slot)) eqn:Hv; cbn [negb];
    [|intros [= _ <- <-]; by rewrite app_nil_r].
  destruct (serve slot worker) as [[[out s]|e] u] eqn:Es; intros [= _ <- <-];
    apply (serve_disciplined slot worker tr) in Es as [Hd' Hx]; try done.
  split; [done|]. destruct (_ && _) eqn:Hb; [|done]. bools. cbn. destruct (Hx _ eq_refl) as (b & c & ? & ?).
  do 3 (split; [done|]). by exists b, c.
Qed.

Lemma run_requests_disciplined requests worker tr worker' t :
  disciplined tr -> kept worker tr -> run_requests (E := E) (T := T) worker requests = (worker', t) ->
  disciplined (tr ++ t).
Proof.
  revert worker tr worker' t. induction requests as [|request requests IH]; intros worker tr worker' t Hd Hk;
    cbn [run_requests]; [intros [= _ <-]; by rewrite app_nil_r|].
  destruct request as [slot|].
  - destruct (run_slot_scoped slot worker) as [[r w] u] eqn:Es.
    destruct (run_slot_disciplined _ _ _ _ _ _ Hd Hk Es) as [Hd' Hk'].
    destruct (run_requests w requests) as [w2 u2] eqn:Er. intros [= _ <-]. rewrite app_assoc. by eapply IH.
  - destruct (run_requests None requests) as [w2 u2] eqn:Er. intros [= _ <-]. by apply (IH None tr w2 u2).
Qed.
End Discipline.

(** ** Theorem *)

(** C32: whatever slots a scheduler runs on one [ReusableWorker], and whatever the
    launches, resets and callbacks do, every measured slot has a permitted policy
    and runs on a process that was launched for the slot's own key and has since
    completed, in order, the warm-ups of the slot's specification, with nothing
    between them and the slot but measured slots of the same specification, and
    every earlier use of the process was followed by a completed reset and
    cleanup.  A policy without reuse measures on a process that nothing used.  A
    slot that fails leaves no worker behind, unless its policy was refused before
    the worker was touched. *)
Theorem measured_on_clean_worker `{ThirdParty} {E T : Type} (requests : list (Request (E := E) (T := T)))
    slot (worker : ReusableWorker) e :
  disciplined (run_requests None requests).2 /\
  ((run_slot_scoped slot worker).1.1 = Err (Returned e) ->
   (run_slot_scoped (E := E) (T := T) slot worker).1.2 = None \/
   e = InvalidPolicy /\ run_slot_scoped slot worker = (Err (Returned InvalidPolicy), worker, [])).
Proof.
  split.
  - destruct (run_requests None requests) as [w t] eqn:Er. cbn.
    by eapply (run_requests_disciplined _ None [] w t); [|done|exact Er]; intros [|? ?] ? ? ? [=].
  - unfold run_slot_scoped. destruct (valid_policy (slot_key slot)); cbn [negb];
      [|intros [= <-]; by right].
    destruct (serve slot worker) as [[[out s]|e'] u]; [done|]. by left.
Qed.

(** Two slots of one specification: the second one reuses the process. *)
Definition reuse_key : WorkerReuseKey := {|
  selected_capabilities := [OneShot]; key_role := Implementation;
  key_definition := from_digest []; 
  key_resolved := {| rw_source_bundle := None; rw_environment := from_digest [];
                     rw_launch := from_digest [] |};
  key_policy := {|
    ep_name := "reuse"; ep_cpus := None; ep_threads := None; ep_memory := None; ep_network := false;
    ep_worker_reuse := true; ep_warmup_runs := 1; ep_timeout := None; ep_timing_scope := ExecuteOnly;
    ep_primary_time := TimedWallTime; ep_run_order := Sequential; ep_max_concurrency := 1;
    ep_enforcement := BestEffort |} |}.
Definition reuse_housekeeping (id : string) : Housekeeping := {|
  hk_reset := replying (Frame (message_value {| Acknowledgement.id := id |}));
  hk_clear := Ok tt; hk_environment := true; hk_recreate := Ok tt |}.
Definition reuse_slot : SlotRun Empty_set nat := {|
  slot_key := reuse_key; slot_specification := None; slot_launch := Ok sample_session;
  slot_warmup _ s := (Ok tt, s); slot_measured s := (Ok 7, s);
  slot_retained := reuse_housekeeping "2"; slot_warmed _ := reuse_housekeeping "1" |}.
Definition reuse_trace : list Event :=
  [Launched reuse_key; WarmedUp None 0; Cleaned; Measuring reuse_key None; Cleaned; Measuring reuse_key None].

Lemma reuse_trace_ok :
  (run_requests (H := model) None [RunSlot reuse_slot; RunSlot reuse_slot]).2 = reuse_trace.
Proof. vm_compute. reflexivity. Qed.

Lemma measured_on_clean_worker_witness :
  exists before since,
    [Launched reuse_key; WarmedUp None 0; Cleaned; Measuring reuse_key None; Cleaned]
      = before ++ Launched reuse_key :: since /\ ready reuse_key None since.
Proof.
  destruct (proj1 (@measured_on_clean_worker model Empty_set nat [RunSlot reuse_slot; RunSlot reuse_slot]
    reuse_slot None InvalidPolicy) [Launched reuse_key; WarmedUp None 0; Cleaned; Measuring reuse_key None; Cleaned]
    reuse_key None [] reuse_trace_ok) as (_ & before & since & Heq & Hr & _).
  exists before, since. split; [exact Heq|exact Hr].
Defined.
