(* ===== verification/Inspection.v ===== *)
(** * Inspection (src/core/inspection.rs, src/runtime/inspection.rs)

    The graph of identities behind [explain]: which strings are identities, which
    of them a record mentions, and how records are connected.  Where the records
    come from (a repository, a store, artifact directories) is not modelled: the
    graph is an argument. *)
From S2P Require Import Prelude Json Canonical Identity Profile Records RecordIdentity Manifest Archive ArchiveValidation Batches Selection Planning.
From Stdlib Require Import Ascii.

(** ** Identities *)

Definition is_lower (c : ascii) : bool := let n := nat_of_ascii c in ((97 <=? n) && (n <=? 122))%nat.
Definition is_digit (c : ascii) : bool := let n := nat_of_ascii c in ((48 <=? n) && (n <=? 57))%nat.
Definition is_digest (digest : string) : bool :=
  (String.length digest =? 64)%nat && forallb is_hex_lower (bytes_of digest).
Definition STORE_KINDS : list string :=
  ["attempt"; "observation"; "result"; "metrics"; "dataset"; "source"; "environment"; "other"].

Definition is_inspection_id (id : string) : bool :=
  match strip_prefix "run-store-v1:unconditional:" id with
  | Some candidate => is_ok (from_str LogicalCandidateType candidate)
  | None =>
      match strip_prefix "run-store-v1:" id with
      | Some stored =>
          match rsplit_once "-" stored with
          | None => false
          | Some (kind, digest) => existsb (String.eqb kind) STORE_KINDS && is_digest digest
          end
      | None =>
          match rsplit_once "-" id with
          | None => false
          | Some (kind, digest) =>
              match strip_prefix "mw1-" kind with
              | Some (String c rest) =>
                  is_lower c
                  && forallb (fun b => is_lower b || is_digit b || Ascii.eqb b "-") (bytes_of (String c rest))
                  && is_digest digest
              | _ => false
              end
          end
      end
  end.

(** [referenced_ids]: the identities a value mentions, in byte order. *)
Fixpoint mentioned_ids (v : value) : list string :=
  match v with
  | Str id => if is_inspection_id id then [id] else []
  | Array values => flat_map mentioned_ids values
  | Object values => flat_map (fun kv => mentioned_ids kv.2) values
  | _ => []
  end.
Definition referenced_ids (v : value) : list string := string_set (mentioned_ids v).

(** ** Records *)

Record InspectionRecord := {
  ir_id : string;
  ir_kind : string;
  ir_label : option string;
  ir_record : value;
  ir_related : list string;
  ir_paths : list string;
}.
Module Record.
Definition new (id kind : string) (record : value) : InspectionRecord := {|
  ir_id := id; ir_kind := kind; ir_label := None; ir_record := record; ir_related := []; ir_paths := [] |}.
(** [Vec::dedup] of a sorted vector. *)
Fixpoint dedup (l : list string) : list string :=
  match l with
  | a :: (b :: _) as tail => if String.eqb a b then dedup tail else a :: dedup tail
  | _ => l
  end.
Definition relate (ids : list string) (r : InspectionRecord) : InspectionRecord := {|
  ir_id := ir_id r; ir_kind := ir_kind r; ir_label := ir_label r; ir_record := ir_record r;
  ir_related := dedup (sorted_strings (ir_related r ++
    List.filter (fun id => negb (String.eqb id (ir_id r))) ids));
  ir_paths := ir_paths r |}.
Definition with_record (v : value) (r : InspectionRecord) : InspectionRecord := {|
  ir_id := ir_id r; ir_kind := ir_kind r; ir_label := ir_label r; ir_record := v;
  ir_related := ir_related r; ir_paths := ir_paths r |}.
Definition add_paths (paths : list string) (r : InspectionRecord) : InspectionRecord := {|
  ir_id := ir_id r; ir_kind := ir_kind r; ir_label := ir_label r; ir_record := ir_record r;
  ir_related := ir_related r; ir_paths := ir_paths r ++ paths |}.
Definition tidy_paths (r : InspectionRecord) : InspectionRecord := {|
  ir_id := ir_id r; ir_kind := ir_kind r; ir_label := ir_label r; ir_record := ir_record r;
  ir_related := ir_related r; ir_paths := dedup (sorted_strings (ir_paths r)) |}.
End Record.

(** The graph: [BTreeMap<String, InspectionRecord>]. *)
Abbreviation Graph := (BTreeMap InspectionRecord).
Definition update_record (id : string) (f : InspectionRecord -> InspectionRecord) (m : Graph) : Graph :=
  match map_get id m with Some r => map_insert id (f r) m | None => m end.

(** *** Connections *)

Definition reference_kind (other : string) : string :=
  match strip_prefix "mw1-" other ≫= rsplit_once "-" with
  | Some (kind, _) => kind
  | None => "store-reference"
  end.
Definition placeholder (other : string) : InspectionRecord :=
  Record.new other (reference_kind other) (object [("availability", Str "reference_only")]).

Definition connect_edge {E} (m : Graph) (edge : string * string) : result (failure E) Graph :=
  let '(id, other) := edge in
  if String.eqb other id then Ok m
  else
    let m := map_insert other
      (Record.relate [id] (default (placeholder other) (map_get other m))) m in
    record ← expect (map_get id m);
    Ok (map_insert id (Record.relate [other] record) m).
(** The references of every record, collected before any is connected. *)
Definition edges (m : Graph) : list (string * string) :=
  flat_map (fun kv => map (pair kv.1) (referenced_ids (ir_record kv.2))) m.
Definition tidied (m : Graph) : Graph := (fun kv => (kv.1, Record.tidy_paths kv.2)) <$> m.
Definition connect_records {E} (m : Graph) : result (failure E) Graph :=
  tidied <$> try_fold connect_edge m (edges m).

(** The variant of [InspectionError] that [explain] returns. *)
Inductive InspectionError := UnknownIdentity (id : string).
Record Explanation := {
  ex_command : string;
  ex_subject : InspectionRecord;
}.
Definition explain (m : Graph) (id : string) : result (failure InspectionError) Explanation :=
  m ← connect_records m;
  subject ← lift (ok_or (map_get id m) (UnknownIdentity id));
  Ok {| ex_command := "explain"; ex_subject := subject |}.

(** *** What connecting does *)

Lemma dedup_elem l x : x ∈ Record.dedup l <-> x ∈ l.
Proof.
  induction l as [|a [|b l] IH]; [done|done|]. cbn [Record.dedup] in *.
  destruct (String.eqb_spec a b) as [->|Hne]; [rewrite IH; set_solver|].
  rewrite elem_of_cons, IH. set_solver.
Qed.
Lemma sorted_strings_elem l x : x ∈ sorted_strings l <-> x ∈ l.
Proof. unfold sorted_strings. by rewrite (merge_sort_Permutation string_le l). Qed.
Lemma relate_elem ids r x :
  x ∈ ir_related (Record.relate ids r) <-> x ∈ ir_related r \/ (x ∈ ids /\ x <> ir_id r).
Proof.
  cbn [Record.relate ir_related]. rewrite dedup_elem, sorted_strings_elem, elem_of_app.
  rewrite (list_elem_of_In (List.filter _ _)), List.filter_In, <-(list_elem_of_In ids), negb_true_iff, String.eqb_neq. done.
Qed.

(** A record as evidence, without its relations. *)
Definition same_evidence (r s : InspectionRecord) : Prop :=
  ir_id r = ir_id s /\ ir_kind r = ir_kind s /\ ir_label r = ir_label s /\ ir_record r = ir_record s.
Definition keyed (m : Graph) : Prop := forall k r, map_get k m = Some r -> ir_id r = k.

Section Connecting.
Context (m : Graph) (Hm : keyed m).

(** The record an identity starts from. *)
Definition evidence_of (k : string) : InspectionRecord := default (placeholder k) (map_get k m).
Lemma evidence_id k : ir_id (evidence_of k) = k.
Proof. unfold evidence_of. destruct (map_get k m) as [r|] eqn:E; [by apply Hm|done]. Qed.

(** The state after some edges. *)
Definition connected (seen : list (string * string)) (c : Graph) : Prop :=
  forall k, match map_get k c with
  | Some r =>
      same_evidence (evidence_of k) r /\
      (forall x, x ∈ ir_related r <->
        x ∈ ir_related (evidence_of k) \/ (x <> k /\ ((k, x) ∈ seen \/ (x, k) ∈ seen))) /\
      (is_Some (map_get k m) \/ exists a, a <> k /\ (a, k) ∈ seen)
  | None => map_get k m = None /\ (forall a, (a, k) ∈ seen -> a = k) /\ forall x, (k, x) ∉ seen
  end.

Lemma connected_start : connected [] m.
Proof.
  intros k. unfold evidence_of. destruct (map_get k m) as [r|] eqn:E.
  - split; [done|]. split; [|by left]. intros x. set_solver.
  - split; [done|]. split; intros ? Hx; by apply not_elem_of_nil in Hx.
Qed.

Lemma map_get_insert_if {V} k j (v : V) n :
  map_get k (map_insert j v n) = if decide (k = j) then Some v else map_get k n.
Proof. destruct (decide _) as [->|]; [apply map_get_insert_eq|by apply map_get_insert_ne]. Qed.

Lemma connected_skip seen c id : connected seen c -> is_Some (map_get id c) -> connected (seen ++ [(id, id)]) c.
Proof.
  intros Hc Hid k. specialize (Hc k). destruct (map_get k c) as [s|] eqn:Ek.
  - destruct Hc as (He & Hx & Hk). split; [done|]. split.
    + intros x. rewrite Hx, !elem_of_app, !list_elem_of_singleton. naive_solver.
    + destruct Hk as [|(a & ? & ?)]; [by left|]. right. exists a. set_solver.
  - destruct Hc as (He & Ha & Hf). split; [done|].
    split; [intros a|intros x]; rewrite elem_of_app, list_elem_of_singleton; [naive_solver|].
    intros [Hd|[= -> ->]]; [by apply Hf in Hd|]. rewrite Ek in Hid. by destruct Hid.
Qed.

Lemma connect_edge_connected {E} seen c id other :
  connected seen c -> is_Some (map_get id c) ->
  exists c', connect_edge (E := E) c (id, other) = Ok c' /\ connected (seen ++ [(id, other)]) c' /\
    forall k, is_Some (map_get k c) -> is_Some (map_get k c').
Proof.
  intros Hc Hsome. cbn [connect_edge]. destruct (String.eqb_spec other id) as [->|Hne].
  { exists c. split; [done|]. split; [|done]. by apply connected_skip. }
  destruct Hsome as [r Hr]. rewrite map_get_insert_ne by done. rewrite Hr. cbn [expect ok_or mbind result_bind].
  eexists. split; [done|]. split.
  2: { intros k Hk. rewrite !map_get_insert_if. by do 2 (destruct (decide _); [done|]). }
  intros k. rewrite !map_get_insert_if. pose proof (Hc k) as Hk. pose proof (Hc id) as Hid. rewrite Hr in Hid.
  destruct Hid as (Hie & Hix & _).
  destruct (decide (k = id)) as [->|Hki]; [|destruct (decide (k = other)) as [->|Hko]].
  - split; [exact Hie|]. split.
    + intros x. rewrite relate_elem, Hix. destruct Hie as [<- _]. rewrite evidence_id.
      rewrite !elem_of_app, !list_elem_of_singleton. naive_solver.
    + rewrite Hr in Hk. destruct Hk as (_ & _ & [|(a & ? & ?)]); [by left|]. right. exists a. set_solver.
  - assert (is_Some (map_get other m) \/ (exists a, a <> other /\ (a, other) ∈ seen ++ [(id, other)])) as Hsome.
    { right. exists id. set_solver. }
    destruct (map_get other c) as [s|]; cbn [from_option].
    + destruct Hk as (He & Hx & _). change (Datatypes.id s) with s. split; [exact He|]. split; [|done].
      intros x. rewrite relate_elem, Hx. destruct He as [<- _]. rewrite evidence_id.
      rewrite !elem_of_app, !list_elem_of_singleton. naive_solver.
    + destruct Hk as (Ho & Ha & Hf). unfold evidence_of. rewrite Ho. cbn [from_option]. split; [done|]. split; [|rewrite Ho in Hsome; exact Hsome].
      intros x. rewrite relate_elem. cbn. rewrite !elem_of_app, !list_elem_of_singleton.
      specialize (Ha x). specialize (Hf x). naive_solver.
  - destruct (map_get k c) as [s|].
    + destruct Hk as (He & Hx & Hk). split; [done|]. split.
      * intros x. rewrite Hx, !elem_of_app, !list_elem_of_singleton. naive_solver.
      * destruct Hk as [|(a & ? & ?)]; [by left|]. right. exists a. set_solver.
    + destruct Hk as (He & Ha & Hf). split; [done|].
      split; [intros a|intros x]; rewrite elem_of_app, list_elem_of_singleton; naive_solver.
Qed.

Lemma connect_edges_connected {E} rest : forall seen c,
  connected seen c -> (forall a b, (a, b) ∈ rest -> is_Some (map_get a c)) ->
  exists c', try_fold (connect_edge (E := E)) c rest = Ok c' /\ connected (seen ++ rest) c'.
Proof.
  induction rest as [|[a b] rest IH]; intros seen c Hc Hrest.
  - exists c. split; [done|]. by rewrite app_nil_r.
  - destruct (connect_edge_connected (E := E) seen c a b Hc) as (c1 & Hstep & Hc1 & Hmono); [set_solver|].
    destruct (IH (seen ++ [(a, b)]) c1 Hc1) as (c2 & Hfold & Hc2).
    { intros x y Hxy. apply Hmono, (Hrest x y). set_solver. }
    exists c2. cbn [try_fold]. rewrite Hstep. split; [exact Hfold|]. by rewrite <-app_assoc in Hc2.
Qed.
End Connecting.

(** One record refers to another one. *)
Definition refers (m : Graph) (a b : string) : Prop :=
  exists r, map_get a m = Some r /\ b ∈ referenced_ids (ir_record r) /\ a <> b.

Lemma edges_elem m a b : map_wf m ->
  (a, b) ∈ edges m <-> exists r, map_get a m = Some r /\ b ∈ referenced_ids (ir_record r).
Proof.
  intros Hw. unfold edges. rewrite list_elem_of_In, in_flat_map. split.
  - intros ([k r] & Hin & Hb). apply list_elem_of_In in Hin. cbn in Hb.
    apply in_map_iff in Hb as (x & [= -> ->] & Hx). exists r. split; [by apply map_get_of_elem|].
    by apply list_elem_of_In.
  - intros (r & Hr & Hb). exists (a, r). split; [by apply list_elem_of_In, map_get_elem|].
    apply in_map_iff. exists b. split; [done|]. by apply list_elem_of_In.
Qed.
Lemma map_get_fmap {V W} (f : V -> W) k m :
  map_get k ((fun kv => (kv.1, f kv.2)) <$> m) = f <$> map_get k m.
Proof. induction m as [|[j v] m IH]; [done|]. cbn. by destruct (String.eqb k j). Qed.

(** What [explain] answers for an identity of a graph [m]. *)
Definition explained (m : Graph) (id : string) (answer : result (failure InspectionError) Explanation) : Prop :=
  match answer with
  | Ok e =>
      ex_command e = "explain" /\ same_evidence (evidence_of m id) (ex_subject e) /\
      (forall x, x ∈ ir_related (ex_subject e) <->
        x ∈ ir_related (evidence_of m id) \/ refers m id x \/ refers m x id) /\
      (is_Some (map_get id m) \/ exists a, refers m a id)
  | Err (Returned (UnknownIdentity unknown)) =>
      unknown = id /\ map_get id m = None /\ forall a, ~ refers m a id
  | Err Panicked => False
  end.

Lemma refers_edge m a b : map_wf m -> refers m a b <-> a <> b /\ (a, b) ∈ edges m.
Proof. intros Hw. unfold refers. rewrite edges_elem by done. naive_solver. Qed.

(** The graph that connecting leaves, before its paths are sorted. *)
Lemma connect_all {E} m : map_wf m -> keyed m ->
  exists c, connect_records (E := E) m = Ok (tidied c) /\ connected m (edges m) c.
Proof.
  intros Hw Hk. destruct (connect_edges_connected m Hk (E := E) (edges m) [] m) as (c & Hfold & Hc).
  - by apply connected_start.
  - intros a b Hab. apply edges_elem in Hab as (r & -> & _); [by eexists|done].
  - exists c. split; [|done]. unfold connect_records. by rewrite Hfold.
Qed.

(** C38: explaining an identity of a graph that is keyed by identities never
    panics.  It finds exactly the identities that have a record or that a record
    mentions, the latter as a placeholder; it answers with the evidence as it
    was, and relates the identity, besides what it was related to, to exactly
    those it mentions and those that mention it, so that references can be
    followed in both directions. *)
Theorem explain_spec (m : Graph) (id : string) :
  map_wf m -> keyed m -> explained m id (explain m id).
Proof.
  intros Hw Hk. unfold explain. destruct (connect_all (E := InspectionError) m Hw Hk) as (c & -> & Hc).
  cbn [mbind result_bind]. unfold tidied. rewrite map_get_fmap. specialize (Hc id).
  destruct (map_get id c) as [r|]; cbn.
  - destruct Hc as (He & Hx & Hs). split; [done|]. split; [exact He|]. split.
    + intros x. rewrite Hx, !refers_edge by done. naive_solver.
    + destruct Hs as [|(a & ? & ?)]; [by left|right]. exists a. by apply refers_edge.
  - destruct Hc as (Hn & Ha & _). split; [done|]. split; [done|].
    intros a Hr. apply refers_edge in Hr as [Hne Hin]; [|done]. by apply Hne, Ha.
Qed.

(** An attempt that mentions a slot without a record. *)
Definition sample_digest : string := "0123456789abcdef0123456789abcdef0123456789abcdef0123456789abcdef".
Definition sample_attempt : string := "mw1-attempt-" +:+ sample_digest.
Definition sample_slot : string := "mw1-resolved-slot-" +:+ sample_digest.
Definition sample_graph : Graph := [
  (sample_attempt, Record.new sample_attempt "attempt" (object [("slot", Str sample_slot); ("note", Str "mw1-x")]))].
Lemma sample_graph_wf : map_wf sample_graph.
Proof. repeat constructor. Qed.
Lemma sample_graph_keyed : keyed sample_graph.
Proof.
  intros k r. cbn [sample_graph map_get]. destruct (String.eqb_spec k sample_attempt) as [->|]; [|done].
  by intros [= <-].
Qed.
Lemma sample_explained :
  match explain sample_graph sample_slot with
  | Ok e => ir_related (ex_subject e) = [sample_attempt] /\ ir_kind (ex_subject e) = "resolved-slot"
  | Err _ => False
  end.
Proof. vm_compute. done. Qed.
Lemma explain_spec_witness :
  match explain sample_graph sample_slot with
  | Ok e => ir_related (ex_subject e) = [sample_attempt] /\ ir_kind (ex_subject e) = "resolved-slot"
  | Err _ => False
  end /\ explained sample_graph sample_slot (explain sample_graph sample_slot).
Proof. split; [exact sample_explained|]. apply (explain_spec sample_graph sample_slot); [exact sample_graph_wf|exact sample_graph_keyed]. Defined.
