(* ===== verification/Export.v ===== *)
(** * Export of results (src/core/export.rs, src/runtime/export.rs)

    The records of an export, their projection to tidy rows with one row per
    metric, the selection of records by identity, the lineage manifest and the
    CSV table.  JSON pointer lookup is an argument; collecting the records from
    artifact directories and writing the destination are not modelled. *)
From S2P Require Import Prelude Json Canonical Identity ThirdPartyModel Records Manifest Expansion ArchiveValidation Framing Selection.
From Stdlib Require Import Ascii.

(** ** Text *)

(** [str::replace] of a character. *)
Definition replace_bytes (c : ascii) (by_ : bytes) : bytes -> bytes :=
  flat_map (fun b => if Ascii.eqb b c then by_ else [b]).
Definition replace_char (c : ascii) (by_ s : string) : string :=
  string_of (replace_bytes c (bytes_of by_) (bytes_of s)).

Definition QUOTE : ascii := ascii_of_nat 34.
Definition CR : ascii := ascii_of_nat 13.
Definition LF : ascii := ascii_of_nat 10.
Definition CRLF : bytes := [CR; LF].

(** ** Records *)

Inductive ExportRecordType := SlotRecord | ApplicabilityRecord | AttemptRecord | ObservationRecord | TraceRecord.
#[export] Instance ExportRecordType_eq_dec : EqDecision ExportRecordType.
Proof. solve_decision. Defined.
Definition type_name (t : ExportRecordType) : string :=
  match t with
  | SlotRecord => "slot" | ApplicabilityRecord => "applicability" | AttemptRecord => "attempt"
  | ObservationRecord => "observation" | TraceRecord => "trace"
  end.

Definition EXPORT_SCHEMA_VERSION : Z := 1.

Record CompatibilityClass := {
  cc_profile : option value;
  cc_execution_semantics_version : option Z;
  cc_timing_scope : option string;
  cc_primary_time : option string;
  cc_environment_class : option string;
  cc_control_class : string;
  cc_control_evidence : string;
  cc_controls : value;
  cc_execution_policy : value;
  cc_measurements_version : option Z;
  cc_accounting : value;
  cc_unclassified_record : option string;
}.

Record ExportRecord := {
  xr_profile : option value;
  xr_schema_version : Z;
  xr_record_type : ExportRecordType;
  xr_id : string;
  xr_candidate_id : string;
  xr_logical_run_id : option string;
  xr_resolved_run_id : option string;
  xr_logical_slot_id : option string;
  xr_resolved_slot_id : option string;
  xr_logical_observation_slot_id : option string;
  xr_resolved_observation_slot_id : option string;
  xr_attempt_id : option string;
  xr_retry_index : option Z;
  xr_attempt_state : option string;
  xr_outcome : option string;
  xr_valid : option bool;
  xr_selected : option bool;
  xr_completion : option string;
  xr_failure_code : option string;
  xr_warmup : option bool;
  xr_compatibility_id : string;
  xr_compatibility : CompatibilityClass;
  xr_timing : value;
  xr_metrics : value;
  xr_metric_schema : option string;
  xr_result_schema : option string;
  xr_provenance : value;
  xr_evidence : value;
}.

Record TidyRow := {
  tr_active_time_ns : option Z;
  tr_elapsed_wall_time_ns : option Z;
  tr_checkpoint_sequence : option Z;
  tr_instrumented_time_ns : option Z;
  tr_instrumented_total_time_ns : option Z;
  tr_provisional_metric_name : option string;
  tr_provisional_metric_value : option value;
  tr_record : ExportRecord;
  tr_metric_name : option string;
  tr_metric_value : value;
  tr_metric_unit : option string;
  tr_metric_direction : option string;
  tr_timed_wall_time_ns : option Z;
  tr_timed_wall_time_status : string;
  tr_implementation_time_ns : option Z;
  tr_evaluation_time_ns : option Z;
  tr_cpu_time_ns : option Z;
  tr_cpu_time_status : string;
  tr_peak_rss_bytes : option Z;
  tr_peak_rss_status : string;
}.

(** *** Their serialization *)

Definition class_fields (c : CompatibilityClass) : list (string * value) :=
  field_if "profile" Datatypes.id (cc_profile c) ++ [
  ("execution_semantics_version", optional json_u64 (cc_execution_semantics_version c));
  ("timing_scope", optional Str (cc_timing_scope c));
  ("primary_time", optional Str (cc_primary_time c));
  ("environment_class", optional Str (cc_environment_class c));
  ("control_class", Str (cc_control_class c));
  ("control_evidence", Str (cc_control_evidence c));
  ("controls", cc_controls c);
  ("execution_policy", cc_execution_policy c);
  ("measurements_version", optional json_u64 (cc_measurements_version c));
  ("accounting", cc_accounting c);
  ("unclassified_record", optional Str (cc_unclassified_record c))].

Definition record_fields (r : ExportRecord) : list (string * value) :=
  field_if "profile" Datatypes.id (xr_profile r) ++ [
  ("schema_version", json_u64 (xr_schema_version r));
  ("record_type", Str (type_name (xr_record_type r)));
  ("id", Str (xr_id r));
  ("candidate_id", Str (xr_candidate_id r));
  ("logical_run_id", optional Str (xr_logical_run_id r));
  ("resolved_run_id", optional Str (xr_resolved_run_id r));
  ("logical_slot_id", optional Str (xr_logical_slot_id r));
  ("resolved_slot_id", optional Str (xr_resolved_slot_id r));
  ("logical_observation_slot_id", optional Str (xr_logical_observation_slot_id r));
  ("resolved_observation_slot_id", optional Str (xr_resolved_observation_slot_id r));
  ("attempt_id", optional Str (xr_attempt_id r));
  ("retry_index", optional json_u64 (xr_retry_index r));
  ("attempt_state", optional Str (xr_attempt_state r));
  ("outcome", optional Str (xr_outcome r));
  ("valid", optional Bool (xr_valid r));
  ("selected", optional Bool (xr_selected r));
  ("completion", optional Str (xr_completion r));
  ("failure_code", optional Str (xr_failure_code r));
  ("warmup", optional Bool (xr_warmup r));
  ("compatibility_id", Str (xr_compatibility_id r));
  ("compatibility", object (class_fields (xr_compatibility r)));
  ("timing", xr_timing r);
  ("metrics", xr_metrics r);
  ("metric_schema", optional Str (xr_metric_schema r));
  ("result_schema", optional Str (xr_result_schema r));
  ("provenance", xr_provenance r);
  ("evidence", xr_evidence r)].

(** The fields of the record are flattened into the row. *)
Definition row_fields (r : TidyRow) : list (string * value) :=
  field_if "active_time_ns" json_u64 (tr_active_time_ns r) ++
  field_if "elapsed_wall_time_ns" json_u64 (tr_elapsed_wall_time_ns r) ++
  field_if "checkpoint_sequence" json_u64 (tr_checkpoint_sequence r) ++
  field_if "instrumented_time_ns" json_u64 (tr_instrumented_time_ns r) ++
  field_if "instrumented_total_time_ns" json_u64 (tr_instrumented_total_time_ns r) ++
  field_if "provisional_metric_name" Str (tr_provisional_metric_name r) ++
  field_if "provisional_metric_value" Datatypes.id (tr_provisional_metric_value r) ++
  record_fields (tr_record r) ++ [
  ("metric_name", optional Str (tr_metric_name r));
  ("metric_value", tr_metric_value r);
  ("metric_unit", optional Str (tr_metric_unit r));
  ("metric_direction", optional Str (tr_metric_direction r));
  ("timed_wall_time_ns", optional json_u64 (tr_timed_wall_time_ns r));
  ("timed_wall_time_status", Str (tr_timed_wall_time_status r));
  ("implementation_time_ns", optional json_u64 (tr_implementation_time_ns r));
  ("evaluation_time_ns", optional json_u64 (tr_evaluation_time_ns r));
  ("cpu_time_ns", optional json_u64 (tr_cpu_time_ns r));
  ("cpu_time_status", Str (tr_cpu_time_status r));
  ("peak_rss_bytes", optional json_u64 (tr_peak_rss_bytes r));
  ("peak_rss_status", Str (tr_peak_rss_status r))].
Definition row_value (r : TidyRow) : value := object (row_fields r).

(** ** Metrics *)

Definition escape_key (key : string) : string :=
  replace_char "/" "~1" (replace_char "~" "~0" key).
(** Objects are kept in the order of their keys, in which they are visited. *)
Fixpoint visit (v : value) (at_ : string) : list (string * value) :=
  match v with
  | Object ((_ :: _) as fields) =>
      flat_map (fun kv => visit kv.2 (at_ +:+ "/" +:+ escape_key kv.1)) fields
  | _ => [(at_, v)]
  end.
Definition metric_values (v : value) : list (string * value) :=
  match v with Object (_ :: _) => visit v "" | _ => [] end.

(** [ExportRecord::measurement]. *)
Definition measurement (key : string) (r : ExportRecord) : option Z * string :=
  match value_u64 (index (xr_timing r) key) with
  | Some n => (Some n, "complete")
  | None =>
      let found := match as_object (xr_timing r) ≫= map_get key with
        | Some (Object m) => Object m
        | _ => index (index (index (xr_provenance r) "data") "measurements") key
        end in
      (value_u64 (index found "value"), default "unavailable" (as_str (index found "status")))
  end.

Definition without_metrics (r : ExportRecord) : ExportRecord := {|
  xr_profile := xr_profile r;
  xr_schema_version := xr_schema_version r;
  xr_record_type := xr_record_type r;
  xr_id := xr_id r;
  xr_candidate_id := xr_candidate_id r;
  xr_logical_run_id := xr_logical_run_id r;
  xr_resolved_run_id := xr_resolved_run_id r;
  xr_logical_slot_id := xr_logical_slot_id r;
  xr_resolved_slot_id := xr_resolved_slot_id r;
  xr_logical_observation_slot_id := xr_logical_observation_slot_id r;
  xr_resolved_observation_slot_id := xr_resolved_observation_slot_id r;
  xr_attempt_id := xr_attempt_id r;
  xr_retry_index := xr_retry_index r;
  xr_attempt_state := xr_attempt_state r;
  xr_outcome := xr_outcome r;
  xr_valid := xr_valid r;
  xr_selected := xr_selected r;
  xr_completion := xr_completion r;
  xr_failure_code := xr_failure_code r;
  xr_warmup := xr_warmup r;
  xr_compatibility_id := xr_compatibility_id r;
  xr_compatibility := xr_compatibility r;
  xr_timing := xr_timing r;
  xr_metrics := Null;
  xr_metric_schema := xr_metric_schema r;
  xr_result_schema := xr_result_schema r;
  xr_provenance := xr_provenance r;
  xr_evidence := xr_evidence r;
|}.

Section Rows.
(** [Value::pointer]. *)
Context (pointer : value -> string -> option value).

Definition profile_u64 (key : string) (r : ExportRecord) : option Z :=
  p ← xr_profile r; value_u64 (index p key).

Definition tidy_row (r : ExportRecord) (diagnostic : bool) (metric : option string * value) : TidyRow :=
  let '(metric_name, metric_value) := metric in
  let timed_wall_time := measurement "timed_wall_time_ns" r in
  let cpu_time := measurement "cpu_time_ns" r in
  let peak_rss := measurement "peak_rss_bytes" r in
  let provisional :=
    name ← metric_name; p ← xr_profile r; pointer (index p "provisional_metrics") name in
  {| tr_active_time_ns := profile_u64 "active_time_ns" r;
     tr_elapsed_wall_time_ns := profile_u64 "elapsed_wall_time_ns" r;
     tr_checkpoint_sequence := profile_u64 "checkpoint_sequence" r;
     tr_instrumented_time_ns := profile_u64 "instrumented_time_ns" r;
     tr_instrumented_total_time_ns := profile_u64 "instrumented_total_time_ns" r;
     tr_provisional_metric_name := if diagnostic then metric_name else None;
     tr_provisional_metric_value := if diagnostic then Some metric_value else provisional;
     tr_record := without_metrics r;
     tr_metric_name := if diagnostic then None else metric_name;
     tr_metric_value := if diagnostic then Null else metric_value;
     tr_metric_unit := None;
     tr_metric_direction := None;
     tr_timed_wall_time_ns := timed_wall_time.1;
     tr_timed_wall_time_status := timed_wall_time.2;
     tr_implementation_time_ns := value_u64 (index (xr_timing r) "implementation_time_ns");
     tr_evaluation_time_ns := (measurement "evaluation_time_ns" r).1;
     tr_cpu_time_ns := cpu_time.1;
     tr_cpu_time_status := cpu_time.2;
     tr_peak_rss_bytes := peak_rss.1;
     tr_peak_rss_status := peak_rss.2 |}.

(** [ExportRecord::tidy_rows]. *)
Definition tidy_rows (r : ExportRecord) : list TidyRow :=
  let diagnostic := bool_decide (xr_record_type r = TraceRecord) in
  let values :=
    if diagnostic then
      metric_values (default Null ((fun p => index p "provisional_metrics") <$> xr_profile r))
    else metric_values (xr_metrics r) in
  let values := match values with
    | [] => [(None, Null)]
    | _ => map (fun metric => (Some metric.1, metric.2)) values
    end in
  map (tidy_row r diagnostic) values.
End Rows.

(** ** Tables *)

Inductive ExportError :=
  | ExportCanonical (e : CanonicalJsonError)
  | ExportUnknownIdentity (id : string).

(** [csv_cell]. *)
Definition special (b : ascii) : bool :=
  Ascii.eqb b "," || Ascii.eqb b QUOTE || Ascii.eqb b CR || Ascii.eqb b LF.
Definition csv_cell (cell : string) : string :=
  if existsb special (bytes_of cell) then
    string_of (QUOTE :: replace_bytes QUOTE [QUOTE; QUOTE] (bytes_of cell) ++ [QUOTE])
  else cell.

Definition COLUMNS : list string := [
  "schema_version"; "record_type"; "id"; "candidate_id"; "logical_run_id"; "resolved_run_id";
  "logical_slot_id"; "resolved_slot_id"; "logical_observation_slot_id";
  "resolved_observation_slot_id"; "attempt_id"; "retry_index"; "attempt_state"; "outcome"; "valid";
  "selected"; "completion"; "failure_code"; "warmup"; "compatibility_id"; "timing_scope";
  "primary_time"; "environment_class"; "control_class"; "control_evidence"; "metric_name";
  "metric_value"; "metric_unit"; "metric_direction"; "instrumented_time_ns"; "active_time_ns";
  "elapsed_wall_time_ns"; "checkpoint_sequence"; "instrumented_total_time_ns";
  "provisional_metric_name"; "provisional_metric_value"; "profile"; "timed_wall_time_ns";
  "timed_wall_time_status"; "implementation_time_ns"; "evaluation_time_ns"; "cpu_time_ns";
  "cpu_time_status"; "peak_rss_bytes"; "peak_rss_status"; "metric_schema"; "result_schema";
  "timing"; "compatibility"; "provenance"; "evidence"].
Definition COMPATIBILITY_COLUMNS : list string :=
  ["timing_scope"; "primary_time"; "environment_class"; "control_class"; "control_evidence"].

Section Tables.
Context `{ThirdParty}.

Definition canonical_cell (v : value) : result ExportError bytes :=
  c ← map_err (fun e => ExportCanonical (InvalidValue e)) (try_from v);
  map_err ExportCanonical (to_canonical_bytes c).
(** [String::from_utf8(canonical_bytes(value)?).expect(..)]. *)
Definition canonical_text (v : value) : result (failure ExportError) string :=
  b ← lift (canonical_cell v);
  match utf8_error 0 b with None => Ok (string_of b) | Some _ => Err Panicked end.
Definition cell_text (row : value) (column : string) : result (failure ExportError) string :=
  let v := if existsb (String.eqb column) COMPATIBILITY_COLUMNS
    then index (index row "compatibility") column else index row column in
  if String.eqb column "metric_value" then canonical_text v
  else match v with
    | Null => Ok ""
    | Str s => Ok s
    | _ => canonical_text v
    end.
Definition row_cells (r : TidyRow) : result (failure ExportError) (list string) :=
  mapM (cell_text (row_value r)) COLUMNS.

Definition csv (rows : list TidyRow) : result (failure ExportError) bytes :=
  try_fold (fun output r =>
    cells ← row_cells r;
    Ok (output ++ bytes_of (String.concat "," (map csv_cell cells)) ++ CRLF))
    (bytes_of (String.concat "," COLUMNS) ++ CRLF) rows.

Definition json_lines (rows : list TidyRow) : result ExportError bytes :=
  try_fold (fun output r => line ← canonical_cell (row_value r); Ok (output ++ line ++ [LF])) [] rows.
End Tables.

(** ** Selection *)

Definition selection_ids (r : ExportRecord) : list string :=
  omap Datatypes.id [
    Some (xr_id r); Some (xr_candidate_id r); xr_logical_run_id r; xr_resolved_run_id r;
    xr_logical_slot_id r; xr_resolved_slot_id r; xr_logical_observation_slot_id r;
    xr_resolved_observation_slot_id r; xr_attempt_id r;
    as_str (index (index (xr_evidence r) "source") "slot_id");
    as_str (index (index (xr_evidence r) "resolved_run") "applicability_id")].

(** The records an identity names, if there are any. *)
Definition select_id (records : list ExportRecord) (selected : list string) (id : string)
    : result ExportError (list string) :=
  match List.filter (fun r => bool_decide (id ∈ selection_ids r)) records with
  | [] => Err (ExportUnknownIdentity id)
  | named => Ok (selected ++ map xr_id named)
  end.
Definition select (records : list ExportRecord) (ids : list string) : result ExportError (list ExportRecord) :=
  match ids with
  | [] => Ok records
  | _ =>
      selected ← try_fold (select_id records) [] ids;
      let chosen := List.filter (fun r => bool_decide (xr_id r ∈ selected)) records in
      let attempts := omap xr_attempt_id chosen in
      let candidates := map xr_candidate_id chosen in
      Ok (List.filter (fun r =>
        bool_decide (xr_id r ∈ selected)
        || match xr_attempt_id r with Some id => bool_decide (id ∈ attempts) | None => false end
        || (bool_decide (xr_record_type r = ApplicabilityRecord)
            && bool_decide (xr_candidate_id r ∈ candidates))) records)
  end.

(** ** Lineage *)

Record ExportManifest := {
  xm_schema_version : Z;
  xm_tool_version : string;
  xm_selector : list string;
  xm_candidate_ids : list string;
  xm_attempt_ids : list string;
  xm_observation_ids : list string;
  xm_result_schemas : list string;
  xm_metric_schemas : list string;
  xm_compatibility_classes : BTreeMap CompatibilityClass;
  xm_files : BTreeMap string;
}.
Definition ids_of_type (t : ExportRecordType) (records : list ExportRecord) : list string :=
  map xr_id (List.filter (fun r => bool_decide (xr_record_type r = t)) records).
Definition lineage (tool_version : string) (records : list ExportRecord) (ids : list string) : ExportManifest := {|
  xm_schema_version := EXPORT_SCHEMA_VERSION;
  xm_tool_version := tool_version;
  xm_selector := string_set ids;
  xm_candidate_ids := string_set (map xr_candidate_id records);
  xm_attempt_ids := ids_of_type AttemptRecord records;
  xm_observation_ids := ids_of_type ObservationRecord records;
  xm_result_schemas := string_set (omap xr_result_schema records);
  xm_metric_schemas := string_set (omap xr_metric_schema records);
  xm_compatibility_classes := map_collect (map (fun r => (xr_compatibility_id r, xr_compatibility r)) records);
  xm_files := [];
|}.

(** ** A reader of tables

    RFC 4180: cells are separated by commas, rows end in CRLF, a quoted cell may
    hold any byte and doubles its quotes. *)
Inductive cell_state := CellStart | Plain | Quoted | QuoteSeen | Return.
Fixpoint read_cells (st : cell_state) (cell : bytes) (row : list string) (rows : list (list string))
    (input : bytes) : option (list (list string)) :=
  match input with
  | [] => match st, row with CellStart, [] => Some rows | _, _ => None end
  | b :: rest =>
      match st with
      | Quoted =>
          if Ascii.eqb b QUOTE then read_cells QuoteSeen cell row rows rest
          else read_cells Quoted (cell ++ [b]) row rows rest
      | Return =>
          if Ascii.eqb b LF then read_cells CellStart [] [] (rows ++ [row ++ [string_of cell]]) rest else None
      | _ =>
          if Ascii.eqb b "," then read_cells CellStart [] (row ++ [string_of cell]) rows rest
          else if Ascii.eqb b CR then read_cells Return cell row rows rest
          else if Ascii.eqb b QUOTE then
            match st with
            | CellStart => read_cells Quoted cell row rows rest
            | QuoteSeen => read_cells Quoted (cell ++ [QUOTE]) row rows rest
            | _ => None
            end
          else if Ascii.eqb b LF then None
          else match st with
               | QuoteSeen => None
               | _ => read_cells Plain (cell ++ [b]) row rows rest
               end
      end
  end.
Definition read_csv (input : bytes) : option (list (list string)) := read_cells CellStart [] [] [] input.

(** The state after a whole cell: it reads a separator like any other one. *)
Definition closed (st : cell_state) : bool := match st with Quoted | Return => false | _ => true end.

Lemma read_comma st cell row rows rest : closed st = true ->
  read_cells st cell row rows ("," :: rest)%char = read_cells CellStart [] (row ++ [string_of cell]) rows rest.
Proof. by destruct st. Qed.
Lemma read_end st cell row rows rest : closed st = true ->
  read_cells st cell row rows (CRLF ++ rest) = read_cells CellStart [] [] (rows ++ [row ++ [string_of cell]]) rest.
Proof. by destruct st. Qed.

Lemma read_plain text rest row rows : forall st cell,
  existsb special text = false -> st = CellStart \/ st = Plain ->
  exists st', closed st' = true /\
    read_cells st cell row rows (text ++ rest) = read_cells st' (cell ++ text) row rows rest.
Proof.
  induction text as [|b text IH]; intros st cell Hs Hst.
  - exists st. rewrite app_nil_r. by destruct Hst as [-> | ->].
  - cbn in Hs. apply orb_false_iff in Hs as [Hb Hs].
    destruct (IH Plain (cell ++ [b]) Hs ltac:(by right)) as (st' & Hc & Hread).
    exists st'. split; [done|]. rewrite <-app_assoc in Hread. cbn in Hread. rewrite <-Hread. unfold special in Hb.
    repeat apply orb_false_iff in Hb as [Hb ?].
    destruct Hst as [-> | ->]; cbn [app read_cells]; rewrite Hb, H, H0, H1; reflexivity.
Qed.

Lemma read_quoted text rest row rows : forall cell,
  read_cells Quoted cell row rows (replace_bytes QUOTE [QUOTE; QUOTE] text ++ QUOTE :: rest)
  = read_cells QuoteSeen (cell ++ text) row rows rest.
Proof.
  induction text as [|b text IH]; intros cell; [by rewrite app_nil_r|].
  cbn [replace_bytes flat_map]. fold (replace_bytes QUOTE [QUOTE; QUOTE]).
  destruct (Ascii.eqb_spec b QUOTE) as [->|Hb]; cbn [app read_cells].
  - cbn [Ascii.eqb QUOTE]. rewrite Ascii.eqb_refl. cbn. rewrite IH, <-app_assoc. done.
  - destruct (Ascii.eqb_spec b QUOTE) as [|_]; [done|]. rewrite IH, <-app_assoc. done.
Qed.

(** Whatever a cell holds, reading it gives it back. *)
Lemma read_cell text rest row rows :
  exists st, closed st = true /\
    read_cells CellStart [] row rows (bytes_of (csv_cell text) ++ rest)
    = read_cells st (bytes_of text) row rows rest.
Proof.
  unfold csv_cell. destruct (existsb special (bytes_of text)) eqn:Hs.
  - exists QuoteSeen. split; [done|]. rewrite bytes_of_string_of. cbn [app].
    rewrite <-app_assoc. cbn [app]. apply (read_quoted (bytes_of text) rest row rows []).
  - apply (read_plain _ rest row rows CellStart []); [done|by left].
Qed.

Lemma read_row cells rest : forall row rows, cells <> [] ->
  read_cells CellStart [] row rows (bytes_of (String.concat "," (map csv_cell cells)) ++ CRLF ++ rest)
  = read_cells CellStart [] [] (rows ++ [row ++ cells]) rest.
Proof.
  induction cells as [|c cells IH]; intros row rows Hne; [done|].
  destruct cells as [|d cells].
  - cbn [map String.concat]. destruct (read_cell c (CRLF ++ rest) row rows) as (st & Hst & ->).
    by rewrite read_end, string_of_bytes_of.
  - change (String.concat "," (map csv_cell (c :: d :: cells)))
      with (csv_cell c +:+ String "," (String.concat "," (map csv_cell (d :: cells)))).
    rewrite bytes_of_app, <-app_assoc.
    destruct (read_cell c (bytes_of (String "," (String.concat "," (map csv_cell (d :: cells)))) ++ CRLF ++ rest) row rows)
      as (st & Hst & ->).
    change (bytes_of (String "," ?s) ++ ?k) with (","%char :: (bytes_of s ++ k)).
    rewrite read_comma, string_of_bytes_of, IH by done. by rewrite <-app_assoc.
Qed.

(** ** What the table holds *)

(** Values that the canonical serializer is defined on. *)
Definition serializable (v : value) : Prop := in_domain v = true /\ value_wf v.
Lemma serializable_index v key : serializable v -> serializable (index v key).
Proof.
  intros [Hd Hw]. destruct v as [| | | | |m]; try done. cbn [index].
  destruct (map_get key m) as [w|] eqn:E; [|done]. apply map_get_elem in E.
  apply value_numbers_object in Hd. apply value_wf_object in Hw as [_ Hw].
  rewrite Forall_forall in Hd, Hw. split; [exact (Hd _ E)|exact (Hw _ E)].
Qed.

Lemma mapM_cons_Ok {E A B} (f : A -> result E B) x l y k :
  f x = Ok y -> mapM f l = Ok k -> mapM f (x :: l) = Ok (y :: k).
Proof. intros Hx Hl. cbn. by rewrite Hx, Hl. Qed.
Lemma mapM_total {E A B} (f : A -> result E B) l :
  (forall x, x ∈ l -> exists y, f x = Ok y) -> exists k, mapM f l = Ok k /\ length k = length l.
Proof.
  induction l as [|x l IH]; intros Hf; [by exists []|].
  destruct (Hf x ltac:(left)) as [y Hy]. destruct IH as (k & Hk & Hlen); [set_solver|].
  exists (y :: k). split; [by apply mapM_cons_Ok|]. cbn. by rewrite Hlen.
Qed.

Section Reading.
Context `{ThirdPartyLaws}.
(** JSON text is UTF-8. *)
Context (to_vec_utf8 : forall v b, to_vec v = Some b -> utf8_error 0 b = None).

Lemma canonical_text_total v : serializable v -> exists s, canonical_text v = Ok s.
Proof.
  intros [Hd Hw]. unfold canonical_text, canonical_cell, try_from, to_canonical_bytes.
  rewrite normalize_value_canonical by done. destruct (to_vec_total v Hd Hw) as [b Hb].
  cbn. rewrite Hb. cbn. rewrite (to_vec_utf8 v b Hb). by eexists.
Qed.
Lemma row_cells_total r : serializable (row_value r) ->
  exists cells, row_cells r = Ok cells /\ length cells = length COLUMNS.
Proof.
  intros Hr. apply mapM_total. intros column _. unfold cell_text.
  assert (serializable (if existsb (String.eqb column) COMPATIBILITY_COLUMNS
    then index (index (row_value r) "compatibility") column else index (row_value r) column)) as Hv.
  { destruct (existsb _ _); repeat apply serializable_index; done. }
  set (v := if existsb _ _ then _ else _) in *. clearbody v.
  destruct (String.eqb _ _); [by apply canonical_text_total|].
  destruct v; try (by eexists); by apply canonical_text_total.
Qed.

Lemma csv_rows rows : forall output table,
  Forall (fun r => serializable (row_value r)) rows ->
  (forall rest, read_cells CellStart [] [] [] (output ++ rest) = read_cells CellStart [] [] table rest) ->
  exists output' cells,
    try_fold (fun output r =>
      cells ← row_cells r;
      Ok (output ++ bytes_of (String.concat "," (map csv_cell cells)) ++ CRLF)) output rows = Ok output' /\
    mapM row_cells rows = Ok cells /\ Forall (fun row => length row = length COLUMNS) cells /\
    read_csv output' = Some (table ++ cells).
Proof.
  induction rows as [|r rows IH]; intros output table Hrows Hread.
  - exists output, []. split; [done|]. split; [done|]. split; [constructor|]. unfold read_csv.
    specialize (Hread []). rewrite app_nil_r in Hread. rewrite Hread, app_nil_r. done.
  - inversion_clear Hrows as [|? ? Hr Hrest]. destruct (row_cells_total r Hr) as (row & Hrow & Hlen).
    destruct (IH (output ++ bytes_of (String.concat "," (map csv_cell row)) ++ CRLF) (table ++ [row]) Hrest)
      as (output' & cells & Hfold & Hmap & Hcells & Hout).
    { intros rest. rewrite <-!app_assoc, Hread. apply (read_row row rest [] table). by intros ->. }
    exists output', (row :: cells). cbn [try_fold]. rewrite Hrow. cbn [mbind result_bind].
    split; [exact Hfold|]. split; [exact (mapM_cons_Ok _ _ _ _ _ Hrow Hmap)|]. split; [by constructor|].
    rewrite Hout, <-app_assoc. done.
Qed.
End Reading.

(** C39: a table is always written, and reading it by RFC 4180 gives back the
    header and, for every row in order, the text of each of its cells, one per
    column, whatever commas, quotes and line breaks the cells hold.  The rows are
    any whose JSON is in the domain of canonical JSON. *)
Theorem csv_reads_back `{ThirdPartyLaws} (rows : list TidyRow) :
  (forall v b, to_vec v = Some b -> utf8_error 0 b = None) ->
  Forall (fun r => serializable (row_value r)) rows ->
  exists output cells,
    csv rows = Ok output /\ mapM row_cells rows = Ok cells /\
    Forall (fun row => length row = length COLUMNS) cells /\
    read_csv output = Some (COLUMNS :: cells).
Proof.
  intros Hutf8 Hrows. apply (csv_rows Hutf8 rows _ [COLUMNS] Hrows). intros rest.
  rewrite <-app_assoc. exact (read_row COLUMNS rest [] [] ltac:(done)).
Qed.

(** *** A row with awkward cells *)

Definition awkward : string := "a,b" +:+ String QUOTE (String CR (String LF "c")).
Definition sample_class : CompatibilityClass := {|
  cc_profile := None; cc_execution_semantics_version := Some 1%Z; cc_timing_scope := Some "fit";
  cc_primary_time := None; cc_environment_class := Some awkward; cc_control_class := "none";
  cc_control_evidence := "complete"; cc_controls := Null; cc_execution_policy := Null;
  cc_measurements_version := Some 1%Z; cc_accounting := Null; cc_unclassified_record := None |}.
Definition sample_metrics : value :=
  object [("a/b", json_u64 1); ("fit", object [("l~1", Str awkward); ("l/", Array [Null; Bool true])])].
Definition sample_export : ExportRecord := {|
  xr_profile := None; xr_schema_version := EXPORT_SCHEMA_VERSION; xr_record_type := ObservationRecord;
  xr_id := "observation"; xr_candidate_id := "candidate"; xr_logical_run_id := None; xr_resolved_run_id := None;
  xr_logical_slot_id := None; xr_resolved_slot_id := Some "slot"; xr_logical_observation_slot_id := None;
  xr_resolved_observation_slot_id := None; xr_attempt_id := Some "attempt"; xr_retry_index := Some 0%Z;
  xr_attempt_state := Some "accepted"; xr_outcome := Some awkward; xr_valid := Some true; xr_selected := Some true;
  xr_completion := None; xr_failure_code := None; xr_warmup := Some false; xr_compatibility_id := "class";
  xr_compatibility := sample_class; xr_timing := object [("cpu_time_ns", json_u64 7)]; xr_metrics := sample_metrics;
  xr_metric_schema := None; xr_result_schema := None; xr_provenance := Null; xr_evidence := Null |}.
Definition sample_rows : list TidyRow := tidy_rows (fun _ _ => None) sample_export.

(** Well-formedness, as a test. *)
Fixpoint keys_increase (l : list string) : bool :=
  match l with
  | [] => true
  | k :: l => forallb (fun j => match String.compare k j with Lt => true | _ => false end) l && keys_increase l
  end.
Fixpoint well_formed (v : value) : bool :=
  match v with
  | Array l => forallb well_formed l
  | Object m => keys_increase m.*1 && forallb (fun kv => well_formed kv.2) m
  | _ => true
  end.
Lemma keys_increase_sorted l : keys_increase l = true -> StronglySorted key_lt l.
Proof.
  induction l as [|k l IH]; [constructor|]. cbn. intros [Hk Hl]%andb_true_iff. constructor; [by apply IH|].
  apply forallb_Forall_iff in Hk. eapply Forall_impl; [exact Hk|]. intros j Hj. unfold key_lt. cbn in Hj.
  by destruct (String.compare k j).
Qed.
Lemma well_formed_wf v : well_formed v = true -> value_wf v.
Proof.
  induction v as [| | | |l IH|m IH] using value_ind'; intros Hv; try done.
  - apply value_wf_array. cbn in Hv. apply forallb_Forall_iff in Hv.
    induction IH; inversion Hv; subst; constructor; auto.
  - apply value_wf_object. cbn in Hv. apply andb_true_iff in Hv as [Hk Hv].
    split; [by apply keys_increase_sorted|]. apply forallb_Forall_iff in Hv. clear Hk.
    induction IH; inversion Hv; subst; constructor; auto.
Qed.

Lemma sample_rows_serializable : Forall (fun r => serializable (row_value r)) sample_rows.
Proof.
  assert (forallb (fun r => in_domain (row_value r) && well_formed (row_value r)) sample_rows = true) as H
    by (vm_compute; reflexivity).
  apply forallb_Forall_iff in H. eapply Forall_impl; [exact H|]. intros r [Hd Hw]%andb_true_iff.
  split; [exact Hd|by apply well_formed_wf].
Qed.
Lemma model_ascii l : utf8_error 0 (map bit l) = None.
Proof.
  generalize 0%Z. induction l as [|b l IH]; intros n; [done|]. destruct b; cbn; apply IH.
Qed.
Lemma model_utf8 v b : @to_vec model v = Some b -> utf8_error 0 b = None.
Proof. intros [= <-]. apply model_ascii. Qed.
Lemma csv_reads_back_witness :
  length sample_rows = 3%nat /\
  exists output cells,
    @csv model sample_rows = Ok output /\ mapM (@row_cells model) sample_rows = Ok cells /\
    Forall (fun row => length row = length COLUMNS) cells /\
    read_csv output = Some (COLUMNS :: cells).
Proof.
  split; [reflexivity|].
  exact (@csv_reads_back model model_laws sample_rows model_utf8 sample_rows_serializable).
Defined.

(** ** Metric coordinates

    RFC 6901: a pointer is the concatenation of its keys, each after a slash and
    with its tildes and slashes escaped.  An escape is a tilde before 0 or 1. *)
Definition SLASH : ascii := "/".
Definition TILDE : ascii := "~".
Definition extend (b : ascii) (o : option (list bytes)) : option (list bytes) :=
  match o with Some (key :: keys) => Some ((b :: key) :: keys) | _ => None end.
Fixpoint pointer_keys (input : bytes) : option (list bytes) :=
  match input with
  | [] => Some [[]]
  | b :: rest =>
      if Ascii.eqb b SLASH then keys ← pointer_keys rest; Some ([] :: keys)
      else if Ascii.eqb b TILDE then
        match rest with
        | c :: rest' =>
            if Ascii.eqb c "0" then extend TILDE (pointer_keys rest')
            else if Ascii.eqb c "1" then extend SLASH (pointer_keys rest')
            else None
        | [] => None
        end
      else extend b (pointer_keys rest)
  end.
Definition pointer_path (at_ : string) : option (list string) :=
  match bytes_of at_ with
  | [] => Some []
  | b :: rest => if Ascii.eqb b SLASH then map string_of <$> pointer_keys rest else None
  end.
(** The value at a path of keys; a metric is never inside an array. *)
Fixpoint resolve (path : list string) (v : value) : option value :=
  match path with
  | [] => Some v
  | key :: path => match v with Object m => map_get key m ≫= resolve path | _ => None end
  end.
Definition metric_leaf (v : value) : Prop := match v with Object (_ :: _) => False | _ => True end.

(** *** Pointers and paths correspond *)

Definition escaped (key : bytes) : bytes :=
  flat_map (fun b => if Ascii.eqb b TILDE then bytes_of "~0" else if Ascii.eqb b SLASH then bytes_of "~1" else [b]) key.
Lemma escape_key_bytes key : bytes_of (escape_key key) = escaped (bytes_of key).
Proof.
  unfold escape_key, replace_char. rewrite !bytes_of_string_of.
  induction (bytes_of key) as [|b l IH]; [done|].
  unfold replace_bytes in *. cbn [flat_map]. rewrite flat_map_app, IH.
  change "~"%char with TILDE. change "/"%char with SLASH.
  destruct (Ascii.eqb_spec b TILDE) as [->|Hb]; [done|]. cbn [flat_map escaped].
  rewrite app_nil_r. destruct (Ascii.eqb_spec b TILDE) as [|_]; [done|]. by destruct (Ascii.eqb b SLASH).
Qed.

Fixpoint pointer_bytes (path : list bytes) : bytes :=
  match path with [] => [] | key :: path => SLASH :: escaped key ++ pointer_bytes path end.
Definition pointer_text (path : list string) : string := string_of (pointer_bytes (map bytes_of path)).

Lemma extend_Some b o k : extend b o = Some k <-> exists key keys, o = Some (key :: keys) /\ k = (b :: key) :: keys.
Proof.
  split.
  - destruct o as [[|key keys]|]; try done. intros [= <-]. by exists key, keys.
  - by intros (key & keys & -> & ->).
Qed.
Lemma pointer_keys_not_nil input : pointer_keys input <> Some [].
Proof.
  destruct input as [|b input]; [done|]. cbn [pointer_keys]. intros H.
  destruct (Ascii.eqb b SLASH); [by destruct (pointer_keys input)|].
  destruct (Ascii.eqb b TILDE); [|by apply extend_Some in H as (? & ? & _ & ?)].
  destruct input as [|c input]; [done|].
  destruct (Ascii.eqb c "0"); [|destruct (Ascii.eqb c "1"); [|done]]; by apply extend_Some in H as (? & ? & _ & ?).
Qed.
Lemma pointer_keys_escaped key : forall rest k keys,
  pointer_keys rest = Some (k :: keys) -> pointer_keys (escaped key ++ rest) = Some ((key ++ k) :: keys).
Proof.
  induction key as [|b key IH]; intros rest k keys Hrest; [done|]. specialize (IH _ _ _ Hrest).
  cbn [escaped flat_map]. fold (escaped key). rewrite <-app_assoc.
  destruct (Ascii.eqb_spec b TILDE) as [->|Hb]; [cbn; by rewrite IH|].
  destruct (Ascii.eqb_spec b SLASH) as [->|Hs]; [cbn; by rewrite IH|].
  cbn [app pointer_keys]. rewrite (proj2 (Ascii.eqb_neq b SLASH)), (proj2 (Ascii.eqb_neq b TILDE)) by done.
  by rewrite IH.
Qed.
Lemma pointer_keys_bytes path : pointer_keys (pointer_bytes path) = Some ([] :: path).
Proof.
  induction path as [|key path IH]; [done|].
  change (pointer_bytes (key :: path)) with (SLASH :: (escaped key ++ pointer_bytes path)).
  cbn [pointer_keys]. rewrite Ascii.eqb_refl.
  rewrite (pointer_keys_escaped key _ _ _ IH). cbn. by rewrite app_nil_r.
Qed.
Lemma pointer_keys_inv n : forall input key keys,
  (length input <= n)%nat -> pointer_keys input = Some (key :: keys) -> input = escaped key ++ pointer_bytes keys.
Proof.
  induction n as [|n IH]; intros [|b input] key keys Hlen Hk; cbn [length] in Hlen; try lia.
  1,2: by injection Hk as <- <-.
  cbn [pointer_keys] in Hk. destruct (Ascii.eqb_spec b SLASH) as [->|Hs].
  { destruct (pointer_keys input) as [[|k ks]|] eqn:E; [by apply pointer_keys_not_nil in E| |done].
    apply IH in E; [|lia]. cbn in Hk. injection Hk as <- <-. cbn. by rewrite E. }
  destruct (Ascii.eqb_spec b TILDE) as [->|Ht].
  - destruct input as [|c input]; [done|].
    destruct (Ascii.eqb_spec c "0") as [->|_]; [|destruct (Ascii.eqb_spec c "1") as [->|_]; [|done]];
      apply extend_Some in Hk as (k & ks & E & Hk); apply IH in E; try (cbn in Hlen; lia);
      injection Hk as -> ->; cbn; by rewrite E.
  - apply extend_Some in Hk as (k & ks & E & Hk). apply IH in E; [|lia]. injection Hk as -> ->.
    cbn [escaped flat_map]. rewrite (proj2 (Ascii.eqb_neq b TILDE)), (proj2 (Ascii.eqb_neq b SLASH)) by done.
    cbn. by rewrite E.
Qed.
Lemma map_string_of_bytes_of path : map string_of (map bytes_of path) = path.
Proof. induction path as [|k path IH]; [done|]. cbn [map]. by rewrite string_of_bytes_of, IH. Qed.
Lemma map_bytes_of_string_of path : map bytes_of (map string_of path) = path.
Proof. induction path as [|k path IH]; [done|]. cbn [map]. by rewrite bytes_of_string_of, IH. Qed.
Lemma pointer_path_text at_ path : pointer_path at_ = Some path <-> at_ = pointer_text path.
Proof.
  unfold pointer_path, pointer_text. split.
  - destruct (bytes_of at_) as [|b rest] eqn:E.
    + intros [= <-]. by rewrite <-(string_of_bytes_of at_), E.
    + destruct (Ascii.eqb_spec b SLASH) as [->|]; [|done]. intros (keys & Hk & ->)%fmap_Some.
      rewrite map_bytes_of_string_of, <-(string_of_bytes_of at_), E. f_equal.
      destruct keys as [|key keys]; [by destruct (pointer_keys_not_nil _ Hk)|].
      by rewrite (pointer_keys_inv _ _ _ _ (le_n _) Hk).
  - intros ->. rewrite bytes_of_string_of. destruct path as [|key path]; [done|].
    cbn [map pointer_bytes]. rewrite Ascii.eqb_refl.
    pose proof (pointer_keys_bytes (map bytes_of path)) as H.
    apply (pointer_keys_escaped (bytes_of key)) in H. rewrite H, app_nil_r.
    change (Some (map string_of (map bytes_of (key :: path))) = Some (key :: path)).
    by rewrite map_string_of_bytes_of.
Qed.

(** *** Rows are leaves *)

Lemma string_app_empty s : s +:+ "" = s.
Proof. rewrite <-(string_of_bytes_of (s +:+ "")), bytes_of_app, app_nil_r. apply string_of_bytes_of. Qed.
Lemma string_app_assoc a b c : (a +:+ b) +:+ c = a +:+ (b +:+ c).
Proof.
  rewrite <-(string_of_bytes_of ((a +:+ b) +:+ c)), <-(string_of_bytes_of (a +:+ (b +:+ c))), !bytes_of_app.
  by rewrite app_assoc.
Qed.

Fixpoint leaves (v : value) : list (list string * value) :=
  match v with
  | Object ((_ :: _) as fields) =>
      flat_map (fun kv => map (fun leaf => (kv.1 :: leaf.1, leaf.2)) (leaves kv.2)) fields
  | _ => [([], v)]
  end.

Lemma pointer_text_cons key path : pointer_text (key :: path) = "/" +:+ escape_key key +:+ pointer_text path.
Proof.
  rewrite <-(string_of_bytes_of ("/" +:+ _)), !bytes_of_app, escape_key_bytes. unfold pointer_text.
  by rewrite bytes_of_string_of.
Qed.
Lemma visit_leaves v at_ : visit v at_ = map (fun leaf => (at_ +:+ pointer_text leaf.1, leaf.2)) (leaves v).
Proof.
  revert at_. induction v as [| | | |l _|m IH] using value_ind'; intros at_.
  1-5: cbn; by rewrite string_app_empty.
  destruct m as [|kv m]; [cbn; by rewrite string_app_empty|].
  cbn [visit leaves]. rewrite map_flat_map.
  induction IH as [|[k x] l Hx _ IHl]; [done|].
  cbn [flat_map]. rewrite IHl. f_equal. cbn [fst snd] in *.
  rewrite Hx, map_map. apply map_ext. intros [path leaf]. cbn [fst snd].
  by rewrite pointer_text_cons, !string_app_assoc.
Qed.

Lemma leaves_elem v path x : value_wf v ->
  (path, x) ∈ leaves v <-> resolve path v = Some x /\ metric_leaf x.
Proof.
  revert path. induction v as [| | | |l _|m IH] using value_ind'; intros path Hw.
  1-5: cbn [leaves]; rewrite list_elem_of_singleton; destruct path; cbn; naive_solver.
  destruct m as [|kv m]; [cbn [leaves]; rewrite list_elem_of_singleton; destruct path; cbn; naive_solver|].
  cbn [leaves]. apply value_wf_object in Hw as [Hm Hw]. rewrite Forall_forall in IH, Hw.
  rewrite list_elem_of_In, in_flat_map. split.
  - intros ([k w] & Hin & Hl). apply list_elem_of_In in Hin. apply in_map_iff in Hl as ([p y] & [= <- <-] & Hy).
    apply list_elem_of_In, IH in Hy; [|done|by apply (Hw (k, w))]. cbn [resolve fst snd] in *.
    by rewrite (map_get_of_elem k w _ Hm Hin).
  - intros [Hr Hx]. destruct path as [|k path]; [injection Hr as <-; done|].
    cbn [resolve] in Hr. apply bind_Some in Hr as (w & Hg & Hr). apply map_get_elem in Hg.
    exists (k, w). split; [by apply list_elem_of_In|]. apply in_map_iff. exists (path, x). split; [done|].
    apply list_elem_of_In, (IH (k, w) Hg); [by apply (Hw (k, w))|done].
Qed.

Lemma leaves_NoDup v : value_wf v -> NoDup (leaves v).*1.
Proof.
  induction v as [| | | |l _|m IH] using value_ind'; intros Hw; try apply NoDup_singleton.
  destruct m as [|kv m]; [apply NoDup_singleton|].
  cbn [leaves]. apply value_wf_object in Hw as [Hm Hw]. apply map_wf_NoDup in Hm.
  revert Hm Hw. induction IH as [|[k x] l Hx _ IHl]; intros Hm Hw; [apply NoDup_nil_2|].
  inversion_clear Hw. apply NoDup_cons in Hm as [Hk Hm]. cbn [flat_map fst snd]. rewrite fmap_app. apply NoDup_app.
  split; [|split; [|by apply IHl]].
  - assert ((map (fun leaf => (k :: leaf.1, leaf.2)) (leaves x)).*1 = (cons k <$> (leaves x).*1)) as ->.
    { rewrite <-list_fmap_compose. change (map ?f ?l) with (f <$> l). by rewrite <-list_fmap_compose. }
    apply NoDup_fmap_2; [intros ?? [=]; done|by apply Hx].
  - intros path Hp Hq. apply list_elem_of_fmap in Hp as ([p y] & -> & Hp), Hq as ([q z] & Hpq & Hq).
    apply list_elem_of_In, in_map_iff in Hp as ([p' y'] & [= <- <-] & _).
    apply list_elem_of_In, in_flat_map in Hq as ([j w] & Hin & Hq).
    apply in_map_iff in Hq as ([q' z'] & [= <- <-] & _). cbn in Hpq. injection Hpq as <- <-.
    apply Hk. by apply (in_map fst), list_elem_of_In in Hin.
Qed.

(** C40: flattening a metric document loses nothing and confuses nothing.  No two
    metrics get the same name; a name and a value are a metric exactly when the
    name is the RFC 6901 pointer of a path of keys that leads to the value in the
    document, and the value is not a nonempty object.  A document that is no
    object, or an empty one, has no metrics. *)
Theorem metric_values_spec (v : value) :
  value_wf v ->
  NoDup (metric_values v).*1 /\
  forall name x, (name, x) ∈ metric_values v <->
    ~ metric_leaf v /\ metric_leaf x /\
    exists path, pointer_path name = Some path /\ resolve path v = Some x.
Proof.
  intros Hw. destruct v as [| | | |l|[|kv m]].
  1-6: split; [apply NoDup_nil_2|]; intros name x; cbn; split; [by intros ?%not_elem_of_nil|intros (Hl & _); by destruct Hl].
  unfold metric_values. rewrite visit_leaves. split.
  - assert ((map (fun leaf => ("" +:+ pointer_text leaf.1, leaf.2)) (leaves (Object (kv :: m)))).*1
      = pointer_text <$> (leaves (Object (kv :: m))).*1) as ->.
    { change (map ?f ?l) with (f <$> l). by rewrite <-!list_fmap_compose. }
    apply NoDup_fmap_2; [|by apply leaves_NoDup]. intros p q Hpq. apply pointer_path_text in Hpq.
    rewrite (proj2 (pointer_path_text (pointer_text p) p) eq_refl) in Hpq. by apply (inj Some).
  - intros name x. split.
    + intros Hin. apply list_elem_of_In, in_map_iff in Hin as ([path y] & [= <- <-] & Hin).
      apply list_elem_of_In, leaves_elem in Hin as [Hr Hx]; [|done]. split; [by intros []|]. split; [done|].
      exists path. split; [by apply pointer_path_text|done].
    + intros (_ & Hx & path & ->%pointer_path_text & Hr). apply list_elem_of_In, in_map_iff.
      exists (path, x). split; [done|]. by apply list_elem_of_In, leaves_elem.
Qed.

Lemma sample_metrics_wf : value_wf sample_metrics.
Proof. apply well_formed_wf. vm_compute. reflexivity. Qed.
Lemma sample_metric_names : (metric_values sample_metrics).*1 = ["/a~1b"; "/fit/l~1"; "/fit/l~01"].
Proof. vm_compute. reflexivity. Qed.
Lemma metric_values_spec_witness :
  (metric_values sample_metrics).*1 = ["/a~1b"; "/fit/l~1"; "/fit/l~01"] /\
  NoDup (metric_values sample_metrics).*1 /\
  forall name x, (name, x) ∈ metric_values sample_metrics <->
    ~ metric_leaf sample_metrics /\ metric_leaf x /\
    exists path, pointer_path name = Some path /\ resolve path sample_metrics = Some x.
Proof. split; [exact sample_metric_names|]. exact (metric_values_spec sample_metrics sample_metrics_wf). Defined.

(** ** Selection *)

Definition names (ids : list string) (r : ExportRecord) : Prop := exists id, id ∈ ids /\ id ∈ selection_ids r.
(** A record is kept when its identity is one of a named record, when it belongs
    to an attempt of such a record, or when it says whether the candidate of such
    a record is applicable. *)
Definition chosen (records : list ExportRecord) (ids : list string) (r : ExportRecord) : Prop :=
  exists s, s ∈ records /\ names ids s /\ xr_id s = xr_id r.
Definition selected_record (records : list ExportRecord) (ids : list string) (r : ExportRecord) : Prop :=
  chosen records ids r \/
  (exists s a, s ∈ records /\ chosen records ids s /\ xr_attempt_id s = Some a /\ xr_attempt_id r = Some a) \/
  (xr_record_type r = ApplicabilityRecord /\
   exists s, s ∈ records /\ chosen records ids s /\ xr_candidate_id s = xr_candidate_id r).

Lemma filter_elem {A} (f : A -> bool) l x : x ∈ List.filter f l <-> x ∈ l /\ f x = true.
Proof. by rewrite list_elem_of_In, List.filter_In, <-list_elem_of_In. Qed.
Lemma filter_nil_iff {A} (f : A -> bool) l : List.filter f l = [] <-> forall x, x ∈ l -> f x = false.
Proof.
  split.
  - intros Hf x Hx. destruct (f x) eqn:E; [|done].
    assert (x ∈ List.filter f l) as Hin by (by apply filter_elem). rewrite Hf in Hin. by apply not_elem_of_nil in Hin.
  - intros Hf. destruct (List.filter f l) as [|x k] eqn:E; [done|].
    assert (x ∈ List.filter f l) as [Hx Hfx]%filter_elem by (rewrite E; left). by rewrite (Hf x Hx) in Hfx.
Qed.

Lemma list_filter_sublist {A} (f : A -> bool) l : List.filter f l `sublist_of` l.
Proof. induction l as [|x l IH]; [constructor|]. cbn. destruct (f x); by constructor. Qed.

Lemma names_cons (records : list ExportRecord) id ids x :
  (exists s, s ∈ records /\ names (id :: ids) s /\ xr_id s = x) <->
  (exists s, s ∈ records /\ id ∈ selection_ids s /\ xr_id s = x) \/
  (exists s, s ∈ records /\ names ids s /\ xr_id s = x).
Proof.
  split.
  - intros (s & Hs & (j & [->|Hj]%elem_of_cons & Hn) & Hx); [left|right; exists s; split; [done|]; split; [|done]; by exists j].
    by exists s.
  - intros [(s & Hs & Hn & Hx)|(s & Hs & (j & Hj & Hn) & Hx)]; exists s; (split; [done|]); (split; [|done]).
    + exists id. split; [left|done].
    + exists j. split; [by right|done].
Qed.

Lemma select_ids_spec records ids : forall selected,
  match try_fold (select_id records) selected ids with
  | Ok out => (forall id, id ∈ ids -> exists r, r ∈ records /\ id ∈ selection_ids r) /\
      forall x, x ∈ out <-> x ∈ selected \/ exists s, s ∈ records /\ names ids s /\ xr_id s = x
  | Err e => exists id, e = ExportUnknownIdentity id /\ id ∈ ids /\ forall r, r ∈ records -> id ∉ selection_ids r
  end.
Proof.
  induction ids as [|id ids IH]; intros selected.
  { cbn. split; [intros id Hid; by apply not_elem_of_nil in Hid|]. intros x. unfold names. set_solver. }
  cbn [try_fold]. unfold select_id at 2.
  destruct (List.filter _ records) as [|r0 named] eqn:E.
  - cbn. exists id. split; [done|]. split; [left|]. intros r Hr.
    rewrite filter_nil_iff in E. specialize (E r Hr). by apply bool_decide_eq_false in E.
  - rewrite <-E. cbn [mbind result_bind]. set (f := fun r => _) in *.
    assert (forall x, x ∈ map xr_id (List.filter f records) <-> exists s, s ∈ records /\ id ∈ selection_ids s /\ xr_id s = x) as Hnamed.
    { intros x. rewrite list_elem_of_In, in_map_iff. setoid_rewrite <-list_elem_of_In. setoid_rewrite filter_elem.
      unfold f. setoid_rewrite bool_decide_eq_true. naive_solver. }
    specialize (IH (selected ++ map xr_id (List.filter f records))).
    destruct (try_fold _ _ ids) as [out|e].
    + destruct IH as [Hex Hout]. split.
      * intros j [-> |Hj]%elem_of_cons; [|by apply Hex].
        assert (r0 ∈ List.filter f records) as [Hr Hf]%filter_elem by (rewrite E; left).
        exists r0. split; [done|]. by apply bool_decide_eq_true in Hf.
      * intros x. rewrite Hout, elem_of_app, Hnamed, (names_cons records id ids x). tauto.
    + destruct IH as (j & -> & Hj & Hr). exists j. split; [done|]. split; [by right|done].
Qed.

(** A selection keeps records as they are and in their order: all of them when
    nothing is named, otherwise those that belong to what is named; and it is
    refused exactly when a name belongs to no record. *)
Theorem select_spec (records : list ExportRecord) (ids : list string) :
  match select records ids with
  | Ok kept =>
      (forall id, id ∈ ids -> exists r, r ∈ records /\ id ∈ selection_ids r) /\
      kept `sublist_of` records /\
      forall r, r ∈ kept <-> r ∈ records /\ (ids = [] \/ selected_record records ids r)
  | Err e => exists id, e = ExportUnknownIdentity id /\ id ∈ ids /\ forall r, r ∈ records -> id ∉ selection_ids r
  end.
Proof.
  unfold select. destruct ids as [|id ids].
  { split; [intros id Hid; by apply not_elem_of_nil in Hid|]. split; [done|]. naive_solver. }
  pose proof (select_ids_spec records (id :: ids) []) as H.
  destruct (try_fold _ _ _) as [selected|e]; [|exact H]. destruct H as [Hex Hsel].
  cbn [mbind result_bind]. split; [exact Hex|]. split; [apply list_filter_sublist|].
  assert (forall r, xr_id r ∈ selected <-> chosen records (id :: ids) r) as Hc.
  { intros r. rewrite Hsel. split; [intros [Hn|Hn]; [by apply not_elem_of_nil in Hn|done]|by right]. }
  intros r. rewrite filter_elem. apply and_iff_compat_l.
  rewrite !orb_true_iff, andb_true_iff, !bool_decide_eq_true, Hc.
  assert ((match xr_attempt_id r with Some a => bool_decide
      (a ∈ omap xr_attempt_id (List.filter (fun r => bool_decide (xr_id r ∈ selected)) records)) | None => false end) = true
    <-> exists s a, s ∈ records /\ chosen records (id :: ids) s /\ xr_attempt_id s = Some a /\ xr_attempt_id r = Some a) as ->.
  { destruct (xr_attempt_id r) as [a|]; [|split; [done|by intros (? & ? & _ & _ & _ & [=])]]. rewrite bool_decide_eq_true, list_elem_of_omap.
    setoid_rewrite filter_elem. setoid_rewrite bool_decide_eq_true. setoid_rewrite Hc.
    split; [intros (s & [Hs Hn] & Ha); by exists s, a|intros (s & ? & Hs & Hn & Ha & [= <-]); by exists s]. }
  assert (xr_candidate_id r ∈ map xr_candidate_id (List.filter (fun r => bool_decide (xr_id r ∈ selected)) records)
    <-> exists s, s ∈ records /\ chosen records (id :: ids) s /\ xr_candidate_id s = xr_candidate_id r) as ->.
  { rewrite list_elem_of_In, in_map_iff. setoid_rewrite <-list_elem_of_In. setoid_rewrite filter_elem.
    setoid_rewrite bool_decide_eq_true. setoid_rewrite Hc.
    split; [intros (s & Ha & Hs & Hn); by exists s|intros (s & Hs & Hn & Ha); by exists s]. }
  unfold selected_record. split; [tauto|]. intros [?|?]; [done|tauto].
Qed.
